(* ===== verification/_CoqProject ===== *)
-Q . S2P
Prelude.v
Types.v
Ring.v
RingMachine.v
DList.v
AsyncHandler.v
AsyncSafety.v
AsyncCounters.v
AsyncTheorems.v
Format.v
AsyncInit.v
FileHandler.v
RotatingLog.v
FileSafety.v
FileTheorems.v
ConsoleHandler.v
SyslogHandler.v
Crypto.v
Receiver.v
Connector.v
SocketHandler.v
Registry.v
RegistrySafety.v
RegistryTheorems.v
ListRefinement.v
Memory.v
RateLimiter.v
Dump.v
ConfigFile.v
ConfigTheorems.v
ApiSafety.v
ConfigApply.v
ConfigSettings.v
ConfigRoundtrip.v
Examples.v
System.v
SystemSafety.v
SystemTheorems.v
SystemLiveness.v
Program.v
