(* ===== verification/Prelude.v ===== *)
(** * A model of logmoko, an asynchronous logging library in C

    Sources: [src/src/main/].  A program gets loggers by name and attaches
    handlers to them; [lmk_log_info] and its siblings print the message into a
    thread-local buffer and hand a record to each attached handler; a handler
    copies the record into its lock-free ring, and a thread of its own takes
    records out and writes them to a file, the terminal, UDP listeners or syslog.

    ** The parts and how they fit together

    - [Prelude]: machine words with their wrap-around, C strings, the [outcome]
      of code that may run into an invalid access ([Fault]) or out of fuel
      ([Timeout]) with what a call [ensures] and [returns], runs of step
      relations, counting in maps.
    - [Types]: levels, handler types, records and requests ([logmoko.h]).
    - [Ring]: [lmk_next_pow2], [lmk_ring_init], [lmk_ring_enqueue] one shared
      access at a time, [lmk_ring_peek_slot], [lmk_ring_consume].
      [RingMachine]: any number of producers and one consumer as a step
      relation; it refines the bounded FIFO queue [fifo_step].
    - [DList]: [logmoko_list.c] on a heap of cells, both cursor loops of
      [logmoko_list.h], against the sequence a list represents ([dlist]).
    - [AsyncHandler]: what the four handlers have in common, word for word, in
      their [log_impl], [maybe_wake], thread routine and [destroy]: one step
      relation over threads inside [log_impl], the consumer, the destroyer, the
      lock and condition variable, and a [Sink] - the interface between the
      machine and a handler type ([sink_process] for a record, [sink_idle] when
      the ring is drained, [sink_finish] when the thread returns).
      [AsyncSafety]: the queue refinement, the lock, wake-up and sink
      invariants.  [AsyncCounters]: [dropped] and [nr_log_calls].
      [AsyncTheorems]: the contract.  [AsyncInit]: the [init] the handlers share.
    - [Format]: [snprintf], the three line formats, the JSON escaper, the
      timestamp cache and [lmk_format_log_line] of [logmoko_handler.c]; the class
      [FormatFn] is the contract a format function owes its caller.
    - [FileHandler]: [logmoko_file_log_handler.c] over a file system with buffered
      streams.  [RotatingLog]: what it promises, a log and a row of backups to
      which batches are appended.  [FileSafety], [FileTheorems]: it implements
      that promise, and what follows.  [ConsoleHandler],
      [SyslogHandler]: the two small handlers.
    - [Crypto]: [logmoko_encryption.c] over the classes [Evp] (the OpenSSL
      functions) and [EvpLaws] (their documented behaviour), with an instance.
      [Connector], [SocketHandler], [Receiver]: [logmoko_connector.c],
      [logmoko_socket_log_handler.c] and [logmoko_log_receiver.c].
    - [Registry]: loggers, handlers, their lists, reference counts, the function
      pointers and setters with their casts, dispatch and life cycle ([logmoko.c],
      [logmoko_logger.c], the factories of [logmoko_handler.c], the setters of
      the file and socket handlers).  [RegistrySafety]: the invariant [registry_ok] and its
      preservation.  [RegistryTheorems]: the contract of the public calls.
      [ListRefinement]: the lists of addresses the registry keeps stand for the
      linked lists of [DList]; the destroying loop on one is that on the other.
      [Dump]: what [lmk_dump_loggers] prints.
    - [ConfigFile]: [logmoko_config_file.c] and the initialisation that applies
      it; an [allocator] says which of the allocations it makes succeed.  [ConfigTheorems]: its bounds and totality.  [ConfigApply]: what the
      sections of a file bring about.  [ConfigSettings]: each handler section as
      a function on the handler's record.  [ConfigRoundtrip]: a printer of
      configurations that the parser inverts.  [ApiSafety]: all public calls in
      any order, and the casts of a handler to the struct behind it.
    - [Memory]: [logmoko_mem.c] on a heap of byte blocks, [logmoko_config.c] and
      [logmoko_time.c].  [RateLimiter]: [logmoko_rate_limiter.c] on IEEE doubles.
      [Examples]: the programs in [src/src/examples/].
    - [System]: all of it at run time - application threads with their buffers,
      the loop of [lmk_log_impl] over the registry's handlers, one machine of
      [AsyncHandler] per handler, [lmk_destroy] - as one step relation.
      [SystemSafety]: its invariants and the projection on each handler.
      [SystemTheorems]: what the threads' calls come to, and shutdown.
      [SystemLiveness]: freedom from deadlock.  [Program]: the four handler types
      behind the function pointers of [lmk_log_handler], and the way of a log
      call to the file, the terminal, the system log and the receiver.

    The client of each interface is proved against the interface: the handler
    files give [Sink] instances and use the theorems of [AsyncSafety], which hold
    for every sink; formats enter through [FormatFn]; the registry records its
    calls of a handler's [init] and [destroy] in [g_calls], and the calls of
    [log_impl] are the result of [lmk_log_common].

    ** What is shown

    - Delivery: the ring and each handler refine a bounded FIFO queue; every
      accepted record reaches the sink once, intact and in order; a record is
      refused only when the ring is full; the counters account for every call.
    - Progress: no wake-up is lost, locks are not held for ever, enqueueing
      returns when it runs alone, shutdown joins.  What shutdown does not
      guarantee is shown by a run ([shutdown_may_abandon_a_record]).
    - Sinks: what the file with its backups, the terminal, the system log, the
      network and the receiver end up with, for every run of the handler; the
      effect of rotation; what a reader of JSON makes of an escaped message.
    - Memory: nothing is written outside the line buffers, the staging buffer,
      the escape buffer, the packets and the parser's tables; list operations
      touch the cells they should.
    - Registry and configuration: no public call faults as long as the names and
      file names of handlers can be copied, and the invariant holds throughout;
      what a failed copy leads to is shown too ([unnamed_handler_breaks_lookup],
      [uncopied_filename_breaks_open]).  [lmk_destroy] terminates and calls every [destroy] once, log calls
      reach the enabled handlers; any configuration file is accepted, the sections
      of a well-formed one are honoured, their settings are exactly those of the
      handlers afterwards, and printing a configuration and parsing it gives it
      back.  Casts of handlers to their types are safe.  Loading the default
      file explicitly applies it twice
      ([loading_default_file_doubles_listeners]).
    - The whole: whatever the interleaving of threads, handlers and shutdown,
      every thread's records reach each
      handler's ring in program order, a quiet handler has delivered them all,
      shutdown stops the handlers one by one and nothing deadlocks; composed
      with the sinks, what the log calls leave in the file, on the terminal, in
      the system log and at the receiver.  The example programs exit cleanly.

    ** Bounds and fuel

    Ring sizes are [2 ^ k] for [1 <= k <= 32], all that [lmk_next_pow2] makes of an
    unsigned 32-bit setting.  Positions are 64-bit and wrap; theorems that need
    them not to meet again speak of runs of at most [2 ^ 62] steps.  Loops over
    lists take fuel: [length] of the list suffices, and is what the theorems ask
    for.  [enq_fuel] is 12 steps, enough for an enqueue that runs alone.
    [consumer_run] gets three steps for each outstanding record and ten more.
    Sizes of log files and their limits are at most [2 ^ 62], so that a [long] can
    count a log that passes its limit by a staging buffer.  Names of log files are
    such that backup paths fit their 512-byte buffer; what happens otherwise is
    [long_names_share_one_backup].

    ** What is not modelled

    - Memory ordering weaker than sequential consistency: shared accesses
      interleave, each one atomic.  The payload of a slot is written in three
      steps, so a reader could see it half written if the protocol let it.
    - Failing writes ([fwrite], [rename], [sendto] short of the whole packet affect
      nothing the handlers test); [fopen], [socket], [pthread_create] and
      allocations may fail.  [strftime] of local time is a parameter.
    - The public calls are not thread-safe in the source; the registry's
      operations are therefore sequential, and only logging is concurrent.
    - Reconfiguration while threads log: in [System] the registry is fixed from
      the first log call to [lmk_destroy].
    - Messages on [stderr], the tests and the benchmarks.  *)
From stdpp Require Export base tactics list gmap strings relations numbers pretty.
From Stdlib Require Export ZArith Lia Ascii.
From Stdlib Require String.

Declare Scope lmk_scope.
Delimit Scope lmk_scope with lmk.

#[export] Set Default Goal Selector "!".

(** ** Machine words of an LP64 target *)

(** Conversion to [size_t] / [uint64_t]. *)
Definition w64 (z : Z) : Z := (z mod 2 ^ 64)%Z.
(** Conversion to [unsigned int]. *)
Definition w32 (z : Z) : Z := (z mod 2 ^ 32)%Z.
(** Conversion to [intptr_t] / [long]. *)
Definition s64 (z : Z) : Z := ((z + 2 ^ 63) mod 2 ^ 64 - 2 ^ 63)%Z.
(** Conversion to [int]. *)
Definition s32 (z : Z) : Z := ((z + 2 ^ 31) mod 2 ^ 32 - 2 ^ 31)%Z.

Create Rewrite HintDb lmk_words.

Section words.
Local Open Scope Z_scope.

Lemma w64_small z : 0 <= z < 2 ^ 64 -> w64 z = z.
Proof. apply Z.mod_small. Qed.

Lemma w32_small z : 0 <= z < 2 ^ 32 -> w32 z = z.
Proof. apply Z.mod_small. Qed.

Lemma w64_range z : 0 <= w64 z < 2 ^ 64.
Proof. apply Z.mod_pos_bound. lia. Qed.

Lemma w32_range z : 0 <= w32 z < 2 ^ 32.
Proof. apply Z.mod_pos_bound. lia. Qed.

Lemma s64_small z : - 2 ^ 63 <= z < 2 ^ 63 -> s64 z = z.
Proof. intros Hz. unfold s64. rewrite Z.mod_small by lia. lia. Qed.

Lemma s32_small z : - 2 ^ 31 <= z < 2 ^ 31 -> s32 z = z.
Proof. intros Hz. unfold s32. rewrite Z.mod_small by lia. lia. Qed.

Lemma s32_range z : - 2 ^ 31 <= s32 z < 2 ^ 31.
Proof.
  unfold s32. pose proof (Z.mod_pos_bound (z + 2 ^ 31) (2 ^ 32) ltac:(lia)). lia.
Qed.
End words.

#[export] Hint Rewrite w64_small s64_small w32_small s32_small using lia : lmk_words.

(** Removes the wrap-around of every word operation that provably fits. *)
Ltac words := autorewrite with lmk_words in *.

(** ** C character arrays and strings *)

Definition NUL : ascii := Ascii.zero.

(** The C string held by a character array: the bytes before the first NUL. *)
Fixpoint cstr (buf : list ascii) : list ascii :=
  match buf with
  | [] => []
  | c :: buf' => if Ascii.eqb c NUL then [] else c :: cstr buf'
  end.

Definition chars (s : string) : list ascii := String.list_ascii_of_string s.
Definition str (l : list ascii) : string := String.string_of_list_ascii l.

Lemma str_chars s : str (chars s) = s.
Proof. apply String.string_of_list_ascii_of_string. Qed.

Lemma chars_str l : chars (str l) = l.
Proof. apply String.list_ascii_of_string_of_list_ascii. Qed.

Lemma cstr_no_nul l : NUL ∉ cstr l.
Proof.
  induction l as [|c l IH]; simpl; [apply not_elem_of_nil|].
  destruct (Ascii.eqb_spec c NUL); [apply not_elem_of_nil|]. by apply not_elem_of_cons.
Qed.

Lemma cstr_id l : NUL ∉ l -> cstr l = l.
Proof.
  induction l as [|c l IH]; simpl; [done|]. intros [Hc Hl]%not_elem_of_cons.
  destruct (Ascii.eqb_spec c NUL); [by subst|]. by rewrite IH.
Qed.

(** Whatever follows a terminator is invisible. *)
Lemma cstr_terminated l rest : cstr (l ++ NUL :: rest) = cstr l.
Proof.
  induction l as [|c l IH]; simpl; [done|].
  destruct (Ascii.eqb_spec c NUL); congruence.
Qed.

Lemma length_cstr l : (length (cstr l) <= length l)%nat.
Proof. induction l as [|c l IH]; simpl; [done|]. destruct (Ascii.eqb c NUL); simpl; lia. Qed.

(** ** Counting the entries of a map *)

Section counting.
Context `{Countable K} {A : Type} (f : A -> bool).

Definition count_if (m : gmap K A) : Z := Z.of_nat (size (filter (fun p => f p.2 = true) m)).

Lemma count_if_insert (m : gmap K A) k a : m !! k = None ->
  count_if (<[k := a]> m) = (count_if m + Z.b2z (f a))%Z.
Proof.
  intros Hn. unfold count_if. destruct (f a) eqn:Hf; simpl.
  - rewrite map_filter_insert_True by done. rewrite map_size_insert_None; [lia|].
    apply map_lookup_filter_None. by left.
  - rewrite map_filter_insert_False by (simpl; congruence). rewrite delete_id by done. lia.
Qed.

Lemma count_if_delete (m : gmap K A) k a : m !! k = Some a ->
  count_if m = (count_if (delete k m) + Z.b2z (f a))%Z.
Proof.
  intros Hl. rewrite <- (count_if_insert (delete k m) k a) by apply lookup_delete_eq.
  by rewrite insert_delete_id.
Qed.

Lemma count_if_update (m : gmap K A) k a a' : m !! k = Some a ->
  count_if (<[k := a']> m) = (count_if m - Z.b2z (f a) + Z.b2z (f a'))%Z.
Proof.
  intros Hl. rewrite (count_if_delete m k a Hl). rewrite <- insert_delete_eq.
  rewrite count_if_insert by apply lookup_delete_eq. lia.
Qed.

Lemma count_if_nonneg (m : gmap K A) : (0 <= count_if m)%Z.
Proof. unfold count_if. lia. Qed.

Lemma count_if_bound (m : gmap K A) : (count_if m <= Z.of_nat (size m))%Z.
Proof. unfold count_if. apply inj_le, map_subseteq_size, map_filter_subseteq. Qed.

Lemma count_if_zero (m : gmap K A) : (forall k a, m !! k = Some a -> f a = false) -> count_if m = 0%Z.
Proof.
  intros Hf. unfold count_if.
  assert (filter (fun p => f p.2 = true) m = ∅) as ->; [|done].
  apply map_empty. intros k. apply map_lookup_filter_None. right. intros a Hl. simpl.
  by rewrite (Hf k a Hl).
Qed.

Lemma count_if_pos (m : gmap K A) k a : m !! k = Some a -> f a = true -> (0 < count_if m)%Z.
Proof. intros Hl Hf. rewrite (count_if_delete m k a Hl), Hf. pose proof (count_if_nonneg (delete k m)). simpl. lia. Qed.
End counting.

(** ** Labelled runs of a transition system *)

Section runs.
Context {S E : Type} (step : S -> E -> S -> Prop).

Inductive run (s : S) : list E -> S -> Prop :=
| run_nil : run s [] s
| run_snoc tr s' e s'' : run s tr s' -> step s' e s'' -> run s (tr ++ [e]) s''.

Lemma run_one s e s' : step s e s' -> run s [e] s'.
Proof. intros Hs. apply (run_snoc s [] s e s'); [constructor|done]. Qed.

Lemma run_app s tr1 s' tr2 s'' : run s tr1 s' -> run s' tr2 s'' -> run s (tr1 ++ tr2) s''.
Proof.
  intros H1 H2. induction H2 as [|tr2 s2 e s3 _ IH Hstep].
  - by rewrite app_nil_r.
  - rewrite app_assoc. by eapply run_snoc.
Qed.

Lemma run_cons s e s' tr s'' : step s e s' -> run s' tr s'' -> run s (e :: tr) s''.
Proof. intros Hs Hr. apply (run_app s [e] s' tr s''); [by apply run_one|done]. Qed.
End runs.

(** A forward simulation that may use the number of steps already taken (so
    that counters of bounded width can be bounded by it) carries runs over. *)
Section simulation.
Context {S1 S2 E : Type}.
Context (step1 : S1 -> E -> S1 -> Prop) (step2 : S2 -> E -> S2 -> Prop).
Context (R : nat -> S1 -> S2 -> Prop) (bound : Z).
Hypothesis simulation : forall n s t e s',
  (Z.of_nat n < bound)%Z -> R n s t -> step1 s e s' -> exists t', step2 t e t' /\ R (S n) s' t'.

Lemma run_simulation s t tr s' :
  run step1 s tr s' -> (Z.of_nat (length tr) <= bound)%Z -> R 0 s t ->
  exists t', run step2 t tr t' /\ R (length tr) s' t'.
Proof.
  intros Hrun Hlen H0. induction Hrun as [|tr s1 e s2 _ IH Hstep].
  - exists t. split; [constructor|done].
  - rewrite length_app in *; simpl in *.
    destruct IH as (t1 & Ht1 & HR); [lia|].
    destruct (simulation (length tr) s1 t1 e s2) as (t2 & Ht2 & HR2); [lia|done..|].
    exists t2. split; [by eapply run_snoc|]. by rewrite Nat.add_1_r.
Qed.
End simulation.

(** ** Outcomes of C code: a value, an invalid memory access, or fuel exhausted *)

Inductive outcome (A : Type) : Type :=
  | Ok (a : A)
  | Fault
  | Timeout.
Arguments Ok {A} _.
Arguments Fault {A}.
Arguments Timeout {A}.

#[export] Instance outcome_ret : MRet outcome := fun A a => Ok a.
#[export] Instance outcome_bind : MBind outcome := fun A B f m =>
  match m with Ok a => f a | Fault => Fault | Timeout => Timeout end.

(** A read through a pointer: [None] is an invalid access. *)
Definition deref {A} (o : option A) : outcome A :=
  match o with Some a => Ok a | None => Fault end.

Lemma outcome_bind_ok {A B} (a : A) (f : A -> outcome B) : Ok a ≫= f = f a.
Proof. done. Qed.

(** ** What a call that returns ensures *)

Definition ensures {A} (m : outcome A) (Q : A -> Prop) : Prop := forall a, m = Ok a -> Q a.

Lemma ensures_ok {A} (a : A) (Q : A -> Prop) : Q a -> ensures (Ok a) Q.
Proof. by intros Ha b [= <-]. Qed.

Lemma ensures_bind {A B} (m : outcome A) (f : A -> outcome B) P Q :
  ensures m P -> (forall a, P a -> ensures (f a) Q) -> ensures (m ≫= f) Q.
Proof. intros Hm Hf b. destruct m as [a| |]; [|done..]. rewrite outcome_bind_ok. by apply Hf, Hm. Qed.

Lemma ensures_deref {A B} (o : option A) (f : A -> outcome B) Q :
  (forall a, o = Some a -> ensures (f a) Q) -> ensures (deref o ≫= f) Q.
Proof. intros Hf. destruct o as [a|]; [cbn [deref]; rewrite outcome_bind_ok; by apply Hf|done]. Qed.

(** A step whose result does not matter. *)
Lemma ensures_skip {A B} (m : outcome A) (f : A -> outcome B) Q :
  (forall a, ensures (f a) Q) -> ensures (m ≫= f) Q.
Proof. intros Hf. by apply (ensures_bind m f (fun _ => True)). Qed.

(** Runs the goal's computation: bindings one by one, tests and matches by
    cases; what is left is one goal for every way to return. *)
Ltac run_outcome :=
  repeat first
    [ progress cbv beta iota zeta
    | apply ensures_ok
    | apply ensures_deref; intros ? ?
    | match goal with
      | |- ensures (if ?b then _ else _) _ => destruct b
      | |- ensures (match ?x with _ => _ end) _ => destruct x
      end ].

(** The call returns, and its result is as [Q] says. *)
Definition returns {A} (m : outcome A) (Q : A -> Prop) : Prop := exists a, m = Ok a /\ Q a.

Lemma returns_ok {A} (a : A) (Q : A -> Prop) : Q a -> returns (Ok a) Q.
Proof. by exists a. Qed.

Lemma returns_bind {A B} (m : outcome A) (f : A -> outcome B) P Q :
  returns m P -> (forall a, P a -> returns (f a) Q) -> returns (m ≫= f) Q.
Proof. intros (a & -> & Ha) Hf. rewrite outcome_bind_ok. by apply Hf. Qed.
