(* ===== verification/Types.v ===== *)
(** Shared data of the framework: result codes, log levels, handler types, the
    log record a caller hands to a handler and the log request a ring slot
    stores ([logmoko.h], [logmoko_types.h], and the two name tables of
    [logmoko.c] and [logmoko_handler.c]). *)
From S2P Require Import Prelude.
Local Open Scope Z_scope.

(** ** Result codes *)
Definition LMK_E_NG : Z := -1.
Definition LMK_E_OK : Z := 0.

(** ** Log levels and handler types *)
Definition LMK_LOG_LEVEL_TRACE : Z := 0.
Definition LMK_LOG_LEVEL_DEBUG : Z := 1.
Definition LMK_LOG_LEVEL_INFO : Z := 2.
Definition LMK_LOG_LEVEL_WARN : Z := 3.
Definition LMK_LOG_LEVEL_ERROR : Z := 4.
Definition LMK_LOG_LEVEL_OFF : Z := 5.
Definition LMK_LOG_LEVEL_UNKNOWN : Z := 6.

Definition LMK_LOG_HANDLER_TYPE_CONSOLE : Z := 0.
Definition LMK_LOG_HANDLER_TYPE_FILE : Z := 1.
Definition LMK_LOG_HANDLER_TYPE_SOCKET : Z := 2.
Definition LMK_LOG_HANDLER_TYPE_SYSLOG : Z := 3.

(** [LMK_IS_VALID_LOG_LEVEL]. *)
Definition LMK_IS_VALID_LOG_LEVEL (level : Z) : bool :=
  (LMK_LOG_LEVEL_TRACE <=? level) && (level <=? LMK_LOG_LEVEL_OFF).

(** [LMK_IS_LOG_ENABLED], on the level of the logger or handler. *)
Definition LMK_IS_LOG_ENABLED (object_level level : Z) : bool := object_level <=? level.

Definition g_log_level_str : list string :=
  ["TRACE"; "DEBUG"; "INFO"; "WARN"; "ERROR"; "OFF"; "UNKNOWN"]%string.

Definition lmk_get_log_level_str (log_level : Z) : string :=
  if (LMK_LOG_LEVEL_TRACE <=? log_level) && (log_level <=? LMK_LOG_LEVEL_OFF)
  then nth (Z.to_nat log_level) g_log_level_str ""%string
  else nth (Z.to_nat LMK_LOG_LEVEL_UNKNOWN) g_log_level_str ""%string.

Definition g_log_hnd_type_str : list string :=
  ["CONSOLE"; "FILE"; "SOCKET"; "SYSLOG"]%string.

Definition lmk_get_log_handler_type_str (type : Z) : string :=
  if (LMK_LOG_HANDLER_TYPE_CONSOLE <=? type) && (type <=? LMK_LOG_HANDLER_TYPE_SYSLOG)
  then nth (Z.to_nat type) g_log_hnd_type_str ""%string
  else "UNKNOWN"%string.

(** ** Records and requests *)

Definition LMK_LOG_MSG_MAX_SIZE : Z := 2048.

(** [struct lmk_log_record]: what [lmk_log_impl] passes to a handler. [rec_data]
    is the caller's buffer, [rec_data_len] the number of bytes to copy. *)
Record lmk_log_record := mk_log_record {
  rec_log_level : Z;
  rec_data : list ascii;
  rec_data_len : Z;
  rec_line_no : Z;
  rec_file_name : string
}.

(** [struct lmk_log_request]: the payload of a ring slot. [req_data] is the
    fixed array of [LMK_LOG_MSG_MAX_SIZE] bytes. *)
Record lmk_log_request := mk_log_request {
  req_log_level : Z;
  req_data : list ascii;
  req_line_no : Z;
  req_file_name : string;
  req_handler_name : string
}.

#[export] Instance lmk_log_record_eq_dec : EqDecision lmk_log_record.
Proof. solve_decision. Defined.

#[export] Instance lmk_log_request_eq_dec : EqDecision lmk_log_request.
Proof. solve_decision. Defined.

(** The caller's obligation: the buffer really holds [data_len] bytes. *)
Definition wf_record (rec : lmk_log_record) : Prop :=
  0 <= rec_data_len rec <= Z.of_nat (length (rec_data rec)) /\ rec_data_len rec < 2 ^ 64.

(** What a consumer can observe of a request: the message is a C string. *)
Record log_view := mk_log_view {
  v_log_level : Z;
  v_line_no : Z;
  v_file_name : string;
  v_handler_name : string;
  v_text : list ascii
}.

#[export] Instance log_view_eq_dec : EqDecision log_view.
Proof. solve_decision. Defined.

Definition view_of_request (r : lmk_log_request) : log_view :=
  mk_log_view (req_log_level r) (req_line_no r) (req_file_name r) (req_handler_name r)
    (cstr (req_data r)).

(** The number of message bytes a slot can take from a record. *)
Definition copy_len (rec : lmk_log_record) : Z :=
  if rec_data_len rec <? LMK_LOG_MSG_MAX_SIZE - 1
  then rec_data_len rec else LMK_LOG_MSG_MAX_SIZE - 1.

(** The observation a record must give rise to once it has been enqueued. *)
Definition view_of_record (rec : lmk_log_record) (handler_name : string) : log_view :=
  mk_log_view (rec_log_level rec) (rec_line_no rec) (rec_file_name rec) handler_name
    (cstr (take (Z.to_nat (copy_len rec)) (rec_data rec))).

Lemma copy_len_bounds rec : wf_record rec ->
  0 <= copy_len rec <= LMK_LOG_MSG_MAX_SIZE - 1 /\
  copy_len rec <= Z.of_nat (length (rec_data rec)).
Proof.
  intros [Hl _]. unfold copy_len, LMK_LOG_MSG_MAX_SIZE.
  destruct (Z.ltb_spec (rec_data_len rec) (2048 - 1)); lia.
Qed.

(** The level names of the table are exactly the valid levels. *)
Lemma log_level_str_valid level :
  LMK_IS_VALID_LOG_LEVEL level = true <-> lmk_get_log_level_str level <> "UNKNOWN"%string.
Proof.
  unfold LMK_IS_VALID_LOG_LEVEL, lmk_get_log_level_str.
  destruct ((LMK_LOG_LEVEL_TRACE <=? level) && (level <=? LMK_LOG_LEVEL_OFF)) eqn:Hv.
  - split; [intros _|done].
    unfold LMK_LOG_LEVEL_TRACE, LMK_LOG_LEVEL_OFF in Hv.
    assert (level = 0 \/ level = 1 \/ level = 2 \/ level = 3 \/ level = 4 \/ level = 5)
      as Hcases by lia.
    destruct_or! Hcases; subst level; discriminate.
  - split; [done|]. intros Hne. by destruct Hne.
Qed.
