(* ===== verification/Ring.v ===== *)
(** The lock-free ring buffer of [logmoko.h]: size rounding, slot
    initialisation, the Vyukov enqueue as a step machine over the atomic
    accesses, the single consumer's peek and consume.  [RingMachine.v] runs
    any number of producers against the consumer. *)
From S2P Require Import Prelude Types.
Local Open Scope Z_scope.

(** ** Ring size *)

(** One [v |= v >> s]. *)
Definition smear (v s : Z) : Z := Z.lor v (Z.shiftr v s).

Definition lmk_next_pow2 (v : Z) : Z :=
  if v <? 2 then 2 else
  let v := w64 (v - 1) in
  let v := smear v 1 in let v := smear v 2 in let v := smear v 4 in
  let v := smear v 8 in let v := smear v 16 in let v := smear v 32 in
  w64 (v + 1).

(** ** Slots *)

Record lmk_ring_slot := mk_slot { sequence : Z; req : lmk_log_request }.

(** A request before its first use; [lmk_malloc] zeroes the ring. *)
Definition zero_request : lmk_log_request :=
  mk_log_request 0 (replicate (Z.to_nat LMK_LOG_MSG_MAX_SIZE) NUL) 0 "" "".

#[export] Instance lmk_ring_slot_inhabited : Inhabited lmk_ring_slot :=
  populate (mk_slot 0 zero_request).

Definition set_sequence (z : Z) (s : lmk_ring_slot) : lmk_ring_slot := mk_slot z (req s).
Definition set_req (r : lmk_log_request) (s : lmk_ring_slot) : lmk_ring_slot :=
  mk_slot (sequence s) r.

(** The [for] loop of [lmk_ring_init] from index [i], [todo] iterations left. *)
Fixpoint ring_init_loop (ring : list lmk_ring_slot) (i todo : nat) : list lmk_ring_slot :=
  match todo with
  | O => ring
  | S todo' => ring_init_loop (alter (set_sequence (Z.of_nat i)) i ring) (S i) todo'
  end.

Definition lmk_ring_init (ring : list lmk_ring_slot) (size : Z) : list lmk_ring_slot :=
  ring_init_loop ring 0 (Z.to_nat size).

(** The fresh, zeroed array a handler allocates. *)
Definition ring_alloc (size : Z) : list lmk_ring_slot :=
  replicate (Z.to_nat size) (mk_slot 0 zero_request).

(** [ring[pos & mask]]. *)
Definition slot_index (pos mask : Z) : nat := Z.to_nat (Z.land pos mask).

(** The shared words of a ring: the slots and the producer cursor. *)
Record ring_mem := mk_ring_mem { rm_slots : list lmk_ring_slot; rm_head : Z }.

Definition mem_slot (mask pos : Z) (m : ring_mem) : lmk_ring_slot :=
  rm_slots m !!! slot_index pos mask.

Definition upd_slot (mask pos : Z) (f : lmk_ring_slot -> lmk_ring_slot) (m : ring_mem) : ring_mem :=
  mk_ring_mem (alter f (slot_index pos mask) (rm_slots m)) (rm_head m).

(** ** Enqueue *)

(** Where a thread inside [lmk_ring_enqueue] is; [pos] is its local cursor.
    Every constructor stands for one access to shared memory (the plain writes
    of the payload are split in three so that torn payloads are expressible). *)
Inductive enq_pc :=
  | EnqLoadHead                  (* pos = load(head)                   *)
  | EnqLoadSeq (pos : Z)         (* seq = load(slot->sequence), branch *)
  | EnqCas (pos : Z)             (* compare_exchange_weak(head, pos)   *)
  | EnqMeta (pos : Z)            (* the four scalar fields             *)
  | EnqData (pos : Z)            (* memcpy                             *)
  | EnqNul (pos : Z)             (* data[n] = 0                        *)
  | EnqPublish (pos : Z)         (* store(slot->sequence, pos + 1)     *)
  | EnqDone (result : bool).     (* return 1 or 0                      *)

(** What an observer of the queue sees of a step. *)
Inductive ring_event :=
  | EvTau
  | EvEnq (v : log_view)         (* a producer claimed a position      *)
  | EvFull                       (* an enqueue found the ring full     *)
  | EvDeq (v : log_view).        (* the consumer freed a slot          *)

Definition write_meta (rec : lmk_log_record) (handler_name : string) (r : lmk_log_request) :=
  mk_log_request (rec_log_level rec) (req_data r) (rec_line_no rec) (rec_file_name rec) handler_name.

Definition write_data (rec : lmk_log_record) (r : lmk_log_request) :=
  let n := Z.to_nat (copy_len rec) in
  mk_log_request (req_log_level r) (take n (rec_data rec) ++ drop n (req_data r))
    (req_line_no r) (req_file_name r) (req_handler_name r).

Definition write_nul (rec : lmk_log_record) (r : lmk_log_request) :=
  mk_log_request (req_log_level r) (<[Z.to_nat (copy_len rec) := NUL]> (req_data r))
    (req_line_no r) (req_file_name r) (req_handler_name r).

Definition on_req (f : lmk_log_request -> lmk_log_request) (s : lmk_ring_slot) : lmk_ring_slot :=
  set_req (f (req s)) s.

(** [(intptr_t)seq - (intptr_t)pos], in two's complement. *)
Definition seq_diff (seq pos : Z) : Z := s64 (s64 seq - s64 pos).

(** One step of [lmk_ring_enqueue]; [weak] makes the weak compare-exchange fail
    spuriously. *)
Definition enq_step (mask : Z) (rec : lmk_log_record) (handler_name : string) (weak : bool)
    (m : ring_mem) (pc : enq_pc) : ring_mem * enq_pc * ring_event :=
  match pc with
  | EnqLoadHead => (m, EnqLoadSeq (rm_head m), EvTau)
  | EnqLoadSeq pos =>
      let diff := seq_diff (sequence (mem_slot mask pos m)) pos in
      if diff =? 0 then (m, EnqCas pos, EvTau)
      else if diff <? 0 then (m, EnqDone false, EvFull)
      else (m, EnqLoadHead, EvTau)
  | EnqCas pos =>
      if negb weak && (rm_head m =? pos)
      then (mk_ring_mem (rm_slots m) (w64 (pos + 1)), EnqMeta pos,
            EvEnq (view_of_record rec handler_name))
      else (m, EnqLoadSeq (rm_head m), EvTau)
  | EnqMeta pos => (upd_slot mask pos (on_req (write_meta rec handler_name)) m, EnqData pos, EvTau)
  | EnqData pos => (upd_slot mask pos (on_req (write_data rec)) m, EnqNul pos, EvTau)
  | EnqNul pos => (upd_slot mask pos (on_req (write_nul rec)) m, EnqPublish pos, EvTau)
  | EnqPublish pos => (upd_slot mask pos (set_sequence (w64 (pos + 1))) m, EnqDone true, EvTau)
  | EnqDone r => (m, EnqDone r, EvTau)
  end.

(** [lmk_ring_enqueue] run by one thread without interference, [fuel] atomic
    steps at most; [None] when the loop has not returned yet. *)
Fixpoint enq_run (fuel : nat) (mask : Z) (rec : lmk_log_record) (handler_name : string)
    (m : ring_mem) (pc : enq_pc) : option (ring_mem * bool) :=
  match pc with
  | EnqDone r => Some (m, r)
  | _ =>
      match fuel with
      | O => None
      | S fuel' =>
          let '(m', pc', _) := enq_step mask rec handler_name false m pc in
          enq_run fuel' mask rec handler_name m' pc'
      end
  end.

Definition enq_fuel : nat := 12.

Definition lmk_ring_enqueue (mask : Z) (rec : lmk_log_record) (handler_name : string)
    (m : ring_mem) : option (ring_mem * bool) :=
  enq_run enq_fuel mask rec handler_name m EnqLoadHead.

(** ** The single consumer *)

Definition lmk_ring_peek_slot (mask tail : Z) (m : ring_mem) : option lmk_ring_slot :=
  let slot := mem_slot mask tail m in
  if seq_diff (sequence slot) (w64 (tail + 1)) =? 0 then Some slot else None.

Definition lmk_ring_consume (mask tail : Z) (m : ring_mem) : ring_mem * Z :=
  (upd_slot mask tail (set_sequence (w64 (tail + mask + 1))) m, w64 (tail + 1)).

(** ** Correctness of [lmk_next_pow2] *)

Lemma smear_testbit v s i : 0 <= s -> 0 <= i ->
  Z.testbit (smear v s) i = Z.testbit v i || Z.testbit v (i + s).
Proof. intros Hs Hi. unfold smear. by rewrite Z.lor_spec, Z.shiftr_spec. Qed.

(** [covers n x y]: bit [i] of [y] says whether [x] has a bit in [i, i + n). *)
Definition covers (n x y : Z) : Prop :=
  forall i, 0 <= i -> Z.testbit y i = true <-> exists j, i <= j < i + n /\ Z.testbit x j = true.

Lemma covers_start x : covers 1 x x.
Proof.
  intros i Hi. split.
  - intros Hb. exists i. split; [lia|done].
  - intros (j & Hj & Hb). by replace i with j by lia.
Qed.

Lemma covers_smear n x y : 0 < n -> covers n x y -> covers (n + n) x (smear y n).
Proof.
  intros Hn Hc i Hi. rewrite smear_testbit, orb_true_iff by lia.
  rewrite (Hc i Hi), (Hc (i + n)) by lia. split.
  - intros [(j & Hj & Hb)|(j & Hj & Hb)]; exists j; (split; [lia|done]).
  - intros (j & Hj & Hb). destruct (decide (j < i + n)); [left|right]; exists j; (split; [lia|done]).
Qed.

(** Smearing a 64-bit value sets every bit up to its highest one. *)
Lemma covers_ones x y : 0 < x < 2 ^ 64 -> 0 <= y -> covers 64 x y -> y = Z.ones (Z.log2 x + 1).
Proof.
  intros Hx Hy Hc. apply Z.bits_inj'. intros i Hi. apply eq_true_iff_eq.
  assert (Z.log2 x < 64) by (apply Z.log2_lt_pow2; lia).
  pose proof (Z.log2_nonneg x).
  rewrite (Hc i Hi), Z.testbit_ones_nonneg, Z.ltb_lt by lia. split.
  - intros (j & Hj & Hb). destruct (decide (Z.log2 x < j)) as [Hlt|]; [|lia].
    by rewrite Z.bits_above_log2 in Hb by lia.
  - intros Hlt. exists (Z.log2 x). split; [lia|]. apply Z.bit_log2. lia.
Qed.

Lemma smear_nonneg v s : 0 <= v -> 0 <= smear v s.
Proof. intros Hv. unfold smear. rewrite Z.lor_nonneg, Z.shiftr_nonneg. done. Qed.
#[local] Hint Resolve smear_nonneg : core.

(** C-level statement: the result is the least power of two not below [v] (and at least 2). *)
Lemma next_pow2_log2_up v : 2 <= v <= 2 ^ 63 -> lmk_next_pow2 v = 2 ^ Z.log2_up v.
Proof.
  intros Hv. unfold lmk_next_pow2. rewrite (proj2 (Z.ltb_ge v 2)) by lia. cbv zeta.
  rewrite (w64_small (v - 1)) by lia.
  set (y := smear _ 32). assert (0 <= y) by (unfold y; auto 10 with lia).
  assert (covers 64 (v - 1) y) as Hc.
  { unfold y.
    apply (covers_smear 32), (covers_smear 16), (covers_smear 8), (covers_smear 4),
      (covers_smear 2), (covers_smear 1), covers_start; lia. }
  apply covers_ones in Hc; [|lia..].
  assert (Z.log2_up v = Z.log2 (v - 1) + 1) as ->.
  { rewrite Z.log2_up_eqn by lia. rewrite <- Z.sub_1_r. lia. }
  assert (2 ^ (Z.log2 (v - 1) + 1) <= 2 ^ 63).
  { apply Z.pow_le_mono_r; [lia|]. pose proof (proj1 (Z.log2_lt_pow2 (v - 1) 63 ltac:(lia)) ltac:(lia)). lia. }
  rewrite Hc, Z.ones_equiv, w64_small by lia. lia.
Qed.

(** Every size a handler can ask for is rounded to a power of two [2 ^ k]. *)
Lemma next_pow2_exponent v : 0 <= v <= 2 ^ 63 ->
  exists k : nat, (1 <= k <= 63)%nat /\ lmk_next_pow2 v = 2 ^ Z.of_nat k /\ v <= 2 ^ Z.of_nat k /\
    (2 <= v -> 2 ^ Z.of_nat (k - 1) < v).
Proof.
  intros Hv. destruct (decide (v < 2)) as [Hlt|Hge].
  - exists 1%nat. split; [lia|]. unfold lmk_next_pow2. rewrite (proj2 (Z.ltb_lt v 2)) by lia.
    split; [done|]. change (2 ^ Z.of_nat 1) with 2. lia.
  - pose proof (Z.log2_up_spec v ltac:(lia)) as Hspec.
    assert (1 <= Z.log2_up v <= 63).
    { split; [pose proof (Z.log2_up_le_mono 2 v); change (Z.log2_up 2) with 1 in *; lia|].
      pose proof (Z.log2_up_le_mono v (2 ^ 63)). rewrite (Z.log2_up_pow2 63) in * by lia. lia. }
    exists (Z.to_nat (Z.log2_up v)). rewrite Nat2Z.inj_sub by lia. rewrite !Z2Nat.id by lia.
    rewrite next_pow2_log2_up, <- Z.sub_1_r in * by lia.
    split; [lia|]. split; [done|]. split; [lia|]. intros _. exact (proj1 Hspec).
Qed.

(** ** Ring initialisation *)

Lemma length_ring_init_loop ring i todo : length (ring_init_loop ring i todo) = length ring.
Proof.
  revert ring i. induction todo as [|todo IH]; intros ring i; simpl; [done|].
  by rewrite IH, length_alter.
Qed.

Lemma lookup_ring_init_loop ring i todo j :
  ring_init_loop ring i todo !! j =
  (fun s => if decide (i <= j < i + todo)%nat then set_sequence (Z.of_nat j) s else s) <$> ring !! j.
Proof.
  revert ring i. induction todo as [|todo IH]; intros ring i; simpl.
  - destruct (ring !! j); simpl; [|done]. by rewrite decide_False by lia.
  - rewrite IH. destruct (decide (i = j)) as [->|Hne].
    + rewrite list_lookup_alter_eq. destruct (ring !! j); simpl; [|done].
      rewrite decide_False, decide_True by lia. done.
    + rewrite list_lookup_alter_ne by done. destruct (ring !! j); simpl; [|done].
      repeat case_decide; done || lia.
Qed.

Lemma ring_init_slot size j : (j < Z.to_nat size)%nat ->
  lmk_ring_init (ring_alloc size) size !!! j = mk_slot (Z.of_nat j) zero_request.
Proof.
  intros Hj. apply list_lookup_total_correct. unfold lmk_ring_init, ring_alloc.
  rewrite lookup_ring_init_loop, lookup_replicate_2 by done. simpl.
  by rewrite decide_True by lia.
Qed.

Lemma length_ring_init size : length (lmk_ring_init (ring_alloc size) size) = Z.to_nat size.
Proof. unfold lmk_ring_init, ring_alloc. by rewrite length_ring_init_loop, length_replicate. Qed.

(** ** Slot addressing *)

(** A ring of [2 ^ k] slots and its index mask. *)
Definition cap (k : nat) : Z := 2 ^ Z.of_nat k.
Definition mask_of (k : nat) : Z := cap k - 1.

Lemma cap_pos k : 0 < cap k.
Proof. unfold cap. lia. Qed.

Lemma cap_ge_2 k : (1 <= k)%nat -> 2 <= cap k.
Proof. intros Hk. unfold cap. change 2 with (2 ^ 1) at 1. apply Z.pow_le_mono_r; lia. Qed.

Lemma cap_le_pow32 k : (k <= 32)%nat -> cap k <= 2 ^ 32.
Proof. intros Hk. unfold cap. apply Z.pow_le_mono_r; lia. Qed.

(** [lmk_next_pow2] picks the least capacity, of two slots at least, that suffices. *)
Lemma next_pow2_cap v : 0 <= v <= 2 ^ 63 ->
  exists k : nat, lmk_next_pow2 v = cap k /\ (1 <= k)%nat /\ v <= cap k /\
    (forall j, (1 <= j)%nat -> v <= cap j -> (k <= j)%nat).
Proof.
  intros Hv. destruct (decide (v < 2)) as [Hlt|Hge].
  { exists 1%nat. unfold lmk_next_pow2. rewrite (proj2 (Z.ltb_lt v 2)) by lia.
    change (cap 1) with 2. split_and!; [done|lia|lia|]. intros j Hj _. lia. }
  destruct (next_pow2_exponent v Hv) as (k & Hk & Hpow & Hle & Hgt).
  exists k. split; [done|]. split; [lia|]. split; [done|]. intros j Hj Hcap. unfold cap in *.
  destruct (decide (k <= j)%nat); [done|].
  assert (j <= k - 1)%nat as Hj' by lia.
  pose proof (Z.pow_le_mono_r 2 (Z.of_nat j) (Z.of_nat (k - 1)) ltac:(lia) ltac:(lia)).
  pose proof (cap_ge_2 j Hj). unfold cap in *. lia.
Qed.

Lemma slot_index_mod k pos : slot_index pos (mask_of k) = Z.to_nat (pos mod cap k).
Proof.
  unfold slot_index, mask_of, cap. f_equal.
  rewrite <- Z.land_ones by lia. f_equal. rewrite Z.ones_equiv. lia.
Qed.

Lemma slot_index_lt k pos : (slot_index pos (mask_of k) < Z.to_nat (cap k))%nat.
Proof.
  rewrite slot_index_mod. pose proof (Z.mod_pos_bound pos (cap k) (cap_pos k)). lia.
Qed.

Lemma slot_index_inj k t t' : Z.abs (t - t') < cap k ->
  slot_index t (mask_of k) = slot_index t' (mask_of k) -> t = t'.
Proof.
  rewrite !slot_index_mod. intros Hd He. pose proof (cap_pos k).
  pose proof (Z.mod_pos_bound t (cap k) ltac:(lia)).
  pose proof (Z.mod_pos_bound t' (cap k) ltac:(lia)).
  assert (t mod cap k = t' mod cap k) as Hm by lia.
  pose proof (Z.div_mod t (cap k) ltac:(lia)). pose proof (Z.div_mod t' (cap k) ltac:(lia)). 
  assert (t / cap k = t' / cap k \/ t / cap k + 1 <= t' / cap k \/ t' / cap k + 1 <= t / cap k)
    by lia. nia.
Qed.

Lemma slot_index_shift k t : slot_index (t + cap k) (mask_of k) = slot_index t (mask_of k).
Proof.
  rewrite !slot_index_mod. f_equal. rewrite <- (Z.mul_1_l (cap k)) at 1.
  apply Z.mod_add. pose proof (cap_pos k). lia.
Qed.

(** Every cursor value addresses the slot of exactly one ticket of a window. *)
Lemma slot_index_window k lo pos : exists t, lo <= t < lo + cap k /\
  slot_index t (mask_of k) = slot_index pos (mask_of k) /\ (t = pos \/ cap k <= Z.abs (pos - t)).
Proof.
  pose proof (cap_pos k).
  exists (lo + (pos - lo) mod cap k).
  pose proof (Z.mod_pos_bound (pos - lo) (cap k) ltac:(lia)).
  pose proof (Z.div_mod (pos - lo) (cap k) ltac:(lia)).
  split; [lia|]. split.
  - rewrite !slot_index_mod, Zplus_mod_idemp_r. do 2 f_equal. lia.
  - assert ((pos - lo) / cap k = 0 \/ (pos - lo) / cap k <= -1 \/ 1 <= (pos - lo) / cap k) by lia. nia.
Qed.

(** ** Reading and updating slots *)

Section slots.
Context (k : nat) (m : ring_mem).
Hypothesis Hlen : length (rm_slots m) = Z.to_nat (cap k).

Lemma mem_slot_upd_eq pos pos' f :
  slot_index pos' (mask_of k) = slot_index pos (mask_of k) ->
  mem_slot (mask_of k) pos' (upd_slot (mask_of k) pos f m) = f (mem_slot (mask_of k) pos m).
Proof.
  intros He. unfold mem_slot, upd_slot; simpl. rewrite He.
  apply list_lookup_total_alter_eq. rewrite Hlen. apply slot_index_lt.
Qed.

Lemma mem_slot_upd_ne pos pos' f :
  slot_index pos' (mask_of k) <> slot_index pos (mask_of k) ->
  mem_slot (mask_of k) pos' (upd_slot (mask_of k) pos f m) = mem_slot (mask_of k) pos' m.
Proof. intros He. unfold mem_slot, upd_slot; simpl. by apply list_lookup_total_alter_ne. Qed.

Lemma mem_slot_upd_window lo t t' f :
  lo <= t < lo + cap k -> lo <= t' < lo + cap k ->
  mem_slot (mask_of k) t' (upd_slot (mask_of k) t f m) =
  if decide (t' = t) then f (mem_slot (mask_of k) t m) else mem_slot (mask_of k) t' m.
Proof.
  intros Ht Ht'. case_decide as Hd; [subst; by apply mem_slot_upd_eq|].
  apply mem_slot_upd_ne. intros He. apply Hd. apply (slot_index_inj k); [lia|done].
Qed.

Lemma length_upd_slot mask pos f :
  length (rm_slots (upd_slot mask pos f m)) = Z.to_nat (cap k).
Proof. simpl. by rewrite length_alter. Qed.
End slots.

Lemma seq_diff_small a b : 0 <= a < 2 ^ 63 -> 0 <= b < 2 ^ 63 -> seq_diff a b = a - b.
Proof. intros Ha Hb. unfold seq_diff. by rewrite (s64_small a), (s64_small b), s64_small by lia. Qed.
