(* ===== verification/RingMachine.v ===== *)
(** Any number of producer threads inside [lmk_ring_enqueue] and the one
    consumer, interleaved at every atomic access of [Ring.v].  The machine
    implements a bounded FIFO queue: a claim enqueues, a consume dequeues, and
    the "ring full" answer is given only by a full queue. *)
From S2P Require Import Prelude Types Ring.
Local Open Scope Z_scope.

(** ** Abstract specification: a bounded FIFO queue *)

Inductive fifo_step (capacity : Z) : list log_view -> ring_event -> list log_view -> Prop :=
  | fifo_tau q : fifo_step capacity q EvTau q
  | fifo_enq q v : Z.of_nat (length q) < capacity -> fifo_step capacity q (EvEnq v) (q ++ [v])
  | fifo_full q : Z.of_nat (length q) = capacity -> fifo_step capacity q EvFull q
  | fifo_deq q v : fifo_step capacity (v :: q) (EvDeq v) q.

(** ** The concurrent machine *)

(** A thread inside a call [lmk_ring_enqueue(ring, head, mask, rec, handler_name)]. *)
Record enq_thread := mk_enq_thread {
  et_rec : lmk_log_record;
  et_handler : string;
  et_pc : enq_pc
}.

(** The consumer between [lmk_ring_peek_slot] and [lmk_ring_consume]. *)
Inductive cons_pc :=
  | ConsPeek
  | ConsRead                     (* peek returned the slot              *)
  | ConsConsume (v : log_view).  (* the slot's request has been read    *)

Record ring_state := mk_ring_state {
  rs_mem : ring_mem;
  rs_tail : Z;
  rs_cons : cons_pc;
  rs_prods : gmap nat enq_thread
}.

Definition set_pc (th : enq_thread) (pc : enq_pc) : enq_thread :=
  mk_enq_thread (et_rec th) (et_handler th) pc.

Definition ring_start (k : nat) : ring_state :=
  mk_ring_state (mk_ring_mem (lmk_ring_init (ring_alloc (cap k)) (cap k)) 0) 0 ConsPeek ∅.

Inductive ring_step (mask : Z) : ring_state -> ring_event -> ring_state -> Prop :=
  | step_call s tid rec h :
      rs_prods s !! tid = None -> wf_record rec ->
      ring_step mask s EvTau
        (mk_ring_state (rs_mem s) (rs_tail s) (rs_cons s)
           (<[tid := mk_enq_thread rec h EnqLoadHead]> (rs_prods s)))
  | step_enq s tid th weak m' pc' ev :
      rs_prods s !! tid = Some th ->
      enq_step mask (et_rec th) (et_handler th) weak (rs_mem s) (et_pc th) = (m', pc', ev) ->
      ring_step mask s ev
        (mk_ring_state m' (rs_tail s) (rs_cons s) (<[tid := set_pc th pc']> (rs_prods s)))
  | step_return s tid th r :
      rs_prods s !! tid = Some th -> et_pc th = EnqDone r ->
      ring_step mask s EvTau
        (mk_ring_state (rs_mem s) (rs_tail s) (rs_cons s) (delete tid (rs_prods s)))
  | step_peek s slot :
      rs_cons s = ConsPeek -> lmk_ring_peek_slot mask (rs_tail s) (rs_mem s) = Some slot ->
      ring_step mask s EvTau (mk_ring_state (rs_mem s) (rs_tail s) ConsRead (rs_prods s))
  | step_read s :
      rs_cons s = ConsRead ->
      ring_step mask s EvTau
        (mk_ring_state (rs_mem s) (rs_tail s)
           (ConsConsume (view_of_request (req (mem_slot mask (rs_tail s) (rs_mem s)))))
           (rs_prods s))
  | step_consume s v m' tail' :
      rs_cons s = ConsConsume v -> lmk_ring_consume mask (rs_tail s) (rs_mem s) = (m', tail') ->
      ring_step mask s (EvDeq v) (mk_ring_state m' tail' ConsPeek (rs_prods s)).

(** ** The invariant relating a ring state to the abstract queue *)

(** The ticket a thread owns: claimed by its compare-exchange, not yet published. *)
Definition claim (pc : enq_pc) : option Z :=
  match pc with
  | EnqMeta pos | EnqData pos | EnqNul pos | EnqPublish pos => Some pos
  | _ => None
  end.

Definition meta_ok (th : enq_thread) (r : lmk_log_request) : Prop :=
  req_log_level r = rec_log_level (et_rec th) /\ req_line_no r = rec_line_no (et_rec th) /\
  req_file_name r = rec_file_name (et_rec th) /\ req_handler_name r = et_handler th.

Definition text_ok (th : enq_thread) (r : lmk_log_request) : Prop :=
  let n := Z.to_nat (copy_len (et_rec th)) in
  take n (req_data r) = take n (rec_data (et_rec th)).

(** How much of the payload the owner of a slot has already written. *)
Definition payload_ok (th : enq_thread) (r : lmk_log_request) : Prop :=
  match et_pc th with
  | EnqData _ => meta_ok th r
  | EnqNul _ => meta_ok th r /\ text_ok th r
  | EnqPublish _ => view_of_request r = view_of_record (et_rec th) (et_handler th)
  | _ => True
  end.

Definition buf_ok (sl : lmk_ring_slot) : Prop :=
  length (req_data (req sl)) = Z.to_nat LMK_LOG_MSG_MAX_SIZE.

Section invariant.
Context (k : nat).

Definition slot_ok (s : ring_state) (q : list log_view) (i : Z) : Prop :=
  let t := rs_tail s + i in
  let sl := mem_slot (mask_of k) t (rs_mem s) in
  match q !! Z.to_nat i with
  | None => sequence sl = t
  | Some v =>
      (sequence sl = t + 1 /\ view_of_request (req sl) = v) \/
      (sequence sl = t /\ exists tid th, rs_prods s !! tid = Some th /\
         claim (et_pc th) = Some t /\ view_of_record (et_rec th) (et_handler th) = v)
  end.

Definition owns_ok (s : ring_state) (q : list log_view) (th : enq_thread) (pos : Z) : Prop :=
  let sl := mem_slot (mask_of k) pos (rs_mem s) in
  rs_tail s <= pos < rs_tail s + Z.of_nat (length q) /\
  sequence sl = pos /\ payload_ok th (req sl).

Definition thread_ok (s : ring_state) (q : list log_view) (th : enq_thread) : Prop :=
  wf_record (et_rec th) /\
  match et_pc th with
  | EnqLoadHead | EnqDone _ => True
  | EnqLoadSeq pos => 0 <= pos <= rs_tail s + Z.of_nat (length q)
  | EnqCas pos =>
      0 <= pos <= rs_tail s + Z.of_nat (length q) /\
      (pos = rs_tail s + Z.of_nat (length q) -> Z.of_nat (length q) < cap k)
  | EnqMeta pos | EnqData pos | EnqNul pos | EnqPublish pos => owns_ok s q th pos
  end.

Definition cons_ok (s : ring_state) (q : list log_view) : Prop :=
  match rs_cons s with
  | ConsPeek => True
  | ConsRead => 0 < Z.of_nat (length q) /\
      sequence (mem_slot (mask_of k) (rs_tail s) (rs_mem s)) = rs_tail s + 1
  | ConsConsume v => q !! 0%nat = Some v /\
      sequence (mem_slot (mask_of k) (rs_tail s) (rs_mem s)) = rs_tail s + 1
  end.

Record ring_inv (n : nat) (s : ring_state) (q : list log_view) : Prop := {
  inv_len : length (rm_slots (rs_mem s)) = Z.to_nat (cap k);
  inv_tail : 0 <= rs_tail s;
  inv_head : rm_head (rs_mem s) = rs_tail s + Z.of_nat (length q);
  inv_steps : rm_head (rs_mem s) <= Z.of_nat n;
  inv_cap : Z.of_nat (length q) <= cap k;
  inv_buf : forall t, buf_ok (mem_slot (mask_of k) t (rs_mem s));
  inv_slots : forall i, 0 <= i < cap k -> slot_ok s q i;
  inv_prods : forall tid th, rs_prods s !! tid = Some th -> thread_ok s q th;
  inv_unique : forall tid th tid' th' pos,
    rs_prods s !! tid = Some th -> rs_prods s !! tid' = Some th' ->
    claim (et_pc th) = Some pos -> claim (et_pc th') = Some pos -> tid = tid';
  inv_cons : cons_ok s q
}.

Lemma ring_inv_mono n n' s q : (n <= n')%nat -> ring_inv n s q -> ring_inv n' s q.
Proof. intros Hn []. split; try done. lia. Qed.

(** The freshly initialised ring is the empty queue. *)
Lemma ring_inv_start n : ring_inv n (ring_start k) [].
Proof.
  pose proof (cap_pos k).
  split; simpl; try done; try lia.
  - apply length_ring_init.
  - intros t. unfold mem_slot; simpl. rewrite ring_init_slot by apply slot_index_lt. done.
  - intros i Hi. unfold slot_ok; simpl. unfold mem_slot; simpl.
    rewrite ring_init_slot by apply slot_index_lt. simpl.
    rewrite slot_index_mod, Z.mod_small by lia. lia.
Qed.

(** *** Steps that only change one thread's control state *)

Definition with_prods (s : ring_state) (prods : gmap nat enq_thread) : ring_state :=
  mk_ring_state (rs_mem s) (rs_tail s) (rs_cons s) prods.

Lemma thread_ok_with_prods s q prods th :
  thread_ok (with_prods s prods) q th <-> thread_ok s q th.
Proof. done. Qed.

Lemma ring_inv_prods n s q prods' :
  ring_inv n s q ->
  (forall tid th t, rs_prods s !! tid = Some th -> claim (et_pc th) = Some t ->
     exists tid' th', prods' !! tid' = Some th' /\ claim (et_pc th') = Some t /\
       view_of_record (et_rec th') (et_handler th') = view_of_record (et_rec th) (et_handler th)) ->
  (forall tid th, prods' !! tid = Some th -> thread_ok s q th) ->
  (forall tid th tid' th' pos, prods' !! tid = Some th -> prods' !! tid' = Some th' ->
     claim (et_pc th) = Some pos -> claim (et_pc th') = Some pos -> tid = tid') ->
  ring_inv n (with_prods s prods') q.
Proof.
  intros [] Hclaims Hok Huniq. split; try done.
  intros i Hi. specialize (inv_slots0 i Hi). unfold slot_ok in *; simpl in *.
  destruct (q !! Z.to_nat i) as [v|]; [|done].
  destruct inv_slots0 as [?|(Hseq & tid & th & Htid & Hc & Hv)]; [by left|right].
  destruct (Hclaims tid th _ Htid Hc) as (tid' & th' & ? & ? & ?).
  split; [done|]. exists tid', th'. split_and!; congruence.
Qed.

Lemma claim_of_insert (s : ring_state) tid o th' pos tid1 th1 :
  rs_prods s !! tid = o -> claim (et_pc th') = (o ≫= (fun th => claim (et_pc th))) ->
  <[tid := th']> (rs_prods s) !! tid1 = Some th1 -> claim (et_pc th1) = Some pos ->
  exists th0, rs_prods s !! tid1 = Some th0 /\ claim (et_pc th0) = Some pos.
Proof.
  intros Ho Hc [[<- <-]|[Hne H1]]%lookup_insert_Some Hp; [|by eauto].
  rewrite Hc in Hp. destruct (rs_prods s !! tid); simplify_option_eq; eauto.
Qed.

(** A thread moves (or a new one starts) without changing what it owns. *)
Lemma ring_inv_move n s q tid o th' :
  ring_inv n s q -> rs_prods s !! tid = o ->
  claim (et_pc th') = (o ≫= (fun th => claim (et_pc th))) ->
  (forall th, o = Some th -> et_rec th' = et_rec th /\ et_handler th' = et_handler th) ->
  thread_ok s q th' ->
  ring_inv n (with_prods s (<[tid := th']> (rs_prods s))) q.
Proof.
  intros Hinv Ho Hc Hsame Hok. apply ring_inv_prods; [done|..].
  - intros tid1 th1 t H1 Ht. destruct (decide (tid1 = tid)) as [->|Hne].
    + exists tid, th'. rewrite lookup_insert_eq. simplify_eq.
      destruct (Hsame th1 H1) as [-> ->]. rewrite Hc, H1. done.
    + exists tid1, th1. by rewrite lookup_insert_ne by done.
  - intros tid1 th1 [[_ <-]|[_ H1]]%lookup_insert_Some; [done|]. by eapply inv_prods.
  - intros tid1 th1 tid2 th2 pos H1 H2 Hp1 Hp2.
    destruct (claim_of_insert s tid o th' pos tid1 th1) as (? & ? & ?); [done..|].
    destruct (claim_of_insert s tid o th' pos tid2 th2) as (? & ? & ?); [done..|].
    by eapply inv_unique.
Qed.

(** A call that owns nothing returns. *)
Lemma ring_inv_delete n s q tid th :
  ring_inv n s q -> rs_prods s !! tid = Some th -> claim (et_pc th) = None ->
  ring_inv n (with_prods s (delete tid (rs_prods s))) q.
Proof.
  intros Hinv Htid Hc. apply ring_inv_prods; [done|..].
  - intros tid1 th1 t H1 Ht. exists tid1, th1.
    rewrite lookup_delete_ne by congruence. done.
  - intros tid1 th1 [_ H1]%lookup_delete_Some. by eapply inv_prods.
  - intros ????? [_ H1]%lookup_delete_Some [_ H2]%lookup_delete_Some. by eapply inv_unique.
Qed.

(** *** Reading the sequence number of a slot *)

Context (Hk : (1 <= k <= 32)%nat).

Lemma sequence_bounds n s q i : ring_inv n s q -> 0 <= i < cap k ->
  sequence (mem_slot (mask_of k) (rs_tail s + i) (rs_mem s)) = rs_tail s + i \/
  sequence (mem_slot (mask_of k) (rs_tail s + i) (rs_mem s)) = rs_tail s + i + 1 /\ i < Z.of_nat (length q).
Proof.
  intros Hinv Hi. pose proof (inv_slots n s q Hinv i Hi) as Hs. unfold slot_ok in Hs.
  destruct (q !! Z.to_nat i) as [v|] eqn:Hq; [|by left].
  apply lookup_lt_Some in Hq. destruct Hs as [[? _]|[? _]]; [right; lia|by left].
Qed.

(** The branch of the enqueue loop: equality means the position may still be
    free, a negative difference means the queue holds [cap k] elements. *)
Lemma load_seq_spec n s q pos :
  Z.of_nat n < 2 ^ 62 -> ring_inv n s q -> 0 <= pos <= rs_tail s + Z.of_nat (length q) ->
  let diff := seq_diff (sequence (mem_slot (mask_of k) pos (rs_mem s))) pos in
  (diff = 0 -> pos = rs_tail s + Z.of_nat (length q) -> Z.of_nat (length q) < cap k) /\
  (diff < 0 -> Z.of_nat (length q) = cap k) /\
  (0 < diff -> pos < rs_tail s + Z.of_nat (length q)).
Proof.
  intros Hn Hinv Hpos. pose proof (cap_ge_2 k). pose proof (cap_le_pow32 k).
  destruct (slot_index_window k (rs_tail s) pos) as (t & Ht & Hidx & Hdist).
  pose proof (inv_head n s q Hinv). pose proof (inv_steps n s q Hinv).
  pose proof (inv_tail n s q Hinv). pose proof (inv_cap n s q Hinv).
  pose proof (sequence_bounds n s q (t - rs_tail s) Hinv) as Hseq.
  rewrite Zplus_minus in Hseq. unfold mem_slot in *. rewrite Hidx in Hseq.
  set (sq := sequence _) in *. rewrite seq_diff_small by lia. lia.
Qed.

(** *** Writes to an owned slot *)

Lemma owned_slot_claimed n s q tid th pos :
  ring_inv n s q -> rs_prods s !! tid = Some th -> claim (et_pc th) = Some pos ->
  owns_ok s q th pos.
Proof.
  intros Hinv Htid Hc. destruct (inv_prods n s q Hinv tid th Htid) as [_ Hok].
  destruct (et_pc th); simpl in *; simplify_eq; done.
Qed.

Definition write_state (s : ring_state) (pos : Z) (f : lmk_ring_slot -> lmk_ring_slot)
    (tid : nat) (th' : enq_thread) : ring_state :=
  mk_ring_state (upd_slot (mask_of k) pos f (rs_mem s)) (rs_tail s) (rs_cons s)
    (<[tid := th']> (rs_prods s)).

(** A thread whose claim lies elsewhere does not notice the write. *)
Lemma thread_ok_write n s q pos f tid th' th :
  ring_inv n s q -> rs_tail s <= pos < rs_tail s + Z.of_nat (length q) ->
  claim (et_pc th) <> Some pos -> thread_ok s q th ->
  thread_ok (write_state s pos f tid th') q th.
Proof.
  intros Hinv Hpos Hc [Hwf Hok]. split; [done|].
  pose proof (inv_len n s q Hinv). pose proof (inv_cap n s q Hinv).
  destruct (et_pc th) as [| | |pos'|pos'|pos'|pos'|]; simpl in *; try done.
  all: destruct Hok as (Hr & Hs & Hp); unfold owns_ok; simpl.
  all: rewrite (mem_slot_upd_window k _ ltac:(done) (rs_tail s)), decide_False by (lia || congruence); done.
Qed.

Lemma buf_ok_write n s q pos f tid th' t :
  ring_inv n s q -> (forall sl, buf_ok sl -> buf_ok (f sl)) ->
  buf_ok (mem_slot (mask_of k) t (rs_mem (write_state s pos f tid th'))).
Proof.
  intros Hinv Hf. simpl.
  destruct (decide (slot_index t (mask_of k) = slot_index pos (mask_of k))) as [He|Hne].
  - rewrite mem_slot_upd_eq by (done || apply (inv_len n s q Hinv)). apply Hf, (inv_buf n s q Hinv).
  - rewrite mem_slot_upd_ne by done. apply (inv_buf n s q Hinv).
Qed.

Lemma cons_ok_write n s q pos f tid th' th :
  ring_inv n s q -> rs_prods s !! tid = Some th -> claim (et_pc th) = Some pos ->
  cons_ok s q -> cons_ok (write_state s pos f tid th') q.
Proof.
  intros Hinv Htid Hc. pose proof (owned_slot_claimed n s q tid th pos Hinv Htid Hc) as (Hr & Hs & _).
  pose proof (inv_len n s q Hinv). pose proof (inv_cap n s q Hinv).
  assert (forall z, sequence (mem_slot (mask_of k) (rs_tail s) (rs_mem s)) = rs_tail s + 1 ->
    mem_slot (mask_of k) (rs_tail s) (upd_slot (mask_of k) pos z (rs_mem s)) =
    mem_slot (mask_of k) (rs_tail s) (rs_mem s)) as Hsame.
  { intros z Hseq. rewrite (mem_slot_upd_window k _ ltac:(done) (rs_tail s)) by lia.
    rewrite decide_False; [done|]. intros He. rewrite <- He in Hs. lia. }
  unfold cons_ok; simpl. destruct (rs_cons s); [done|..]; intros [? Hseq]; by rewrite Hsame.
Qed.

(** The owner of [pos] updates its slot; [f] either keeps the sequence number
    and the claim, or publishes. *)
Lemma ring_inv_write n s q tid th th' pos f :
  ring_inv n s q -> rs_prods s !! tid = Some th -> claim (et_pc th) = Some pos ->
  et_rec th' = et_rec th -> et_handler th' = et_handler th ->
  (forall sl, buf_ok sl -> buf_ok (f sl)) ->
  let sl := mem_slot (mask_of k) pos (rs_mem s) in
  (claim (et_pc th') = Some pos /\ sequence (f sl) = pos /\ payload_ok th' (f sl).(req) \/
   claim (et_pc th') = None /\ sequence (f sl) = pos + 1 /\ thread_ok s q th' /\
     view_of_request (f sl).(req) = view_of_record (et_rec th) (et_handler th)) ->
  ring_inv n (write_state s pos f tid th') q.
Proof.
  intros Hinv Htid Hc Hrec Hhnd Hbuf sl Hcase.
  pose proof (owned_slot_claimed n s q tid th pos Hinv Htid Hc) as (Hr & Hs & Hp).
  pose proof (inv_len n s q Hinv). pose proof (inv_cap n s q Hinv).
  split; try by apply Hinv.
  - simpl. by rewrite length_alter.
  - intros t. by eapply buf_ok_write.
  - intros i Hi. pose proof (inv_slots n s q Hinv i Hi) as Hslot. unfold slot_ok in *; simpl.
    rewrite (mem_slot_upd_window k _ ltac:(done) (rs_tail s)) by lia.
    destruct (decide (rs_tail s + i = pos)) as [He|Hne]; simpl.
    + rewrite He in *. destruct (q !! Z.to_nat i) as [v|] eqn:Hqi.
      2: { apply lookup_ge_None in Hqi. lia. }
      destruct Hslot as [[? _]|(_ & tid0 & th0 & Ht0 & Hc0 & Hv0)]; [lia|].
      assert (tid0 = tid) as -> by (by eapply (inv_unique n s q Hinv)). simplify_eq.
      destruct Hcase as [(Hc' & Hs' & _)|(_ & Hs' & _ & Hv')]; [right|left; done].
      split; [done|]. exists tid, th'. rewrite lookup_insert_eq, Hrec, Hhnd. done.
    + destruct (q !! Z.to_nat i) as [v|]; [|done].
      destruct Hslot as [?|(? & tid0 & th0 & Ht0 & Hc0 & Hv0)]; [by left|right].
      split; [done|]. exists tid0, th0. rewrite lookup_insert_ne; [done|].
      intros ->. simplify_eq.
  - simpl. intros tid1 th1 [[<- <-]|[Hne H1]]%lookup_insert_Some.
    + destruct Hcase as [(Hc' & Hs' & Hp')|(Hc' & _ & Hok' & _)].
      2: { eapply thread_ok_write; [done|done|by rewrite Hc'|done]. }
      destruct (inv_prods n s q Hinv tid th Htid) as [Hwf _].
      split; [by rewrite Hrec|].
      assert (owns_ok (write_state s pos f tid th') q th' pos) as Hown.
      { unfold owns_ok; simpl. by rewrite mem_slot_upd_eq. }
      destruct (et_pc th'); simpl in Hc'; simplify_eq; done.
    + eapply thread_ok_write; [done|done| |by eapply (inv_prods n s q Hinv)].
      intros Hc1. apply Hne. by eapply (inv_unique n s q Hinv).
  - simpl. intros tid1 th1 tid2 th2 pos' H1 H2 Hp1 Hp2.
    assert (forall tid0 th0, <[tid:=th']> (rs_prods s) !! tid0 = Some th0 ->
      claim (et_pc th0) = Some pos' ->
      exists th00, rs_prods s !! tid0 = Some th00 /\ claim (et_pc th00) = Some pos') as Hown.
    { intros tid0 th0 [[<- <-]|[_ Hl]]%lookup_insert_Some Hp0; [|by eauto].
      destruct Hcase as [(Hc' & _)|(Hc' & _)]; simplify_eq. by eauto. }
    destruct (Hown tid1 th1) as (? & ? & ?), (Hown tid2 th2) as (? & ? & ?); [done..|].
    by eapply (inv_unique n s q Hinv).
  - eapply cons_ok_write; [done..|]. apply (inv_cons n s q Hinv).
Qed.

(** *** The payload, written in three pieces *)

Lemma payload_meta rec h pos r :
  payload_ok (mk_enq_thread rec h (EnqData pos)) (write_meta rec h r).
Proof. done. Qed.

Lemma payload_data rec h pos r : wf_record rec ->
  payload_ok (mk_enq_thread rec h (EnqData pos)) r ->
  payload_ok (mk_enq_thread rec h (EnqNul pos)) (write_data rec r).
Proof.
  intros Hwf Hp. split; [done|]. unfold text_ok, write_data; simpl.
  pose proof (copy_len_bounds rec Hwf).
  rewrite take_app_le by (rewrite length_take; lia). by rewrite take_take, Nat.min_id.
Qed.

Lemma payload_nul rec h pos r : wf_record rec ->
  length (req_data r) = Z.to_nat LMK_LOG_MSG_MAX_SIZE ->
  payload_ok (mk_enq_thread rec h (EnqNul pos)) r ->
  payload_ok (mk_enq_thread rec h (EnqPublish pos)) (write_nul rec r).
Proof.
  intros Hwf Hlen [(Hl & Hn & Hf & Hh) Ht]. unfold payload_ok, view_of_request, view_of_record.
  pose proof (copy_len_bounds rec Hwf). unfold LMK_LOG_MSG_MAX_SIZE in *.
  simpl. f_equal; [done..|].
  unfold text_ok in Ht; simpl in Ht. rewrite <- Ht, insert_take_drop by lia.
  apply cstr_terminated.
Qed.

Lemma buf_ok_meta rec h sl : buf_ok sl -> buf_ok (on_req (write_meta rec h) sl).
Proof. done. Qed.

Lemma buf_ok_data rec sl : wf_record rec -> buf_ok sl -> buf_ok (on_req (write_data rec) sl).
Proof.
  intros Hwf Hb. unfold buf_ok in *; simpl. pose proof (copy_len_bounds rec Hwf).
  unfold LMK_LOG_MSG_MAX_SIZE in *. rewrite length_app, length_take, length_drop. lia.
Qed.

Lemma buf_ok_nul rec sl : buf_ok sl -> buf_ok (on_req (write_nul rec) sl).
Proof. unfold buf_ok; simpl. by rewrite length_insert. Qed.

(** *** A successful compare-exchange claims the next ticket *)

(** Nobody else loses anything when the queue grows. *)
Lemma thread_ok_claim s q v head' prods' th :
  thread_ok s q th ->
  thread_ok (mk_ring_state (mk_ring_mem (rm_slots (rs_mem s)) head') (rs_tail s) (rs_cons s) prods')
    (q ++ [v]) th.
Proof.
  intros [Hwf Hok]. split; [done|]. unfold owns_ok in *; rewrite length_app; simpl in *.
  destruct (et_pc th); try done; try lia.
  all: destruct Hok as (? & ? & ?); split; [lia|by split].
Qed.

Lemma ring_inv_claim n s q tid th pos :
  Z.of_nat n < 2 ^ 62 -> ring_inv n s q -> rs_prods s !! tid = Some th ->
  et_pc th = EnqCas pos -> rm_head (rs_mem s) = pos ->
  Z.of_nat (length q) < cap k /\
  ring_inv (S n)
    (mk_ring_state (mk_ring_mem (rm_slots (rs_mem s)) (w64 (pos + 1))) (rs_tail s) (rs_cons s)
       (<[tid := set_pc th (EnqMeta pos)]> (rs_prods s)))
    (q ++ [view_of_record (et_rec th) (et_handler th)]).
Proof.
  intros Hn Hinv Htid Hpc Hhead.
  pose proof (inv_prods n s q Hinv tid th Htid) as [Hwf Hok]. rewrite Hpc in Hok.
  destruct Hok as [Hpos Hroom].
  pose proof (inv_head n s q Hinv). pose proof (inv_steps n s q Hinv).
  pose proof (inv_tail n s q Hinv). assert (pos = rs_tail s + Z.of_nat (length q)) as Hp by lia.
  specialize (Hroom Hp). split; [done|].
  assert (sequence (mem_slot (mask_of k) pos (rs_mem s)) = pos) as Hfree.
  { destruct (sequence_bounds n s q (Z.of_nat (length q)) Hinv) as [He|[_ ?]]; [lia| |lia].
    rewrite <- Hp in He. done. }
  rewrite w64_small by lia.
  split; simpl; try apply Hinv; try (rewrite length_app; simpl; lia); [lia|..].
  - intros i Hi. pose proof (inv_slots n s q Hinv i Hi) as Hslot. unfold slot_ok in *; simpl.
    change (mem_slot _ _ (mk_ring_mem _ _)) with (mem_slot (mask_of k) (rs_tail s + i) (rs_mem s)).
    destruct (decide (i < Z.of_nat (length q))) as [Hlt|Hge].
    + rewrite lookup_app_l by lia. destruct (q !! Z.to_nat i) as [v|]; [|done].
      destruct Hslot as [?|(? & tid0 & th0 & Ht0 & Hc0 & Hv0)]; [by left|right].
      split; [done|]. exists tid0, th0. rewrite lookup_insert_ne; [done|].
      intros ->. simplify_eq. by rewrite Hpc in Hc0.
    + rewrite lookup_app_r by lia. destruct (decide (i = Z.of_nat (length q))) as [->|].
      * rewrite Nat2Z.id, Nat.sub_diag; simpl. right. rewrite <- Hp. split; [done|].
        exists tid, (set_pc th (EnqMeta pos)). by rewrite lookup_insert_eq.
      * rewrite lookup_ge_None_2 in Hslot by lia. by rewrite lookup_ge_None_2 by (simpl; lia).
  - intros tid1 th1 [[<- <-]|[Hne Hm1]]%lookup_insert_Some.
    + split; [done|]. simpl. unfold owns_ok; simpl. rewrite length_app; simpl.
      split; [lia|]. by split.
    + apply thread_ok_claim. by eapply (inv_prods n s q Hinv).
  - intros tid1 th1 tid2 th2 pos' Hm1 Hm2 Hp1 Hp2.
    assert (forall tid0 th0, <[tid:=set_pc th (EnqMeta pos)]> (rs_prods s) !! tid0 = Some th0 ->
      claim (et_pc th0) = Some pos' -> tid0 = tid /\ pos' = pos \/ tid0 <> tid /\ pos' < pos /\
        rs_prods s !! tid0 = Some th0) as Hown.
    { intros tid0 th0 [[<- <-]|[Hne Hl]]%lookup_insert_Some Hp0.
      - simpl in Hp0. simplify_eq. by left.
      - right. pose proof (owned_slot_claimed n s q tid0 th0 pos' Hinv Hl Hp0) as [? _].
        split_and!; [done|lia|done]. }
    destruct (Hown tid1 th1 Hm1 Hp1) as [[-> ?]|(? & ? & ?)], (Hown tid2 th2 Hm2 Hp2) as [[-> ?]|(? & ? & ?)];
      try done; try lia. by eapply (inv_unique n s q Hinv).
  - pose proof (inv_cons n s q Hinv) as Hcons. unfold cons_ok in *; simpl.
    destruct (rs_cons s); [done|..]; destruct Hcons as [Hq ?]; (split; [|done]).
    + rewrite length_app; lia.
    + by apply lookup_app_l_Some.
Qed.

(** *** The consumer frees the oldest slot *)

Lemma ring_inv_consume n s v q0 m' tail' :
  Z.of_nat n < 2 ^ 62 -> ring_inv n s q0 -> rs_cons s = ConsConsume v ->
  lmk_ring_consume (mask_of k) (rs_tail s) (rs_mem s) = (m', tail') ->
  exists q, q0 = v :: q /\ ring_inv n (mk_ring_state m' tail' ConsPeek (rs_prods s)) q.
Proof.
  intros Hn Hinv Hcons [= <- <-].
  pose proof (inv_cons n s q0 Hinv) as Hc. unfold cons_ok in Hc. rewrite Hcons in Hc.
  destruct Hc as [Hv Hseq]. destruct q0 as [|v0 q]; [done|]. simpl in Hv. simplify_eq.
  exists q. split; [done|].
  pose proof (inv_head _ _ _ Hinv) as Hhead. pose proof (inv_tail _ _ _ Hinv).
  pose proof (inv_steps _ _ _ Hinv). pose proof (inv_cap _ _ _ Hinv) as Hcap.
  pose proof (inv_len _ _ _ Hinv) as Hlen. pose proof (cap_le_pow32 k). pose proof (cap_pos k).
  replace (rs_tail s + mask_of k + 1) with (rs_tail s + cap k) by (unfold mask_of; lia).
  simpl in Hhead, Hcap. rewrite !w64_small by lia.
  assert (forall t, rs_tail s < t < rs_tail s + cap k ->
    mem_slot (mask_of k) t (upd_slot (mask_of k) (rs_tail s) (set_sequence (rs_tail s + cap k)) (rs_mem s))
    = mem_slot (mask_of k) t (rs_mem s)) as Hother.
  { intros t Ht. rewrite (mem_slot_upd_window k _ ltac:(done) (rs_tail s)), decide_False by lia. done. }
  split; simpl; try apply Hinv; try lia; try done.
  - by rewrite length_alter.
  - intros t.
    by apply (buf_ok_write n s (v :: q) (rs_tail s) (set_sequence (rs_tail s + cap k)) 0%nat
      (mk_enq_thread (mk_log_record 0 [] 0 0 "") "" EnqLoadHead)).
  - intros i Hi. unfold slot_ok; simpl. destruct (decide (i = cap k - 1)) as [->|Hne].
    + rewrite lookup_ge_None_2 by lia.
      rewrite mem_slot_upd_eq; [simpl; lia|done|].
      rewrite <- (slot_index_shift k (rs_tail s)). f_equal. lia.
    + rewrite Hother by lia. pose proof (inv_slots _ _ _ Hinv (i + 1) ltac:(lia)) as Hslot.
      unfold slot_ok in Hslot. rewrite Z2Nat.inj_add, Nat.add_comm in Hslot by lia. simpl in Hslot.
      by replace (rs_tail s + 1 + i) with (rs_tail s + (i + 1)) by lia.
  - intros tid th Htid. pose proof (inv_prods _ _ _ Hinv tid th Htid) as [Hwf Hok].
    split; [done|]. unfold owns_ok in *; simpl in *.
    assert (forall pos, rs_tail s <= pos < rs_tail s + Z.of_nat (S (length q)) /\
        sequence (mem_slot (mask_of k) pos (rs_mem s)) = pos /\
        payload_ok th (req (mem_slot (mask_of k) pos (rs_mem s))) ->
      rs_tail s + 1 <= pos < rs_tail s + 1 + Z.of_nat (length q) /\
        rs_tail s < pos < rs_tail s + cap k) as Hown.
    { intros pos (Hr & Hs & _). assert (pos <> rs_tail s); [intros ->|]; lia. }
    destruct (et_pc th); try done; try lia.
    all: destruct (Hown _ Hok) as [? ?], Hok as (_ & ? & ?); rewrite Hother by done; done.
Qed.

(** *** The consumer's reads *)

Lemma ring_inv_cons n s q c :
  ring_inv n s q -> cons_ok (mk_ring_state (rs_mem s) (rs_tail s) c (rs_prods s)) q ->
  ring_inv n (mk_ring_state (rs_mem s) (rs_tail s) c (rs_prods s)) q.
Proof. intros [] Hc. by split. Qed.

(** Peek returns a slot exactly when the oldest ticket has been published. *)
Lemma peek_spec n s q : Z.of_nat n <= 2 ^ 62 -> ring_inv n s q ->
  lmk_ring_peek_slot (mask_of k) (rs_tail s) (rs_mem s) =
    (let sl := mem_slot (mask_of k) (rs_tail s) (rs_mem s) in
     if sequence sl =? rs_tail s + 1 then Some sl else None).
Proof.
  intros Hn Hinv. unfold lmk_ring_peek_slot. cbv zeta.
  pose proof (inv_head _ _ _ Hinv). pose proof (inv_tail _ _ _ Hinv).
  pose proof (inv_steps _ _ _ Hinv).
  pose proof (sequence_bounds n s q 0 Hinv ltac:(pose proof (cap_pos k); lia)) as Hs.
  rewrite Z.add_0_r in Hs. rewrite w64_small, seq_diff_small by lia.
  destruct (Z.eqb_spec (sequence (mem_slot (mask_of k) (rs_tail s) (rs_mem s)) - (rs_tail s + 1)) 0),
    (Z.eqb_spec (sequence (mem_slot (mask_of k) (rs_tail s) (rs_mem s))) (rs_tail s + 1)); done || lia.
Qed.

Lemma ring_inv_peek n s q slot : Z.of_nat n <= 2 ^ 62 -> ring_inv n s q ->
  lmk_ring_peek_slot (mask_of k) (rs_tail s) (rs_mem s) = Some slot ->
  0 < Z.of_nat (length q) /\
  sequence (mem_slot (mask_of k) (rs_tail s) (rs_mem s)) = rs_tail s + 1.
Proof.
  intros Hn Hinv. rewrite (peek_spec n s q) by done. cbv zeta.
  destruct (Z.eqb_spec (sequence (mem_slot (mask_of k) (rs_tail s) (rs_mem s))) (rs_tail s + 1))
    as [He|]; [|done]. intros _. split; [|done].
  pose proof (sequence_bounds n s q 0 Hinv ltac:(pose proof (cap_pos k); lia)) as Hs.
  rewrite Z.add_0_r in Hs. lia.
Qed.

Lemma ring_inv_read n s q : ring_inv n s q -> rs_cons s = ConsRead ->
  cons_ok (mk_ring_state (rs_mem s) (rs_tail s)
    (ConsConsume (view_of_request (req (mem_slot (mask_of k) (rs_tail s) (rs_mem s)))))
    (rs_prods s)) q.
Proof.
  intros Hinv Hc. pose proof (inv_cons _ _ _ Hinv) as Hok. unfold cons_ok in *. rewrite Hc in Hok.
  destruct Hok as [Hq Hs]. simpl. split; [|done].
  pose proof (inv_slots _ _ _ Hinv 0 ltac:(pose proof (cap_pos k); lia)) as Hslot.
  unfold slot_ok in Hslot. rewrite Z.add_0_r in Hslot. simpl in Hslot.
  destruct q as [|v q]; [done|]. simpl in *. destruct Hslot as [[_ <-]|[? _]]; [done|lia].
Qed.

(** *** A producer's step *)

(** The steps on a slot the thread has claimed. *)
Lemma ring_inv_enq_owned n s q tid th pos weak m' pc' ev :
  Z.of_nat n < 2 ^ 62 -> ring_inv n s q -> rs_prods s !! tid = Some th -> claim (et_pc th) = Some pos ->
  enq_step (mask_of k) (et_rec th) (et_handler th) weak (rs_mem s) (et_pc th) = (m', pc', ev) ->
  ev = EvTau /\
  ring_inv (S n) (mk_ring_state m' (rs_tail s) (rs_cons s) (<[tid := set_pc th pc']> (rs_prods s))) q.
Proof.
  intros Hn Hinv Htid Hclaim Henq. apply (ring_inv_mono n (S n)) in Hinv as HinvS; [|lia].
  pose proof (inv_prods _ _ _ Hinv tid th Htid) as [Hwf Hok].
  pose proof (inv_head _ _ _ Hinv) as Hhead. pose proof (inv_tail _ _ _ Hinv) as Htail.
  pose proof (inv_steps _ _ _ Hinv) as Hsteps.
  destruct (et_pc th) as [|pos'|pos'|pos'|pos'|pos'|pos'|r] eqn:Hpc; simpl in Hclaim, Henq, Hok; try done;
    simplify_eq; (split; [done|]).
  - destruct Hok as (_ & Hseq & _).
    eapply (ring_inv_write (S n) s q tid th (set_pc th (EnqData pos)) pos); try done.
    + by rewrite Hpc.
    + left. by split_and!.
  - destruct Hok as (_ & Hseq & Hp). unfold payload_ok in Hp. rewrite Hpc in Hp.
    eapply (ring_inv_write (S n) s q tid th (set_pc th (EnqNul pos)) pos); try done.
    + by rewrite Hpc.
    + intros sl. by apply buf_ok_data.
    + left. split_and!; [done..|]. by apply payload_data.
  - destruct Hok as (_ & Hseq & Hp). unfold payload_ok in Hp. rewrite Hpc in Hp.
    eapply (ring_inv_write (S n) s q tid th (set_pc th (EnqPublish pos)) pos); try done.
    + by rewrite Hpc.
    + intros sl. apply buf_ok_nul.
    + left. split_and!; [done..|]. apply payload_nul; [done|apply (inv_buf _ _ _ Hinv)|done].
  - destruct Hok as (Hr & Hseq & Hp). unfold payload_ok in Hp. rewrite Hpc in Hp.
    eapply (ring_inv_write (S n) s q tid th (set_pc th (EnqDone true)) pos); try done.
    + by rewrite Hpc.
    + right. split_and!; [done|simpl; apply w64_small; lia|done|done].
Qed.

Lemma ring_inv_enq n s q tid th weak m' pc' ev :
  Z.of_nat n < 2 ^ 62 -> ring_inv n s q -> rs_prods s !! tid = Some th ->
  enq_step (mask_of k) (et_rec th) (et_handler th) weak (rs_mem s) (et_pc th) = (m', pc', ev) ->
  exists q', fifo_step (cap k) q ev q' /\
    ring_inv (S n) (mk_ring_state m' (rs_tail s) (rs_cons s) (<[tid := set_pc th pc']> (rs_prods s))) q'.
Proof.
  intros Hn Hinv Htid Henq. apply (ring_inv_mono n (S n)) in Hinv as HinvS; [|lia].
  pose proof (inv_prods _ _ _ Hinv tid th Htid) as [Hwf Hok].
  pose proof (inv_head _ _ _ Hinv) as Hhead. pose proof (inv_tail _ _ _ Hinv) as Htail.
  pose proof (inv_steps _ _ _ Hinv) as Hsteps.
  destruct (claim (et_pc th)) as [pos|] eqn:Hclaim.
  { destruct (ring_inv_enq_owned n s q tid th pos weak m' pc' ev) as [-> ?]; [done..|].
    exists q. by split; [constructor|]. }
  (* the steps that leave the memory alone *)
  assert (claim pc' = None -> m' = rs_mem s -> thread_ok s q (set_pc th pc') ->
    ring_inv (S n) (mk_ring_state m' (rs_tail s) (rs_cons s)
      (<[tid := set_pc th pc']> (rs_prods s))) q) as Hmove.
  { intros Hc -> Hpc. apply (ring_inv_move (S n) s q tid (Some th)); try done.
    - simpl. congruence.
    - by intros ? [= ->]. }
  destruct (et_pc th) as [|pos|pos|pos|pos|pos|pos|r] eqn:Hpc; simpl in Hclaim, Henq, Hok; try done.
  - simplify_eq. exists q. split; [constructor|]. apply Hmove; [done..|]. split; [done|]. simpl. lia.
  - destruct (load_seq_spec n s q pos Hn Hinv Hok) as (Hzero & Hneg & Hgt).
    destruct (Z.eqb_spec (seq_diff (sequence (mem_slot (mask_of k) pos (rs_mem s))) pos) 0) as [He|Hne];
      [|destruct (Z.ltb_spec (seq_diff (sequence (mem_slot (mask_of k) pos (rs_mem s))) pos) 0)];
      simplify_eq; exists q.
    + split; [constructor|]. apply Hmove; [done..|]. split; [done|]. simpl. auto.
    + split; [constructor; auto|]. by apply Hmove.
    + split; [constructor|]. by apply Hmove.
  - destruct (negb weak && (rm_head (rs_mem s) =? pos)) eqn:Hcas; simplify_eq.
    + apply andb_true_iff in Hcas as [_ Hcas%Z.eqb_eq].
      destruct (ring_inv_claim n s q tid th pos) as [Hroom Hinv']; [done..|].
      eexists. split; [by constructor|]. done.
    + exists q. split; [constructor|]. apply Hmove; [done..|]. split; [done|]. simpl. lia.
  - simplify_eq. exists q. split; [constructor|]. by apply Hmove.
Qed.

(** *** Refinement: every step of the machine is a step of the queue *)

Lemma ring_inv_step n s ev s' q :
  Z.of_nat n < 2 ^ 62 -> ring_inv n s q -> ring_step (mask_of k) s ev s' ->
  exists q', fifo_step (cap k) q ev q' /\ ring_inv (S n) s' q'.
Proof.
  intros Hn Hinv Hstep. apply (ring_inv_mono n (S n)) in Hinv as HinvS; [|lia].
  inversion Hstep as [? tid rec h Hnone Hwf|? tid th weak m' pc' ? Htid Henq|? tid th r Htid Hpc
    |? slot Hc Hpeek|? Hc|? v m' tail' Hc Hcons]; subst.
  - exists q. split; [constructor|].
    apply (ring_inv_move (S n) s q tid None); done.
  - by apply (ring_inv_enq n s q tid th weak m' pc').
  - exists q. split; [constructor|].
    apply (ring_inv_delete (S n) s q tid th); [done..|]. by rewrite Hpc.
  - exists q. split; [constructor|]. apply (ring_inv_peek (S n) s q) in Hpeek; [|lia|done].
    apply ring_inv_cons; [done|]. exact Hpeek.
  - exists q. split; [constructor|]. apply ring_inv_cons; [done|].
    by eapply ring_inv_read.
  - destruct (ring_inv_consume n s v q m' tail') as (q' & -> & Hinv'); [done..|].
    exists q'. split; [constructor|]. apply (ring_inv_mono n); [lia|done].
Qed.

(** *** One call run without interference *)

(** The state in which thread [tid] has reached [pc] and memory is [m]. *)
Definition at_pc (s : ring_state) (tid : nat) (th : enq_thread) (m : ring_mem) (pc : enq_pc) :
    ring_state :=
  mk_ring_state m (rs_tail s) (rs_cons s) (<[tid := set_pc th pc]> (rs_prods s)).

Lemma at_pc_step n s q tid th m pc weak m' pc' ev :
  Z.of_nat n < 2 ^ 62 -> ring_inv n (at_pc s tid th m pc) q ->
  enq_step (mask_of k) (et_rec th) (et_handler th) weak m pc = (m', pc', ev) ->
  exists q', fifo_step (cap k) q ev q' /\ ring_inv (S n) (at_pc s tid th m' pc') q'.
Proof.
  intros Hn Hinv Henq.
  destruct (ring_inv_enq n (at_pc s tid th m pc) q tid (set_pc th pc) weak m' pc' ev)
    as (q' & Hq & Hinv'); [done|done|by apply lookup_insert_eq|done|].
  exists q'. split; [done|]. unfold at_pc in *; simpl in *. by rewrite insert_insert_eq in Hinv'.
Qed.

Lemma at_pc_tau n s q tid th m pc m' pc' :
  Z.of_nat n < 2 ^ 62 -> ring_inv n (at_pc s tid th m pc) q ->
  enq_step (mask_of k) (et_rec th) (et_handler th) false m pc = (m', pc', EvTau) ->
  ring_inv (S n) (at_pc s tid th m' pc') q.
Proof.
  intros Hn Hinv He.
  destruct (at_pc_step n s q tid th m pc false m' pc' EvTau) as (q' & Hq & ?); [done..|].
  by inversion Hq; subst.
Qed.

Definition steps_left (pc : enq_pc) : nat :=
  match pc with
  | EnqMeta _ => 4 | EnqData _ => 3 | EnqNul _ => 2 | EnqPublish _ => 1 | _ => 0
  end.

Lemma enq_run_done fuel mask rec h m r : enq_run fuel mask rec h m (EnqDone r) = Some (m, r).
Proof. by destruct fuel. Qed.

(** Once a ticket is claimed, the call publishes it in at most four steps. *)
Lemma enq_run_owned fuel n s q tid th m pc :
  Z.of_nat n + Z.of_nat fuel < 2 ^ 62 -> ring_inv n (at_pc s tid th m pc) q ->
  is_Some (claim pc) -> (steps_left pc <= fuel)%nat ->
  exists m', enq_run fuel (mask_of k) (et_rec th) (et_handler th) m pc = Some (m', true) /\
    ring_inv (n + fuel) (at_pc s tid th m' (EnqDone true)) q.
Proof.
  revert n m pc. induction fuel as [|fuel IH]; intros n m pc Hn Hinv [pos Hc] Hfuel.
  { destruct pc; simpl in *; done || lia. }
  replace (n + S fuel)%nat with (S n + fuel)%nat by lia.
  destruct pc as [| | |pos0|pos0|pos0|pos0|]; simpl in Hc; simplify_eq; simpl in Hfuel |- *.
  1-3: apply (IH (S n)); [lia|by eapply at_pc_tau; [lia|..]|by eexists|simpl; lia].
  rewrite enq_run_done. eexists. split; [done|].
  apply (ring_inv_mono (S n)); [lia|]. by eapply at_pc_tau; [lia|..].
Qed.

(** A call that has not claimed a ticket yet: it ends, and its answer says
    whether the record was enqueued or the queue was full. *)
Definition unclaimed_steps (head : Z) (pc : enq_pc) : nat :=
  match pc with
  | EnqLoadHead => 7
  | EnqLoadSeq pos => if pos =? head then 6 else 8
  | EnqCas pos => if pos =? head then 5 else 7
  | _ => 0
  end.

Lemma enq_run_unclaimed fuel n s q tid th m pc :
  Z.of_nat n + Z.of_nat fuel < 2 ^ 62 -> ring_inv n (at_pc s tid th m pc) q ->
  (0 < unclaimed_steps (rm_head m) pc <= fuel)%nat ->
  exists m' r q', enq_run fuel (mask_of k) (et_rec th) (et_handler th) m pc = Some (m', r) /\
    ring_inv (n + fuel) (at_pc s tid th m' (EnqDone r)) q' /\
    (if r then Z.of_nat (length q) < cap k /\ q' = q ++ [view_of_record (et_rec th) (et_handler th)]
     else Z.of_nat (length q) = cap k /\ q' = q).
Proof.
  revert n m pc. induction fuel as [|fuel IH]; intros n m pc Hn Hinv Hfuel; [lia|].
  replace (n + S fuel)%nat with (S n + fuel)%nat by lia.
  pose proof (inv_head _ _ _ Hinv) as Hhead. simpl in Hhead.
  destruct (inv_prods _ _ _ Hinv tid (set_pc th pc)) as [Hwf Hok]; [by apply lookup_insert_eq|].
  destruct pc as [|pos|pos| | | | |]; simpl in Hfuel, Hok; try lia; simpl.
  - apply (IH (S n)); [lia|by eapply at_pc_tau; [lia|..]|]. simpl. rewrite Z.eqb_refl. lia.
  - destruct (load_seq_spec n _ q pos ltac:(lia) Hinv Hok) as (Hzero & Hneg & Hgt). simpl in *.
    set (d := seq_diff _ _) in *.
    assert (enq_step (mask_of k) (et_rec th) (et_handler th) false m (EnqLoadSeq pos) =
      if d =? 0 then (m, EnqCas pos, EvTau)
      else if d <? 0 then (m, EnqDone false, EvFull) else (m, EnqLoadHead, EvTau)) as Hstep by done.
    destruct (Z.eqb_spec d 0); [|destruct (Z.ltb_spec d 0)].
    + apply (IH (S n)); [lia|by eapply at_pc_tau; [lia|..]|]. simpl. destruct (pos =? rm_head m); lia.
    + rewrite enq_run_done. eexists m, false, q. split; [done|].
      destruct (at_pc_step n s q tid th m (EnqLoadSeq pos) false m (EnqDone false) EvFull)
        as (q' & Hq & Hinv'); [lia|done..|]. inversion Hq; subst.
      split; [|done]. apply (ring_inv_mono (S n)); [lia|done].
    + apply (IH (S n)); [lia|by eapply at_pc_tau; [lia|..]|]. simpl.
      rewrite (proj2 (Z.eqb_neq pos _)) in Hfuel by lia. lia.
  - destruct (Z.eqb_spec pos (rm_head m)) as [->|Hne].
    + rewrite Z.eqb_refl in *. simpl.
      destruct (at_pc_step n s q tid th m (EnqCas (rm_head m)) false
        (mk_ring_mem (rm_slots m) (w64 (rm_head m + 1))) (EnqMeta (rm_head m))
        (EvEnq (view_of_record (et_rec th) (et_handler th)))) as (q' & Hq & Hinv');
        [lia|done|simpl; by rewrite Z.eqb_refl|].
      inversion Hq; subst.
      destruct (enq_run_owned fuel (S n) s (q ++ [view_of_record (et_rec th) (et_handler th)]) tid th
        _ _ ltac:(lia) Hinv') as (m' & Hrun & Hinv2); [by eexists|simpl; lia|].
      exists m', true. eexists. split; [exact Hrun|]. done.
    + rewrite (proj2 (Z.eqb_neq (rm_head m) pos)) by done. simpl.
      apply (IH (S n)); [lia| |simpl; rewrite Z.eqb_refl; lia].
      eapply at_pc_tau; [lia|done|]. simpl. by rewrite (proj2 (Z.eqb_neq (rm_head m) pos)).
Qed.
End invariant.

(** ** Executable schedules *)

Inductive ring_action :=
  | ActCall (tid : nat) (rec : lmk_log_record) (h : string)
  | ActEnq (tid : nat) (weak : bool)
  | ActReturn (tid : nat)
  | ActConsumer.

(** One scheduled action; [None] when it is not enabled. *)
Definition ring_act (mask : Z) (s : ring_state) (a : ring_action) : option (ring_event * ring_state) :=
  match a with
  | ActCall tid rec h =>
      match rs_prods s !! tid with
      | Some _ => None
      | None =>
          if (0 <=? rec_data_len rec) && (rec_data_len rec <=? Z.of_nat (length (rec_data rec))) &&
             (rec_data_len rec <? 2 ^ 64)
          then Some (EvTau, mk_ring_state (rs_mem s) (rs_tail s) (rs_cons s)
                 (<[tid := mk_enq_thread rec h EnqLoadHead]> (rs_prods s)))
          else None
      end
  | ActEnq tid weak =>
      th ← rs_prods s !! tid;
      let '(m', pc', ev) := enq_step mask (et_rec th) (et_handler th) weak (rs_mem s) (et_pc th) in
      Some (ev, mk_ring_state m' (rs_tail s) (rs_cons s) (<[tid := set_pc th pc']> (rs_prods s)))
  | ActReturn tid =>
      th ← rs_prods s !! tid;
      match et_pc th with
      | EnqDone _ =>
          Some (EvTau, mk_ring_state (rs_mem s) (rs_tail s) (rs_cons s) (delete tid (rs_prods s)))
      | _ => None
      end
  | ActConsumer =>
      match rs_cons s with
      | ConsPeek =>
          match lmk_ring_peek_slot mask (rs_tail s) (rs_mem s) with
          | Some _ => Some (EvTau, mk_ring_state (rs_mem s) (rs_tail s) ConsRead (rs_prods s))
          | None => None
          end
      | ConsRead =>
          Some (EvTau, mk_ring_state (rs_mem s) (rs_tail s)
            (ConsConsume (view_of_request (req (mem_slot mask (rs_tail s) (rs_mem s))))) (rs_prods s))
      | ConsConsume v =>
          let '(m', tail') := lmk_ring_consume mask (rs_tail s) (rs_mem s) in
          Some (EvDeq v, mk_ring_state m' tail' ConsPeek (rs_prods s))
      end
  end.

Lemma ring_act_step mask s a ev s' : ring_act mask s a = Some (ev, s') -> ring_step mask s ev s'.
Proof.
  destruct a as [tid rec h|tid weak|tid|]; simpl.
  - destruct (rs_prods s !! tid) eqn:Htid; [done|].
    destruct (_ && _ && _) eqn:Hwf; [|done]. intros [= <- <-].
    apply step_call; [done|]. unfold wf_record. lia.
  - destruct (rs_prods s !! tid) as [th|] eqn:Htid; simpl; [|done].
    destruct (enq_step _ _ _ _ _ _) as [[m' pc'] ev'] eqn:Henq. intros [= <- <-].
    by eapply step_enq.
  - destruct (rs_prods s !! tid) as [th|] eqn:Htid; simpl; [|done].
    destruct (et_pc th) eqn:Hpc; try done. intros [= <- <-]. by eapply step_return.
  - destruct (rs_cons s) eqn:Hc.
    + destruct (lmk_ring_peek_slot _ _ _) eqn:Hp; [|done]. intros [= <- <-]. by eapply step_peek.
    + intros [= <- <-]. by apply step_read.
    + destruct (lmk_ring_consume mask (rs_tail s) (rs_mem s)) as [m' tail'] eqn:Hp. intros [= <- <-]. by eapply step_consume.
Qed.

(** Runs a schedule, skipping the actions that are not enabled. *)
Fixpoint ring_schedule (mask : Z) (s : ring_state) (acts : list ring_action) :
    list ring_event * ring_state :=
  match acts with
  | [] => ([], s)
  | a :: acts' =>
      match ring_act mask s a with
      | Some (ev, s') => let '(tr, s'') := ring_schedule mask s' acts' in (ev :: tr, s'')
      | None => ring_schedule mask s acts'
      end
  end.

Lemma ring_schedule_run mask s acts :
  run (ring_step mask) s (ring_schedule mask s acts).1 (ring_schedule mask s acts).2.
Proof.
  revert s. induction acts as [|a acts IH]; intros s; simpl; [constructor|].
  destruct (ring_act mask s a) as [[ev s']|] eqn:Ha; [|apply IH].
  specialize (IH s'). destruct (ring_schedule mask s' acts) as [tr s'']; simpl in *.
  eapply run_cons; [by eapply ring_act_step|done].
Qed.

(** ** Observations of a trace *)

Definition enqueued (tr : list ring_event) : list log_view :=
  omap (fun ev => match ev with EvEnq v => Some v | _ => None end) tr.

Definition dequeued (tr : list ring_event) : list log_view :=
  omap (fun ev => match ev with EvDeq v => Some v | _ => None end) tr.

Lemma fifo_run_conserves capacity tr q :
  0 <= capacity -> run (fifo_step capacity) [] tr q ->
  enqueued tr = dequeued tr ++ q /\ Z.of_nat (length q) <= capacity.
Proof.
  intros Hcap Hrun. induction Hrun as [|tr q ev q' _ [IH Hlen] Hstep]; [by split; [|simpl; lia]|].
  unfold enqueued, dequeued in *. rewrite !omap_app, IH.
  inversion Hstep; subst; simpl; rewrite ?app_nil_r; try done; rewrite <- !app_assoc; simpl in *.
  - split; [done|]. rewrite length_app. simpl. lia.
  - split; [done|]. lia.
Qed.

Lemma ring_run_refines k tr s :
  (1 <= k <= 32)%nat -> Z.of_nat (length tr) <= 2 ^ 62 ->
  run (ring_step (mask_of k)) (ring_start k) tr s ->
  exists q, run (fifo_step (cap k)) [] tr q /\ ring_inv k (length tr) s q.
Proof.
  intros Hk Hlen Hrun.
  apply (run_simulation (ring_step (mask_of k)) (fifo_step (cap k)) (ring_inv k) (2 ^ 62)
    ltac:(intros n s1 t1 e s1' Hn Hinv Hstep; by eapply (ring_inv_step k Hk n s1 e s1' t1))
    (ring_start k) [] tr s Hrun Hlen).
  apply ring_inv_start.
Qed.

(** A sequential call: the answer and the new contents are those of the queue. *)
Lemma ring_enqueue_seq k n s q rec h :
  (1 <= k <= 32)%nat -> Z.of_nat n + 13 < 2 ^ 62 -> ring_inv k n s q -> wf_record rec ->
  exists m', lmk_ring_enqueue (mask_of k) rec h (rs_mem s) =
      Some (m', bool_decide (Z.of_nat (length q) < cap k)) /\
    ring_inv k (n + 13) (mk_ring_state m' (rs_tail s) (rs_cons s) (rs_prods s))
      (if bool_decide (Z.of_nat (length q) < cap k) then q ++ [view_of_record rec h] else q).
Proof.
  intros Hk Hn Hinv Hwf. set (tid := fresh (dom (rs_prods s))).
  assert (rs_prods s !! tid = None) as Hfresh.
  { apply not_elem_of_dom. apply is_fresh. }
  set (th := mk_enq_thread rec h EnqLoadHead).
  destruct (ring_inv_step k Hk n s EvTau _ q ltac:(lia) Hinv
    (step_call _ s tid rec h Hfresh Hwf)) as (q0 & Hq0 & Hinv0).
  inversion Hq0; subst q0 q1; clear Hq0.
  destruct (enq_run_unclaimed k Hk enq_fuel (S n) s q tid th (rs_mem s) EnqLoadHead)
    as (m' & r & q' & Hrun & Hinv' & Hr); [unfold enq_fuel; lia|done|simpl; unfold enq_fuel; lia|].
  exists m'.
  assert (bool_decide (Z.of_nat (length q) < cap k) = r /\
    q' = if r then q ++ [view_of_record rec h] else q) as [-> ->].
  { destruct r, Hr as [Hr ->]; [by rewrite bool_decide_eq_true_2|].
    rewrite bool_decide_eq_false_2 by lia. done. }
  split; [done|].
  apply (ring_inv_delete k _ _ _ tid (set_pc th (EnqDone r))) in Hinv';
    [|by apply lookup_insert_eq|done].
  unfold with_prods, at_pc in Hinv'; simpl in Hinv'.
  rewrite delete_insert_id in Hinv' by done.
  replace (n + 13)%nat with (S n + enq_fuel)%nat by (unfold enq_fuel; lia). done.
Qed.

(** Sequential consumption: what [peek] shows is the head of the queue. *)
Lemma ring_consume_seq k n s q :
  (1 <= k <= 32)%nat -> Z.of_nat n + 3 < 2 ^ 62 -> ring_inv k n s q -> rs_cons s = ConsPeek ->
  rs_prods s = ∅ ->
  match lmk_ring_peek_slot (mask_of k) (rs_tail s) (rs_mem s) with
  | None => q = []
  | Some sl => exists q', q = view_of_request (req sl) :: q' /\
      let '(m', tail') := lmk_ring_consume (mask_of k) (rs_tail s) (rs_mem s) in
      ring_inv k (n + 3) (mk_ring_state m' tail' ConsPeek ∅) q'
  end.
Proof.
  intros Hk Hn Hinv Hc Hnone.
  pose proof (peek_spec k Hk n s q ltac:(lia) Hinv) as Hpeek. cbv zeta in Hpeek. rewrite Hpeek.
  pose proof (inv_slots _ _ _ _ Hinv 0 ltac:(pose proof (cap_pos k); lia)) as Hslot.
  unfold slot_ok in Hslot. rewrite Z.add_0_r in Hslot. simpl in Hslot.
  destruct (Z.eqb_spec (sequence (mem_slot (mask_of k) (rs_tail s) (rs_mem s))) (rs_tail s + 1)) as [He|Hne].
  - destruct q as [|v q]; simpl in Hslot; [lia|].
    destruct Hslot as [[_ Hv]|[? _]]; [|lia].
    exists q. rewrite Hv. split; [done|].
    destruct (lmk_ring_consume (mask_of k) (rs_tail s) (rs_mem s)) as [m' tail'] eqn:Hcons.
    destruct (ring_inv_consume k Hk (n + 3) (mk_ring_state (rs_mem s) (rs_tail s) (ConsConsume v) ∅) v (v :: q) m' tail')
      as (q' & Hq & Hinv'); [lia| |done|done|by simplify_eq].
    rewrite <- Hnone. apply ring_inv_cons; [|by split].
    by apply (ring_inv_mono k n); [lia|].
  - destruct q as [|v q]; [done|]. simpl in Hslot. destruct Hslot as [[? _]|(_ & tid & th & Htid & _)]; [lia|].
    by rewrite Hnone in Htid.
Qed.

(** ** Theorems *)

(** C26. The ring refines the bounded FIFO queue: whatever the producers and the
    consumer interleave, the observable events are a run of the queue of
    capacity [2 ^ k] that starts empty. *)
Theorem ring_refines_bounded_fifo (k : nat) (tr : list ring_event) (s : ring_state)
    (Hk : (1 <= k <= 32)%nat) (Hlen : Z.of_nat (length tr) <= 2 ^ 62)
    (Hrun : run (ring_step (mask_of k)) (ring_start k) tr s) :
  exists q, run (fifo_step (cap k)) [] tr q.
Proof. destruct (ring_run_refines k tr s Hk Hlen Hrun) as (q & Hq & _). by exists q. Qed.

(** Delivery: the consumer receives exactly what was enqueued, in order and
    intact, and at most [2 ^ k] records are outstanding. *)
Theorem ring_delivers_in_order (k : nat) (tr : list ring_event) (s : ring_state)
    (Hk : (1 <= k <= 32)%nat) (Hlen : Z.of_nat (length tr) <= 2 ^ 62)
    (Hrun : run (ring_step (mask_of k)) (ring_start k) tr s) :
  exists outstanding, enqueued tr = dequeued tr ++ outstanding /\
    Z.of_nat (length outstanding) <= cap k.
Proof.
  destruct (ring_run_refines k tr s Hk Hlen Hrun) as (q & Hq & _). exists q.
  apply (fifo_run_conserves (cap k)); [|done]. pose proof (cap_pos k). lia.
Qed.

(** C32. An enqueue gives up only when all [2 ^ k] slots hold unconsumed records. *)
Theorem ring_rejects_only_when_full (k : nat) (tr : list ring_event) (s s' : ring_state)
    (Hk : (1 <= k <= 32)%nat) (Hlen : Z.of_nat (length tr) < 2 ^ 62)
    (Hrun : run (ring_step (mask_of k)) (ring_start k) tr s)
    (Hfull : ring_step (mask_of k) s EvFull s') :
  Z.of_nat (length (enqueued tr)) = Z.of_nat (length (dequeued tr)) + cap k.
Proof.
  destruct (ring_run_refines k tr s Hk ltac:(lia) Hrun) as (q & Hq & Hinv).
  destruct (ring_inv_step k Hk _ _ _ _ _ Hlen Hinv Hfull) as (q' & Hq' & _).
  inversion Hq'; subst.
  destruct (fifo_run_conserves (cap k) tr q' ltac:(lia) Hq) as [He _].
  rewrite He, length_app. lia.
Qed.

(** C38. Obstruction freedom: in every reachable state, each thread inside
    [lmk_ring_enqueue] returns within [enq_fuel] of its own steps when it runs alone. *)
Theorem ring_enqueue_solo_returns (k : nat) (tr : list ring_event) (s : ring_state)
    (tid : nat) (th : enq_thread)
    (Hk : (1 <= k <= 32)%nat) (Hlen : Z.of_nat (length tr) + 12 < 2 ^ 62)
    (Hrun : run (ring_step (mask_of k)) (ring_start k) tr s)
    (Hth : rs_prods s !! tid = Some th) :
  exists m' r, enq_run enq_fuel (mask_of k) (et_rec th) (et_handler th) (rs_mem s) (et_pc th)
    = Some (m', r).
Proof.
  destruct (ring_run_refines k tr s Hk ltac:(lia) Hrun) as (q & _ & Hinv).
  assert (ring_inv k (length tr) (at_pc s tid th (rs_mem s) (et_pc th)) q) as Hat.
  { unfold at_pc. rewrite insert_id by (by destruct th). by destruct s. }
  destruct (decide (is_Some (claim (et_pc th)))) as [Hc|Hc].
  - destruct (enq_run_owned k Hk enq_fuel (length tr) s q tid th (rs_mem s) (et_pc th)) as (m' & ? & _);
      [unfold enq_fuel; lia|done|done|destruct (et_pc th); simpl; unfold enq_fuel; lia|]. by eauto.
  - destruct (et_pc th) as [|pos|pos|pos|pos|pos|pos|r] eqn:Hpc;
      try (destruct Hc; simpl; by eexists); [..|by exists (rs_mem s), r].
    all: edestruct (enq_run_unclaimed k Hk enq_fuel) as (m' & r & q' & ? & _);
      [|exact Hat|simpl|by eauto]; unfold enq_fuel; try lia.
    all: destruct (pos =? rm_head (rs_mem s)); lia.
Qed.

(** The result of an uninterrupted call: 1 exactly when fewer than [2 ^ k]
    records are outstanding, and then the record is the next in line. *)
Theorem ring_enqueue_result (k : nat) (tr : list ring_event) (s : ring_state)
    (rec : lmk_log_record) (h : string)
    (Hk : (1 <= k <= 32)%nat) (Hlen : Z.of_nat (length tr) + 16 < 2 ^ 62)
    (Hrun : run (ring_step (mask_of k)) (ring_start k) tr s) (Hwf : wf_record rec)
    (Hidle : rs_prods s = ∅) :
  let room := bool_decide (Z.of_nat (length (enqueued tr)) < Z.of_nat (length (dequeued tr)) + cap k) in
  exists m', lmk_ring_enqueue (mask_of k) rec h (rs_mem s) = Some (m', room) /\
    (room = true -> enqueued tr = dequeued tr ->
     view_of_request ∘ req <$> lmk_ring_peek_slot (mask_of k) (rs_tail s) m' =
       Some (view_of_record rec h)).
Proof.
  destruct (ring_run_refines k tr s Hk ltac:(lia) Hrun) as (q & Hq & Hinv).
  destruct (fifo_run_conserves (cap k) tr q ltac:(pose proof (cap_pos k); lia) Hq) as [He _].
  assert (bool_decide (Z.of_nat (length (enqueued tr)) < Z.of_nat (length (dequeued tr)) + cap k)
    = bool_decide (Z.of_nat (length q) < cap k)) as ->.
  { apply bool_decide_ext. rewrite He, length_app. lia. }
  destruct (ring_enqueue_seq k (length tr) s q rec h Hk ltac:(lia) Hinv Hwf) as (m' & Hm' & Hinv').
  exists m'. split; [done|]. intros Hroom Heq. rewrite Hroom in Hinv'.
  rewrite He in Heq. assert (q = []) as -> by (by apply (app_inv_head (dequeued tr)); rewrite app_nil_r).
  simpl in Hinv'.
  pose proof (ring_consume_seq k (length tr + 13) (mk_ring_state m' (rs_tail s) ConsPeek (rs_prods s))
    [view_of_record rec h] Hk ltac:(lia)) as Hpeek. simpl in Hpeek.
  assert (ring_inv k (length tr + 13) (mk_ring_state m' (rs_tail s) ConsPeek (rs_prods s))
    [view_of_record rec h]) as Hinv0 by (by eapply (ring_inv_cons k _ (mk_ring_state m' _ _ _))).
  specialize (Hpeek Hinv0 eq_refl Hidle).
  destruct (lmk_ring_peek_slot (mask_of k) (rs_tail s) m') as [sl|]; [|done].
  destruct Hpeek as (q' & Hview & _). apply (f_equal head) in Hview. by symmetry.
Qed.

(** ** Witnesses *)

Section witnesses.
(** Two producers race for a ring of two slots; a third record finds it full;
    the consumer then drains one record. *)
Definition sample_record (c : ascii) (level : Z) : lmk_log_record :=
  mk_log_record level [c; c; c] 3 10 "main.c".

Definition enq_times (tid n : nat) : list ring_action := replicate n (ActEnq tid false).

Definition race_schedule : list ring_action :=
  [ActCall 0 (sample_record "a" 2) "h"; ActCall 1 (sample_record "b" 3) "h"] ++
  enq_times 0 2 ++ enq_times 1 2 ++ [ActEnq 0 true] ++ enq_times 0 2 ++ enq_times 1 3 ++
  enq_times 1 4 ++ enq_times 0 4 ++ [ActReturn 0; ActReturn 1].

Definition full_schedule : list ring_action :=
  race_schedule ++ [ActCall 2 (sample_record "c" 4) "h"; ActEnq 2 false].

Definition drain_schedule : list ring_action :=
  race_schedule ++ [ActConsumer; ActConsumer; ActConsumer].

Abbreviation sched acts := (ring_schedule (mask_of 1) (ring_start 1) acts).

Lemma ring_refines_bounded_fifo_witness :
  length (sched drain_schedule).1 = 25%nat /\
  exists q, run (fifo_step (cap 1)) [] (sched drain_schedule).1 q.
Proof.
  split; [by vm_compute|].
  refine (ring_refines_bounded_fifo 1 _ (sched drain_schedule).2 _ _ (ring_schedule_run _ _ _)).
  - lia.
  - by vm_compute.
Defined.

Lemma ring_delivers_in_order_witness :
  v_text <$> dequeued (sched drain_schedule).1 = [["a"; "a"; "a"]]%char /\
  exists outstanding, enqueued (sched drain_schedule).1 =
      dequeued (sched drain_schedule).1 ++ outstanding /\
    Z.of_nat (length outstanding) <= cap 1.
Proof.
  split; [by vm_compute|].
  refine (ring_delivers_in_order 1 _ (sched drain_schedule).2 _ _ (ring_schedule_run _ _ _)).
  - lia.
  - by vm_compute.
Defined.

Lemma ring_rejects_only_when_full_witness :
  Z.of_nat (length (enqueued (sched full_schedule).1)) =
    Z.of_nat (length (dequeued (sched full_schedule).1)) + cap 1.
Proof.
  refine (ring_rejects_only_when_full 1 _ (sched full_schedule).2
    (default (ring_start 1) (snd <$> ring_act (mask_of 1) (sched full_schedule).2 (ActEnq 2 false)))
    _ _ (ring_schedule_run _ _ _) (ring_act_step _ _ (ActEnq 2 false) _ _ _)).
  - lia.
  - by vm_compute.
  - by vm_compute.
Defined.

Lemma ring_enqueue_solo_returns_witness :
  exists m' r, enq_run enq_fuel (mask_of 1) (sample_record "c" 4) "h"
    (rs_mem (sched full_schedule).2) (EnqLoadSeq 2) = Some (m', r).
Proof.
  refine (ring_enqueue_solo_returns 1 _ (sched full_schedule).2 2
    (mk_enq_thread (sample_record "c" 4) "h" (EnqLoadSeq 2)) _ _ (ring_schedule_run _ _ _) _).
  - lia.
  - by vm_compute.
  - by vm_compute.
Defined.

Lemma ring_enqueue_result_witness :
  exists m', lmk_ring_enqueue (mask_of 1) (sample_record "c" 4) "h" (rs_mem (ring_start 1)) =
      Some (m', true) /\
    (true = true -> @nil log_view = [] ->
     view_of_request ∘ req <$> lmk_ring_peek_slot (mask_of 1) 0 m' =
       Some (mk_log_view 4 10 "main.c" "h" ["c"; "c"; "c"]%char)).
Proof.
  refine (ring_enqueue_result 1 [] (ring_start 1) (sample_record "c" 4) "h" _ _ (run_nil _ _) _ _).
  - lia.
  - by vm_compute.
  - unfold wf_record; simpl; lia.
  - done.
Defined.
End witnesses.
