(* ===== verification/DList.v ===== *)
(** [logmoko_list.c] / [logmoko_list.h]: the intrusive circular doubly linked
    list, on an explicit heap of link cells.  A list is a root cell whose
    [next]/[prev] links run through its entries; [dlist h root l] says that
    heap [h] holds the list [l] of entries at [root].  Insertion appends,
    removal deletes, iteration visits the entries in order, and the
    save/restore-cursor loop that destroys entries while iterating drains the
    list exactly when its body unlinks the entry it is given. *)
From S2P Require Import Prelude.

Abbreviation addr := positive.

(** [struct lmk_list]. *)
Record lmk_list := mk_list { next : addr; prev : addr }.

Abbreviation heap := (gmap addr lmk_list).

(** ** Operations *)

Definition set_next (p v : addr) (h : heap) : outcome heap :=
  n ← deref (h !! p); Ok (<[p := mk_list v (prev n)]> h).

Definition set_prev (p v : addr) (h : heap) : outcome heap :=
  n ← deref (h !! p); Ok (<[p := mk_list (next n) v]> h).

Definition get_next (p : addr) (h : heap) : outcome addr := n ← deref (h !! p); Ok (next n).
Definition get_prev (p : addr) (h : heap) : outcome addr := n ← deref (h !! p); Ok (prev n).

Definition lmk_init_list (list : option addr) (h : heap) : outcome heap :=
  match list with
  | None => Ok h
  | Some list => h ← set_prev list list h; set_next list list h
  end.

Definition lmk_is_list_empty (list : option addr) (h : heap) : outcome bool :=
  match list with
  | None => Ok false
  | Some list => n ← get_next list h; Ok (bool_decide (n = list))
  end.

Definition lmk_insert_list (list entry : option addr) (h : heap) : outcome heap :=
  match list, entry with
  | Some list, Some entry =>
      p ← get_prev list h; h ← set_prev entry p h;
      h ← set_next entry list h;
      p ← get_prev list h; h ← set_next p entry h;
      set_prev list entry h
  | _, _ => Ok h
  end.

Definition lmk_remove_list (entry : option addr) (h : heap) : outcome heap :=
  match entry with
  | None => Ok h
  | Some entry =>
      n ← get_next entry h;
      if decide (n = entry) then Ok h else
      p ← get_prev entry h; n ← get_next entry h; h ← set_next p n h;
      n ← get_next entry h; p ← get_prev entry h; set_prev n p h
  end.

(** [LMK_FOR_EACH_ENTRY] with a body that folds over an accumulator. *)
Fixpoint for_each_from {A} (fuel : nat) (list cursor : addr) (body : addr -> A -> A)
    (h : heap) (acc : A) : outcome A :=
  if decide (cursor = list) then Ok acc else
  match fuel with
  | O => Timeout
  | S fuel' =>
      let acc' := body cursor acc in
      n ← get_next cursor h; for_each_from fuel' list n body h acc'
  end.

Definition for_each {A} (fuel : nat) (list : addr) (body : addr -> A -> A) (h : heap) (acc : A) :
    outcome A :=
  n ← get_next list h; for_each_from fuel list n body h acc.

Definition lmk_get_list_size (fuel : nat) (list : option addr) (h : heap) : outcome Z :=
  match list with
  | None => Ok 0%Z
  | Some list => for_each fuel list (fun _ size => (size + 1)%Z) h 0%Z
  end.

(** The destroying loop: [LMK_SAVE_CURSOR] remembers the predecessor, the body
    may unlink and free the cursor, [LMK_RESTORE_CURSOR] steps back.  [W] is
    the whole program state, of which [links] is the link heap. *)
Fixpoint for_each_saved_from {W} (links : W -> heap) (fuel : nat) (list cursor : addr)
    (body : addr -> W -> outcome W) (w : W) : outcome W :=
  if decide (cursor = list) then Ok w else
  match fuel with
  | O => Timeout
  | S fuel' =>
      saved ← get_prev cursor (links w);
      w ← body cursor w;
      n ← get_next saved (links w);
      for_each_saved_from links fuel' list n body w
  end.

Definition for_each_saved {W} (links : W -> heap) (fuel : nat) (list : addr)
    (body : addr -> W -> outcome W) (w : W) : outcome W :=
  n ← get_next list (links w); for_each_saved_from links fuel list n body w.

(** Unlink and free, the body of the listener loop in
    [lmk_socket_log_handler_destroy]. *)
Definition remove_and_free (entry : addr) (h : heap) : outcome heap :=
  h ← lmk_remove_list (Some entry) h; Ok (delete entry h).

(** ** The represented list *)

Definition nx (h : heap) (a : addr) : option addr := next <$> h !! a.
Definition pv (h : heap) (a : addr) : option addr := prev <$> h !! a.

Definition edge (h : heap) (a b : addr) : Prop := nx h a = Some b /\ pv h b = Some a.

(** Consecutive cells of [a :: l] are linked both ways. *)
Fixpoint path (h : heap) (a : addr) (l : list addr) : Prop :=
  match l with
  | [] => True
  | b :: l' => edge h a b /\ path h b l'
  end.

Definition dlist (h : heap) (root : addr) (l : list addr) : Prop :=
  NoDup (root :: l) /\ path h root (l ++ [root]).

Fixpoint final (a : addr) (l : list addr) : addr :=
  match l with [] => a | b :: l' => final b l' end.

(** ** Field access *)

Lemma get_next_ok h a b : nx h a = Some b -> get_next a h = Ok b.
Proof. unfold nx, get_next. destruct (h !! a); simpl; congruence. Qed.

Lemma get_prev_ok h a b : pv h a = Some b -> get_prev a h = Ok b.
Proof. unfold pv, get_prev. destruct (h !! a); simpl; congruence. Qed.

Lemma set_next_ok h p v : is_Some (h !! p) -> exists h', set_next p v h = Ok h' /\
  (forall a, nx h' a = if decide (a = p) then Some v else nx h a) /\
  (forall a, pv h' a = pv h a) /\ dom h' = dom h /\ (forall a, a <> p -> h' !! a = h !! a).
Proof.
  intros [n Hn]. unfold set_next. rewrite Hn. simpl. eexists. split; [done|].
  unfold nx, pv. split_and!.
  - intros a. case_decide as Ha; [subst; by rewrite lookup_insert_eq|by rewrite lookup_insert_ne].
  - intros a. destruct (decide (a = p)) as [->|]; [by rewrite lookup_insert_eq, Hn|by rewrite lookup_insert_ne].
  - apply dom_insert_lookup_L. by eexists.
  - intros a Ha. by rewrite lookup_insert_ne.
Qed.

Lemma set_prev_ok h p v : is_Some (h !! p) -> exists h', set_prev p v h = Ok h' /\
  (forall a, pv h' a = if decide (a = p) then Some v else pv h a) /\
  (forall a, nx h' a = nx h a) /\ dom h' = dom h /\ (forall a, a <> p -> h' !! a = h !! a).
Proof.
  intros [n Hn]. unfold set_prev. rewrite Hn. simpl. eexists. split; [done|].
  unfold nx, pv. split_and!.
  - intros a. case_decide as Ha; [subst; by rewrite lookup_insert_eq|by rewrite lookup_insert_ne].
  - intros a. destruct (decide (a = p)) as [->|]; [by rewrite lookup_insert_eq, Hn|by rewrite lookup_insert_ne].
  - apply dom_insert_lookup_L. by eexists.
  - intros a Ha. by rewrite lookup_insert_ne.
Qed.

Lemma nx_dom h a b : nx h a = Some b -> is_Some (h !! a).
Proof. unfold nx. destruct (h !! a); by eauto. Qed.

Lemma pv_dom h a b : pv h a = Some b -> is_Some (h !! a).
Proof. unfold pv. destruct (h !! a); by eauto. Qed.

(** ** Paths *)

Lemma path_app h a l1 l2 : path h a (l1 ++ l2) <-> path h a l1 /\ path h (final a l1) l2.
Proof. revert a. induction l1 as [|b l1 IH]; intros a; simpl; [tauto|]. rewrite IH. tauto. Qed.

Lemma final_app a l1 l2 : final a (l1 ++ l2) = final (final a l1) l2.
Proof. revert a. induction l1 as [|b l1 IH]; intros a; simpl; [done|]. apply IH. Qed.

Lemma final_elem a l : final a l ∈ a :: l.
Proof.
  revert a. induction l as [|b l IH]; intros a; simpl; [by left|]. apply elem_of_cons. right. apply IH.
Qed.

Lemma final_not_nil a l : l <> [] -> final a l ∈ l.
Proof. destruct l as [|b l]; [done|]. intros _. exact (final_elem b l). Qed.

(** A path only depends on the forward links of its cells but the last, and on
    the backward links of its cells but the first. *)
Lemma path_frame h h' a l : NoDup (a :: l) -> path h a l ->
  (forall x, x ∈ l -> pv h' x = pv h x) ->
  (forall x, x ∈ a :: l -> x <> final a l -> nx h' x = nx h x) -> path h' a l.
Proof.
  revert a. induction l as [|b l IH]; intros a Hnd Hp Hpv Hnx; simpl in *; [done|].
  destruct Hp as [[Hn Hv] Hp]. apply NoDup_cons in Hnd as [Ha Hnd].
  split; [split|].
  - rewrite Hnx; [done|by left|]. intros ->. apply Ha, final_elem.
  - rewrite Hpv; [done|by left].
  - apply IH; [done|done|intros x Hx; apply Hpv; by right|intros x Hx; apply Hnx; by right].
Qed.

Lemma dlist_prev_root h root l : dlist h root l -> pv h root = Some (final root l).
Proof. intros [_ Hp]. apply path_app in Hp as [_ [[_ Hv] _]]. done. Qed.

Lemma dlist_next_root h root l : dlist h root l -> nx h root = Some (default root (head l)).
Proof. intros [_ Hp]. destruct l as [|x l]; simpl in *; by destruct Hp as [[? _] _]. Qed.

Lemma path_dom h a l x : path h a l -> x ∈ l -> is_Some (h !! x).
Proof.
  revert a. induction l as [|b l IH]; intros a Hp Hx; [by apply not_elem_of_nil in Hx|].
  destruct Hp as [[_ Hv] Hp]. apply elem_of_cons in Hx as [->|Hx]; [by eapply pv_dom|by eapply IH].
Qed.

Lemma dlist_dom h root l x : dlist h root l -> x ∈ root :: l -> is_Some (h !! x).
Proof.
  intros [_ Hp] Hx. eapply path_dom; [done|]. apply elem_of_app.
  apply elem_of_cons in Hx as [->|]; [right; by left|by left].
Qed.

(** The list is determined by the heap alone. *)
Lemma dlist_frame h h' root l : dlist h root l ->
  (forall x, x ∈ root :: l -> h' !! x = h !! x) -> dlist h' root l.
Proof.
  intros [Hnd Hp] Hsame. split; [done|].
  assert (forall a, a ∈ root :: l -> path h a (l ++ [root]) -> path h' a (l ++ [root])) as H.
  { assert (forall l0, (forall x, x ∈ l0 -> x ∈ root :: l) ->
      forall a, a ∈ root :: l -> path h a l0 -> path h' a l0) as Hgen.
    { intros l0. induction l0 as [|b l0 IH]; intros Hin a Ha Hp0; simpl in *; [done|].
      destruct Hp0 as [[Hn Hv] Hp0]. split; [split|].
      - unfold nx in *. by rewrite Hsame.
      - unfold pv in *. rewrite Hsame; [done|]. apply Hin. by left.
      - apply IH; [|apply Hin; by left|done]. intros x Hx. apply Hin. by right. }
    apply Hgen. intros x Hx. apply elem_of_app in Hx as [Hx|Hx]; [by right|].
    apply list_elem_of_singleton in Hx as ->. by left. }
  apply H; [by left|done].
Qed.

(** ** Initialisation and insertion *)

(** A cell is initialised to the empty list. *)
Lemma init_list_spec h root : is_Some (h !! root) ->
  exists h', lmk_init_list (Some root) h = Ok h' /\ dlist h' root [] /\ dom h' = dom h /\
    forall a, a <> root -> h' !! a = h !! a.
Proof.
  intros Hroot. unfold lmk_init_list.
  destruct (set_prev_ok h root root Hroot) as (h1 & -> & Hpv1 & Hnx1 & Hdom1 & Hother1). simpl.
  destruct (set_next_ok h1 root root) as (h2 & -> & Hnx2 & Hpv2 & Hdom2 & Hother2).
  { apply elem_of_dom. rewrite Hdom1. by apply elem_of_dom. }
  exists h2. split; [done|]. split_and!.
  - split; [by apply NoDup_singleton|]. simpl. split; [|done].
    unfold edge. by rewrite Hnx2, Hpv2, Hpv1, !decide_True.
  - congruence.
  - intros a Ha. by rewrite Hother2, Hother1.
Qed.

Ltac solve_dom := match goal with
  | |- is_Some (?h !! _) => apply elem_of_dom; repeat match goal with H : dom h = _ |- _ => rewrite H end
  end.

(** Insertion appends the entry, and touches no cell outside the list. *)
Lemma insert_list_spec h root l e :
  dlist h root l -> e ∉ root :: l -> is_Some (h !! e) ->
  exists h', lmk_insert_list (Some root) (Some e) h = Ok h' /\ dlist h' root (l ++ [e]) /\
    dom h' = dom h /\ forall a, a ∉ root :: l -> a <> e -> h' !! a = h !! a.
Proof.
  intros Hl He Hin. pose proof (dlist_prev_root h root l Hl) as Hlast.
  assert (final root l ∈ root :: l) as Hfin by apply final_elem.
  assert (is_Some (h !! root)) as Hroot by (eapply dlist_dom; [done|by left]).
  assert (is_Some (h !! final root l)) as Hfinal by (by eapply dlist_dom).
  assert (final root l <> e /\ root <> e) as [Hfe Hre].
  { split; [by intros <-|]. intros <-. apply He. by left. }
  unfold lmk_insert_list. rewrite (get_prev_ok h root (final root l)) by done. simpl.
  destruct (set_prev_ok h e (final root l) Hin) as (h1 & -> & Hpv1 & Hnx1 & Hdom1 & Ho1). simpl.
  destruct (set_next_ok h1 e root) as (h2 & -> & Hnx2 & Hpv2 & Hdom2 & Ho2).
  { apply elem_of_dom. rewrite Hdom1. by apply elem_of_dom. }
  simpl. rewrite (get_prev_ok h2 root (final root l)); simpl.
  2: { by rewrite Hpv2, Hpv1, decide_False. }
  destruct (set_next_ok h2 (final root l) e) as (h3 & -> & Hnx3 & Hpv3 & Hdom3 & Ho3).
  { apply elem_of_dom. rewrite Hdom2, Hdom1. by apply elem_of_dom. }
  simpl. destruct (set_prev_ok h3 root e) as (h4 & -> & Hpv4 & Hnx4 & Hdom4 & Ho4).
  { apply elem_of_dom. rewrite Hdom3, Hdom2, Hdom1. by apply elem_of_dom. }
  exists h4. split; [done|]. split_and!; [|congruence|].
  - destruct Hl as [Hnd Hp]. apply path_app in Hp as [Hp _]. split.
    + rewrite app_comm_cons. apply NoDup_app. split; [done|]. split; [|by apply NoDup_singleton].
      intros x Hx ->%list_elem_of_singleton. done.
    + rewrite <- app_assoc. apply path_app. split.
      * eapply path_frame; [done|done|..].
        -- intros x Hx. rewrite Hpv4, Hpv3, Hpv2, Hpv1, !decide_False; [done|..]; intros ->.
           ++ apply He. by right.
           ++ by apply NoDup_cons in Hnd as [? _].
        -- intros x Hx Hne. rewrite Hnx4, Hnx3, Hnx2, Hnx1, !decide_False; [done|..].
           ++ intros ->. done.
           ++ done.
      * simpl. unfold edge. rewrite !Hnx4, !Hpv4, !Hnx3, !Hpv3, !Hnx2, !Hpv2, !Hnx1, !Hpv1.
        repeat case_decide; congruence || done.
  - intros a Ha Hae. assert (a <> root) by (intros ->; apply Ha; by left).
    assert (a <> final root l) by (by intros ->). by rewrite Ho4, Ho3, Ho2, Ho1.
Qed.

(** ** Removal *)

(** Splitting the freshness facts of a list at one of its entries. *)
Lemma NoDup_split (root : addr) l1 e l2 : NoDup (root :: l1 ++ e :: l2) ->
  (e ∉ root :: l1 ++ l2) /\ NoDup (root :: l1) /\ NoDup (l2 ++ [root]) /\
  NoDup (root :: l1 ++ l2) /\ (forall x, x ∈ root :: l1 -> x ∉ l2) /\
  (forall x, x ∈ root :: l2 -> x ∉ l1).
Proof.
  intros Hnd. assert (NoDup (e :: root :: l1 ++ l2)) as Hnd'.
  { assert (e :: root :: l1 ++ l2 ≡ₚ root :: l1 ++ e :: l2) as ->; [|done].
    rewrite <- Permutation_middle. apply perm_swap. }
  apply NoDup_cons in Hnd' as [He Hnd'].
  pose proof Hnd' as Hnd2. rewrite app_comm_cons in Hnd2. apply NoDup_app in Hnd2 as (H1 & Hd & H2).
  split_and!; try done.
  - apply NoDup_app. split; [done|]. split; [|by apply NoDup_singleton].
    intros x Hx ->%list_elem_of_singleton. apply (Hd root); [by left|done].
  - intros x Hx Hx1. apply elem_of_cons in Hx as [->|Hx]; [by apply NoDup_cons in H1 as [? _]|].
    apply (Hd x); [by right|done].
Qed.

(** What the two pointer writes of a removal do to the links. *)
Lemma remove_list_links h p e n :
  edge h p e -> edge h e n -> e <> n -> e <> p -> is_Some (h !! p) -> is_Some (h !! n) ->
  exists h', lmk_remove_list (Some e) h = Ok h' /\
    (forall a, nx h' a = if decide (a = p) then Some n else nx h a) /\
    (forall a, pv h' a = if decide (a = n) then Some p else pv h a) /\
    dom h' = dom h /\ forall a, a <> p -> a <> n -> h' !! a = h !! a.
Proof.
  intros [Hpn Hep] [Hen Hnp] Hne Hpe Hp Hn. unfold lmk_remove_list.
  rewrite (get_next_ok h e n) by done. simpl. rewrite decide_False by congruence.
  rewrite (get_prev_ok h e p) by done. simpl.
  destruct (set_next_ok h p n Hp) as (h1 & -> & Hnx1 & Hpv1 & Hdom1 & Ho1). simpl.
  rewrite (get_next_ok h1 e n); simpl. 2: { by rewrite Hnx1, decide_False. }
  rewrite (get_prev_ok h1 e p) by (by rewrite Hpv1). simpl.
  destruct (set_prev_ok h1 n p) as (h2 & -> & Hpv2 & Hnx2 & Hdom2 & Ho2).
  { apply elem_of_dom. rewrite Hdom1. by apply elem_of_dom. }
  exists h2. split_and!; [done|..|congruence|].
  - intros a. by rewrite Hnx2, Hnx1.
  - intros a. by rewrite Hpv2, Hpv1.
  - intros a ??. by rewrite Ho2, Ho1.
Qed.

(** Removal deletes the entry from the sequence and touches nothing outside. *)
Lemma remove_list_spec h root l1 e l2 :
  dlist h root (l1 ++ e :: l2) ->
  exists h', lmk_remove_list (Some e) h = Ok h' /\ dlist h' root (l1 ++ l2) /\
    dom h' = dom h /\ forall a, a ∉ root :: l1 ++ l2 -> h' !! a = h !! a.
Proof.
  intros Hl. pose proof Hl as [Hnd Hp]. apply NoDup_split in Hnd as (He & Hnd1 & Hnd2 & Hnd & Hd1 & Hd2).
  set (p := final root l1). set (n := default root (head l2)).
  assert (p ∈ root :: l1) as Hpin by apply final_elem.
  assert (n ∈ root :: l2) as Hnin by (unfold n; destruct l2; simpl; rewrite !elem_of_cons; tauto).
  rewrite elem_of_cons, elem_of_app in He.
  rewrite <- app_assoc in Hp. apply path_app in Hp as [Hp1 [Hpe Hp2]]. fold p in Hpe.
  assert (edge h e n) as Hen by (unfold n; by destruct l2; destruct Hp2 as [? _]).
  destruct (remove_list_links h p e n) as (h' & Hrem & Hnx & Hpv & Hdom & Ho); [done|done|..].
  { intros ->. rewrite elem_of_cons in Hnin. tauto. }
  { intros ->. rewrite elem_of_cons in Hpin. tauto. }
  { destruct Hpe as [Hpe _]. by eapply nx_dom. }
  { destruct Hen as [_ Hen]. by eapply pv_dom. }
  exists h'. split_and!; [done| |done|].
  - split; [done|]. rewrite <- app_assoc. apply path_app. fold p. split.
    + eapply path_frame; [done|done|..].
      * intros x Hx. rewrite Hpv, decide_False; [done|]. intros ->. by apply (Hd2 n).
      * intros x Hx Hne. by rewrite Hnx, decide_False.
    + assert (edge h' p n) as Hpn by (unfold edge; by rewrite Hnx, Hpv, !decide_True).
      destruct l2 as [|y l2]; simpl in *; [done|]. split; [done|]. destruct Hp2 as [_ Hp2].
      eapply path_frame; [done|done|..].
      * intros x Hx. rewrite Hpv, decide_False; [done|]. intros ->.
        by apply NoDup_cons in Hnd2 as [? _].
      * intros x Hx Hne. rewrite Hnx, decide_False; [done|]. intros ->.
        rewrite final_app in Hne. simpl in Hne. apply (Hd1 p Hpin).
        rewrite app_comm_cons, elem_of_app, list_elem_of_singleton in Hx. tauto.
  - intros a Ha. apply Ho; intros ->; apply Ha; rewrite elem_of_cons, elem_of_app.
    + apply elem_of_cons in Hpin. tauto.
    + apply elem_of_cons in Hnin. tauto.
Qed.

(** An unlinked entry, alone on its own ring, is left as it is. *)
Lemma remove_list_self h e : dlist h e [] -> lmk_remove_list (Some e) h = Ok h.
Proof.
  intros Hl. apply dlist_next_root in Hl. unfold lmk_remove_list.
  rewrite (get_next_ok h e e) by done. simpl. by rewrite decide_True.
Qed.

(** ** Iteration *)

Lemma dlist_next h root l1 x l2 : dlist h root (l1 ++ x :: l2) ->
  nx h x = Some (default root (head l2)) /\ pv h x = Some (final root l1).
Proof.
  intros [_ Hp]. rewrite <- app_assoc in Hp. apply path_app in Hp as [_ [[_ Hv] Hp]].
  split; [|done]. destruct l2; by destruct Hp as [[? _] _].
Qed.

(** The cursor loop is a left fold over the entries, in list order. *)
Lemma for_each_spec {A} fuel h root l (body : addr -> A -> A) acc :
  dlist h root l -> length l <= fuel ->
  for_each fuel root body h acc = Ok (fold_left (fun acc x => body x acc) l acc).
Proof.
  intros Hl Hfuel. unfold for_each. rewrite (get_next_ok h root (default root (head l))).
  2: { by apply dlist_next_root. }
  simpl. assert (exists l1, l = l1 ++ l) as [l1 Hsplit] by (by exists []).
  assert (dlist h root (l1 ++ l)) as Hd by (by rewrite <- Hsplit).
  clear Hsplit Hl. revert fuel l1 acc Hfuel Hd. induction l as [|x l IH]; intros fuel l1 acc Hfuel Hd; simpl.
  - destruct fuel; simpl; by rewrite decide_True.
  - destruct fuel as [|fuel]; simpl in *; [lia|].
    rewrite decide_False. 2: { destruct Hd as [Hnd _]. intros ->.
      apply NoDup_cons in Hnd as [Hr _]. apply Hr, elem_of_app. right; by left. }
    destruct (dlist_next h root l1 x l Hd) as [Hn _]. rewrite (get_next_ok h x _ Hn). simpl.
    apply (IH fuel (l1 ++ [x])); [lia|]. by rewrite <- app_assoc.
Qed.

Lemma fold_left_count {A} (l : list A) (n : Z) :
  fold_left (fun acc (_ : A) => (acc + 1)%Z) l n = (n + Z.of_nat (length l))%Z.
Proof. revert n. induction l as [|x l IH]; intros n; simpl; [lia|]. rewrite IH. lia. Qed.

(** The destroying loop always restarts at the root, so it drains the list as
    long as its body removes the first entry. *)
Lemma for_each_saved_drains {W} (links : W -> heap) (I : list addr -> W -> Prop) root
    (body : addr -> W -> outcome W) :
  (forall l w, I l w -> dlist (links w) root l) ->
  (forall x l w, I (x :: l) w -> exists w', body x w = Ok w' /\ I l w') ->
  forall fuel l w, I l w -> length l <= fuel ->
  exists w', for_each_saved links fuel root body w = Ok w' /\ I [] w'.
Proof.
  intros Hlist Hbody fuel l w HI Hfuel. unfold for_each_saved.
  rewrite (get_next_ok _ root _ (dlist_next_root _ _ _ (Hlist _ _ HI))). simpl.
  revert l w HI Hfuel. induction fuel as [|fuel IH]; intros [|x l] w HI Hfuel; simpl in *; try lia.
  1,2: rewrite decide_True by done; by exists w.
  rewrite decide_False.
  2: { destruct (Hlist _ _ HI) as [Hnd _]. intros ->. apply NoDup_cons in Hnd as [Hr _].
       apply Hr. by left. }
  destruct (dlist_next (links w) root [] x l (Hlist _ _ HI)) as [_ Hprev].
  rewrite (get_prev_ok _ _ _ Hprev). simpl.
  destruct (Hbody x l w HI) as (w' & -> & HI'). simpl.
  rewrite (get_next_ok _ root _ (dlist_next_root _ _ _ (Hlist _ _ HI'))). simpl.
  apply (IH l); [done|lia].
Qed.

(** A body that leaves the entry linked makes the loop spin on it forever. *)
Lemma for_each_saved_spins {W} (links : W -> heap) root x l (body : addr -> W -> outcome W) w :
  dlist (links w) root (x :: l) -> body x w = Ok w ->
  forall fuel, for_each_saved links fuel root body w = Timeout.
Proof.
  intros Hl Hbody fuel. unfold for_each_saved.
  rewrite (get_next_ok _ root _ (dlist_next_root _ _ _ Hl)). simpl.
  assert (x <> root) as Hne.
  { destruct Hl as [Hnd _]. intros ->. apply NoDup_cons in Hnd as [Hr _]. apply Hr. by left. }
  induction fuel as [|fuel IH]; simpl; rewrite decide_False by done; [done|].
  destruct (dlist_next (links w) root [] x l Hl) as [_ Hprev].
  rewrite (get_prev_ok _ _ _ Hprev), Hbody. simpl.
  by rewrite (get_next_ok _ root _ (dlist_next_root _ _ _ Hl)).
Qed.

(** Draining with [remove_and_free]: the state of the loop. *)
Definition drain_inv (h0 : heap) (root : addr) (all l : list addr) (h : heap) : Prop :=
  dlist h root l /\ (exists freed, all = freed ++ l /\ forall x, x ∈ freed -> h !! x = None) /\
  (forall a, a ∉ root :: all -> h !! a = h0 !! a).

Lemma remove_and_free_step h0 root all x l h :
  NoDup (root :: all) -> drain_inv h0 root all (x :: l) h ->
  exists h', remove_and_free x h = Ok h' /\ drain_inv h0 root all l h'.
Proof.
  intros Hnd (Hl & (freed & Hall & Hfreed) & Hother).
  assert (x ∈ all /\ x ∉ root :: l) as [Hxall Hx].
  { split; [subst all; apply elem_of_app; right; by left|].
    destruct Hl as [Hnd' _]. apply (NoDup_split root [] x l) in Hnd' as [? _]. done. }
  destruct (remove_list_spec h root [] x l Hl) as (h' & Hrem & Hl' & Hdom & Ho).
  unfold remove_and_free. rewrite Hrem. simpl. eexists. split; [done|]. split_and!.
  - eapply dlist_frame; [done|]. intros y Hy. rewrite lookup_delete_ne; [done|]. congruence.
  - exists (freed ++ [x]). split; [by rewrite <- app_assoc|].
    intros y Hy. destruct (decide (y = x)) as [->|Hne]; [by rewrite lookup_delete_eq|].
    rewrite lookup_delete_ne by done. apply elem_of_app in Hy as [Hy|Hy].
    2: { by apply list_elem_of_singleton in Hy. }
    rewrite Ho; [by apply Hfreed|]. subst all. intros Hin. rewrite app_comm_cons in Hnd.
    apply NoDup_app in Hnd as (Hr & Hd & _). simpl in Hin. apply elem_of_cons in Hin as [->|Hin].
    + apply NoDup_cons in Hr as [? _]. done.
    + apply (Hd y); [by right|]. by right.
  - intros a Ha. rewrite lookup_delete_ne by (intros <-; apply Ha; by right).
    rewrite Ho; [by apply Hother|]. intros Hin. apply Ha. subst all. simpl in Hin.
    rewrite elem_of_cons in Hin |- *. rewrite elem_of_app, elem_of_cons. tauto.
Qed.

(** ** Theorems *)

(** [lmk_insert_list] appends the entry to the represented sequence, writes
    only to cells of the list and to the entry, and never faults. *)
Theorem insert_list_appends (h : heap) (root e : addr) (l : list addr)
    (Hl : dlist h root l) (He : e ∉ root :: l) (Hin : is_Some (h !! e)) :
  exists h', lmk_insert_list (Some root) (Some e) h = Ok h' /\ dlist h' root (l ++ [e]) /\
    forall a, a ∉ root :: l ++ [e] -> h' !! a = h !! a.
Proof.
  destruct (insert_list_spec h root l e Hl He Hin) as (h' & Hins & Hl' & _ & Ho).
  exists h'. split_and!; [done..|]. intros a Ha.
  rewrite elem_of_cons, elem_of_app, list_elem_of_singleton in Ha.
  apply Ho; [rewrite elem_of_cons|]; tauto.
Qed.

(** C25. [lmk_remove_list] deletes exactly the given entry from the sequence. *)
Theorem remove_list_deletes (h : heap) (root e : addr) (l1 l2 : list addr)
    (Hl : dlist h root (l1 ++ e :: l2)) :
  exists h', lmk_remove_list (Some e) h = Ok h' /\ dlist h' root (l1 ++ l2) /\
    forall a, a ∉ root :: l1 ++ l2 -> h' !! a = h !! a.
Proof.
  destruct (remove_list_spec h root l1 e l2 Hl) as (h' & Hrem & Hl' & _ & Ho). by exists h'.
Qed.

(** Size, emptiness and iteration observe the represented sequence, and the
    cursor loops terminate within as many steps as there are entries. *)
Theorem list_observers (h : heap) (root : addr) (l : list addr) (fuel : nat)
    (Hl : dlist h root l) (Hfuel : length l <= fuel) :
  lmk_get_list_size fuel (Some root) h = Ok (Z.of_nat (length l)) /\
  lmk_is_list_empty (Some root) h = Ok (bool_decide (l = [])) /\
  for_each fuel root (fun x acc => acc ++ [x]) h [] = Ok l.
Proof.
  split_and!.
  - unfold lmk_get_list_size. rewrite (for_each_spec fuel h root l) by done.
    by rewrite fold_left_count.
  - unfold lmk_is_list_empty. rewrite (get_next_ok h root (default root (head l))).
    2: { by apply dlist_next_root. }
    simpl. f_equal. apply bool_decide_ext. destruct l as [|x l]; simpl; [done|].
    split; [|done]. intros ->. destruct Hl as [Hnd _]. apply NoDup_cons in Hnd as [Hr _].
    destruct Hr. by left.
  - rewrite (for_each_spec fuel h root l) by done. f_equal.
    assert (forall acc, fold_left (fun acc x => acc ++ [x]) l acc = acc ++ l) as H; [|apply H].
    clear. induction l as [|x l IH]; intros acc; simpl; [by rewrite app_nil_r|].
    by rewrite IH, <- app_assoc.
Qed.

(** The save/restore-cursor loop of [lmk_socket_log_handler_destroy] visits
    every entry once, frees it, leaves an empty list and touches nothing else. *)
Theorem saved_cursor_loop_frees_all (h : heap) (root : addr) (l : list addr) (fuel : nat)
    (Hl : dlist h root l) (Hfuel : length l <= fuel) :
  exists h', for_each_saved id fuel root remove_and_free h = Ok h' /\ dlist h' root [] /\
    (forall x, x ∈ l -> h' !! x = None) /\ (forall a, a ∉ root :: l -> h' !! a = h !! a).
Proof.
  destruct (for_each_saved_drains id (drain_inv h root l) root remove_and_free) with fuel l h
    as (h' & Hrun & Hl' & (freed & Hall & Hfreed) & Ho).
  - intros l' h' [H _]. done.
  - intros x l' h' HI. eapply remove_and_free_step; [apply Hl|done].
  - split_and!; [done|exists []; split; [done|]; intros x Hx; by apply not_elem_of_nil in Hx|done].
  - done.
  - exists h'. split_and!; [done|done| |done]. rewrite app_nil_r in Hall. by subst freed.
Qed.

(** ** Witnesses *)

Definition p1 : addr := 1%positive.
Definition p2 : addr := 2%positive.
Definition p3 : addr := 3%positive.
Definition p4 : addr := 4%positive.

Definition sample_heap : heap := <[p1 := mk_list p2 p3]> (<[p2 := mk_list p3 p1]> (<[p3 := mk_list p1 p2]>
  (<[p4 := mk_list p4 p4]> ∅))).

Lemma sample_heap_dlist : dlist sample_heap p1 [p2; p3].
Proof. split; [by refine (bool_decide_eq_true_1 _ _); vm_compute|]. by vm_compute. Qed.

Lemma insert_list_appends_witness :
  exists h', lmk_insert_list (Some p1) (Some p4) sample_heap = Ok h' /\
    dlist h' p1 [p2; p3; p4] /\ forall a, a ∉ [p1; p2; p3; p4] -> h' !! a = sample_heap !! a.
Proof.
  refine (insert_list_appends sample_heap p1 p4 [p2; p3] sample_heap_dlist _ _).
  - by refine (bool_decide_eq_true_1 _ _); vm_compute.
  - by eexists.
Defined.

Lemma remove_list_deletes_witness :
  exists h', lmk_remove_list (Some p2) sample_heap = Ok h' /\
    dlist h' p1 [p3] /\ forall a, a ∉ [p1; p3] -> h' !! a = sample_heap !! a.
Proof. exact (remove_list_deletes sample_heap p1 p2 [] [p3] sample_heap_dlist). Defined.

Lemma list_observers_witness :
  lmk_get_list_size 2 (Some p1) sample_heap = Ok 2%Z /\
  lmk_is_list_empty (Some p1) sample_heap = Ok false /\
  for_each 2 p1 (fun x acc => acc ++ [x]) sample_heap [] = Ok [p2; p3].
Proof. refine (list_observers sample_heap p1 [p2; p3] 2 sample_heap_dlist _). simpl. lia. Defined.

Lemma saved_cursor_loop_frees_all_witness :
  exists h', for_each_saved id 2 p1 remove_and_free sample_heap = Ok h' /\ dlist h' p1 [] /\
    (forall x, x ∈ [p2; p3] -> h' !! x = None) /\
    (forall a, a ∉ [p1; p2; p3] -> h' !! a = sample_heap !! a).
Proof.
  refine (saved_cursor_loop_frees_all sample_heap p1 [p2; p3] 2 sample_heap_dlist _).
  simpl. lia.
Defined.
