(* ===== verification/AsyncHandler.v ===== *)
(** The asynchronous half every log handler shares: producers run the
    handler's [log_impl] (running check, enqueue, counters, conditional
    wake-up), one consumer thread drains the ring into the handler's sink and
    sleeps on a condition variable, and a destroyer stops and joins it.  The
    four handlers repeat this code verbatim; what differs is the [sink].  Each
    function below is one atomic step of its thread; memory is sequentially
    consistent. *)
From S2P Require Import Prelude Types Ring RingMachine.
Local Open Scope Z_scope.

(** ** What a handler does with a record *)

Class Sink (St : Type) := {
  (** the body of the drain loop, before [lmk_ring_consume] *)
  sink_process : log_view -> St -> St;
  (** what runs once the ring is drained (flush) *)
  sink_idle : St -> St;
  (** what runs after the thread has left its loop *)
  sink_finish : St -> St
}.

(** ** State *)

(** A thread inside [log_impl]. *)
Inductive log_pc :=
  | LogCheckRunning
  | LogEnq (pc : enq_pc)         (* inside lmk_ring_enqueue             *)
  | LogDrop                      (* fetch_add(dropped)                  *)
  | LogCount                     (* fetch_add(nr_log_calls)             *)
  | LogLoadSleeping              (* maybe_wake: fence, load(sleeping)   *)
  | LogLock                      (* lock(wakeup_lock)                   *)
  | LogSignal                    (* cond_signal                         *)
  | LogUnlock                    (* unlock(wakeup_lock)                 *)
  | LogReturn.

Record log_thread := mk_log_thread {
  lt_rec : lmk_log_record;
  lt_handler : string;
  lt_pc : log_pc
}.

(** The consumer thread routine. *)
Inductive consumer_pc :=
  | KPeek                        (* drain loop: peek                    *)
  | KRead                        (* a slot is ready: process it         *)
  | KConsume (v : log_view)      (* lmk_ring_consume                    *)
  | KIdle                        (* ring drained: idle flush            *)
  | KCheckRunning                (* load(running)                       *)
  | KLock                        (* lock(wakeup_lock)                   *)
  | KSetSleeping                 (* sleeping = 1                        *)
  | KWaitPeek                    (* inner while: peek                   *)
  | KWaitRunning                 (* inner while: load(running)          *)
  | KWait                        (* cond_wait: release and park         *)
  | KParked                      (* blocked in cond_wait                *)
  | KWoken                       (* cond_wait: reacquire the lock       *)
  | KClearSleeping               (* sleeping = 0                        *)
  | KUnlock                      (* unlock(wakeup_lock)                 *)
  | KFinish                      (* after the loop                      *)
  | KExit.

#[export] Instance consumer_pc_eq_dec : EqDecision consumer_pc.
Proof. solve_decision. Defined.

(** The destroying thread. *)
Inductive destroy_pc := DIdle | DLock | DBroadcast | DUnlock | DJoin | DDone.

Inductive lock_owner := OwnProducer (tid : nat) | OwnConsumer | OwnDestroyer.

#[export] Instance lock_owner_eq_dec : EqDecision lock_owner.
Proof. solve_decision. Defined.

Record handler_state (St : Type) := mk_handler_state {
  hs_mem : ring_mem;
  hs_tail : Z;
  hs_running : bool;
  hs_sleeping : bool;
  hs_lock : option lock_owner;
  hs_dropped : Z;
  hs_nr_log_calls : Z;
  hs_prods : gmap nat log_thread;
  hs_cons : consumer_pc;
  hs_destroy : destroy_pc;
  hs_sink : St
}.
Arguments mk_handler_state {St}.
Arguments hs_mem {St}.
Arguments hs_tail {St}.
Arguments hs_running {St}.
Arguments hs_sleeping {St}.
Arguments hs_lock {St}.
Arguments hs_dropped {St}.
Arguments hs_nr_log_calls {St}.
Arguments hs_prods {St}.
Arguments hs_cons {St}.
Arguments hs_destroy {St}.
Arguments hs_sink {St}.

Section handler.
Context {St : Type} `{Sink St}.
Abbreviation state := (handler_state St).

Definition with_mem (s : state) (m : ring_mem) (tail : Z) : state :=
  mk_handler_state m tail (hs_running s) (hs_sleeping s) (hs_lock s) (hs_dropped s)
    (hs_nr_log_calls s) (hs_prods s) (hs_cons s) (hs_destroy s) (hs_sink s).

Definition with_running (s : state) (b : bool) : state :=
  mk_handler_state (hs_mem s) (hs_tail s) b (hs_sleeping s) (hs_lock s) (hs_dropped s)
    (hs_nr_log_calls s) (hs_prods s) (hs_cons s) (hs_destroy s) (hs_sink s).

Definition with_sleeping (s : state) (b : bool) : state :=
  mk_handler_state (hs_mem s) (hs_tail s) (hs_running s) b (hs_lock s) (hs_dropped s)
    (hs_nr_log_calls s) (hs_prods s) (hs_cons s) (hs_destroy s) (hs_sink s).

Definition with_lock (s : state) (o : option lock_owner) : state :=
  mk_handler_state (hs_mem s) (hs_tail s) (hs_running s) (hs_sleeping s) o (hs_dropped s)
    (hs_nr_log_calls s) (hs_prods s) (hs_cons s) (hs_destroy s) (hs_sink s).

Definition with_counters (s : state) (dropped nr_log_calls : Z) : state :=
  mk_handler_state (hs_mem s) (hs_tail s) (hs_running s) (hs_sleeping s) (hs_lock s) dropped
    nr_log_calls (hs_prods s) (hs_cons s) (hs_destroy s) (hs_sink s).

Definition with_threads (s : state) (prods : gmap nat log_thread) : state :=
  mk_handler_state (hs_mem s) (hs_tail s) (hs_running s) (hs_sleeping s) (hs_lock s) (hs_dropped s)
    (hs_nr_log_calls s) prods (hs_cons s) (hs_destroy s) (hs_sink s).

Definition with_cons (s : state) (c : consumer_pc) : state :=
  mk_handler_state (hs_mem s) (hs_tail s) (hs_running s) (hs_sleeping s) (hs_lock s) (hs_dropped s)
    (hs_nr_log_calls s) (hs_prods s) c (hs_destroy s) (hs_sink s).

Definition with_destroy (s : state) (d : destroy_pc) : state :=
  mk_handler_state (hs_mem s) (hs_tail s) (hs_running s) (hs_sleeping s) (hs_lock s) (hs_dropped s)
    (hs_nr_log_calls s) (hs_prods s) (hs_cons s) d (hs_sink s).

Definition with_sink (s : state) (k : St) : state :=
  mk_handler_state (hs_mem s) (hs_tail s) (hs_running s) (hs_sleeping s) (hs_lock s) (hs_dropped s)
    (hs_nr_log_calls s) (hs_prods s) (hs_cons s) (hs_destroy s) k.

(** ** Steps *)

Definition set_log_pc (s : state) (tid : nat) (th : log_thread) (pc : log_pc) : state :=
  with_threads s (<[tid := mk_log_thread (lt_rec th) (lt_handler th) pc]> (hs_prods s)).

(** [pthread_cond_signal] / [pthread_cond_broadcast]: only the consumer waits. *)
Definition wake (s : state) : state :=
  match hs_cons s with KParked => with_cons s KWoken | _ => s end.

Definition acquire (o : lock_owner) (s : state) : option state :=
  match hs_lock s with None => Some (with_lock s (Some o)) | Some _ => None end.

(** One step of thread [tid] inside the handler's [log_impl] (and its
    [maybe_wake]); [None] when it is blocked on the lock. *)
Definition log_impl_step (mask : Z) (tid : nat) (weak : bool) (s : state) :
    option (ring_event * state) :=
  th ← hs_prods s !! tid;
  let goto pc s := set_log_pc s tid th pc in
  match lt_pc th with
  | LogCheckRunning =>
      Some (EvTau, goto (if hs_running s then LogEnq EnqLoadHead else LogReturn) s)
  | LogEnq (EnqDone r) => Some (EvTau, goto (if r then LogCount else LogDrop) s)
  | LogEnq pc =>
      let '(m', pc', ev) := enq_step mask (lt_rec th) (lt_handler th) weak (hs_mem s) pc in
      Some (ev, goto (LogEnq pc') (with_mem s m' (hs_tail s)))
  | LogDrop =>
      Some (EvTau, goto LogReturn (with_counters s (w64 (hs_dropped s + 1)) (hs_nr_log_calls s)))
  | LogCount =>
      Some (EvTau, goto LogLoadSleeping (with_counters s (hs_dropped s) (w64 (hs_nr_log_calls s + 1))))
  | LogLoadSleeping => Some (EvTau, goto (if hs_sleeping s then LogLock else LogReturn) s)
  | LogLock => s' ← acquire (OwnProducer tid) s; Some (EvTau, goto LogSignal s')
  | LogSignal => Some (EvTau, goto LogUnlock (wake s))
  | LogUnlock => Some (EvTau, goto LogReturn (with_lock s None))
  | LogReturn => Some (EvTau, with_threads s (delete tid (hs_prods s)))
  end.

(** One step of the consumer thread; [spurious] lets [pthread_cond_wait]
    return without a signal. *)
Definition consumer_step (mask : Z) (spurious : bool) (s : state) : option (ring_event * state) :=
  match hs_cons s with
  | KPeek =>
      match lmk_ring_peek_slot mask (hs_tail s) (hs_mem s) with
      | Some _ => Some (EvTau, with_cons s KRead)
      | None => Some (EvTau, with_cons s KIdle)
      end
  | KRead =>
      let v := view_of_request (req (mem_slot mask (hs_tail s) (hs_mem s))) in
      Some (EvTau, with_cons (with_sink s (sink_process v (hs_sink s))) (KConsume v))
  | KConsume v =>
      let '(m', tail') := lmk_ring_consume mask (hs_tail s) (hs_mem s) in
      Some (EvDeq v, with_cons (with_mem s m' tail') KPeek)
  | KIdle => Some (EvTau, with_cons (with_sink s (sink_idle (hs_sink s))) KCheckRunning)
  | KCheckRunning => Some (EvTau, with_cons s (if hs_running s then KLock else KFinish))
  | KLock => s' ← acquire OwnConsumer s; Some (EvTau, with_cons s' KSetSleeping)
  | KSetSleeping => Some (EvTau, with_cons (with_sleeping s true) KWaitPeek)
  | KWaitPeek =>
      match lmk_ring_peek_slot mask (hs_tail s) (hs_mem s) with
      | Some _ => Some (EvTau, with_cons s KClearSleeping)
      | None => Some (EvTau, with_cons s KWaitRunning)
      end
  | KWaitRunning => Some (EvTau, with_cons s (if hs_running s then KWait else KClearSleeping))
  | KWait => Some (EvTau, with_cons (with_lock s None) KParked)
  | KParked => if spurious then Some (EvTau, with_cons s KWoken) else None
  | KWoken => s' ← acquire OwnConsumer s; Some (EvTau, with_cons s' KWaitPeek)
  | KClearSleeping => Some (EvTau, with_cons (with_sleeping s false) KUnlock)
  | KUnlock => Some (EvTau, with_cons (with_lock s None) KPeek)
  | KFinish => Some (EvTau, with_cons (with_sink s (sink_finish (hs_sink s))) KExit)
  | KExit => None
  end.

(** One step of the thread that runs the handler's [destroy], up to the join. *)
Definition destroy_step (s : state) : option (ring_event * state) :=
  match hs_destroy s with
  | DIdle => Some (EvTau, with_destroy (with_running s false) DLock)
  | DLock => s' ← acquire OwnDestroyer s; Some (EvTau, with_destroy s' DBroadcast)
  | DBroadcast => Some (EvTau, with_destroy (wake s) DUnlock)
  | DUnlock => Some (EvTau, with_destroy (with_lock s None) DJoin)
  | DJoin => match hs_cons s with KExit => Some (EvTau, with_destroy s DDone) | _ => None end
  | DDone => None
  end.

Inductive handler_step (mask : Z) : state -> ring_event -> state -> Prop :=
  | hstep_call s tid rec h :
      hs_prods s !! tid = None -> wf_record rec ->
      handler_step mask s EvTau
        (with_threads s (<[tid := mk_log_thread rec h LogCheckRunning]> (hs_prods s)))
  | hstep_log s tid weak ev s' :
      log_impl_step mask tid weak s = Some (ev, s') -> handler_step mask s ev s'
  | hstep_consumer s spurious ev s' :
      consumer_step mask spurious s = Some (ev, s') -> handler_step mask s ev s'
  | hstep_destroy s ev s' :
      destroy_step s = Some (ev, s') -> handler_step mask s ev s'.

(** The state a handler's [init] leaves behind, consumer thread started. *)
Definition handler_start (k : nat) (sink0 : St) : state :=
  mk_handler_state (mk_ring_mem (lmk_ring_init (ring_alloc (cap k)) (cap k)) 0) 0
    true false None 0 0 ∅ KPeek DIdle sink0.

(** ** Executable schedules *)

Inductive handler_action :=
  | HCall (tid : nat) (rec : lmk_log_record) (h : string)
  | HLog (tid : nat)
  | HConsumer
  | HDestroy.

Definition handler_act (mask : Z) (s : state) (a : handler_action) : option (ring_event * state) :=
  match a with
  | HCall tid rec h =>
      match hs_prods s !! tid with
      | Some _ => None
      | None =>
          if (0 <=? rec_data_len rec) && (rec_data_len rec <=? Z.of_nat (length (rec_data rec))) &&
             (rec_data_len rec <? 2 ^ 64)
          then Some (EvTau, with_threads s (<[tid := mk_log_thread rec h LogCheckRunning]> (hs_prods s)))
          else None
      end
  | HLog tid => log_impl_step mask tid false s
  | HConsumer => consumer_step mask false s
  | HDestroy => destroy_step s
  end.

Fixpoint handler_schedule (mask : Z) (s : state) (acts : list handler_action) :
    list ring_event * state :=
  match acts with
  | [] => ([], s)
  | a :: acts' =>
      match handler_act mask s a with
      | Some (ev, s') => let '(tr, s'') := handler_schedule mask s' acts' in (ev :: tr, s'')
      | None => handler_schedule mask s acts'
      end
  end.

Lemma handler_act_step mask s a ev s' :
  handler_act mask s a = Some (ev, s') -> handler_step mask s ev s'.
Proof.
  destruct a as [tid rec h|tid| |]; simpl.
  - destruct (hs_prods s !! tid) eqn:Htid; [done|].
    destruct (_ && _ && _) eqn:Hwf; [|done]. intros [= <- <-].
    apply hstep_call; [done|]. unfold wf_record. lia.
  - apply hstep_log.
  - apply hstep_consumer.
  - apply hstep_destroy.
Qed.

Lemma handler_schedule_run mask s acts :
  run (handler_step mask) s (handler_schedule mask s acts).1 (handler_schedule mask s acts).2.
Proof.
  revert s. induction acts as [|a acts IH]; intros s; simpl; [constructor|].
  destruct (handler_act mask s a) as [[ev s']|] eqn:Ha; [|apply IH].
  specialize (IH s'). destruct (handler_schedule mask s' acts) as [tr s'']; simpl in *.
  eapply run_cons; [by eapply handler_act_step|done].
Qed.

(** ** The ring inside the handler *)

Definition enq_of (th : log_thread) : option enq_thread :=
  match lt_pc th with
  | LogEnq pc => Some (mk_enq_thread (lt_rec th) (lt_handler th) pc)
  | _ => None
  end.

Definition cons_of (c : consumer_pc) : cons_pc :=
  match c with KRead => ConsRead | KConsume v => ConsConsume v | _ => ConsPeek end.

Definition ring_of (s : state) : ring_state :=
  mk_ring_state (hs_mem s) (hs_tail s) (cons_of (hs_cons s)) (omap enq_of (hs_prods s)).

Lemma omap_enq_lookup (prods : gmap nat log_thread) tid th :
  prods !! tid = Some th -> omap enq_of prods !! tid = enq_of th.
Proof. intros Hp. by rewrite lookup_omap, Hp. Qed.

Lemma omap_enq_move (prods : gmap nat log_thread) tid th th' :
  prods !! tid = Some th -> enq_of th = None -> enq_of th' = None ->
  omap enq_of (<[tid := th']> prods) = omap enq_of prods.
Proof.
  intros Hp Ho Ho'. rewrite omap_insert, Ho'. apply delete_id. by rewrite lookup_omap, Hp.
Qed.

Lemma ring_of_wake s : ring_of (wake s) = ring_of s.
Proof. unfold wake. destruct (hs_cons s) eqn:Hc; try done. unfold ring_of; simpl. by rewrite Hc. Qed.

Lemma ring_of_acquire o s s' : acquire o s = Some s' -> ring_of s' = ring_of s.
Proof. unfold acquire. destruct (hs_lock s); [done|]. by intros [= <-]. Qed.

Lemma ring_of_move s tid th pc :
  hs_prods s !! tid = Some th -> enq_of th = None ->
  enq_of (mk_log_thread (lt_rec th) (lt_handler th) pc) = None ->
  ring_of (set_log_pc s tid th pc) = ring_of s.
Proof.
  intros Hp Ho Ho'. unfold ring_of, set_log_pc; simpl. f_equal. by eapply omap_enq_move.
Qed.

Lemma wake_prods s : hs_prods (wake s) = hs_prods s.
Proof. unfold wake. by destruct (hs_cons s). Qed.

Lemma acquire_inv o s s' : acquire o s = Some s' -> hs_lock s = None /\ s' = with_lock s (Some o).
Proof. unfold acquire. destruct (hs_lock s); [done|]. by intros [= <-]. Qed.

Definition enq_result (pc : enq_pc) : option bool :=
  match pc with EnqDone r => Some r | _ => None end.

(** Inside [lmk_ring_enqueue], a thread's step is exactly [enq_step]. *)
Lemma log_impl_step_enq mask tid weak s ev s' th pc :
  hs_prods s !! tid = Some th -> lt_pc th = LogEnq pc -> enq_result pc = None ->
  log_impl_step mask tid weak s = Some (ev, s') ->
  exists m' pc', enq_step mask (lt_rec th) (lt_handler th) weak (hs_mem s) pc = (m', pc', ev) /\
    s' = set_log_pc (with_mem s m' (hs_tail s)) tid th (LogEnq pc').
Proof.
  intros Htid Hpc Hdone. unfold log_impl_step. rewrite Htid. simpl. rewrite Hpc.
  destruct (enq_step mask (lt_rec th) (lt_handler th) weak (hs_mem s) pc) as [[m' pc'] ev'] eqn:He.
  intros Hs. exists m', pc'. destruct pc; by simplify_eq.
Qed.

(** The possible moves of a producer, one per place of its code. *)
Inductive log_move (mask : Z) (tid : nat) (weak : bool) (s : state) (th : log_thread) :
    ring_event -> state -> Prop :=
  | move_check : lt_pc th = LogCheckRunning ->
      log_move mask tid weak s th EvTau
        (set_log_pc s tid th (if hs_running s then LogEnq EnqLoadHead else LogReturn))
  | move_enq pc m' pc' ev : lt_pc th = LogEnq pc -> enq_result pc = None ->
      enq_step mask (lt_rec th) (lt_handler th) weak (hs_mem s) pc = (m', pc', ev) ->
      log_move mask tid weak s th ev (set_log_pc (with_mem s m' (hs_tail s)) tid th (LogEnq pc'))
  | move_result r : lt_pc th = LogEnq (EnqDone r) ->
      log_move mask tid weak s th EvTau (set_log_pc s tid th (if r then LogCount else LogDrop))
  | move_drop : lt_pc th = LogDrop ->
      log_move mask tid weak s th EvTau
        (set_log_pc (with_counters s (w64 (hs_dropped s + 1)) (hs_nr_log_calls s)) tid th LogReturn)
  | move_count : lt_pc th = LogCount ->
      log_move mask tid weak s th EvTau
        (set_log_pc (with_counters s (hs_dropped s) (w64 (hs_nr_log_calls s + 1))) tid th LogLoadSleeping)
  | move_load_sleeping : lt_pc th = LogLoadSleeping ->
      log_move mask tid weak s th EvTau (set_log_pc s tid th (if hs_sleeping s then LogLock else LogReturn))
  | move_lock : lt_pc th = LogLock -> hs_lock s = None ->
      log_move mask tid weak s th EvTau (set_log_pc (with_lock s (Some (OwnProducer tid))) tid th LogSignal)
  | move_signal : lt_pc th = LogSignal ->
      log_move mask tid weak s th EvTau (set_log_pc (wake s) tid th LogUnlock)
  | move_unlock : lt_pc th = LogUnlock ->
      log_move mask tid weak s th EvTau (set_log_pc (with_lock s None) tid th LogReturn)
  | move_return : lt_pc th = LogReturn ->
      log_move mask tid weak s th EvTau (with_threads s (delete tid (hs_prods s))).

Lemma log_impl_step_move mask tid weak s ev s' :
  log_impl_step mask tid weak s = Some (ev, s') ->
  exists th, hs_prods s !! tid = Some th /\ log_move mask tid weak s th ev s'.
Proof.
  intros Hstep. destruct (hs_prods s !! tid) as [th|] eqn:Htid.
  2: { unfold log_impl_step in Hstep. by rewrite Htid in Hstep. }
  exists th. split; [done|]. destruct (lt_pc th) as [|pc| | | | | | |] eqn:Hpc.
  2: { destruct (enq_result pc) as [r|] eqn:Hr.
    - destruct pc; simpl in Hr; simplify_eq. unfold log_impl_step in Hstep.
      rewrite Htid in Hstep. simpl in Hstep. rewrite Hpc in Hstep. simplify_eq. by apply move_result.
    - destruct (log_impl_step_enq mask tid weak s ev s' th pc) as (m' & pc' & He & ->); [done..|].
      by eapply move_enq. }
  all: unfold log_impl_step in Hstep; rewrite Htid in Hstep; simpl in Hstep; rewrite Hpc in Hstep.
  5: { destruct (acquire (OwnProducer tid) s) as [s1|] eqn:Ha; simpl in Hstep; simplify_eq.
    apply acquire_inv in Ha as [Hl ->]. by apply move_lock. }
  all: simplify_eq; by constructor.
Qed.

(** A producer step is a step of the ring, or invisible to it. *)
Lemma log_impl_ring_step mask tid weak s ev s' :
  (forall tid' th, hs_prods s !! tid' = Some th -> wf_record (lt_rec th)) ->
  log_impl_step mask tid weak s = Some (ev, s') ->
  ring_step mask (ring_of s) ev (ring_of s') \/ ev = EvTau /\ ring_of s' = ring_of s.
Proof.
  intros Hwf (th & Htid & Hmove)%log_impl_step_move.
  pose proof (omap_enq_lookup _ _ _ Htid) as Homap. unfold enq_of at 2 in Homap.
  destruct Hmove as [Hpc|pc m' pc' ev Hpc Hr He|r Hpc|Hpc|Hpc|Hpc|Hpc Hl|Hpc|Hpc|Hpc];
    rewrite Hpc in Homap; try (assert (enq_of th = None) as Hnone by (unfold enq_of; by rewrite Hpc)).
  4-5, 7, 9: right; split; [done|]; by rewrite ring_of_move.
  - destruct (hs_running s); [left|right; split; [done|by apply ring_of_move]].
    unfold ring_of at 2, set_log_pc; simpl. rewrite omap_insert. simpl.
    apply (step_call mask (ring_of s)); [simpl; by rewrite Homap|by eapply Hwf].
  - left. unfold ring_of at 2, set_log_pc; simpl. rewrite omap_insert. simpl.
    by eapply (step_enq mask (ring_of s) tid (mk_enq_thread (lt_rec th) (lt_handler th) pc)).
  - left. replace (ring_of (set_log_pc s tid th (if r then LogCount else LogDrop))) with
      (mk_ring_state (rs_mem (ring_of s)) (rs_tail (ring_of s)) (rs_cons (ring_of s))
        (delete tid (rs_prods (ring_of s)))); [by eapply step_return|].
    unfold ring_of, set_log_pc; simpl. by rewrite omap_insert; destruct r.
  - right. split; [done|]. by destruct (hs_sleeping s); rewrite ring_of_move.
  - right. split; [done|]. rewrite ring_of_move; [by apply ring_of_wake| |done|done].
    by rewrite wake_prods.
  - right. split; [done|]. unfold ring_of; simpl. f_equal.
    rewrite omap_delete. apply delete_id. by rewrite lookup_omap, Htid.
Qed.

(** Closes the case of a step that leaves the ring's view of the state alone. *)
Ltac invisible Hc :=
  right; split; [done|]; unfold ring_of; simpl; rewrite ?Hc; by repeat case_match.

Lemma consumer_ring_step mask spurious s ev s' :
  consumer_step mask spurious s = Some (ev, s') ->
  ring_step mask (ring_of s) ev (ring_of s') \/ ev = EvTau /\ ring_of s' = ring_of s.
Proof.
  unfold consumer_step. destruct (hs_cons s) eqn:Hc.
  - destruct (lmk_ring_peek_slot mask (hs_tail s) (hs_mem s)) eqn:Hp; intros [= <- <-]; [left|invisible Hc].
    eapply (step_peek mask (ring_of s)); [by unfold ring_of; simpl; rewrite Hc|done].
  - intros [= <- <-]. left. apply (step_read mask (ring_of s)). unfold ring_of; simpl. by rewrite Hc.
  - destruct (lmk_ring_consume mask (hs_tail s) (hs_mem s)) as [m' tail'] eqn:Hp. intros [= <- <-].
    left. apply (step_consume mask (ring_of s)); [by unfold ring_of; simpl; rewrite Hc|done].
  - intros [= <- <-]. invisible Hc.
  - intros [= <- <-]. invisible Hc.
  - destruct (acquire OwnConsumer s) as [s1|] eqn:Ha; simpl; [|done]. intros [= <- <-].
    apply acquire_inv in Ha as [_ ->]. invisible Hc.
  - intros [= <- <-]. invisible Hc.
  - destruct (lmk_ring_peek_slot mask (hs_tail s) (hs_mem s)); intros [= <- <-]; invisible Hc.
  - intros [= <- <-]. invisible Hc.
  - intros [= <- <-]. invisible Hc.
  - destruct spurious; [|done]. intros [= <- <-]. invisible Hc.
  - destruct (acquire OwnConsumer s) as [s1|] eqn:Ha; simpl; [|done]. intros [= <- <-].
    apply acquire_inv in Ha as [_ ->]. invisible Hc.
  - intros [= <- <-]. invisible Hc.
  - intros [= <- <-]. invisible Hc.
  - intros [= <- <-]. invisible Hc.
  - done.
Qed.

Lemma destroy_ring_step s ev s' :
  destroy_step s = Some (ev, s') -> ev = EvTau /\ ring_of s' = ring_of s.
Proof.
  unfold destroy_step. destruct (hs_destroy s); try done.
  - by intros [= <- <-].
  - destruct (acquire OwnDestroyer s) as [s1|] eqn:Ha; simpl; [|done]. intros [= <- <-].
    by apply acquire_inv in Ha as [_ ->].
  - intros [= <- <-]. split; [done|]. apply ring_of_wake.
  - by intros [= <- <-].
  - destruct (hs_cons s); try done. by intros [= <- <-].
Qed.
End handler.
