(* ===== verification/AsyncSafety.v ===== *)
(** Invariants of the shared handler machine of [AsyncHandler.v]: who holds the
    wake-up lock, who is going to wake a sleeping consumer, what the sink has
    been asked to do, and the bounded FIFO queue the ring stands for. *)
From S2P Require Import Prelude Types Ring RingMachine AsyncHandler.
Local Open Scope Z_scope.

Section safety.
Context {St : Type} `{Sink St} (k : nat).
Abbreviation state := (handler_state St).
Abbreviation mask := (mask_of k).

(** ** Refinement of the queue *)

Definition all_wf (s : state) : Prop :=
  forall tid th, hs_prods s !! tid = Some th -> wf_record (lt_rec th).

(** The parts of the state a producer's step can touch. *)
Lemma log_impl_step_frame tid weak (s : state) ev s' :
  log_impl_step mask tid weak s = Some (ev, s') ->
  hs_tail s' = hs_tail s /\ hs_running s' = hs_running s /\ hs_sleeping s' = hs_sleeping s /\
  hs_destroy s' = hs_destroy s /\ hs_sink s' = hs_sink s /\
  exists th, hs_prods s !! tid = Some th /\
    (hs_prods s' = delete tid (hs_prods s) \/
     exists pc, hs_prods s' = <[tid := mk_log_thread (lt_rec th) (lt_handler th) pc]> (hs_prods s)).
Proof.
  intros (th & Htid & Hmove)%log_impl_step_move.
  destruct Hmove; unfold set_log_pc; simpl; rewrite ?wake_prods; split_and!; try done;
    try (by unfold wake; destruct (hs_cons s)).
  all: eexists; (split; [done|]); try (right; by eexists). by left.
Qed.

Lemma consumer_step_prods spurious (s : state) ev s' :
  consumer_step mask spurious s = Some (ev, s') ->
  hs_prods s' = hs_prods s /\ hs_running s' = hs_running s /\ hs_destroy s' = hs_destroy s.
Proof.
  unfold consumer_step, acquire. intros Hstep.
  destruct (hs_cons s); simplify_eq; simpl; try done.
  all: repeat case_match; simpl in *; by simplify_eq.
Qed.

Lemma destroy_step_frame (s : state) ev s' :
  destroy_step s = Some (ev, s') ->
  hs_prods s' = hs_prods s /\ hs_mem s' = hs_mem s /\ hs_tail s' = hs_tail s /\
  hs_sink s' = hs_sink s.
Proof.
  unfold destroy_step, acquire, wake. intros Hstep.
  destruct (hs_destroy s); simplify_eq; simpl; try done.
  - destruct (hs_lock s); simpl in Hstep; by simplify_eq.
  - by destruct (hs_cons s).
  - destruct (hs_cons s); by simplify_eq.
Qed.

Lemma all_wf_step (s : state) ev s' : all_wf s -> handler_step mask s ev s' -> all_wf s'.
Proof.
  intros Hwf Hstep. revert Hwf.
  destruct Hstep as [s0 tid rec h Hnone Hrec|s0 tid weak ev0 s0' Hs|s0 spurious ev0 s0' Hs|s0 ev0 s0' Hs];
    intros Hwf.
  - intros tid' th'. simpl. intros [[<- <-]|[_ Hl]]%lookup_insert_Some; [done|by eapply Hwf].
  - apply log_impl_step_frame in Hs as (_ & _ & _ & _ & _ & th & Hth & [Hp|[pc Hp]]).
    all: intros tid' th'; rewrite Hp.
    + intros [_ Hl]%lookup_delete_Some. by eapply Hwf.
    + intros [[<- <-]|[_ Hl]]%lookup_insert_Some; [exact (Hwf tid th Hth)|by eapply Hwf].
  - apply consumer_step_prods in Hs as [Hp _]. intros tid' th'. rewrite Hp. apply Hwf.
  - apply destroy_step_frame in Hs as [Hp _]. intros tid' th'. rewrite Hp. apply Hwf.
Qed.

(** ** The lock *)

Definition log_holds (pc : log_pc) : bool :=
  match pc with LogSignal | LogUnlock => true | _ => false end.

Definition consumer_holds (c : consumer_pc) : bool :=
  match c with
  | KSetSleeping | KWaitPeek | KWaitRunning | KWait | KClearSleeping | KUnlock => true
  | _ => false
  end.

Definition destroy_holds (d : destroy_pc) : bool :=
  match d with DBroadcast | DUnlock => true | _ => false end.

(** The thread is between its lock and its unlock (or wait). *)
Definition holds (s : state) (o : lock_owner) : bool :=
  match o with
  | OwnProducer tid => match hs_prods s !! tid with Some th => log_holds (lt_pc th) | None => false end
  | OwnConsumer => consumer_holds (hs_cons s)
  | OwnDestroyer => destroy_holds (hs_destroy s)
  end.

Definition lock_inv (s : state) : Prop := forall o, holds s o = true <-> hs_lock s = Some o.

Lemma lock_inv_keep (s s' : state) :
  lock_inv s -> (forall o, holds s' o = holds s o) -> hs_lock s' = hs_lock s -> lock_inv s'.
Proof. intros Hinv Hh Hl o. rewrite Hh, Hl. apply Hinv. Qed.

Lemma lock_inv_acquire (s s' : state) x :
  lock_inv s -> hs_lock s = None -> (forall o, o <> x -> holds s' o = holds s o) ->
  holds s' x = true -> hs_lock s' = Some x -> lock_inv s'.
Proof.
  intros Hinv Hnone Ho Hx Hl o. rewrite Hl. destruct (decide (o = x)) as [->|Hne]; [by rewrite Hx|].
  rewrite Ho by done. rewrite (Hinv o), Hnone. split; [done|congruence].
Qed.

Lemma lock_inv_release (s s' : state) x :
  lock_inv s -> holds s x = true -> (forall o, o <> x -> holds s' o = holds s o) ->
  holds s' x = false -> hs_lock s' = None -> lock_inv s'.
Proof.
  intros Hinv Hx Ho Hx' Hl o. rewrite Hl. destruct (decide (o = x)) as [->|Hne]; [by rewrite Hx'|].
  rewrite Ho by done. rewrite (Hinv o), (proj1 (Hinv x) Hx). split; [congruence|done].
Qed.

Lemma holds_set_log_pc (s : state) tid th pc o :
  holds (set_log_pc s tid th pc) o = if decide (o = OwnProducer tid) then log_holds pc else holds s o.
Proof.
  case_decide as Ho; [subst o; simpl; by rewrite lookup_insert_eq|].
  destruct o as [tid'| |]; try done. simpl. rewrite lookup_insert_ne; [done|congruence].
Qed.

Lemma holds_wake (s : state) o : holds (wake s) o = holds s o.
Proof. unfold wake. destruct (hs_cons s) eqn:Hc; try done. destruct o; simpl; by rewrite ?Hc. Qed.

Lemma lock_wake (s : state) : hs_lock (wake s) = hs_lock s.
Proof. unfold wake. by destruct (hs_cons s). Qed.

(** Closes the side conditions about who holds the lock after a step. *)
Ltac owners :=
  intros; rewrite ?holds_set_log_pc, ?holds_wake; simpl;
  repeat match goal with o : lock_owner |- _ => destruct o end;
  repeat case_decide; simplify_eq; simpl in *; try done; try congruence.

Lemma lock_inv_log tid weak (s : state) th ev s' :
  hs_prods s !! tid = Some th -> lock_inv s -> log_move mask tid weak s th ev s' -> lock_inv s'.
Proof.
  intros Htid Hinv Hmove.
  assert (holds s (OwnProducer tid) = log_holds (lt_pc th)) as Hme by (simpl; by rewrite Htid).
  destruct Hmove as [Hpc|pc m' pc' ev Hpc Hr He|r Hpc|Hpc|Hpc|Hpc|Hpc Hl|Hpc|Hpc|Hpc]; rewrite Hpc in Hme.
  7: { apply (lock_inv_acquire s _ (OwnProducer tid)); owners. }
  8: { apply (lock_inv_release s _ (OwnProducer tid)); owners. }
  8: { apply (lock_inv_keep s); [done| |done]. intros [tid'| |]; simpl; try done.
    destruct (decide (tid' = tid)) as [->|]; [by rewrite lookup_delete_eq, Htid, Hpc|].
    by rewrite lookup_delete_ne. }
  all: apply (lock_inv_keep s); [done| |simpl; by rewrite ?lock_wake].
  all: intros o; rewrite holds_set_log_pc, ?holds_wake; case_decide as Ho; [|done].
  all: rewrite Ho, Hme; try done; try by destruct r.
  - by destruct (hs_running s).
  - by destruct (hs_sleeping s).
Qed.

Lemma lock_inv_consumer spurious (s : state) ev s' :
  lock_inv s -> consumer_step mask spurious s = Some (ev, s') -> lock_inv s'.
Proof.
  intros Hinv Hstep. pose proof (Hinv OwnConsumer) as Hme. simpl in Hme. unfold consumer_step in Hstep.
  destruct (hs_cons s) eqn:Hc; simpl in Hme.
  6, 12: destruct (acquire OwnConsumer s) as [s1|] eqn:Ha; simpl in Hstep; simplify_eq;
    apply acquire_inv in Ha as [Hl ->]; apply (lock_inv_acquire s _ OwnConsumer); owners.
  9, 12: simplify_eq; apply (lock_inv_release s _ OwnConsumer); owners; by rewrite Hc.
  all: try (destruct (lmk_ring_peek_slot mask (hs_tail s) (hs_mem s))).
  all: try (destruct (lmk_ring_consume mask (hs_tail s) (hs_mem s))).
  all: try (destruct spurious); simplify_eq.
  all: apply (lock_inv_keep s); [done| |done]; owners; rewrite Hc; repeat case_match; done.
Qed.

Lemma lock_inv_destroy (s : state) ev s' :
  lock_inv s -> destroy_step s = Some (ev, s') -> lock_inv s'.
Proof.
  intros Hinv Hstep. unfold destroy_step in Hstep. destruct (hs_destroy s) eqn:Hd.
  - simplify_eq. apply (lock_inv_keep s); [done| |done]. owners. by rewrite Hd.
  - destruct (acquire OwnDestroyer s) as [s1|] eqn:Ha; simpl in Hstep; simplify_eq.
    apply acquire_inv in Ha as [Hl ->]. apply (lock_inv_acquire s _ OwnDestroyer); owners.
  - simplify_eq. apply (lock_inv_keep s); [done| |simpl; apply lock_wake].
    intros [tid| |]; simpl; [by rewrite wake_prods|apply (holds_wake s OwnConsumer)|by rewrite Hd].
  - simplify_eq. apply (lock_inv_release s _ OwnDestroyer); owners. by rewrite Hd.
  - destruct (hs_cons s) eqn:Hc; simplify_eq. apply (lock_inv_keep s); [done| |done]. owners. by rewrite Hd.
  - done.
Qed.

(** ** No lost wake-up *)

(** What [lmk_ring_peek_slot] tests. *)
Definition ready_at (tail : Z) (m : ring_mem) : bool :=
  seq_diff (sequence (mem_slot mask tail m)) (w64 (tail + 1)) =? 0.

Definition ready (s : state) : bool := ready_at (hs_tail s) (hs_mem s).

Lemma peek_ready tail m :
  lmk_ring_peek_slot mask tail m = if ready_at tail m then Some (mem_slot mask tail m) else None.
Proof. done. Qed.

(** Writing a payload leaves every sequence number alone. *)
Lemma sequence_on_req t pos f m :
  sequence (mem_slot mask t (upd_slot mask pos (on_req f) m)) = sequence (mem_slot mask t m).
Proof.
  unfold mem_slot, upd_slot. simpl. rewrite !list_lookup_total_alt, list_lookup_alter.
  case_decide as Heq; [|done]. rewrite <- Heq. by destruct (rm_slots m !! _).
Qed.

(** Only the step that publishes a slot can make one ready. *)
Lemma enq_step_ready tail rec h weak m pc m' pc' ev :
  enq_result pc = None -> enq_step mask rec h weak m pc = (m', pc', ev) ->
  pc' = EnqDone true \/ ready_at tail m' = ready_at tail m.
Proof.
  intros Hr He. destruct pc; simpl in *; try done; repeat case_match; simplify_eq; try (by right);
    try (by left); right; unfold ready_at; by rewrite sequence_on_req.
Qed.

Definition cons_sleeps (c : consumer_pc) : bool :=
  match c with
  | KWaitPeek | KWaitRunning | KWait | KParked | KWoken | KClearSleeping => true
  | _ => false
  end.

(** The consumer has seen an empty ring and is about to wait, or waits. *)
Definition cons_waits (c : consumer_pc) : bool :=
  match c with KWaitRunning | KWait | KParked => true | _ => false end.

Definition cons_commits (c : consumer_pc) : bool :=
  match c with KWait | KParked => true | _ => false end.

(** The producer has published a record and has yet to reach its signal. *)
Definition will_signal (pc : log_pc) : bool :=
  match pc with
  | LogEnq (EnqDone true) | LogCount | LogLoadSleeping | LogLock | LogSignal => true
  | _ => false
  end.

Record wake_inv (s : state) : Prop := {
  wi_lock : lock_inv s;
  wi_sleeping : hs_sleeping s = cons_sleeps (hs_cons s);
  wi_running : hs_running s = match hs_destroy s with DIdle => true | _ => false end;
  wi_signal : cons_waits (hs_cons s) = true -> ready s = true ->
    exists tid th, hs_prods s !! tid = Some th /\ will_signal (lt_pc th) = true;
  wi_stop : cons_commits (hs_cons s) = true -> hs_running s = false ->
    hs_destroy s = DLock \/ hs_destroy s = DBroadcast
}.

Lemma wake_inv_start sink0 : wake_inv (handler_start k sink0).
Proof. split; try done. intros o; split; [by destruct o|done]. Qed.

(** The promise to signal survives a step of another producer. *)
Lemma will_signal_insert (s : state) tid th th' :
  hs_prods s !! tid = Some th -> (will_signal (lt_pc th) = true -> will_signal (lt_pc th') = true) ->
  (exists tid0 th0, hs_prods s !! tid0 = Some th0 /\ will_signal (lt_pc th0) = true) ->
  exists tid0 th0, <[tid := th']> (hs_prods s) !! tid0 = Some th0 /\ will_signal (lt_pc th0) = true.
Proof.
  intros Htid Himp (tid0 & th0 & Hl & Hw). destruct (decide (tid0 = tid)) as [->|Hne].
  - exists tid, th'. rewrite lookup_insert_eq. split; [done|]. apply Himp. by simplify_eq.
  - exists tid0, th0. by rewrite lookup_insert_ne.
Qed.

Lemma wake_inv_log tid weak (s : state) th ev s' :
  hs_prods s !! tid = Some th -> wake_inv s -> log_move mask tid weak s th ev s' -> wake_inv s'.
Proof.
  intros Htid [Hlock Hsl Hrun Hsig Hstop] Hmove.
  pose proof (lock_inv_log tid weak s th ev s' Htid Hlock Hmove) as Hlock'.
  destruct Hmove as [Hpc|pc m' pc' ev Hpc Hr He|r Hpc|Hpc|Hpc|Hpc|Hpc Hl|Hpc|Hpc|Hpc]; split; try done; simpl.
  all: try (intros Hw Hready; eapply will_signal_insert; [done| |by apply Hsig]; by rewrite Hpc).
  - intros Hw Hready. destruct (enq_step_ready (hs_tail s) _ _ _ _ _ _ _ _ Hr He) as [->|Hsame].
    + exists tid. eexists. by rewrite lookup_insert_eq.
    + eapply will_signal_insert; [done| |apply Hsig; [done|]; unfold ready in *; simpl in *; congruence].
      rewrite Hpc. simpl. by destruct pc.
  - intros Hw Hready. eapply will_signal_insert; [done| |by apply Hsig]. rewrite Hpc. by destruct r.
  - intros Hw Hready. eapply will_signal_insert; [done| |by apply Hsig]. intros _.
    rewrite Hsl. by destruct (hs_cons s).
  - unfold wake. destruct (hs_cons s) eqn:Hc; simpl; rewrite ?Hc in *; done.
  - unfold wake. by destruct (hs_cons s).
  - assert (consumer_holds (hs_cons s) = false) as Hfree.
    { destruct (consumer_holds (hs_cons s)) eqn:Hh; [|done].
      apply (Hlock OwnConsumer) in Hh. 
      assert (hs_lock s = Some (OwnProducer tid)) as Hme by (apply Hlock; simpl; by rewrite Htid, Hpc).
      congruence. }
    unfold wake. by destruct (hs_cons s) eqn:Hc; simpl in *; rewrite ?Hc.
  - unfold wake. destruct (hs_cons s) eqn:Hc; simpl; rewrite ?Hc; try done; simpl in *.
  - intros Hw Hready. destruct (Hsig Hw Hready) as (tid0 & th0 & Hl0 & Hs0).
    exists tid0, th0. rewrite lookup_delete_ne; [done|]. intros ->. simplify_eq. by rewrite Hpc in Hs0.
Qed.

Lemma wake_inv_consumer spurious (s : state) ev s' :
  wake_inv s -> consumer_step mask spurious s = Some (ev, s') -> wake_inv s'.
Proof.
  intros [Hlock Hsl Hrun Hsig Hstop] Hstep.
  pose proof (lock_inv_consumer spurious s ev s' Hlock Hstep) as Hlock'.
  unfold consumer_step in Hstep. destruct (hs_cons s) eqn:Hc.
  8: { rewrite peek_ready in Hstep. fold (ready s) in Hstep.
    destruct (ready s) eqn:Hready; simplify_eq; split; try done; simpl.
    intros _. unfold ready in *. simpl. congruence. }
  8: { destruct (hs_running s) eqn:Hr; simplify_eq; split; try done; simpl; rewrite ?Hr; try done. }
  6, 10: destruct (acquire OwnConsumer s) as [s1|] eqn:Ha; simpl in Hstep; simplify_eq;
    apply acquire_inv in Ha as [Hl ->]; by split.
  all: try (destruct (lmk_ring_peek_slot mask (hs_tail s) (hs_mem s))).
  all: try (destruct (lmk_ring_consume mask (hs_tail s) (hs_mem s))).
  all: try (destruct spurious); simplify_eq; split; try done.
  all: by destruct (hs_running s).
Qed.

Lemma wake_inv_destroy (s : state) ev s' :
  wake_inv s -> destroy_step s = Some (ev, s') -> wake_inv s'.
Proof.
  intros [Hlock Hsl Hrun Hsig Hstop] Hstep.
  pose proof (lock_inv_destroy s ev s' Hlock Hstep) as Hlock'.
  unfold destroy_step in Hstep. destruct (hs_destroy s) eqn:Hd.
  2: { destruct (acquire OwnDestroyer s) as [s1|] eqn:Ha; simpl in Hstep; simplify_eq.
    apply acquire_inv in Ha as [Hl ->]. split; try done; simpl; by right. }
  2: { simplify_eq. assert (consumer_holds (hs_cons s) = false) as Hfree.
    { destruct (consumer_holds (hs_cons s)) eqn:Hh; [|done]. apply (Hlock OwnConsumer) in Hh.
      assert (hs_lock s = Some OwnDestroyer) as Hme by (apply Hlock; simpl; by rewrite Hd). congruence. }
    split; try done; simpl; unfold wake in *; destruct (hs_cons s) eqn:Hc; simpl in *; rewrite ?Hc; done. }
  3: destruct (hs_cons s) eqn:Hc.
  all: simplify_eq; split; try done; simpl; rewrite ?Hc; try done; try (by left).
  intros Hw Hr. destruct (Hstop Hw Hr); congruence.
Qed.

Lemma wake_inv_step (s : state) ev s' : wake_inv s -> handler_step mask s ev s' -> wake_inv s'.
Proof.
  intros Hinv Hstep. revert Hinv.
  destruct Hstep as [s0 tid rec h Hnone Hrec|s0 tid weak ev0 s0' Hs|s0 spurious ev0 s0' Hs|s0 ev0 s0' Hs];
    intros Hinv.
  - destruct Hinv as [Hlock Hsl Hrun Hsig Hstop]. split; try done; simpl.
    + apply (lock_inv_keep s0); [done| |done]. intros [tid'| |]; simpl; try done.
      destruct (decide (tid' = tid)) as [->|]; [by rewrite lookup_insert_eq, Hnone|].
      by rewrite lookup_insert_ne.
    + intros Hw Hready. destruct (Hsig Hw Hready) as (tid0 & th0 & Hl0 & Hs0).
      exists tid0, th0. rewrite lookup_insert_ne; [done|]. congruence.
  - apply log_impl_step_move in Hs as (th & Htid & Hmove). by eapply wake_inv_log.
  - by eapply wake_inv_consumer.
  - by eapply wake_inv_destroy.
Qed.

Lemma wake_inv_run sink0 tr (s : state) : run (handler_step mask) (handler_start k sink0) tr s -> wake_inv s.
Proof. intros Hrun. induction Hrun; [apply wake_inv_start|by eapply wake_inv_step]. Qed.

(** The owner of the lock is at a step that does not wait for it. *)
Lemma owner_can_move (s : state) (o : lock_owner) : wake_inv s -> hs_lock s = Some o ->
  exists ev s', match o with
  | OwnProducer tid => log_impl_step mask tid false s
  | OwnConsumer => consumer_step mask false s
  | OwnDestroyer => destroy_step s
  end = Some (ev, s').
Proof.
  intros Hw Howner. apply (wi_lock s Hw) in Howner.
  destruct o as [tid| |]; simpl in Howner.
  - destruct (hs_prods s !! tid) as [th|] eqn:Htid; [|done]. unfold log_impl_step. rewrite Htid. simpl.
    destruct (lt_pc th); try done; by do 2 eexists.
  - unfold consumer_step. destruct (hs_cons s); try done; try (by do 2 eexists).
    destruct (lmk_ring_peek_slot mask (hs_tail s) (hs_mem s)); by do 2 eexists.
  - unfold destroy_step. destruct (hs_destroy s); try done; by do 2 eexists.
Qed.

(** ** The sink sees the records in order, once each *)

Inductive sink_op := OpProcess (v : log_view) | OpIdle | OpFinish.

Definition sink_apply (st : St) (op : sink_op) : St :=
  match op with
  | OpProcess v => sink_process v st
  | OpIdle => sink_idle st
  | OpFinish => sink_finish st
  end.

Definition sink_replay (ops : list sink_op) (st : St) : St := foldl sink_apply st ops.

Definition processed (ops : list sink_op) : list log_view :=
  omap (fun op => match op with OpProcess v => Some v | _ => None end) ops.

(** The record the consumer has handed to the sink but not yet released. *)
Definition in_hand (c : consumer_pc) : list log_view :=
  match c with KConsume v => [v] | _ => [] end.

(** What the consumer last asked of the sink, where its place in the code tells. *)
Definition last_op (c : consumer_pc) : option sink_op :=
  match c with
  | KPeek | KRead | KConsume _ | KIdle => None
  | KExit => Some OpFinish
  | _ => Some OpIdle
  end.

Definition sink_inv (sink0 : St) (tr : list ring_event) (s : state) : Prop :=
  exists ops, hs_sink s = sink_replay ops sink0 /\
    processed ops = dequeued tr ++ in_hand (hs_cons s) /\
    (forall op, last_op (hs_cons s) = Some op -> last ops = Some op) /\
    (OpFinish ∈ ops -> hs_cons s = KExit).

Lemma sink_replay_snoc ops op st : sink_replay (ops ++ [op]) st = sink_apply (sink_replay ops st) op.
Proof. unfold sink_replay. by rewrite foldl_app. Qed.

Lemma processed_snoc ops op : processed (ops ++ [op]) = processed ops ++ processed [op].
Proof. apply omap_app. Qed.

Lemma dequeued_snoc tr ev : dequeued (tr ++ [ev]) = dequeued tr ++ dequeued [ev].
Proof. apply omap_app. Qed.

Lemma dequeued_tau tr : dequeued (tr ++ [EvTau]) = dequeued tr.
Proof. rewrite dequeued_snoc. apply app_nil_r. Qed.

(** Steps that leave the sink alone and move the consumer without losing the record in hand. *)
Lemma sink_inv_keep sink0 tr tr' (s s' : state) :
  sink_inv sink0 tr s -> dequeued tr' = dequeued tr -> hs_sink s' = hs_sink s ->
  in_hand (hs_cons s') = in_hand (hs_cons s) ->
  (last_op (hs_cons s') = None \/ last_op (hs_cons s') = last_op (hs_cons s)) ->
  (hs_cons s = KExit -> hs_cons s' = KExit) ->
  sink_inv sink0 tr' s'.
Proof.
  intros (ops & Hs & Hp & Hl & Hf) Htr Hs' Hh Hlast Hexit. exists ops. rewrite Hs', Htr, Hh.
  split_and!; [done..| |auto]. intros op Hop. destruct Hlast as [Hn|He]; [congruence|].
  apply Hl. congruence.
Qed.

Lemma sink_inv_apply sink0 tr (s s' : state) op :
  sink_inv sink0 tr s -> hs_sink s' = sink_apply (hs_sink s) op -> in_hand (hs_cons s) = [] ->
  in_hand (hs_cons s') = processed [op] ->
  (forall op', last_op (hs_cons s') = Some op' -> op' = op) ->
  hs_cons s <> KExit -> (op = OpFinish -> hs_cons s' = KExit) ->
  sink_inv sink0 (tr ++ [EvTau]) s'.
Proof.
  intros (ops & Hs & Hp & Hl & Hf) Hs' Hh Hh' Hlast Hrun Hfin. exists (ops ++ [op]).
  rewrite sink_replay_snoc, processed_snoc, dequeued_tau, Hs', Hs, Hp, Hh, Hh', app_nil_r.
  split_and!; [done..| |].
  - intros op' Hop. rewrite last_snoc. by rewrite (Hlast op' Hop).
  - intros [Hin|Hin%list_elem_of_singleton]%elem_of_app; [by destruct Hrun; auto|by apply Hfin].
Qed.

Lemma in_hand_wake (s : state) :
  hs_sink (wake s) = hs_sink s /\ in_hand (hs_cons (wake s)) = in_hand (hs_cons s) /\
  last_op (hs_cons (wake s)) = last_op (hs_cons s) /\
  (hs_cons s = KExit -> hs_cons (wake s) = KExit).
Proof. unfold wake. destruct (hs_cons s) eqn:Hc; simpl; by rewrite ?Hc. Qed.

Lemma sink_inv_consumer sink0 tr spurious (s : state) ev s' :
  sink_inv sink0 tr s -> consumer_step mask spurious s = Some (ev, s') -> sink_inv sink0 (tr ++ [ev]) s'.
Proof.
  intros Hinv Hstep. unfold consumer_step in Hstep. destruct (hs_cons s) eqn:Hc.
  2: { simplify_eq. by apply (sink_inv_apply sink0 tr s _ (OpProcess
         (view_of_request (req (mem_slot mask (hs_tail s) (hs_mem s)))))); rewrite ?Hc. }
  2: { destruct (lmk_ring_consume mask (hs_tail s) (hs_mem s)). simplify_eq.
    destruct Hinv as (ops & Hs & Hp & Hl & Hf). exists ops. rewrite Hc in Hp, Hf.
    rewrite dequeued_snoc, Hp. simpl. rewrite app_nil_r. split_and!; try done. intros Hin. by apply Hf in Hin. }
  2: { simplify_eq. apply (sink_inv_apply sink0 tr s _ OpIdle); simpl; rewrite ?Hc; try done. congruence. }
  3, 9: destruct (acquire OwnConsumer s) as [s1|] eqn:Ha; simpl in Hstep; simplify_eq;
    apply acquire_inv in Ha as [Hl ->]; apply (sink_inv_keep sink0 tr _ s);
    rewrite ?dequeued_tau, ?Hc; simpl; auto; try done.
  10: { simplify_eq. apply (sink_inv_apply sink0 tr s _ OpFinish); simpl; rewrite ?Hc; try done. congruence. }
  all: try (destruct (lmk_ring_peek_slot mask (hs_tail s) (hs_mem s))).
  all: try (destruct spurious); simplify_eq.
  all: apply (sink_inv_keep sink0 tr _ s); rewrite ?dequeued_tau, ?Hc; simpl; auto; try done.
  all: destruct (hs_running s); auto.
Qed.

Lemma enq_step_dequeued rec h weak m pc m' pc' ev :
  enq_step mask rec h weak m pc = (m', pc', ev) -> dequeued [ev] = [].
Proof. intros He. destruct pc; simpl in *; repeat case_match; by simplify_eq. Qed.

Lemma sink_inv_step sink0 tr (s : state) ev s' :
  sink_inv sink0 tr s -> handler_step mask s ev s' -> sink_inv sink0 (tr ++ [ev]) s'.
Proof.
  intros Hinv Hstep. revert Hinv.
  destruct Hstep as [s0 tid rec h Hnone Hrec|s0 tid weak ev0 s0' Hs|s0 spurious ev0 s0' Hs|s0 ev0 s0' Hs];
    intros Hinv; [|apply log_impl_step_move in Hs as (th & Htid & Hmove)|by eapply sink_inv_consumer|].
  - apply (sink_inv_keep sink0 tr _ s0); rewrite ?dequeued_tau; auto.
  - destruct (in_hand_wake s0) as (Hw1 & Hw2 & Hw3 & Hw4).
    destruct Hmove; apply (sink_inv_keep sink0 tr _ s0); rewrite ?dequeued_tau; auto.
    erewrite dequeued_snoc, enq_step_dequeued by done. apply app_nil_r.
  - destruct (in_hand_wake s0) as (Hw1 & Hw2 & Hw3 & Hw4). unfold destroy_step in Hs.
    destruct (hs_destroy s0); try done.
    2: destruct (acquire OwnDestroyer s0) as [s1|] eqn:Ha; simpl in Hs; simplify_eq;
      apply acquire_inv in Ha as [Hl ->].
    5: destruct (hs_cons s0) eqn:Hc; try done.
    all: simplify_eq; apply (sink_inv_keep sink0 tr _ s0); rewrite ?dequeued_tau; auto.
Qed.

Lemma sink_inv_run sink0 tr (s : state) :
  run (handler_step mask) (handler_start k sink0) tr s -> sink_inv sink0 tr s.
Proof. intros Hrun. induction Hrun; [by exists []; split_and!; try done; intros ?%not_elem_of_nil|by eapply sink_inv_step]. Qed.

Context (Hk : (1 <= k <= 32)%nat).

Definition queue_inv (n : nat) (s : state) (q : list log_view) : Prop :=
  ring_inv k n (ring_of s) q /\ all_wf s.

Lemma handler_ring_step (s : state) ev s' : all_wf s -> handler_step mask s ev s' ->
  ring_step mask (ring_of s) ev (ring_of s') \/ ev = EvTau /\ ring_of s' = ring_of s.
Proof.
  intros Hwf Hstep. revert Hwf.
  destruct Hstep as [s0 tid rec h Hnone Hrec|s0 tid weak ev0 s0' Hs|s0 spurious ev0 s0' Hs|s0 ev0 s0' Hs];
    intros Hwf.
  - right. split; [done|]. unfold ring_of; simpl. f_equal. rewrite omap_insert. simpl.
    apply delete_id. by rewrite lookup_omap, Hnone.
  - by eapply log_impl_ring_step.
  - by eapply consumer_ring_step.
  - right. by eapply destroy_ring_step.
Qed.

Lemma queue_inv_step n (s : state) q ev s' :
  Z.of_nat n < 2 ^ 62 -> queue_inv n s q -> handler_step mask s ev s' ->
  exists q', fifo_step (cap k) q ev q' /\ queue_inv (S n) s' q'.
Proof.
  intros Hn [Hinv Hwf] Hstep. pose proof (all_wf_step s ev s' Hwf Hstep) as Hwf'.
  destruct (handler_ring_step s ev s' Hwf Hstep) as [Hring|[-> Hsame]].
  - destruct (ring_inv_step k Hk n _ _ _ _ Hn Hinv Hring) as (q' & ? & ?). by exists q'.
  - exists q. split; [constructor|]. split; [|done]. rewrite Hsame.
    apply (ring_inv_mono k n); [lia|done].
Qed.

Lemma queue_inv_start sink0 : queue_inv 0 (handler_start k sink0) [].
Proof.
  split; [|done]. unfold ring_of; simpl. rewrite omap_empty. apply ring_inv_start.
Qed.

Lemma handler_run_refines sink0 tr (s : state) :
  Z.of_nat (length tr) <= 2 ^ 62 -> run (handler_step mask) (handler_start k sink0) tr s ->
  exists q, run (fifo_step (cap k)) [] tr q /\ queue_inv (length tr) s q.
Proof.
  intros Hlen Hrun.
  apply (run_simulation (handler_step mask) (fifo_step (cap k)) queue_inv (2 ^ 62)
    ltac:(intros n s1 t1 e s1' Hn Hinv Hstep; by eapply (queue_inv_step n s1 t1 e s1'))
    (handler_start k sink0) [] tr s Hrun Hlen).
  apply queue_inv_start.
Qed.
End safety.
