(* ===== verification/AsyncCounters.v ===== *)
(** The statistics of a handler: [dropped] counts the calls that found the ring
    full, [nr_log_calls] the accepted ones.  A call is counted one step after
    its fate is decided, so the counters lag behind by the threads in between;
    [counters_inv] says by how much. *)
From S2P Require Import Prelude Types Ring RingMachine AsyncHandler AsyncSafety.
Local Open Scope Z_scope.

(** The number of threads whose place in the code satisfies [f]. *)
Definition count (f : log_pc -> bool) (prods : gmap nat log_thread) : Z :=
  count_if (fun th => f (lt_pc th)) prods.

(** ** The invariant *)

(** The call's record has been accepted, and not yet counted. *)
Definition accepted_pending (pc : log_pc) : bool :=
  match pc with
  | LogEnq (EnqMeta _ | EnqData _ | EnqNul _ | EnqPublish _ | EnqDone true) | LogCount => true
  | _ => false
  end.

(** The call has found the ring full, and is not yet counted. *)
Definition rejected_pending (pc : log_pc) : bool :=
  match pc with LogEnq (EnqDone false) | LogDrop => true | _ => false end.

Definition rejections (tr : list ring_event) : list unit :=
  omap (fun ev => match ev with EvFull => Some tt | _ => None end) tr.

Section counters.
Context {St : Type} `{Sink St} (k : nat).
Abbreviation state := (handler_state St).
Abbreviation mask := (mask_of k).

Definition counters_inv (tr : list ring_event) (s : state) : Prop :=
  hs_nr_log_calls s + count accepted_pending (hs_prods s) = Z.of_nat (length (enqueued tr)) /\
  hs_dropped s + count rejected_pending (hs_prods s) = Z.of_nat (length (rejections tr)) /\
  0 <= hs_nr_log_calls s /\ 0 <= hs_dropped s.

(** How many acceptances and rejections an event reports. *)
Definition enqs (ev : ring_event) : Z := match ev with EvEnq _ => 1 | _ => 0 end.
Definition fulls (ev : ring_event) : Z := match ev with EvFull => 1 | _ => 0 end.

Lemma enqueued_snoc tr ev : Z.of_nat (length (enqueued (tr ++ [ev]))) = Z.of_nat (length (enqueued tr)) + enqs ev.
Proof. unfold enqueued. rewrite omap_app, length_app. destruct ev; simpl; lia. Qed.

Lemma rejections_snoc tr ev :
  Z.of_nat (length (rejections (tr ++ [ev]))) = Z.of_nat (length (rejections tr)) + fulls ev.
Proof. unfold rejections. rewrite omap_app, length_app. destruct ev; simpl; lia. Qed.

Lemma enqueued_le tr : (length (enqueued tr) <= length tr)%nat.
Proof. induction tr as [|[] tr IH]; simpl; unfold enqueued in *; simpl; lia. Qed.

Lemma rejections_le tr : (length (rejections tr) <= length tr)%nat.
Proof. induction tr as [|[] tr IH]; simpl; unfold rejections in *; simpl; lia. Qed.

(** An enqueue step reports an acceptance or a rejection exactly when it
    makes its thread pending. *)
Lemma enq_step_pending rec h weak m pc m' pc' ev :
  enq_result pc = None -> enq_step mask rec h weak m pc = (m', pc', ev) ->
  Z.b2z (accepted_pending (LogEnq pc')) = Z.b2z (accepted_pending (LogEnq pc)) + enqs ev /\
  Z.b2z (rejected_pending (LogEnq pc')) = Z.b2z (rejected_pending (LogEnq pc)) + fulls ev.
Proof. intros Hr He. destruct pc; simpl in *; try done; repeat case_match; by simplify_eq. Qed.

Lemma counters_inv_keep tr (s s' : state) ev :
  counters_inv tr s -> hs_prods s' = hs_prods s -> hs_nr_log_calls s' = hs_nr_log_calls s ->
  hs_dropped s' = hs_dropped s -> enqs ev = 0 -> fulls ev = 0 -> counters_inv (tr ++ [ev]) s'.
Proof.
  intros (Ha & Hr & ? & ?) Hp Hn Hd He Hf. unfold counters_inv.
  rewrite enqueued_snoc, rejections_snoc, Hp, Hn, Hd. lia.
Qed.

Lemma counters_inv_log tr tid weak (s : state) th ev s' :
  Z.of_nat (length tr) < 2 ^ 63 -> hs_prods s !! tid = Some th ->
  counters_inv tr s -> log_move mask tid weak s th ev s' -> counters_inv (tr ++ [ev]) s'.
Proof.
  intros Hlen Htid (Ha & Hr & Hn & Hd) Hmove. unfold counters_inv. rewrite enqueued_snoc, rejections_snoc.
  pose proof (fun f => count_if_nonneg (fun th => f (lt_pc th)) (hs_prods s)) as Hnonneg.
  pose proof (Hnonneg accepted_pending). pose proof (Hnonneg rejected_pending).
  pose proof (enqueued_le tr). pose proof (rejections_le tr).
  pose proof (fun f pc => count_if_update (fun th => f (lt_pc th)) (hs_prods s) tid th
    (mk_log_thread (lt_rec th) (lt_handler th) pc) Htid) as Hmv. simpl in Hmv.
  unfold count in *.
  assert (hs_nr_log_calls (wake s) = hs_nr_log_calls s /\ hs_dropped (wake s) = hs_dropped s) as [Hwn Hwd]
    by (unfold wake; by destruct (hs_cons s)).
  destruct Hmove as [Hpc|pc m' pc' ev Hpc Hres He|r Hpc|Hpc|Hpc|Hpc|Hpc Hl|Hpc|Hpc|Hpc]; simpl;
    rewrite ?wake_prods, ?Hwn, ?Hwd, ?Hmv, ?Hpc; simpl.
  - destruct (hs_running s); simpl; lia.
  - destruct (enq_step_pending _ _ _ _ _ _ _ _ Hres He). simpl in *. lia.
  - destruct r; simpl; lia.
  - rewrite w64_small by lia. lia.
  - rewrite w64_small by lia. lia.
  - destruct (hs_sleeping s); simpl; lia.
  - lia.
  - lia.
  - lia.
  - pose proof (fun f => count_if_delete (fun th => f (lt_pc th)) _ _ _ Htid) as Hdel.
    pose proof (Hdel accepted_pending). pose proof (Hdel rejected_pending).
    cbv beta in *. rewrite Hpc in *. simpl in *. lia.
Qed.

Lemma counters_inv_step tr (s : state) ev s' :
  Z.of_nat (length tr) < 2 ^ 63 -> counters_inv tr s -> handler_step mask s ev s' ->
  counters_inv (tr ++ [ev]) s'.
Proof.
  intros Hlen Hinv Hstep. revert Hinv.
  destruct Hstep as [s0 tid rec h Hnone Hrec|s0 tid weak ev0 s0' Hs|s0 spurious ev0 s0' Hs|s0 ev0 s0' Hs];
    intros Hinv.
  - destruct Hinv as (? & ? & ? & ?). unfold counters_inv. rewrite enqueued_snoc, rejections_snoc. simpl.
    unfold count in *. rewrite !count_if_insert by done. simpl. lia.
  - apply log_impl_step_move in Hs as (th & Htid & Hmove). by eapply counters_inv_log.
  - assert (hs_nr_log_calls s0' = hs_nr_log_calls s0 /\ hs_dropped s0' = hs_dropped s0 /\
      enqs ev0 = 0 /\ fulls ev0 = 0) as (? & ? & ? & ?).
    { clear Hinv. unfold consumer_step, acquire in Hs. destruct (hs_cons s0); simplify_eq; simpl; try done.
      all: repeat case_match; simpl in *; by simplify_eq. }
    apply consumer_step_prods in Hs as (? & _). by eapply counters_inv_keep.
  - assert (hs_nr_log_calls s0' = hs_nr_log_calls s0 /\ hs_dropped s0' = hs_dropped s0 /\ ev0 = EvTau)
      as (? & ? & ->).
    { clear Hinv. unfold destroy_step, acquire, wake in Hs. destruct (hs_destroy s0); simplify_eq; simpl; try done.
      - destruct (hs_lock s0); simpl in Hs; by simplify_eq.
      - by destruct (hs_cons s0).
      - destruct (hs_cons s0); by simplify_eq. }
    apply destroy_step_frame in Hs as (? & _). by eapply counters_inv_keep.
Qed.

Lemma counters_inv_run sink0 tr (s : state) :
  Z.of_nat (length tr) <= 2 ^ 62 -> run (handler_step mask) (handler_start k sink0) tr s -> counters_inv tr s.
Proof.
  intros Hlen Hrun. induction Hrun as [|tr s1 ev s2 _ IH Hstep]; [done|].
  rewrite length_app in Hlen. simpl in Hlen.
  apply (counters_inv_step tr s1); [lia|apply IH; lia|done].
Qed.
End counters.
