(* ===== verification/AsyncTheorems.v ===== *)
(** The contract of an asynchronous handler: it is a bounded FIFO queue in
    front of its sink, a quiescent handler has processed and flushed everything
    it accepted, its counters account for every call, nobody waits for a lock
    whose owner is stuck, and a destroyed handler's thread is joined.  The last
    theorem exhibits the one hole of the contract: a record accepted while the
    handler shuts down can be abandoned. *)
From S2P Require Import Prelude Types Ring RingMachine AsyncHandler AsyncSafety AsyncCounters.
Local Open Scope Z_scope.

(** ** The consumer running alone *)

Section solo.
Context {St : Type} `{Sink St} (k : nat).
Abbreviation state := (handler_state St).
Abbreviation mask := (mask_of k).

(** Runs the consumer until its thread routine returns; [None] when it blocks
    or needs more than [fuel] steps. *)
Fixpoint consumer_run (fuel : nat) (s : state) : option (list ring_event * state) :=
  match hs_cons s with
  | KExit => Some ([], s)
  | _ =>
      match fuel with
      | O => None
      | S fuel' =>
          '(ev, s') ← consumer_step mask false s;
          '(tr, s'') ← consumer_run fuel' s';
          Some (ev :: tr, s'')
      end
  end.

Lemma consumer_run_run fuel (s : state) tr s' :
  consumer_run fuel s = Some (tr, s') -> run (handler_step mask) s tr s' /\ hs_cons s' = KExit.
Proof.
  revert s tr. induction fuel as [|fuel IH]; intros s tr Hrun; simpl in Hrun.
  - destruct (hs_cons s) eqn:Hc; try done. simplify_eq. by split; [constructor|].
  - destruct (decide (hs_cons s = KExit)) as [Hc|Hc].
    { rewrite Hc in Hrun. simplify_eq. by split; [constructor|]. }
    assert ((consumer_step mask false s ≫= (fun '(ev, s1) => consumer_run fuel s1 ≫=
      (fun '(tr1, s2) => Some (ev :: tr1, s2)))) = Some (tr, s')) as Hbind
      by (destruct (hs_cons s); done).
    apply bind_Some in Hbind as ([ev s1] & Hstep & Hbind).
    apply bind_Some in Hbind as ([tr1 s2] & Hrest & Heq). simplify_eq.
    destruct (IH _ _ Hrest) as [Hr He]. split; [|done].
    eapply run_cons; [by eapply hstep_consumer|done].
Qed.

(** The consumer alone accepts nothing. *)
Lemma consumer_run_trace fuel (s : state) tr s' :
  consumer_run fuel s = Some (tr, s') -> enqueued tr = [] /\ (length tr <= fuel)%nat.
Proof.
  revert s tr. induction fuel as [|fuel IH]; intros s tr Hrun; simpl in Hrun.
  - destruct (hs_cons s) eqn:Hc; try done. by simplify_eq.
  - destruct (decide (hs_cons s = KExit)) as [Hc|Hc].
    { rewrite Hc in Hrun. simplify_eq. simpl. split; [done|lia]. }
    assert ((consumer_step mask false s ≫= (fun '(ev, s1) => consumer_run fuel s1 ≫=
      (fun '(tr1, s2) => Some (ev :: tr1, s2)))) = Some (tr, s')) as Hbind
      by (destruct (hs_cons s); done).
    apply bind_Some in Hbind as ([ev s1] & Hstep & Hbind).
    apply bind_Some in Hbind as ([tr1 s2] & Hrest & Heq). simplify_eq.
    destruct (IH _ _ Hrest) as [He Hl]. simpl. split; [|lia].
    assert (enqueued [ev] = []) as Hev; [|unfold enqueued in *; simpl in *; by destruct ev].
    clear - Hstep. unfold consumer_step, acquire in Hstep. destruct (hs_cons s); simplify_eq; try done.
    all: repeat case_match; simpl in *; by simplify_eq.
Qed.

(** Steps left to the return of the thread routine once [running] is false and
    [n] records are queued. *)
Definition exit_distance (c : consumer_pc) (n : nat) : nat :=
  (3 * n + match c with
  | KExit => 0 | KFinish => 1 | KCheckRunning => 2 | KIdle => 3 | KPeek => 4 | KRead => 3
  | KConsume _ => 2 | KUnlock => 5 | KClearSleeping => 6 | KWaitRunning => 7 | KWaitPeek => 8
  | KWoken | KSetSleeping => 9 | KLock => 10 | KWait | KParked => 10
  end)%nat.

(** The consumer looks at the ring again before it tests [running] for good. *)
Definition will_drain (c : consumer_pc) : bool :=
  match c with KIdle | KCheckRunning | KFinish | KExit => false | _ => true end.

Definition stopping (s : state) : Prop :=
  hs_destroy s = DJoin /\ hs_prods s = ∅ /\ hs_running s = false.

(** Nobody is left to own the lock but the consumer. *)
Lemma stopping_lock_free (s : state) : stopping s -> lock_inv s ->
  consumer_holds (hs_cons s) = false -> hs_lock s = None.
Proof.
  intros (Hd & Hp & _) Hinv Hc. destruct (hs_lock s) as [o|] eqn:Hl; [|done].
  apply Hinv in Hl. destruct o as [tid| |]; simpl in Hl.
  - by rewrite Hp in Hl.
  - congruence.
  - by rewrite Hd in Hl.
Qed.

Context (Hk : (1 <= k <= 32)%nat).

(** With no producer in a call, the ring is ready unless it is empty. *)
Lemma ready_nonempty n (s : state) q : Z.of_nat n <= 2 ^ 62 -> queue_inv k n s q -> hs_prods s = ∅ ->
  ready k s = true <-> q <> [].
Proof.
  intros Hn [Hinv _] Hp. pose proof (peek_spec k Hk n (ring_of s) q Hn Hinv) as Hpeek. simpl in Hpeek.
  rewrite peek_ready in Hpeek. fold (ready k s) in Hpeek.
  pose proof (inv_slots _ _ _ _ Hinv 0 ltac:(pose proof (cap_pos k); lia)) as Hslot.
  unfold slot_ok in Hslot. rewrite Z.add_0_r in Hslot. simpl in Hslot.
  destruct (ready k s), (Z.eqb_spec (sequence (mem_slot mask (hs_tail s) (hs_mem s))) (hs_tail s + 1));
    try done; destruct q as [|v q]; simpl in Hslot; try done; try lia.
  exfalso. destruct Hslot as [[? _]|(_ & tid & th & Htid & _)]; [done|].
  by rewrite Hp, omap_empty in Htid.
Qed.

Lemma stopping_consumer_step n (s : state) q :
  Z.of_nat n < 2 ^ 62 -> queue_inv k n s q -> wake_inv k s -> stopping s -> hs_cons s <> KExit ->
  exists ev s' q', consumer_step mask false s = Some (ev, s') /\ queue_inv k (S n) s' q' /\
    stopping s' /\ (exit_distance (hs_cons s') (length q') < exit_distance (hs_cons s) (length q))%nat /\
    (will_drain (hs_cons s) = true \/ q = [] -> will_drain (hs_cons s') = true \/ q' = []).
Proof.
  intros Hn Hq Hw Hstop Hne.
  assert (exists ev s', consumer_step mask false s = Some (ev, s') /\
    ((exists v, hs_cons s = KConsume v /\ ev = EvDeq v /\ hs_cons s' = KPeek) \/
     ev = EvTau /\ (forall m, exit_distance (hs_cons s') m < exit_distance (hs_cons s) m)%nat /\
     (will_drain (hs_cons s) = true -> will_drain (hs_cons s') = true \/ q = []))) as (ev & s' & Hstep & Hcase).
  { pose proof (wi_stop k s Hw) as Hcommit. pose proof (stopping_lock_free s Hstop (wi_lock k s Hw)) as Hlock.
    pose proof (ready_nonempty n s q ltac:(lia) Hq ltac:(apply Hstop)) as Hready.
    destruct Hstop as (Hd & Hp & Hr). unfold consumer_step, acquire.
    destruct (hs_cons s) eqn:Hc; rewrite ?peek_ready, ?Hr; fold (ready k s); simpl in Hlock, Hcommit; try done;
      try (destruct (Hcommit eq_refl Hr); congruence); try (rewrite Hlock by done); simpl.
    all: try (destruct (lmk_ring_consume mask (hs_tail s) (hs_mem s)); do 2 eexists; (split; [done|]);
      left; by eexists).
    all: try (destruct (ready k s); do 2 eexists; (split; [done|]); right; unfold exit_distance; simpl;
      (split_and!; [done|lia|]); auto; intros _; right;
      (destruct q; [done|]); discriminate (proj2 Hready ltac:(done))).
    all: try (do 2 eexists; (split; [done|]); right; unfold exit_distance; simpl;
      (split_and!; [done|lia|]); by auto).
  }
  exists ev, s'.
  destruct (queue_inv_step k Hk n s q ev s' Hn Hq (hstep_consumer mask s false ev s' Hstep)) as (q' & Hf & Hq').
  exists q'. split; [done|]. split; [done|].
  apply consumer_step_prods in Hstep as (Hp' & Hr' & Hd').
  assert (stopping s') as Hstop' by (destruct Hstop as (? & ? & ?); split_and!; congruence).
  split; [done|]. destruct Hcase as [(v & Hc & -> & Hc')|(-> & Hlt & Hdr)]; inversion Hf; subst.
  - rewrite Hc, Hc'. unfold exit_distance. simpl. split; [lia|by left].
  - split; [apply Hlt|]. intros [?|?]; [by apply Hdr|by right].
Qed.

Lemma stopping_consumer_run fuel n (s : state) q :
  Z.of_nat n + Z.of_nat fuel < 2 ^ 62 -> queue_inv k n s q -> wake_inv k s -> stopping s ->
  (exit_distance (hs_cons s) (length q) <= fuel)%nat ->
  exists tr s' q' m, consumer_run fuel s = Some (tr, s') /\ queue_inv k m s' q' /\ stopping s' /\
    (will_drain (hs_cons s) = true \/ q = [] -> q' = []).
Proof.
  revert n s q. induction fuel as [|fuel IH]; intros n s q Hn Hq Hw Hstop Hfuel.
  - assert (hs_cons s = KExit) as Hc.
    { unfold exit_distance in Hfuel. destruct (hs_cons s); simpl in Hfuel; try lia; done. }
    exists [], s, q, n. simpl. rewrite Hc. split_and!; try done. by intros [?|?].
  - destruct (decide (hs_cons s = KExit)) as [Hc|Hc].
    { exists [], s, q, n. simpl. rewrite Hc. split_and!; try done. by intros [?|?]. }
    destruct (stopping_consumer_step n s q ltac:(lia) Hq Hw Hstop Hc)
      as (ev & s' & q' & Hstep & Hq' & Hstop' & Hlt & Hdr).
    pose proof (wake_inv_consumer k false s ev s' Hw Hstep) as Hw'.
    destruct (IH (S n) s' q' ltac:(lia) Hq' Hw' Hstop' ltac:(lia)) as (tr & s'' & q'' & m & Hrun & ? & ? & Hdr').
    exists (ev :: tr), s'', q'', m. split; [|by eauto].
    assert (consumer_run (S fuel) s = consumer_step mask false s ≫= (fun '(ev, s1) => consumer_run fuel s1 ≫=
      (fun '(tr1, s2) => Some (ev :: tr1, s2)))) as -> by (simpl; destruct (hs_cons s); done).
    rewrite Hstep. simpl. by rewrite Hrun.
Qed.
End solo.

(** ** Theorems *)

Section theorems.
Context {St : Type} `{Sink St}.

(** A fact the theorems below and the handlers' own files share. *)
Lemma quiescent_drained (k : nat) (sink0 : St) (tr : list ring_event) (s : handler_state St) :
  (1 <= k <= 32)%nat -> Z.of_nat (length tr) <= 2 ^ 62 ->
  run (handler_step (mask_of k)) (handler_start k sink0) tr s ->
  hs_cons s = KParked -> hs_prods s = ∅ ->
  dequeued tr = enqueued tr /\
  (exists ops, hs_sink s = sink_replay ops sink0 /\ processed ops = enqueued tr /\ last ops = Some OpIdle /\
    OpFinish ∉ ops) /\
  (hs_running s = true \/ hs_destroy s = DLock \/ hs_destroy s = DBroadcast).
Proof.
  intros Hk Hlen Hrun Hparked Hidle.
  destruct (handler_run_refines k Hk sink0 tr s Hlen Hrun) as (q & Hq & Hinv).
  destruct (fifo_run_conserves (cap k) tr q ltac:(pose proof (cap_pos k); lia) Hq) as [He _].
  destruct (sink_inv_run k sink0 tr s Hrun) as (ops & Hs & Hp & Hl & Hf).
  pose proof (wake_inv_run k sink0 tr s Hrun) as Hw.
  pose proof (ready_nonempty k Hk _ s q Hlen Hinv Hidle) as Hready.
  assert (q = []) as ->.
  { destruct q as [|v q]; [done|]. exfalso.
    destruct (wi_signal k s Hw) as (tid & th & Htid & _); [by rewrite Hparked|by apply Hready|].
    by rewrite Hidle in Htid. }
  rewrite app_nil_r in He. rewrite Hparked in Hp, Hl, Hf. simpl in Hp, Hl. rewrite app_nil_r in Hp.
  split_and!; [done|exists ops; split_and!; [done|congruence|by apply Hl|by intros Hin; apply Hf in Hin]|].
  destruct (hs_running s) eqn:Hr; [by left|right].
  apply (wi_stop k s Hw); [by rewrite Hparked|done].
Qed.

(** C1. The handler refines the bounded FIFO queue: whatever its producers, its
    consumer and its destroyer interleave, the records accepted, refused and
    released are a run of the queue of capacity [2 ^ k] that starts empty. *)
Theorem handler_refines_bounded_fifo (k : nat) (sink0 : St) (tr : list ring_event) (s : handler_state St)
    (Hk : (1 <= k <= 32)%nat) (Hlen : Z.of_nat (length tr) <= 2 ^ 62)
    (Hrun : run (handler_step (mask_of k)) (handler_start k sink0) tr s) :
  exists q, run (fifo_step (cap k)) [] tr q.
Proof. destruct (handler_run_refines k Hk sink0 tr s Hlen Hrun) as (q & Hq & _). by exists q. Qed.

(** C4. The sink is driven correctly: its state comes from processing a prefix of
    the accepted records, in the order of acceptance, each exactly once and
    intact, with idle flushes in between. *)
Theorem sink_sees_records_in_order (k : nat) (sink0 : St) (tr : list ring_event) (s : handler_state St)
    (Hk : (1 <= k <= 32)%nat) (Hlen : Z.of_nat (length tr) <= 2 ^ 62)
    (Hrun : run (handler_step (mask_of k)) (handler_start k sink0) tr s) :
  exists ops, hs_sink s = sink_replay ops sink0 /\ processed ops `prefix_of` enqueued tr /\
    processed ops = dequeued tr ++ in_hand (hs_cons s).
Proof.
  destruct (handler_run_refines k Hk sink0 tr s Hlen Hrun) as (q & Hq & Hinv & _).
  destruct (fifo_run_conserves (cap k) tr q ltac:(pose proof (cap_pos k); lia) Hq) as [He _].
  destruct (sink_inv_run k sink0 tr s Hrun) as (ops & Hs & Hp & _).
  exists ops. split_and!; [done| |done]. rewrite Hp, He.
  pose proof (inv_cons _ _ _ _ Hinv) as Hc. unfold cons_ok in Hc. simpl in Hc.
  destruct (hs_cons s) as [| |v| | | | | | | | | | | | |]; simpl in *; rewrite ?app_nil_r;
    try (by apply prefix_app_r).
  destruct Hc as [Hv _]. destruct q as [|v' q]; simpl in Hv; simplify_eq.
  exists q. by rewrite <- app_assoc.
Qed.

(** No wake-up is lost: when the consumer sleeps and no log call is in
    progress, every accepted record has been processed and flushed, and the
    handler is running or its destroyer is about to wake the consumer. *)
Theorem quiescent_handler_is_drained (k : nat) (sink0 : St) (tr : list ring_event) (s : handler_state St)
    (Hk : (1 <= k <= 32)%nat) (Hlen : Z.of_nat (length tr) <= 2 ^ 62)
    (Hrun : run (handler_step (mask_of k)) (handler_start k sink0) tr s)
    (Hparked : hs_cons s = KParked) (Hidle : hs_prods s = ∅) :
  dequeued tr = enqueued tr /\
  (exists ops, hs_sink s = sink_replay ops sink0 /\ processed ops = enqueued tr /\ last ops = Some OpIdle /\
    OpFinish ∉ ops) /\
  (hs_running s = true \/ hs_destroy s = DLock \/ hs_destroy s = DBroadcast).
Proof. by eapply quiescent_drained. Qed.

(** C10. A sleeping consumer that has a record to process is going to be signalled:
    some producer, of this record or of another, is past publishing and still on
    its way to the signal. *)
Theorem parked_consumer_will_be_signalled (k : nat) (sink0 : St) (tr : list ring_event) (s : handler_state St)
    (slot : lmk_ring_slot)
    (Hrun : run (handler_step (mask_of k)) (handler_start k sink0) tr s)
    (Hparked : hs_cons s = KParked)
    (Hslot : lmk_ring_peek_slot (mask_of k) (hs_tail s) (hs_mem s) = Some slot) :
  exists tid th, hs_prods s !! tid = Some th /\ will_signal (lt_pc th) = true.
Proof.
  apply (wi_signal k s (wake_inv_run k sink0 tr s Hrun)); [by rewrite Hparked|].
  rewrite peek_ready in Hslot. unfold ready. by destruct (ready_at k (hs_tail s) (hs_mem s)).
Qed.

(** Nobody waits for a stuck lock: the owner of [wakeup_lock] always has a step
    of its own to make, so a log call blocks at most for a critical section. *)
Theorem lock_owner_can_step (k : nat) (sink0 : St) (tr : list ring_event) (s : handler_state St)
    (o : lock_owner)
    (Hrun : run (handler_step (mask_of k)) (handler_start k sink0) tr s)
    (Howner : hs_lock s = Some o) :
  exists ev s', match o with
  | OwnProducer tid => log_impl_step (mask_of k) tid false s
  | OwnConsumer => consumer_step (mask_of k) false s
  | OwnDestroyer => destroy_step s
  end = Some (ev, s').
Proof. by apply (owner_can_move k), Howner; eapply wake_inv_run. Qed.

(** C28. The counters account for every call: once the calls in progress have
    returned, [nr_log_calls] is the number of accepted records and [dropped] the
    number of calls that found the ring full. *)
Theorem counters_account_for_calls (k : nat) (sink0 : St) (tr : list ring_event) (s : handler_state St)
    (Hlen : Z.of_nat (length tr) <= 2 ^ 62)
    (Hrun : run (handler_step (mask_of k)) (handler_start k sink0) tr s)
    (Hidle : hs_prods s = ∅) :
  hs_nr_log_calls s = Z.of_nat (length (enqueued tr)) /\
  hs_dropped s = Z.of_nat (length (rejections tr)).
Proof.
  destruct (counters_inv_run k sink0 tr s Hlen Hrun) as (Ha & Hr & _).
  rewrite Hidle in Ha, Hr. unfold count in *. rewrite count_if_zero in Ha, Hr by done. lia.
Qed.

(** C22. Shutdown terminates: once the destroyer waits in [pthread_join] and no log
    call is in progress, the consumer returns within a bounded number of its
    own steps and the join succeeds; if the consumer still had to look at the
    ring, every accepted record has then been processed. *)
Theorem shutdown_joins (k : nat) (sink0 : St) (tr : list ring_event) (s : handler_state St)
    (Hk : (1 <= k <= 32)%nat) (Hlen : Z.of_nat (length tr) <= 2 ^ 61)
    (Hrun : run (handler_step (mask_of k)) (handler_start k sink0) tr s)
    (Hjoin : hs_destroy s = DJoin) (Hidle : hs_prods s = ∅) :
  let outstanding := (length (enqueued tr) - length (dequeued tr))%nat in
  exists tr' s', consumer_run k (10 + 3 * outstanding) s = Some (tr', s') /\
    destroy_step s' = Some (EvTau, with_destroy s' DDone) /\
    (will_drain (hs_cons s) = true ->
     exists ops, hs_sink s' = sink_replay ops sink0 /\ processed ops = enqueued tr /\
       last ops = Some OpFinish).
Proof.
  destruct (handler_run_refines k Hk sink0 tr s ltac:(lia) Hrun) as (q & Hq & Hinv).
  destruct (fifo_run_conserves (cap k) tr q ltac:(pose proof (cap_pos k); lia) Hq) as [He Hcap].
  assert (length (enqueued tr) - length (dequeued tr) = length q)%nat as ->.
  { rewrite He, length_app. lia. }
  pose proof (cap_le_pow32 k ltac:(lia)).
  pose proof (wake_inv_run k sink0 tr s Hrun) as Hw.
  assert (stopping s) as Hstop.
  { split_and!; [done..|]. by rewrite (wi_running k s Hw), Hjoin. }
  destruct (stopping_consumer_run k Hk (10 + 3 * length q) (length tr) s q)
    as (tr' & s' & q' & m & Hsolo & Hinv' & (Hd' & _) & Hdr); [lia|done..| |].
  { unfold exit_distance. destruct (hs_cons s); lia. }
  exists tr', s'. split; [done|]. destruct (consumer_run_run k _ _ _ _ Hsolo) as [Hrun' Hexit].
  split; [unfold destroy_step; by rewrite Hd', Hexit|]. intros Hwill.
  pose proof (run_app _ _ _ _ _ _ Hrun Hrun') as Hall.
  destruct (sink_inv_run k sink0 (tr ++ tr') s' Hall) as (ops & Hs & Hp & Hl).
  rewrite Hexit in Hp, Hl. simpl in Hp, Hl. rewrite app_nil_r in Hp.
  exists ops. split_and!; [done| |by apply Hl]. rewrite Hp.
  destruct (consumer_run_trace k _ _ _ _ Hsolo) as [Hnone Hlen'].
  destruct (handler_run_refines k Hk sink0 (tr ++ tr') s') as (q2 & Hq2 & [Hinv2 _]);
    [rewrite length_app; lia|done|].
  destruct (fifo_run_conserves (cap k) (tr ++ tr') q2 ltac:(lia) Hq2) as [He2 _].
  rewrite (Hdr (or_introl Hwill)) in Hinv'.
  pose proof (inv_head _ _ _ _ (proj1 Hinv')) as Hh. pose proof (inv_head _ _ _ _ Hinv2) as Hh2.
  destruct q2; [|exfalso; rewrite Hh in Hh2; simpl in Hh2; lia]. rewrite app_nil_r in He2. rewrite <- He2.
  unfold enqueued in *. by rewrite omap_app, Hnone, app_nil_r.
Qed.
End theorems.

(** ** Concrete runs *)

(** The sink that only remembers what it was asked to do. *)
#[export] Instance recorder : Sink (list sink_op) := {
  sink_process := fun v ops => ops ++ [OpProcess v];
  sink_idle := fun ops => ops ++ [OpIdle];
  sink_finish := fun ops => ops ++ [OpFinish]
}.

Definition call_schedule (tid : nat) (rec : lmk_log_record) : list handler_action :=
  HCall tid rec "h" :: replicate 14 (HLog tid).

Definition consumer_steps (n : nat) : list handler_action := replicate n HConsumer.
Definition destroyer_steps (n : nat) : list handler_action := replicate n HDestroy.

Abbreviation play acts := (handler_schedule (mask_of 1) (handler_start 1 ([] : list sink_op)) acts).

(** One record is logged; the consumer processes it and goes to sleep. *)
Definition drained_schedule : list handler_action :=
  call_schedule 0 (sample_record "a" 2) ++ consumer_steps 12.

(** The consumer sleeps; a second record is published but not yet signalled. *)
Definition pending_schedule : list handler_action :=
  consumer_steps 8 ++ HCall 0 (sample_record "a" 2) "h" :: replicate 9 (HLog 0).

(** Three records for a ring of two, then shutdown up to the join. *)
Definition shutdown_schedule : list handler_action :=
  call_schedule 0 (sample_record "a" 2) ++ call_schedule 1 (sample_record "b" 3) ++
  call_schedule 2 (sample_record "c" 4) ++ destroyer_steps 4.

(** The consumer finds the ring empty; only then a log call runs to completion,
    and only after it returned does the shutdown begin. *)
Definition race_log : list handler_action :=
  consumer_steps 1 ++ call_schedule 0 (sample_record "a" 2).

Definition race_shutdown : list handler_action :=
  destroyer_steps 4 ++ consumer_steps 3 ++ destroyer_steps 1.

(** C35. Shutdown can abandon an accepted record: [log_impl] returns before [destroy]
    is even called, yet the thread routine, which found the ring empty before
    the call and tests [running] after it, returns without looking again.  The
    record was counted as logged and never reaches the sink. *)
Theorem shutdown_may_abandon_a_record :
  exists (tr1 tr2 : list ring_event) (s1 s2 : handler_state (list sink_op)) (v : log_view),
    run (handler_step (mask_of 1)) (handler_start 1 []) tr1 s1 /\
    hs_prods s1 = ∅ /\ hs_destroy s1 = DIdle /\ enqueued tr1 = [v] /\ hs_nr_log_calls s1 = 1 /\
    run (handler_step (mask_of 1)) s1 tr2 s2 /\ hs_destroy s2 = DDone /\ hs_cons s2 = KExit /\
    hs_dropped s2 = 0 /\ dequeued (tr1 ++ tr2) = [] /\ hs_sink s2 = [OpIdle; OpFinish].
Proof.
  exists (play race_log).1, (handler_schedule (mask_of 1) (play race_log).2 race_shutdown).1,
    (play race_log).2, (handler_schedule (mask_of 1) (play race_log).2 race_shutdown).2,
    (view_of_record (sample_record "a" 2) "h").
  split; [apply handler_schedule_run|]. do 4 (split; [by vm_compute|]).
  split; [apply handler_schedule_run|]. by vm_compute.
Qed.

(** ** Witnesses *)

Lemma handler_refines_bounded_fifo_witness :
  (play shutdown_schedule).1 <> [] /\
  exists q, run (fifo_step (cap 1)) [] (play shutdown_schedule).1 q.
Proof.
  split; [by vm_compute|].
  apply (handler_refines_bounded_fifo 1 [] _ (play shutdown_schedule).2);
    [lia|by vm_compute|apply handler_schedule_run].
Defined.

Lemma sink_sees_records_in_order_witness :
  length (dequeued (play drained_schedule).1) = 1%nat /\
  exists ops, hs_sink (play drained_schedule).2 = sink_replay ops [] /\
    processed ops `prefix_of` enqueued (play drained_schedule).1 /\
    processed ops = dequeued (play drained_schedule).1 ++ in_hand (hs_cons (play drained_schedule).2).
Proof.
  split; [by vm_compute|].
  apply (sink_sees_records_in_order 1 []); [lia|by vm_compute|apply handler_schedule_run].
Defined.

Lemma quiescent_handler_is_drained_witness :
  hs_cons (play drained_schedule).2 = KParked /\
  dequeued (play drained_schedule).1 = enqueued (play drained_schedule).1.
Proof.
  split; [by vm_compute|].
  apply (quiescent_handler_is_drained 1 [] _ (play drained_schedule).2);
    [lia|by vm_compute|apply handler_schedule_run|by vm_compute|by vm_compute].
Defined.

Lemma parked_consumer_will_be_signalled_witness :
  exists tid th, hs_prods (play pending_schedule).2 !! tid = Some th /\ will_signal (lt_pc th) = true.
Proof.
  apply (parked_consumer_will_be_signalled 1 [] (play pending_schedule).1 (play pending_schedule).2
    (mem_slot (mask_of 1) 0 (hs_mem (play pending_schedule).2))); [apply handler_schedule_run|by vm_compute|by vm_compute].
Defined.

Lemma lock_owner_can_step_witness :
  exists ev s', consumer_step (mask_of 1) false (play (consumer_steps 4)).2 = Some (ev, s').
Proof.
  apply (lock_owner_can_step 1 [] (play (consumer_steps 4)).1 (play (consumer_steps 4)).2 OwnConsumer);
    [apply handler_schedule_run|by vm_compute].
Defined.

Lemma counters_account_for_calls_witness :
  hs_nr_log_calls (play shutdown_schedule).2 = 2 /\ hs_dropped (play shutdown_schedule).2 = 1 /\
  hs_nr_log_calls (play shutdown_schedule).2 = Z.of_nat (length (enqueued (play shutdown_schedule).1)).
Proof.
  do 2 (split; [by vm_compute|]).
  refine (proj1 (counters_account_for_calls 1 [] (play shutdown_schedule).1 (play shutdown_schedule).2
    _ (handler_schedule_run _ _ _) _)); by vm_compute.
Defined.

Lemma shutdown_joins_witness :
  exists tr' s', consumer_run 1 16 (play shutdown_schedule).2 = Some (tr', s') /\
    length (processed (hs_sink s')) = 2%nat.
Proof.
  destruct (shutdown_joins 1 [] (play shutdown_schedule).1 (play shutdown_schedule).2)
    as (tr' & s' & Hrun & _ & _);
    [lia|by vm_compute|apply handler_schedule_run|by vm_compute|by vm_compute|].
  exists tr', s'. split; [exact Hrun|]. vm_compute in Hrun. injection Hrun as <- <-. by vm_compute.
Defined.
