(* ===== verification/Format.v ===== *)
(** Log-line formatting ([logmoko_handler.c]): the three built-in formats, the
    JSON escaper, format lookup, the per-thread timestamp cache and the clamping
    [lmk_format_log_line].  [snprintf] and the array writes are modelled on the
    destination buffer, so that bounds are theorems. *)
From S2P Require Import Prelude Types.
Local Open Scope Z_scope.

(** ** C library functions *)

Definition INT_MAX : Z := 2 ^ 31 - 1.

(** [snprintf(out, out_size, ...)] of a text: at most [out_size - 1] bytes and a
    terminator are stored; the result is the length of the whole text. *)
Definition snprintf (out : list ascii) (out_size : Z) (text : list ascii) : list ascii * Z :=
  let len := Z.of_nat (length text) in
  let kept := take (Z.to_nat (out_size - 1)) text in
  let out' := if out_size =? 0 then out
    else kept ++ NUL :: drop (S (length kept)) out in
  (out', if len <=? INT_MAX then len else -1).

(** [%d] and [%-5s]. *)
Definition fmt_d (z : Z) : list ascii := chars (pretty z).
Definition fmt_s5 (s : string) : list ascii := chars s ++ replicate (5 - length (chars s)) " "%char.

(** [strcasecmp(a, b) == 0] in the C locale. *)
Definition tolower (c : ascii) : ascii :=
  let n := N_of_ascii c in
  if (65 <=? n)%N && (n <=? 90)%N then ascii_of_N (n + 32) else c.
Definition strcaseeq (a b : string) : bool :=
  bool_decide (map tolower (chars a) = map tolower (chars b)).

(** [isspace] in the C locale. *)
Definition is_space (c : ascii) : bool :=
  let n := N_of_ascii c in (n =? 32)%N || ((9 <=? n)%N && (n <=? 13)%N).

Fixpoint skip_spaces (s : list ascii) : list ascii :=
  match s with c :: s' => if is_space c then skip_spaces s' else s | [] => [] end.

Definition digit (c : ascii) : option Z :=
  let n := Z.of_N (N_of_ascii c) in if (48 <=? n) && (n <=? 57) then Some (n - 48) else None.

Fixpoint digits (acc : Z) (s : list ascii) : Z :=
  match s with
  | c :: s' => match digit c with Some d => digits (acc * 10 + d) s' | None => acc end
  | [] => acc
  end.

(** [atol]: the longest decimal prefix, clamped to the range of [long]. *)
Definition atol (s : list ascii) : Z :=
  let z := match skip_spaces s with
           | c :: s' => if Ascii.eqb c "-"%char then - digits 0 s'
                        else if Ascii.eqb c "+"%char then digits 0 s' else digits 0 (c :: s')
           | [] => 0
           end in
  Z.max (- 2 ^ 63) (Z.min z (2 ^ 63 - 1)).

Definition atoi (s : list ascii) : Z := s32 (atol s).

(** ** The built-in formats *)

(** [lmk_format_fn]: the new contents of [out] and the result. *)
Definition lmk_format_fn : Type :=
  list ascii -> Z -> Z -> string -> list ascii -> string -> Z -> string -> list ascii -> list ascii * Z.

Definition NEWLINE : ascii := ascii_of_nat 10.
Definition DQUOTE : ascii := ascii_of_nat 34.
Definition BACKSLASH : ascii := ascii_of_nat 92.

Definition default_text (level_str : string) (timestamp : list ascii) (file_name : string)
    (line_no : Z) (handler_name : string) (message : list ascii) : list ascii :=
  chars "[" ++ fmt_s5 level_str ++ chars " " ++ timestamp ++ chars " (" ++ chars file_name ++
  chars ":" ++ fmt_d line_no ++ chars ") " ++ chars handler_name ++ chars "] : " ++ message ++ [NEWLINE].

Definition lmk_default_format : lmk_format_fn :=
  fun out out_size log_level level_str timestamp file_name line_no handler_name message =>
    snprintf out out_size (default_text level_str timestamp file_name line_no handler_name message).

Definition simple_text (level_str : string) (timestamp message : list ascii) : list ascii :=
  timestamp ++ chars " [" ++ fmt_s5 level_str ++ chars "] " ++ message ++ [NEWLINE].

Definition lmk_simple_format : lmk_format_fn :=
  fun out out_size log_level level_str timestamp file_name line_no handler_name message =>
    snprintf out out_size (simple_text level_str timestamp message).

(** [lmk_json_escape]: the loop over [src], writing [dst] from index [i]. *)
Fixpoint json_escape_loop (dst : list ascii) (dst_size : Z) (i : Z) (src : list ascii) : list ascii * Z :=
  match src with
  | [] => (dst, i)
  | c :: src' =>
      if i + 2 <? dst_size then
        if Ascii.eqb c NEWLINE then
          let dst := <[Z.to_nat i := BACKSLASH]> dst in
          let dst := <[Z.to_nat (i + 1) := "n"%char]> dst in
          json_escape_loop dst dst_size (i + 2) src'
        else if Ascii.eqb c DQUOTE || Ascii.eqb c BACKSLASH then
          let dst := <[Z.to_nat i := BACKSLASH]> dst in
          let dst := <[Z.to_nat (i + 1) := c]> dst in
          json_escape_loop dst dst_size (i + 2) src'
        else
          let dst := <[Z.to_nat i := c]> dst in
          json_escape_loop dst dst_size (i + 1) src'
      else (dst, i)
  end.

Definition lmk_json_escape (dst : list ascii) (dst_size : Z) (src : list ascii) : list ascii :=
  let '(dst', i) := json_escape_loop dst dst_size 0 src in
  <[Z.to_nat i := NUL]> dst'.

Definition quoted (s : list ascii) : list ascii := DQUOTE :: s ++ [DQUOTE].

Definition json_text (level_str : string) (timestamp : list ascii) (file_name : string)
    (line_no : Z) (handler_name : string) (escaped : list ascii) : list ascii :=
  chars "{" ++ quoted (chars "timestamp") ++ chars ":" ++ quoted timestamp ++
  chars "," ++ quoted (chars "level") ++ chars ":" ++ quoted (chars level_str) ++
  chars "," ++ quoted (chars "file") ++ chars ":" ++ quoted (chars file_name) ++
  chars "," ++ quoted (chars "line") ++ chars ":" ++ fmt_d line_no ++
  chars "," ++ quoted (chars "handler") ++ chars ":" ++ quoted (chars handler_name) ++
  chars "," ++ quoted (chars "message") ++ chars ":" ++ quoted escaped ++ chars "}" ++ [NEWLINE].

Definition JSON_ESCAPED_SIZE : Z := 1024.

Definition lmk_json_format : lmk_format_fn :=
  fun out out_size log_level level_str timestamp file_name line_no handler_name message =>
    let escaped := lmk_json_escape (replicate (Z.to_nat JSON_ESCAPED_SIZE) NUL) JSON_ESCAPED_SIZE message in
    snprintf out out_size (json_text level_str timestamp file_name line_no handler_name (cstr escaped)).

(** [NULL] stands for the default format. *)
Definition lmk_get_format_fn (name : option string) : option lmk_format_fn :=
  match name with
  | None => None
  | Some name =>
      if strcaseeq name "default" then None
      else if strcaseeq name "simple" then Some lmk_simple_format
      else if strcaseeq name "json" then Some lmk_json_format
      else None
  end.

(** ** [lmk_format_log_line] *)

(** The two thread-local variables of the timestamp cache. *)
Record ts_cache := mk_ts_cache { ts_last_sec : Z; ts_text : list ascii }.

Definition ts_start : ts_cache := mk_ts_cache 0 [].

Section format_line.
(** [localtime_r] and [strftime] with the format of the cache, at a time. *)
Context (strftime_local : Z -> list ascii).

Definition ts_refresh (now : Z) (ts : ts_cache) : ts_cache :=
  if now =? ts_last_sec ts then ts else mk_ts_cache now (strftime_local now).

(** The clamp of the format function's result. *)
Definition clamp_written (n out_size : Z) : Z :=
  if 0 <? n then (if n <? s32 out_size then n else s32 out_size - 1) else 0.

Definition lmk_format_log_line (format_fn : option lmk_format_fn) (now : Z) (ts : ts_cache)
    (out : list ascii) (out_size : Z) (req : log_view) : list ascii * Z * ts_cache :=
  let level_str := lmk_get_log_level_str (v_log_level req) in
  let ts' := ts_refresh now ts in
  let fn := default lmk_default_format format_fn in
  let '(out', n) := fn out out_size (v_log_level req) level_str (ts_text ts') (v_file_name req)
    (v_line_no req) (v_handler_name req) (v_text req) in
  (out', clamp_written n out_size, ts').
End format_line.

(** ** [snprintf] *)

Lemma length_snprintf out out_size text : 0 < out_size <= Z.of_nat (length out) ->
  length (snprintf out out_size text).1 = length out.
Proof.
  intros Hs. unfold snprintf. simpl. destruct (Z.eqb_spec out_size 0); [lia|].
  rewrite length_app. simpl. rewrite length_drop, length_take. lia.
Qed.

(** The bytes before the terminator. *)
Lemma snprintf_prefix out out_size text : 0 < out_size ->
  take (length (take (Z.to_nat (out_size - 1)) text)) (snprintf out out_size text).1 =
    take (Z.to_nat (out_size - 1)) text.
Proof.
  intros Hs. unfold snprintf. simpl. destruct (Z.eqb_spec out_size 0); [lia|]. by rewrite take_app_length.
Qed.

Lemma snprintf_terminated out out_size text : 0 < out_size ->
  cstr (snprintf out out_size text).1 = cstr (take (Z.to_nat (out_size - 1)) text).
Proof.
  intros Hs. unfold snprintf. simpl. destruct (Z.eqb_spec out_size 0); [lia|]. apply cstr_terminated.
Qed.

(** Nothing is written past [out_size]. *)
Lemma snprintf_frame out out_size text : 0 < out_size <= Z.of_nat (length out) ->
  drop (Z.to_nat out_size) (snprintf out out_size text).1 = drop (Z.to_nat out_size) out.
Proof.
  intros Hs. unfold snprintf. simpl. destruct (Z.eqb_spec out_size 0); [lia|].
  set (kept := take (Z.to_nat (out_size - 1)) text).
  assert (length kept <= Z.to_nat out_size - 1)%nat as Hk by (unfold kept; rewrite length_take; lia).
  rewrite drop_app_ge by lia.
  destruct (Z.to_nat out_size - length kept)%nat as [|d] eqn:Hd; [lia|]. simpl.
  rewrite drop_drop. f_equal. lia.
Qed.

(** ** What a format function promises *)

(** A format function prints a text with [snprintf]: the contract under which
    the handlers use the functions users install. *)
Class FormatFn (fn : lmk_format_fn) := {
  fmt_text : Z -> string -> list ascii -> string -> Z -> string -> list ascii -> list ascii;
  fmt_prints out out_size log_level level_str timestamp file_name line_no handler_name message :
    0 < out_size <= Z.of_nat (length out) ->
    fn out out_size log_level level_str timestamp file_name line_no handler_name message =
      snprintf out out_size (fmt_text log_level level_str timestamp file_name line_no handler_name message)
}.

#[export] Program Instance default_format_fn : FormatFn lmk_default_format := {
  fmt_text := fun _ level_str timestamp file_name line_no handler_name message =>
    default_text level_str timestamp file_name line_no handler_name message
}.
Next Obligation. done. Qed.

#[export] Program Instance simple_format_fn : FormatFn lmk_simple_format := {
  fmt_text := fun _ level_str timestamp _ _ _ message => simple_text level_str timestamp message
}.
Next Obligation. done. Qed.

#[export] Program Instance json_format_fn : FormatFn lmk_json_format := {
  fmt_text := fun _ level_str timestamp file_name line_no handler_name message =>
    json_text level_str timestamp file_name line_no handler_name
      (cstr (lmk_json_escape (replicate (Z.to_nat JSON_ESCAPED_SIZE) NUL) JSON_ESCAPED_SIZE message))
}.
Next Obligation. done. Qed.

Section contract.
Context (strftime_local : Z -> list ascii) (fn : lmk_format_fn) `{!FormatFn fn}.

(** The text of the line [fn] makes of a request. *)
Definition line_text (now : Z) (ts : ts_cache) (req : log_view) : list ascii :=
  fmt_text (v_log_level req) (lmk_get_log_level_str (v_log_level req))
    (ts_text (ts_refresh strftime_local now ts)) (v_file_name req) (v_line_no req)
    (v_handler_name req) (v_text req).

(** What the timestamp cache holds: nothing yet, or the text of its second. *)
Definition ts_ok (ts : ts_cache) : Prop := ts = ts_start \/ ts_text ts = strftime_local (ts_last_sec ts).

Lemma ts_ok_refresh now ts : ts_ok ts -> ts_ok (ts_refresh strftime_local now ts).
Proof. intros Hts. unfold ts_refresh. destruct (now =? ts_last_sec ts); [done|by right]. Qed.

(** Records whose lines are not empty and can be counted by an [int], whenever
    they are formatted. *)
Definition printable (reqs : list log_view) : Prop := forall req now ts, req ∈ reqs -> ts_ok ts ->
  0 < Z.of_nat (length (line_text now ts req)) <= INT_MAX.

(** The lines of a sequence of records, formatted one after the other; the first
    reads the clock for the [calls]-th time. *)
Fixpoint record_lines (time_at : nat -> Z) (reqs : list log_view) (ts : ts_cache) (calls : nat) :
    list (list ascii) :=
  match reqs with
  | [] => []
  | req :: reqs' =>
      line_text (time_at calls) ts req ::
      record_lines time_at reqs' (ts_refresh strftime_local (time_at calls) ts) (S calls)
  end.

Lemma record_lines_snoc time_at reqs req ts calls :
  record_lines time_at (reqs ++ [req]) ts calls = record_lines time_at reqs ts calls ++
    [line_text (time_at (length reqs + calls)%nat)
       (foldl (fun t i => ts_refresh strftime_local (time_at i) t) ts (seq calls (length reqs))) req].
Proof.
  revert ts calls. induction reqs as [|r reqs IH]; intros ts calls; simpl; [done|].
  by rewrite IH, Nat.add_succ_r.
Qed.

Lemma format_log_line_prints now ts out out_size req :
  0 < out_size <= Z.of_nat (length out) -> out_size <= INT_MAX ->
  Z.of_nat (length (line_text now ts req)) <= INT_MAX ->
  let kept := take (Z.to_nat (out_size - 1)) (line_text now ts req) in
  lmk_format_log_line strftime_local (Some fn) now ts out out_size req =
    ((snprintf out out_size (line_text now ts req)).1, Z.of_nat (length kept),
     ts_refresh strftime_local now ts).
Proof.
  intros Hs Hmax Hlen. cbv zeta. unfold lmk_format_log_line. simpl. rewrite fmt_prints by done.
  fold (line_text now ts req). unfold snprintf, clamp_written, INT_MAX in *.
  destruct (Z.leb_spec (Z.of_nat (length (line_text now ts req))) (2 ^ 31 - 1)); [|lia].
  rewrite s32_small by lia. rewrite length_take. repeat f_equal.
  destruct (Z.ltb_spec 0 (Z.of_nat (length (line_text now ts req)))); [|lia].
  destruct (Z.ltb_spec (Z.of_nat (length (line_text now ts req))) out_size); lia.
Qed.
End contract.

(** ** The JSON escaper *)

(** Reference escaper, one character at a time. *)
Definition escape_char (c : ascii) : list ascii :=
  if Ascii.eqb c NEWLINE then [BACKSLASH; "n"%char]
  else if Ascii.eqb c DQUOTE || Ascii.eqb c BACKSLASH then [BACKSLASH; c]
  else [c].

Definition escape (s : list ascii) : list ascii := s ≫= escape_char.

(** *** A JSON reader

    The strings of RFC 8259, read as the bytes of a UTF-8 text (RFC 3629), which
    the code's own escaper has no part in. *)

Definition byte_val (c : ascii) : Z := Z.of_nat (nat_of_ascii c).

(** The bytes that must follow a first byte, each with its bounds. *)
Definition utf8_tail (b : Z) : option (list (Z * Z)) :=
  let any := (128, 191) in
  if b <? 128 then Some []
  else if (194 <=? b) && (b <=? 223) then Some [any]
  else if b =? 224 then Some [(160, 191); any]
  else if b =? 237 then Some [(128, 159); any]
  else if (225 <=? b) && (b <=? 239) then Some [any; any]
  else if b =? 240 then Some [(144, 191); any; any]
  else if (241 <=? b) && (b <=? 243) then Some [any; any; any]
  else if b =? 244 then Some [(128, 143); any; any]
  else None.

Definition in_bounds (b : Z) (bounds : Z * Z) : bool := (bounds.1 <=? b) && (b <=? bounds.2).

Definition hex_digit (c : ascii) : option Z :=
  let b := byte_val c in
  if in_bounds b (48, 57) then Some (b - 48)
  else if in_bounds b (65, 70) then Some (b - 55)
  else if in_bounds b (97, 102) then Some (b - 87)
  else None.

Definition hex4 (a b c d : ascii) : option Z :=
  a ← hex_digit a; b ← hex_digit b; c ← hex_digit c; d ← hex_digit d;
  Some (((a * 16 + b) * 16 + c) * 16 + d).

(** The UTF-8 bytes of a code point. *)
Definition utf8_encode (u : Z) : list ascii :=
  let byte z := ascii_of_nat (Z.to_nat z) in
  let low k := 128 + Z.land (Z.shiftr u k) 63 in
  if u <? 128 then [byte u]
  else if u <? 2048 then [byte (192 + Z.shiftr u 6); byte (low 0)]
  else if u <? 65536 then [byte (224 + Z.shiftr u 12); byte (low 6); byte (low 0)]
  else [byte (240 + Z.shiftr u 18); byte (low 12); byte (low 6); byte (low 0)].

(** The escapes of one character. *)
Definition short_escape (c : ascii) : option ascii :=
  if Ascii.eqb c DQUOTE || Ascii.eqb c BACKSLASH || Ascii.eqb c "/"%char then Some c
  else if Ascii.eqb c "b"%char then Some (ascii_of_nat 8)
  else if Ascii.eqb c "f"%char then Some (ascii_of_nat 12)
  else if Ascii.eqb c "n"%char then Some NEWLINE
  else if Ascii.eqb c "r"%char then Some (ascii_of_nat 13)
  else if Ascii.eqb c "t"%char then Some (ascii_of_nat 9)
  else None.

Definition push (out : list ascii) (res : option (list ascii * list ascii)) : option (list ascii * list ascii) :=
  '(text, tail) ← res; Some (out ++ text, tail).

(** The contents of a string up to its closing quote, and what follows it;
    [pending] are the bounds of the bytes the current character still needs. A
    raw control character, an unknown escape, a lone surrogate, bytes that are not
    UTF-8 and a missing quote are errors. *)
Fixpoint read_contents (pending : list (Z * Z)) (s : list ascii) : option (list ascii * list ascii) :=
  match s with
  | [] => None
  | c :: s' =>
      match pending with
      | bounds :: pending' => if in_bounds (byte_val c) bounds then push [c] (read_contents pending' s') else None
      | [] =>
          if Ascii.eqb c DQUOTE then Some ([], s')
          else if Ascii.eqb c BACKSLASH then
            match s' with
            | [] => None
            | e :: s2 =>
                if Ascii.eqb e "u"%char then
                  match s2 with
                  | a :: b :: c :: d :: s3 =>
                      u ← hex4 a b c d;
                      if in_bounds u (55296, 56319) then
                        match s3 with
                        | b1 :: b2 :: a2 :: b2' :: c2 :: d2 :: s4 =>
                            if Ascii.eqb b1 BACKSLASH && Ascii.eqb b2 "u"%char then
                              v ← hex4 a2 b2' c2 d2;
                              if in_bounds v (56320, 57343)
                              then push (utf8_encode (65536 + (u - 55296) * 1024 + (v - 56320))) (read_contents [] s4)
                              else None
                            else None
                        | _ => None
                        end
                      else if in_bounds u (56320, 57343) then None
                      else push (utf8_encode u) (read_contents [] s3)
                  | _ => None
                  end
                else d ← short_escape e; push [d] (read_contents [] s2)
            end
          else if byte_val c <? 32 then None
          else pending' ← utf8_tail (byte_val c); push [c] (read_contents pending' s')
      end
  end.

(** A string at the front of [s]. *)
Definition read_json_string (s : list ascii) : option (list ascii * list ascii) :=
  match s with
  | c :: s' => if Ascii.eqb c DQUOTE then read_contents [] s' else None
  | [] => None
  end.

(** The messages whose lines such a reader accepts: UTF-8 without control
    characters other than newline. *)
Fixpoint json_clean (pending : list (Z * Z)) (s : list ascii) : bool :=
  match s with
  | [] => match pending with [] => true | _ => false end
  | c :: s' =>
      match pending with
      | bounds :: pending' => in_bounds (byte_val c) bounds && json_clean pending' s'
      | [] =>
          (Ascii.eqb c NEWLINE || (32 <=? byte_val c)) &&
          match utf8_tail (byte_val c) with Some pending' => json_clean pending' s' | None => false end
      end
  end.

Lemma escape_cons c s : escape (c :: s) = escape_char c ++ escape s.
Proof. done. Qed.

Lemma push_clean (b : bool) c p tail :
  push [c] (if b then Some (p, tail) else None) = if b then Some (c :: p, tail) else None.
Proof. by destruct b. Qed.

Lemma utf8_tail_high b pending : utf8_tail b = Some pending -> Forall (fun bounds => 128 <= bounds.1) pending.
Proof. unfold utf8_tail. repeat case_match; intros [= <-]; repeat constructor; simpl; lia. Qed.

Lemma escape_char_high c : 128 <= byte_val c -> escape_char c = [c].
Proof.
  intros Hc. unfold escape_char.
  destruct (Ascii.eqb_spec c NEWLINE) as [->|_]; [by vm_compute in Hc|].
  destruct (Ascii.eqb_spec c DQUOTE) as [->|_]; [by vm_compute in Hc|].
  by destruct (Ascii.eqb_spec c BACKSLASH) as [->|_]; [vm_compute in Hc|].
Qed.

(** The first byte of an escape is out of bounds where a character continues, unless it is the byte itself. *)
Lemma escape_char_head c : exists d rest, escape_char c = d :: rest /\ (rest = [] /\ d = c \/ byte_val d < 128).
Proof.
  unfold escape_char. repeat case_match; do 2 eexists; (split; [done|]); [right|right|left]; by vm_compute.
Qed.

(** Reading the escape of a text gives the text, if the text is clean, and fails otherwise. *)
Lemma read_escape p tail pending : Forall (fun bounds => 128 <= bounds.1) pending ->
  read_contents pending (escape p ++ DQUOTE :: tail) = if json_clean pending p then Some (p, tail) else None.
Proof.
  revert pending. induction p as [|c p IH]; intros pending Hp.
  - destruct pending as [|bounds pending]; [done|]. apply Forall_cons in Hp as [Hb _]. cbn [escape mbind list_bind app read_contents json_clean].
    unfold in_bounds. rewrite (proj2 (Z.leb_gt _ _)); [done|]. change (byte_val DQUOTE) with 34. lia.
  - rewrite escape_cons, <- app_assoc. destruct pending as [|bounds pending].
    + clear Hp. cbn [json_clean]. unfold escape_char.
      destruct (Ascii.eqb_spec c NEWLINE) as [->|Hn]; [cbn; rewrite IH by constructor; apply push_clean|].
      destruct (Ascii.eqb_spec c DQUOTE) as [->|Hq]; [cbn; rewrite IH by constructor; apply push_clean|].
      destruct (Ascii.eqb_spec c BACKSLASH) as [->|Hb]; [cbn; rewrite IH by constructor; apply push_clean|].
      cbn [orb app read_contents]. rewrite (proj2 (Ascii.eqb_neq c DQUOTE)), (proj2 (Ascii.eqb_neq c BACKSLASH)) by done.
      rewrite Z.ltb_antisym. destruct (32 <=? byte_val c); [|done]. cbn [negb andb].
      destruct (utf8_tail (byte_val c)) as [pending|] eqn:Ht; [|done]. cbn [mbind option_bind].
      rewrite IH by (by eapply utf8_tail_high). apply push_clean.
    + apply Forall_cons in Hp as [Hb Hp]. cbn [json_clean].
      destruct (Z.ltb_spec (byte_val c) 128) as [Hlow|Hhigh].
      * assert (forall d, byte_val d < 128 -> in_bounds (byte_val d) bounds = false) as Hout.
        { intros d Hd. unfold in_bounds. rewrite (proj2 (Z.leb_gt _ _)); [done|lia]. }
        destruct (escape_char_head c) as (d & rest & -> & Hd). cbn [app read_contents].
        rewrite (Hout c) by done. rewrite Hout; [done|]. by destruct Hd as [[_ ->]|].
      * rewrite escape_char_high by done. cbn [app read_contents]. destruct (in_bounds (byte_val c) bounds); [|done].
        cbn [andb]. rewrite IH by done. apply push_clean.
Qed.

Lemma ascii_clean p : Forall (fun c => c = NEWLINE \/ 32 <= byte_val c < 128) p -> json_clean [] p = true.
Proof.
  induction 1 as [|c p Hc _ IH]; [done|]. cbn [json_clean]. destruct Hc as [->|[Hlow Hhigh]]; [exact IH|].
  unfold utf8_tail. rewrite (proj2 (Z.leb_le 32 _)), (proj2 (Z.ltb_lt _ 128)) by done.
  destruct (Ascii.eqb c NEWLINE); exact IH.
Qed.

Lemma escape_no_nul s : NUL ∉ s -> NUL ∉ escape s.
Proof.
  intros Hs. unfold escape. rewrite list_elem_of_bind. intros (c & Hc & Hin). unfold escape_char in Hc.
  repeat case_match; repeat (apply elem_of_cons in Hc as [Hc|Hc]); subst; try done;
    by apply not_elem_of_nil in Hc.
Qed.

(** An escaped text holds no raw quote or newline, so it cannot end the string
    literal it is put in. *)
Lemma length_escape_char c : (1 <= length (escape_char c) <= 2)%nat.
Proof. unfold escape_char. repeat case_match; simpl; lia. Qed.

Lemma take_insert_snoc (dst : list ascii) i c : (i < length dst)%nat ->
  take (S i) (<[i := c]> dst) = take i dst ++ [c].
Proof.
  intros Hi. erewrite take_S_r by (apply list_lookup_insert_eq; lia).
  by rewrite take_insert_ge by lia.
Qed.

(** One round of the loop appends the escape of the character. *)
Lemma json_escape_round dst dst_size i c src :
  0 <= i -> i + 2 < dst_size <= Z.of_nat (length dst) ->
  exists dst', json_escape_loop dst dst_size i (c :: src) =
      json_escape_loop dst' dst_size (i + Z.of_nat (length (escape_char c))) src /\
    length dst' = length dst /\
    take (Z.to_nat (i + Z.of_nat (length (escape_char c)))) dst' = take (Z.to_nat i) dst ++ escape_char c.
Proof.
  intros Hi Hsize. simpl. destruct (Z.ltb_spec (i + 2) dst_size); [|lia]. unfold escape_char.
  assert (Z.to_nat (i + Z.of_nat 2) = S (S (Z.to_nat i)) /\ Z.to_nat (i + 1) = S (Z.to_nat i)) as [E2 E1] by lia.
  destruct (Ascii.eqb c NEWLINE); [|destruct (_ || _)]; simpl; eexists; (split; [done|]).
  - rewrite !length_insert. split; [done|]. rewrite E2, E1.
    rewrite !take_insert_snoc by (rewrite ?length_insert; lia). by rewrite <- app_assoc.
  - rewrite !length_insert. split; [done|]. rewrite E2, E1.
    rewrite !take_insert_snoc by (rewrite ?length_insert; lia). by rewrite <- app_assoc.
  - rewrite !length_insert. split; [done|]. change (Z.of_nat 1) with 1. rewrite E1. apply take_insert_snoc. lia.
Qed.

Lemma json_escape_loop_spec src : forall dst dst_size i,
  0 <= i < dst_size -> dst_size <= Z.of_nat (length dst) ->
  exists p rest dst' i', src = p ++ rest /\ json_escape_loop dst dst_size i src = (dst', i') /\
    length dst' = length dst /\ i' = i + Z.of_nat (length (escape p)) /\ i' < dst_size /\
    take (Z.to_nat i') dst' = take (Z.to_nat i) dst ++ escape p /\ (rest = [] \/ dst_size <= i' + 2).
Proof.
  induction src as [|c src IH]; intros dst dst_size i Hi Hsize.
  - exists [], [], dst, i. simpl. rewrite app_nil_r. split_and!; try done; try lia. by left.
  - destruct (Z.ltb_spec (i + 2) dst_size) as [Hlt|Hge].
    + destruct (json_escape_round dst dst_size i c src) as (dst1 & Hrun & Hlen & Htake); [lia..|].
      pose proof (length_escape_char c).
      destruct (IH dst1 dst_size (i + Z.of_nat (length (escape_char c))))
        as (p & rest & dst' & i' & -> & Hloop & Hlen' & -> & Hi' & Htake' & Hrest); [lia..|].
      exists (c :: p), rest, dst'. eexists. rewrite Hrun, Hloop.
      rewrite escape_cons, length_app. split_and!; [done|done|congruence|lia|lia| |].
      * rewrite Htake', Htake. by rewrite <- app_assoc.
      * destruct Hrest; [by left|right; lia].
    + exists [], (c :: src), dst, i. simpl. destruct (Z.ltb_spec (i + 2) dst_size); [lia|].
      rewrite app_nil_r. split_and!; try done; try lia; by right.
Qed.

Lemma json_escape_loop_frame src : forall dst dst_size i, 0 <= i ->
  drop (Z.to_nat dst_size) (json_escape_loop dst dst_size i src).1 = drop (Z.to_nat dst_size) dst.
Proof.
  induction src as [|c src IH]; intros dst dst_size i Hi; simpl; [done|].
  destruct (Z.ltb_spec (i + 2) dst_size); [|done].
  destruct (Ascii.eqb c NEWLINE); [|destruct (_ || _)]; rewrite IH by lia;
    by rewrite !drop_insert_lt by lia.
Qed.

(** ** Theorems *)

(** C24. The JSON escaper stays inside its buffer, and what it stores is the escape
    of a prefix of the message - the whole message unless fewer than two bytes of
    room are left. Between quotes, in any line, a reader of RFC 8259 strings
    gives exactly that prefix back and stops at the closing quote, if the
    prefix is UTF-8 with no control character other than newline; otherwise it
    rejects the string, because the escaper leaves other control characters as
    they are and may cut inside a character. In particular a message in
    printable ASCII and newlines is always read back. *)
Theorem json_escape_roundtrip (dst : list ascii) (dst_size : Z) (src tail : list ascii)
    (Hsize : 0 < dst_size <= Z.of_nat (length dst)) (Hsrc : NUL ∉ src) :
  let dst' := lmk_json_escape dst dst_size src in
  length dst' = length dst /\ drop (Z.to_nat dst_size) dst' = drop (Z.to_nat dst_size) dst /\
  exists p, p `prefix_of` src /\ cstr dst' = escape p /\
    read_json_string (quoted (cstr dst') ++ tail) = (if json_clean [] p then Some (p, tail) else None) /\
    (Forall (fun c => c = NEWLINE \/ 32 <= byte_val c < 128) src ->
      read_json_string (quoted (cstr dst') ++ tail) = Some (p, tail)) /\
    Z.of_nat (length (escape p)) < dst_size /\
    (p = src \/ dst_size <= Z.of_nat (length (escape p)) + 2).
Proof.
  destruct (json_escape_loop_spec src dst dst_size 0)
    as (p & rest & dst1 & i' & -> & Hloop & Hlen & Hi' & Hi & Htake & Hrest); [lia..|].
  pose proof (json_escape_loop_frame (p ++ rest) dst dst_size 0 ltac:(lia)) as Hframe.
  unfold lmk_json_escape. rewrite Hloop in *. simpl in *.
  assert (cstr (<[Z.to_nat i' := NUL]> dst1) = escape p) as Hc.
  { rewrite insert_take_drop by lia. rewrite Htake, cstr_terminated.
    apply cstr_id, escape_no_nul. intros Hin. apply Hsrc. apply elem_of_app. by left. }
  split; [by rewrite length_insert|]. split; [rewrite drop_insert_lt by lia; exact Hframe|].
  assert (read_contents [] ((escape p ++ [DQUOTE]) ++ tail) = if json_clean [] p then Some (p, tail) else None) as Hread.
  { rewrite <- app_assoc. apply read_escape. constructor. }
  exists p. rewrite Hc. split_and!; [by apply prefix_app_r|done|exact Hread| |lia|].
  - intros Hascii. rewrite Hread, ascii_clean; [done|]. by apply Forall_app in Hascii as [? _].
  - destruct Hrest as [->|?]; [left; by rewrite app_nil_r|right; lia].
Qed.

(** C39. A log line never overruns its buffer: with a format function that honours
    the contract, [lmk_format_log_line] stores the longest prefix of the line
    that fits, terminates it, leaves the rest of the memory alone and returns
    the number of bytes stored. *)
Theorem format_log_line_bounded (strftime_local : Z -> list ascii) (fn : lmk_format_fn) `(!FormatFn fn)
    (now : Z) (ts : ts_cache) (out : list ascii) (out_size : Z) (req : log_view)
    (Hsize : 0 < out_size <= Z.of_nat (length out)) (Hmax : out_size <= INT_MAX)
    (Hlen : Z.of_nat (length (line_text strftime_local fn now ts req)) <= INT_MAX) :
  let '(out', n, _) := lmk_format_log_line strftime_local (Some fn) now ts out out_size req in
  0 <= n < out_size /\
  take (Z.to_nat n) out' = take (Z.to_nat (out_size - 1)) (line_text strftime_local fn now ts req) /\
  out' !! Z.to_nat n = Some NUL /\ length out' = length out /\
  drop (Z.to_nat out_size) out' = drop (Z.to_nat out_size) out.
Proof.
  rewrite (format_log_line_prints strftime_local fn) by done. cbv zeta.
  rewrite Nat2Z.id, length_snprintf, snprintf_frame, snprintf_prefix by lia.
  split_and!; [lia|rewrite length_take; lia|done| |done|done].
  unfold snprintf. simpl. destruct (Z.eqb_spec out_size 0); [lia|].
  by rewrite lookup_app_r, Nat.sub_diag.
Qed.

(** The timestamp is current: whatever requests a consumer thread formatted
    before, each line carries the second at which it is formatted. *)
Theorem timestamp_is_current (strftime_local : Z -> list ascii) (nows : list Z) (now : Z)
    (Hepoch : now <> 0) :
  let ts := foldl (fun ts n => ts_refresh strftime_local n ts) ts_start nows in
  ts_text (ts_refresh strftime_local now ts) = strftime_local now /\
  ts_last_sec (ts_refresh strftime_local now ts) = now.
Proof.
  cbv zeta. set (ts := foldl _ _ _).
  assert (ts = ts_start \/ ts_text ts = strftime_local (ts_last_sec ts)) as Hts.
  { unfold ts. clear Hepoch now ts. induction nows as [|n nows IH] using rev_ind; [by left|].
    rewrite foldl_app. simpl. by apply ts_ok_refresh. }
  unfold ts_refresh. destruct (Z.eqb_spec now (ts_last_sec ts)) as [->|]; [|done].
  destruct Hts as [Hs|Ht]; [by rewrite Hs in Hepoch|done].
Qed.

(** Every format [lmk_get_format_fn] finds honours the contract, and names are
    compared without regard to case. *)
Theorem get_format_fn_contract (name : string) (fn : lmk_format_fn)
    (Hfn : lmk_get_format_fn (Some name) = Some fn) :
  inhabited (FormatFn fn) /\
  forall name', map tolower (chars name') = map tolower (chars name) ->
    lmk_get_format_fn (Some name') = Some fn.
Proof.
  split.
  - unfold lmk_get_format_fn in Hfn. repeat case_match; simplify_eq; constructor; apply _.
  - intros name' Heq. rewrite <- Hfn. unfold lmk_get_format_fn, strcaseeq. by rewrite Heq.
Qed.

(** ** Witnesses *)

Definition sample_view : log_view :=
  mk_log_view LMK_LOG_LEVEL_WARN 42 "main.c" "console" (chars "disk " ++ [DQUOTE; NEWLINE]).

Definition sample_strftime (now : Z) : list ascii := fmt_d now.

(** The reader on its own: escapes, a surrogate pair, a raw control character, a lone continuation byte. *)
Example reads_escapes :
  read_json_string (chars (String DQUOTE "a\t\u0041\uD83D\uDE00") ++ [DQUOTE]) =
    Some ([ "a"%char; ascii_of_nat 9; "A"%char; ascii_of_nat 240; ascii_of_nat 159; ascii_of_nat 152; ascii_of_nat 128 ], []) /\
  read_json_string (DQUOTE :: ascii_of_nat 9 :: [DQUOTE]) = None /\
  read_json_string (DQUOTE :: ascii_of_nat 128 :: [DQUOTE]) = None.
Proof. vm_compute. done. Qed.

(** A quote at the end of the buffer is kept, the newline after it no longer fits. *)
Lemma json_escape_roundtrip_witness :
  cstr (lmk_json_escape (replicate 8 NUL) 8 (v_text sample_view)) = chars "disk " ++ [BACKSLASH; DQUOTE] /\
  exists p, p `prefix_of` v_text sample_view /\
    read_json_string (quoted (cstr (lmk_json_escape (replicate 8 NUL) 8 (v_text sample_view))) ++ chars "}") =
      Some (p, chars "}").
Proof.
  split; [by vm_compute|].
  destruct (json_escape_roundtrip (replicate 8 NUL) 8 (v_text sample_view) (chars "}")) as (_ & _ & p & Hp & _ & _ & Hr & _).
  - simpl. lia.
  - apply (bool_decide_unpack _). by vm_compute.
  - exists p. split; [exact Hp|]. apply Hr. apply (bool_decide_unpack _). by vm_compute.
Defined.

Lemma format_log_line_bounded_witness :
  let '(out', n, _) := lmk_format_log_line sample_strftime (Some lmk_simple_format) 1700000000 ts_start
    (replicate 16 NUL) 16 sample_view in
  n = 15 /\ cstr out' = chars "1700000000 [WAR" /\ 0 <= n < 16 /\ length out' = 16%nat.
Proof.
  pose proof (format_log_line_bounded sample_strftime lmk_simple_format simple_format_fn 1700000000 ts_start
    (replicate 16 NUL) 16 sample_view ltac:(simpl; lia) ltac:(by vm_compute) ltac:(by vm_compute)) as Hb.
  vm_compute in Hb |- *. destruct Hb as (Hn & _ & _ & Hl & _). by split_and!.
Defined.

Lemma timestamp_is_current_witness :
  ts_text (ts_refresh sample_strftime 7 (ts_refresh sample_strftime 5 ts_start)) = chars "7" /\
  ts_text (ts_refresh sample_strftime 7 (ts_refresh sample_strftime 5 ts_start)) = sample_strftime 7.
Proof.
  split; [by vm_compute|].
  refine (proj1 (timestamp_is_current sample_strftime [5] 7 _)). lia.
Defined.

Lemma get_format_fn_contract_witness : inhabited (FormatFn lmk_json_format).
Proof. refine (proj1 (get_format_fn_contract "JSON" lmk_json_format _)). reflexivity. Defined.
