(* ===== verification/AsyncInit.v ===== *)
(** How a handler's life begins and ends: the part of every [init] that sizes,
    allocates and initialises the ring and starts the consumer thread, with its
    two failure exits, and the part of every [destroy] after the join.  The
    initialisation establishes the start state of the machine of
    [AsyncHandler.v] for every configured ring size. *)
From S2P Require Import Prelude Types Ring RingMachine AsyncHandler.
Local Open Scope Z_scope.

(** What [init] depends on: [lmk_get_config()->ring_buffer_size] (an unsigned
    int) and whether the allocation and [pthread_create] succeed. *)
Record init_env := mk_init_env {
  env_ring_buffer_size : Z;
  env_alloc_ok : bool;
  env_thread_ok : bool
}.

Inductive init_result (St : Type) :=
  | InitOk (ring_mask : Z) (s : handler_state St)
  | InitNoRing       (* the ring cannot be allocated              *)
  | InitNoThread.    (* pthread_create fails; ring_buffer is NULL *)
Arguments InitOk {St}.
Arguments InitNoRing {St}.
Arguments InitNoThread {St}.

Section init.
Context {St : Type}.

(** The common body of the four [init] functions. *)
Definition ring_handler_init (env : init_env) (sink0 : St) : init_result St :=
  let ring_size := lmk_next_pow2 (env_ring_buffer_size env) in
  let ring_mask := w64 (ring_size - 1) in
  if negb (env_alloc_ok env) then InitNoRing
  else
    let ring_buffer := lmk_ring_init (ring_alloc ring_size) ring_size in
    let s := mk_handler_state (mk_ring_mem ring_buffer 0) 0 true false None 0 0 ∅ KPeek DIdle sink0 in
    if negb (env_thread_ok env) then InitNoThread else InitOk ring_mask s.

(** [handler->ring_buffer != NULL] after [init]: the factories' success test. *)
Definition init_succeeds (r : init_result St) : bool :=
  match r with InitOk _ _ => true | _ => false end.
End init.

Lemma ring_handler_init_start {St : Type} (env : init_env) (sink0 : St) :
  0 <= env_ring_buffer_size env < 2 ^ 32 ->
  exists k, (1 <= k <= 32)%nat /\ env_ring_buffer_size env <= cap k /\
    (forall j, (1 <= j)%nat -> env_ring_buffer_size env <= cap j -> (k <= j)%nat) /\
    ring_handler_init env sink0 =
      if negb (env_alloc_ok env) then InitNoRing
      else if negb (env_thread_ok env) then InitNoThread
      else InitOk (mask_of k) (handler_start k sink0).
Proof.
  intros Hsize. unfold ring_handler_init.
  destruct (next_pow2_cap (env_ring_buffer_size env) ltac:(lia)) as (k & Hpow & Hk1 & Hle & Hleast).
  assert (k <= 32)%nat as Hk by (apply Hleast; [lia|unfold cap; lia]).
  pose proof (cap_le_pow32 k Hk). pose proof (cap_pos k).
  exists k. split_and!; [lia|lia|done|done|]. by rewrite Hpow, w64_small by lia.
Qed.

(** C37. Initialisation: for every value of the unsigned setting [ring_buffer_size] up to
    [2 ^ 32 - 1], a successful [init] leaves the start state of the handler machine,
    with the smallest ring of a power-of-two size that has at least two slots and
    at least the configured number of slots; it fails exactly when the
    allocation or the thread creation does. *)
Theorem handler_init_starts_machine {St : Type} (env : init_env) (sink0 : St)
    (Hsize : 0 <= env_ring_buffer_size env < 2 ^ 32) :
  init_succeeds (ring_handler_init env sink0) = env_alloc_ok env && env_thread_ok env /\
  exists k, (1 <= k <= 32)%nat /\ env_ring_buffer_size env <= cap k /\
    (forall j, (1 <= j)%nat -> env_ring_buffer_size env <= cap j -> (k <= j)%nat) /\
    (env_alloc_ok env && env_thread_ok env = true ->
     ring_handler_init env sink0 = InitOk (mask_of k) (handler_start k sink0)).
Proof.
  destruct (ring_handler_init_start env sink0 Hsize) as (k & Hk & Hle & Hleast & ->).
  split; [by destruct (env_alloc_ok env), (env_thread_ok env)|].
  exists k. split_and!; [lia|lia|done|done|]. by intros [-> ->]%andb_true_iff.
Qed.

Lemma handler_init_starts_machine_witness :
  init_succeeds (ring_handler_init (mk_init_env 1000 true true) tt) = true.
Proof.
  refine (proj1 (handler_init_starts_machine (mk_init_env 1000 true true) tt _)). simpl. lia.
Defined.
