(* ===== verification/FileHandler.v ===== *)
(** The file handler ([logmoko_file_log_handler.c]): a 64 KiB staging buffer in
    front of a stdio stream, size-based rotation with numbered backups, and the
    handler's [init] and [destroy]; the setters are in [Registry.v].  The file
    system is a finite map from paths to contents; a stream has bytes not yet
    flushed. *)
From S2P Require Import Prelude Types Ring RingMachine AsyncHandler AsyncSafety AsyncInit Format.
Local Open Scope Z_scope.

(** ** stdio *)

Abbreviation file_system := (gmap string (list ascii)).

(** A [FILE *] opened for writing: its path and the bytes in its buffer. *)
Record stream := mk_stream { st_path : string; st_pending : list ascii }.

Definition contents (fs : file_system) (path : string) : list ascii := default [] (fs !! path).

(** [fflush]: the buffered bytes reach the file. *)
Definition flush_stream (fs : file_system) (fp : stream) : file_system :=
  <[st_path fp := contents fs (st_path fp) ++ st_pending fp]> fs.

Definition fwrite (bytes : list ascii) (fp : stream) : stream :=
  mk_stream (st_path fp) (st_pending fp ++ bytes).

(** [rename(old, new)]; it fails, and changes nothing, when [old] does not exist. *)
Definition rename (old_path new_path : string) (fs : file_system) : file_system :=
  match fs !! old_path with
  | Some c => <[new_path := c]> (delete old_path fs)
  | None => fs
  end.

(** ** The handler *)

Definition LMK_DEFAULT_MAX_FILE_SIZE : Z := 20 * 1024 * 1024.
Definition LMK_DEFAULT_MAX_BACKUP_FILES : Z := 10.
Definition LMK_WRITE_BUF_SIZE : Z := 64 * 1024.
Definition LMK_MAX_LINE_SIZE : Z := LMK_LOG_MSG_MAX_SIZE + 512.
Definition PATH_BUF_SIZE : Z := 512.

(** The fields of [lmk_file_log_handler] the consumer thread works on, the local
    variables of its routine ([wbuf], [wpos] and the thread-local timestamp
    cache), the file system and the number of calls of [time] so far. *)
Record file_state := mk_file_state {
  fl_filename : option string;
  fl_log_fp : option stream;
  fl_max_file_size : Z;
  fl_max_backup_files : Z;
  fl_current_file_size : Z;
  fl_format_fn : option lmk_format_fn;
  fl_wbuf : list ascii;
  fl_wpos : Z;
  fl_ts : ts_cache;
  fl_time_calls : nat;
  fl_fs : file_system
}.

Definition fl_with_fp (st : file_state) (fp : option stream) (fs : file_system) : file_state :=
  mk_file_state (fl_filename st) fp (fl_max_file_size st) (fl_max_backup_files st)
    (fl_current_file_size st) (fl_format_fn st) (fl_wbuf st) (fl_wpos st) (fl_ts st)
    (fl_time_calls st) fs.

Definition fl_with_size (st : file_state) (size : Z) : file_state :=
  mk_file_state (fl_filename st) (fl_log_fp st) (fl_max_file_size st) (fl_max_backup_files st)
    size (fl_format_fn st) (fl_wbuf st) (fl_wpos st) (fl_ts st) (fl_time_calls st) (fl_fs st).

Definition fl_with_staging (st : file_state) (wbuf : list ascii) (wpos : Z) : file_state :=
  mk_file_state (fl_filename st) (fl_log_fp st) (fl_max_file_size st) (fl_max_backup_files st)
    (fl_current_file_size st) (fl_format_fn st) wbuf wpos (fl_ts st) (fl_time_calls st) (fl_fs st).

Definition fl_with_ts (st : file_state) (ts : ts_cache) : file_state :=
  mk_file_state (fl_filename st) (fl_log_fp st) (fl_max_file_size st) (fl_max_backup_files st)
    (fl_current_file_size st) (fl_format_fn st) (fl_wbuf st) (fl_wpos st) ts (S (fl_time_calls st))
    (fl_fs st).

Definition fl_with_filename (st : file_state) (filename : option string) : file_state :=
  mk_file_state filename (fl_log_fp st) (fl_max_file_size st) (fl_max_backup_files st)
    (fl_current_file_size st) (fl_format_fn st) (fl_wbuf st) (fl_wpos st) (fl_ts st)
    (fl_time_calls st) (fl_fs st).

(** [fclose] of the handler's stream. *)
Definition fl_fclose (st : file_state) : file_state :=
  match fl_log_fp st with
  | Some fp => fl_with_fp st None (flush_stream (fl_fs st) fp)
  | None => st
  end.

Section file_handler.
(** [fopen] succeeds on the path; [localtime_r] and [strftime]; the value of the
    n-th call of [time]. *)
Context (can_open : string -> bool) (strftime_local : Z -> list ascii) (time_at : nat -> Z).

(** [fopen(path, "at")] and [fopen(path, "wt")]. *)
Definition fopen_append (path : string) (fs : file_system) : option stream * file_system :=
  if can_open path then (Some (mk_stream path []), <[path := contents fs path]> fs) else (None, fs).

Definition fopen_truncate (path : string) (fs : file_system) : option stream * file_system :=
  if can_open path then (Some (mk_stream path []), <[path := []]> fs) else (None, fs).

(** [snprintf(path, sizeof(path), "%s.%d", filename, i)]. *)
Definition backup_path (filename : string) (i : Z) : string :=
  str (take (Z.to_nat (PATH_BUF_SIZE - 1)) (chars filename ++ chars "." ++ fmt_d i)).

(** The renaming loop, from [i] down to 1. *)
Fixpoint rotate_loop (filename : string) (i : nat) (fs : file_system) : file_system :=
  match i with
  | O => fs
  | S i' => rotate_loop filename i'
      (rename (backup_path filename (Z.of_nat i)) (backup_path filename (Z.of_nat i + 1)) fs)
  end.

Definition lmk_rotate_log_file (filename : string) (st : file_state) : file_state :=
  let st := fl_fclose st in
  let fs := rotate_loop filename (Z.to_nat (fl_max_backup_files st - 1)) (fl_fs st) in
  let fs := if 0 <? fl_max_backup_files st then rename filename (backup_path filename 1) fs else fs in
  let '(fp, fs) := fopen_truncate filename fs in
  fl_with_size (fl_with_fp st fp fs) 0.

(** [fwrite(wbuf, 1, wpos, log_fp)], the size accounting, the rotation check and
    [wpos = 0]. *)
Definition write_staged (st : file_state) : file_state :=
  match fl_log_fp st with
  | None => st
  | Some fp =>
      let st := fl_with_fp st (Some (fwrite (take (Z.to_nat (fl_wpos st)) (fl_wbuf st)) fp)) (fl_fs st) in
      let st := fl_with_size st (s64 (fl_current_file_size st + fl_wpos st)) in
      let st :=
        if (0 <? fl_max_file_size st) && (fl_max_file_size st <=? fl_current_file_size st)
        then match fl_filename st with Some name => lmk_rotate_log_file name st | None => st end
        else st in
      fl_with_staging st (fl_wbuf st) 0
  end.

(** The body of the drain loop for one record. *)
Definition file_process (req : log_view) (st : file_state) : file_state :=
  match fl_log_fp st with
  | None => st
  | Some _ =>
      let st := if LMK_WRITE_BUF_SIZE <? fl_wpos st + LMK_MAX_LINE_SIZE then write_staged st else st in
      let pos := Z.to_nat (fl_wpos st) in
      let '(out, n, ts) := lmk_format_log_line strftime_local (fl_format_fn st) (time_at (fl_time_calls st))
        (fl_ts st) (drop pos (fl_wbuf st)) (LMK_WRITE_BUF_SIZE - fl_wpos st) req in
      let st := fl_with_ts st ts in
      fl_with_staging st (take pos (fl_wbuf st) ++ out)
        (if 0 <? n then fl_wpos st + n else fl_wpos st)
  end.

Definition fl_fflush (st : file_state) : file_state :=
  match fl_log_fp st with
  | Some fp => fl_with_fp st (Some (mk_stream (st_path fp) [])) (flush_stream (fl_fs st) fp)
  | None => st
  end.

(** The idle flush once the ring is drained. *)
Definition file_idle (st : file_state) : file_state :=
  match fl_log_fp st with
  | Some _ => if 0 <? fl_wpos st then fl_fflush (write_staged st) else st
  | None => st
  end.

(** The final flush after the loop. *)
Definition file_finish (st : file_state) : file_state :=
  let st :=
    match fl_log_fp st with
    | Some fp =>
        if 0 <? fl_wpos st then
          fl_with_staging
            (fl_with_fp st (Some (fwrite (take (Z.to_nat (fl_wpos st)) (fl_wbuf st)) fp)) (fl_fs st))
            (fl_wbuf st) 0
        else st
    | None => st
    end in
  fl_fflush st.

#[local] Instance file_sink : Sink file_state := {
  sink_process := file_process;
  sink_idle := file_idle;
  sink_finish := file_finish
}.

(** The consumer thread, the producers' entry point and the wake-up. *)
Definition lmk_file_log_handler_thread_routine := consumer_step (St := file_state).
Definition lmk_file_log_handler_log_impl := log_impl_step (St := file_state).

(** The file part of [init]: close, reopen for appending, note the size.  It is
    called with a file name ([Registry.call_init] is what happens without). *)
Definition file_open (st : file_state) : file_state :=
  let st := fl_fclose st in
  match fl_filename st with
  | None => st
  | Some name =>
      let '(fp, fs) := fopen_append name (fl_fs st) in
      let st := fl_with_fp st fp fs in
      match fp with
      | Some _ => fl_with_size st (Z.of_nat (length (contents fs name)))
      | None => st
      end
  end.

(** [lmk_file_log_handler_init]: on either failure the file is closed again. *)
Definition lmk_file_log_handler_init (env : init_env) (st : file_state) :
    init_result file_state * file_state :=
  let st := file_open st in
  match ring_handler_init env st with
  | InitOk mask s => (InitOk mask s, st)
  | InitNoRing => (InitNoRing, fl_fclose st)
  | InitNoThread => (InitNoThread, fl_fclose st)
  end.

(** What [lmk_file_log_handler_destroy] does after the join: close the file and
    drop the name; the numbers it reports when records were dropped. *)
Definition lmk_file_log_handler_destroy (s : handler_state file_state) : file_state * option (Z * Z) :=
  let st := fl_with_filename (fl_fclose (hs_sink s)) None in
  (st, if hs_dropped s =? 0 then None else Some (hs_dropped s, hs_nr_log_calls s)).
End file_handler.
