(* ===== verification/RotatingLog.v ===== *)
(** What a rotating log promises, without paths, streams or buffers: the text of
    the log, a row of numbered backups, newest first, and the batches of lines
    that are appended to it.  [FileSafety] shows that the file handler
    implements it on the file system. *)
From S2P Require Import Prelude.
Local Open Scope Z_scope.

(** The log and its backups; a backup that does not exist is [None]. *)
Record log_files := mk_log_files { lf_log : list ascii; lf_backups : list (option (list ascii)) }.

(** Pushes a text into the row of backups: each existing backup moves one place
    on, and the last one gives way to the one before it, if there is one. *)
Fixpoint push (c : option (list ascii)) (backups : list (option (list ascii))) :
    list (option (list ascii)) :=
  match backups with
  | [] => []
  | [b] => [match c with Some _ => c | None => b end]
  | b :: backups' => c :: push b backups'
  end.

(** Appending a batch: a log that reaches a positive limit becomes the first
    backup and a new one is begun. *)
Definition write_batch (limit : Z) (lf : log_files) (batch : list ascii) : log_files :=
  let log := lf_log lf ++ batch in
  if (0 <? limit) && (limit <=? Z.of_nat (length log))
  then mk_log_files [] (push (Some log) (lf_backups lf))
  else mk_log_files log (lf_backups lf).

(** Everything kept, oldest text first. *)
Definition all_text (lf : log_files) : list ascii :=
  concat (reverse (omap id (lf_backups lf))) ++ lf_log lf.

(** ** The row of backups *)

Lemma length_push c backups : length (push c backups) = length backups.
Proof. revert c. induction backups as [|b backups IH]; intros c; [done|]. destruct backups; [done|].
  cbn [push length] in *. by rewrite IH.
Qed.

Lemma push_some c b backups : push (Some c) (b :: backups) = Some c :: tail (push None (b :: backups)).
Proof. by destruct backups. Qed.

Lemma push_snoc c backups b b' :
  push c (backups ++ [b; b']) = push c (backups ++ [None]) ++ [match b with Some _ => b | None => b' end].
Proof.
  revert c. induction backups as [|x backups IH]; intros c; [by destruct c|].
  specialize (IH x). destruct backups as [|y backups]; simpl in *; by rewrite IH.
Qed.

(** Only the last backup is ever lost. *)
Lemma push_keeps c backups :
  exists dropped, omap id (c :: backups) = omap id (push c backups) ++ dropped.
Proof.
  revert c. induction backups as [|b [|b' backups] IH]; intros c.
  - by exists (omap id [c]).
  - destruct c as [c|]; simpl; [by exists (omap id [b])|exists []; by rewrite app_nil_r].
  - destruct (IH b) as [dropped Hd]. exists dropped.
    change (push c (b :: b' :: backups)) with (c :: push b (b' :: backups)).
    change (c :: b :: b' :: backups) with ([c] ++ b :: b' :: backups).
    change (c :: push b (b' :: backups)) with ([c] ++ push b (b' :: backups)).
    by rewrite !omap_app, Hd, app_assoc.
Qed.

Lemma elem_of_push x c backups : x ∈ push c backups -> x = c \/ x ∈ backups.
Proof.
  revert c. induction backups as [|b [|b' backups] IH]; intros c; simpl.
  - by intros ?%not_elem_of_nil.
  - intros ->%list_elem_of_singleton. destruct c; [by left|right; by left].
  - intros [->|Hin]%elem_of_cons; [by left|]. right. apply IH in Hin as [->|Hin]; [by left|by right].
Qed.

(** ** Batches *)

(** A batch costs at most some of the oldest text, and nothing without a limit. *)
Lemma write_batch_keeps limit lf batch : exists lost,
  lost ++ all_text (write_batch limit lf batch) = all_text lf ++ batch /\ (limit <= 0 -> lost = []).
Proof.
  unfold write_batch. destruct (_ && _) eqn:Hrot.
  - destruct (push_keeps (Some (lf_log lf ++ batch)) (lf_backups lf)) as [dropped Hd].
    exists (concat (reverse dropped)). split; [|lia]. unfold all_text. simpl. rewrite app_nil_r.
    rewrite <- concat_app, <- reverse_app, <- Hd. simpl.
    by rewrite reverse_cons, concat_app, <- !app_assoc; simpl; rewrite app_nil_r.
  - exists []. split; [|done]. unfold all_text. simpl. by rewrite app_assoc.
Qed.

Lemma write_batches_keep limit batches lf : exists lost,
  lost ++ all_text (foldl (write_batch limit) lf batches) = all_text lf ++ concat batches /\
  (limit <= 0 -> lost = []).
Proof.
  revert lf. induction batches as [|batch batches IH]; intros lf; simpl.
  { exists []. by rewrite app_nil_r. }
  destruct (write_batch_keeps limit lf batch) as (lost1 & Hlost1 & Hk1).
  destruct (IH (write_batch limit lf batch)) as (lost2 & Hlost2 & Hk2).
  exists (lost1 ++ lost2). split; [|intros Hl; by rewrite Hk1, Hk2].
  by rewrite <- app_assoc, Hlost2, app_assoc, Hlost1, app_assoc.
Qed.

(** Without a limit the log grows and the backups stay. *)
Lemma write_batches_unlimited limit batches lf : limit <= 0 ->
  foldl (write_batch limit) lf batches = mk_log_files (lf_log lf ++ concat batches) (lf_backups lf).
Proof.
  intros Hl. revert lf. induction batches as [|batch batches IH]; intros lf; simpl.
  - rewrite app_nil_r. by destruct lf.
  - rewrite IH. unfold write_batch. rewrite (proj2 (Z.ltb_ge _ _)) by lia. simpl. by rewrite app_assoc.
Qed.

(** A log a batch was added to is below the limit. *)
Lemma write_batch_below limit lf batch : 0 < limit ->
  Z.of_nat (length (lf_log (write_batch limit lf batch))) < limit.
Proof.
  intros Hl. unfold write_batch. destruct (_ && _) eqn:Hrot; simpl in *; lia.
Qed.

(** The log never passes the limit, or the size it was begun with, by more than a batch. *)
Lemma write_batches_bound limit (size : nat) batches lf : 0 < limit ->
  Forall (fun batch : list ascii => length batch < size)%nat batches ->
  let lf' := foldl (write_batch limit) lf batches in
  (batches = [] \/ Z.of_nat (length (lf_log lf')) < limit) /\
  forall b, Some b ∈ lf_backups lf' -> Some b ∈ lf_backups lf \/
    Z.of_nat (length b) < Z.max limit (Z.of_nat (length (lf_log lf))) + Z.of_nat size.
Proof.
  intros Hl Hall. cbv zeta. induction batches as [|batch batches IH] using rev_ind; [by split; [left|auto]|].
  apply Forall_app in Hall as [Hall [Hbatch _]%Forall_cons]. destruct (IH Hall) as [Hlog Hback].
  rewrite foldl_app. simpl. set (lf1 := foldl _ lf batches) in *.
  split; [right; by apply write_batch_below|].
  intros b Hb. unfold write_batch in Hb. destruct (_ && _); [|by apply Hback]. simpl in Hb.
  apply elem_of_push in Hb as [[= ->]|Hb]; [|by apply Hback].
  right. rewrite length_app. destruct Hlog as [->|Hlog]; [unfold lf1; simpl|]; lia.
Qed.
