(* ===== verification/FileSafety.v ===== *)
(** The file handler is a rotating log: staging never overflows its buffer, the
    renames of a rotation push the closed log into the row of backups, and every
    step of the consumer is a batch of the abstract log of [RotatingLog.v] or
    leaves it alone. *)
From S2P Require Import Prelude Types Ring RingMachine AsyncHandler AsyncSafety AsyncInit Format FileHandler RotatingLog.
Local Open Scope Z_scope.

Section paths.
(** The backups of [name] up to [n] fit the path buffer. *)
Definition short_paths (name : string) (n : nat) : Prop :=
  forall i, (1 <= i <= n)%nat ->
    (length (chars name ++ chars "." ++ fmt_d (Z.of_nat i)) <= Z.to_nat (PATH_BUF_SIZE - 1))%nat.

Context (name : string) (n : nat) (Hpaths : short_paths name n).

Lemma backup_path_chars i : (1 <= i <= n)%nat ->
  chars (backup_path name (Z.of_nat i)) = chars name ++ chars "." ++ fmt_d (Z.of_nat i).
Proof. intros Hi. unfold backup_path. rewrite chars_str. apply take_ge. by apply Hpaths. Qed.

Lemma backup_path_inj i j : (1 <= i <= n)%nat -> (1 <= j <= n)%nat ->
  backup_path name (Z.of_nat i) = backup_path name (Z.of_nat j) -> i = j.
Proof.
  intros Hi Hj Heq. apply (f_equal chars) in Heq. rewrite !backup_path_chars in Heq by done.
  apply app_inv_head, app_inv_head in Heq. unfold fmt_d in Heq.
  apply (f_equal str) in Heq. rewrite !str_chars in Heq. apply (inj pretty) in Heq. lia.
Qed.

Lemma backup_path_ne_name i : (1 <= i <= n)%nat -> backup_path name (Z.of_nat i) <> name.
Proof.
  intros Hi Heq. apply (f_equal (fun p => length (chars p))) in Heq.
  rewrite backup_path_chars, !length_app in Heq by done. simpl in Heq. lia.
Qed.
End paths.

(** ** Renaming *)

Lemma rename_other old_path new_path fs p : p <> old_path -> p <> new_path ->
  rename old_path new_path fs !! p = fs !! p.
Proof.
  intros H1 H2. unfold rename. destruct (fs !! old_path); [|done].
  by rewrite lookup_insert_ne, lookup_delete_ne.
Qed.

Lemma rename_old old_path new_path fs : old_path <> new_path ->
  rename old_path new_path fs !! old_path = None.
Proof.
  intros Hne. unfold rename. destruct (fs !! old_path) eqn:Ho; [|done].
  by rewrite lookup_insert_ne, lookup_delete_eq.
Qed.

Lemma rename_new old_path new_path fs :
  rename old_path new_path fs !! new_path =
    match fs !! old_path with Some c => Some c | None => fs !! new_path end.
Proof. unfold rename. destruct (fs !! old_path); [by rewrite lookup_insert_eq|done]. Qed.

Section rotation.
Context (name : string).
Abbreviation backup i := (backup_path name (Z.of_nat i)).

(** The first [n] backups, newest first. *)
Definition slots (fs : file_system) (n : nat) : list (option (list ascii)) :=
  map (fun i => fs !! backup i) (seq 1 n).

Lemma slots_snoc fs n : slots fs (S n) = slots fs n ++ [fs !! backup (S n)].
Proof. unfold slots. by rewrite seq_S, map_app. Qed.

Lemma slots_ext fs fs' n :
  (forall i, (1 <= i <= n)%nat -> fs' !! backup i = fs !! backup i) -> slots fs' n = slots fs n.
Proof. intros Hext. apply map_ext_in. intros i Hi%in_seq. apply Hext. lia. Qed.

Context (n : nat) (Hpaths : short_paths name n).

Lemma backup_ne i j : (1 <= i <= n)%nat -> (1 <= j <= n)%nat -> i <> j -> backup i <> backup j.
Proof. intros Hi Hj Hne Heq. apply Hne. by eapply backup_path_inj. Qed.

Lemma rotate_loop_frame i fs p : (forall j, (1 <= j <= S i)%nat -> p <> backup j) ->
  rotate_loop name i fs !! p = fs !! p.
Proof.
  revert fs. induction i as [|i IH]; intros fs Hp; [done|]. cbn [rotate_loop].
  rewrite IH by (intros j Hj; apply Hp; lia).
  replace (Z.of_nat (S i) + 1) with (Z.of_nat (S (S i))) by lia.
  rewrite rename_other; [done|apply Hp; lia|apply Hp; lia].
Qed.

(** The loop pushes a gap into the row of backups. *)
Lemma rotate_loop_slots i fs : (S i <= n)%nat ->
  slots (rotate_loop name i fs) (S i) = push None (slots fs (S i)).
Proof.
  revert fs. induction i as [|i IH]; intros fs Hi; [by unfold slots; simpl|]. cbn [rotate_loop].
  replace (Z.of_nat (S i) + 1) with (Z.of_nat (S (S i))) by lia.
  set (fs1 := rename (backup (S i)) (backup (S (S i))) fs).
  rewrite (slots_snoc _ (S i)), IH, rotate_loop_frame by (lia || (intros j Hj; apply backup_ne; lia)).
  rewrite (slots_snoc fs (S i)), !(slots_snoc _ i), <- app_assoc. cbn [app].
  rewrite push_snoc. f_equal.
  - do 2 f_equal; [|unfold fs1; rewrite rename_old; [done|apply backup_ne; lia]].
    apply slots_ext. intros j Hj. apply rename_other; apply backup_ne; lia.
  - unfold fs1. rewrite rename_new. by destruct (fs !! backup (S i)).
Qed.

Lemma slots_other fs p c : (forall i, (1 <= i <= n)%nat -> p <> backup i) -> slots (<[p := c]> fs) n = slots fs n.
Proof. intros Hp. apply slots_ext. intros i Hi. apply lookup_insert_ne. by apply Hp. Qed.

Lemma slots_insert_name fs c : slots (<[name := c]> fs) n = slots fs n.
Proof. apply slots_other. intros i Hi Heq. by apply (backup_path_ne_name name n Hpaths i Hi). Qed.

(** The renames of a rotation: the loop, then the log itself. *)
Definition shift_files (fs : file_system) : file_system :=
  let fs := rotate_loop name (n - 1) fs in
  if (0 <? n)%nat then rename name (backup_path name 1) fs else fs.

Lemma shift_files_slots fs c : fs !! name = Some c ->
  slots (shift_files fs) n = push (Some c) (slots fs n).
Proof.
  intros Hname. unfold shift_files. destruct (Nat.ltb_spec 0 n) as [Hn|Hn]; [|by replace n with 0%nat by lia].
  pose proof (rotate_loop_slots (n - 1) fs ltac:(lia)) as Hloop.
  replace (S (n - 1)) with n in Hloop by lia.
  assert (rotate_loop name (n - 1) fs !! name = Some c) as Hname'.
  { rewrite rotate_loop_frame; [done|]. intros j Hj Heq. apply (backup_path_ne_name name n Hpaths j); [lia|done]. }
  set (fs1 := rotate_loop name (n - 1) fs) in *.
  change (backup_path name 1) with (backup 1).
  assert (forall fs, slots fs n = fs !! backup 1 :: map (fun i => fs !! backup i) (seq 2 (n - 1))) as Hsplit.
  { intros fs'. unfold slots. by replace n with (S (n - 1)) at 1 by lia. }
  rewrite (Hsplit fs) in *. rewrite push_some, <- Hloop, (Hsplit fs1), (Hsplit (rename _ _ _)). cbn [tail].
  f_equal; [by rewrite rename_new, Hname'|]. apply map_ext_in. intros i Hi%in_seq.
  apply rename_other; [apply (backup_path_ne_name name n Hpaths); lia|apply backup_ne; lia].
Qed.

Lemma shift_files_frame fs p : p <> name -> (forall i, (1 <= i <= n)%nat -> p <> backup i) ->
  shift_files fs !! p = fs !! p.
Proof.
  intros Hp Hb. unfold shift_files. destruct (Nat.ltb_spec 0 n) as [Hn|Hn].
  - rewrite rename_other; [|done|apply (Hb 1%nat); lia]. apply rotate_loop_frame. intros j Hj. apply Hb. lia.
  - by replace (n - 1)%nat with 0%nat by lia.
Qed.

Lemma shift_files_name fs : (0 < n)%nat -> shift_files fs !! name = None.
Proof.
  intros Hn. unfold shift_files. rewrite (proj2 (Nat.ltb_lt _ _)) by lia. apply rename_old.
  intros Heq. by apply (backup_path_ne_name name n Hpaths 1%nat ltac:(lia)).
Qed.

Lemma contents_insert_eq (fs : file_system) p c : contents (<[p := c]> fs) p = c.
Proof. unfold contents. by rewrite lookup_insert_eq. Qed.

Lemma contents_insert_ne (fs : file_system) p p' c : p <> p' -> contents (<[p := c]> fs) p' = contents fs p'.
Proof. intros Hne. unfold contents. by rewrite lookup_insert_ne. Qed.

End rotation.

(** ** The handler as a rotating log *)

Section rotating.
Context (can_open : string -> bool) (strftime_local : Z -> list ascii) (time_at : nat -> Z).
Context (name : string) (Hopen : can_open name = true).
Context (fn : lmk_format_fn) `{!FormatFn fn}.

#[local] Existing Instance file_sink.

Abbreviation max_backups st := (Z.to_nat (fl_max_backup_files st)).

Definition pending (st : file_state) : list ascii :=
  match fl_log_fp st with Some fp => st_pending fp | None => [] end.

Definition staged (st : file_state) : list ascii := take (Z.to_nat (fl_wpos st)) (fl_wbuf st).

(** The bytes of the current log file, stdio's buffer included. *)
Definition log_bytes (st : file_state) : list ascii := contents (fl_fs st) name ++ pending st.

(** The files as a rotating log. *)
Definition files_of (st : file_state) : log_files :=
  mk_log_files (log_bytes st) (slots name (fl_fs st) (max_backups st)).

Record file_ok (st : file_state) : Prop := {
  fo_name : fl_filename st = Some name;
  fo_fp : exists fp, fl_log_fp st = Some fp /\ st_path fp = name;
  fo_format : default lmk_default_format (fl_format_fn st) = fn;
  fo_wbuf : Z.of_nat (length (fl_wbuf st)) = LMK_WRITE_BUF_SIZE;
  fo_wpos : 0 <= fl_wpos st < LMK_WRITE_BUF_SIZE;
  fo_paths : short_paths name (max_backups st)
}.

(** When the handler rotates, it knows the size of its log, which a [long] can count. *)
Definition size_known (st : file_state) : Prop :=
  0 < fl_max_file_size st -> fl_max_file_size st <= 2 ^ 62 /\
    fl_current_file_size st = Z.of_nat (length (log_bytes st)) /\
    Z.of_nat (length (log_bytes st)) <= 2 ^ 62.

(** Fields no step of the consumer changes. *)
Definition same_settings (st st' : file_state) : Prop :=
  fl_filename st' = fl_filename st /\ fl_format_fn st' = fl_format_fn st /\
  fl_max_file_size st' = fl_max_file_size st /\ fl_max_backup_files st' = fl_max_backup_files st /\
  fl_wbuf st' = fl_wbuf st /\ fl_ts st' = fl_ts st /\ fl_time_calls st' = fl_time_calls st.

(** Closing the stream and renaming the files. *)
Lemma rotate_files st fp : fl_log_fp st = Some fp -> st_path fp = name ->
  lmk_rotate_log_file can_open name st =
    let '(fp', fs) := fopen_truncate can_open name
      (shift_files name (max_backups st) (<[name := log_bytes st]> (fl_fs st))) in
    fl_with_size (fl_with_fp st fp' fs) 0.
Proof.
  intros Hfp Hpath. unfold lmk_rotate_log_file, fl_fclose, flush_stream, log_bytes, pending, shift_files.
  rewrite Hfp, Hpath. cbn [fl_with_fp fl_max_backup_files fl_fs].
  replace (Z.to_nat (fl_max_backup_files st - 1)) with (max_backups st - 1)%nat by lia.
  replace (0 <? fl_max_backup_files st) with (0 <? max_backups st)%nat; [done|].
  destruct (Nat.ltb_spec 0 (max_backups st)), (Z.ltb_spec 0 (fl_max_backup_files st)); lia.
Qed.

Lemma rotate_spec st fp :
  fl_log_fp st = Some fp -> st_path fp = name -> short_paths name (max_backups st) ->
  let st' := lmk_rotate_log_file can_open name st in
  fl_log_fp st' = Some (mk_stream name []) /\ fl_current_file_size st' = 0 /\
  same_settings st st' /\ fl_wpos st' = fl_wpos st /\
  files_of st' = mk_log_files [] (push (Some (log_bytes st)) (slots name (fl_fs st) (max_backups st))).
Proof.
  intros Hfp Hpath Hpaths. cbv zeta. rewrite (rotate_files st fp Hfp Hpath).
  unfold fopen_truncate. rewrite Hopen. split_and!; try done.
  unfold files_of, log_bytes at 1, pending. simpl. rewrite contents_insert_eq. f_equal.
  rewrite slots_insert_name by done. erewrite shift_files_slots; [|done|by apply lookup_insert_eq].
  by rewrite slots_insert_name.
Qed.

(** *** Steps of the consumer *)

(** Handing the staging buffer to the stream. *)
Lemma write_staged_spec st : file_ok st -> size_known st ->
  let st' := write_staged can_open st in
  file_ok st' /\ size_known st' /\ same_settings st st' /\ fl_wpos st' = 0 /\
  files_of st' = write_batch (fl_max_file_size st) (files_of st) (staged st).
Proof.
  intros [Hname (fp & Hfp & Hpath) Hfmt Hbuf Hpos Hpaths] Hsize. cbv zeta. unfold write_staged.
  rewrite Hfp. cbn [fl_with_size fl_with_fp fl_max_file_size fl_current_file_size fl_filename fl_wpos].
  set (st1 := fl_with_size _ _). set (rotate := (0 <? fl_max_file_size st) && _).
  assert (log_bytes st1 = log_bytes st ++ staged st) as Hlog.
  { unfold log_bytes, pending. rewrite Hfp. simpl. by rewrite app_assoc. }
  assert (length (staged st) = Z.to_nat (fl_wpos st)) as Hstaged.
  { unfold staged. rewrite length_take. unfold LMK_WRITE_BUF_SIZE in *. lia. }
  unfold LMK_WRITE_BUF_SIZE in *.
  assert (0 < fl_max_file_size st -> s64 (fl_current_file_size st + fl_wpos st) =
    Z.of_nat (length (log_bytes st ++ staged st))) as Hs64.
  { intros Hlim. destruct (Hsize Hlim) as (H1 & H2 & H3). rewrite s64_small by lia.
    rewrite length_app. lia. }
  unfold write_batch. cbn [lf_log lf_backups files_of].
  assert (rotate = (0 <? fl_max_file_size st) &&
    (fl_max_file_size st <=? Z.of_nat (length (log_bytes st ++ staged st)))) as Hrotate.
  { unfold rotate. destruct (Z.ltb_spec 0 (fl_max_file_size st)) as [Hlim|]; [|done]. by rewrite Hs64. }
  rewrite <- Hrotate. clearbody rotate. destruct rotate.
  - rewrite Hname.
    destruct (rotate_spec st1 (fwrite (staged st) fp)) as (Hfp' & Hcur & Hsame & Hpos' & Hfiles);
      [done|done|done|].
    set (st2 := lmk_rotate_log_file can_open name st1) in *.
    destruct Hsame as (S1 & S2 & S3 & S4 & S5 & S6 & S7). simpl in S1, S2, S3, S4, S5, S6, S7.
    assert (log_bytes st2 = []) as Hlog2 by exact (f_equal lf_log Hfiles).
    split_and!; [|..|by split_and!|done|].
    + split; simpl; rewrite ?S1, ?S2, ?S4, ?S5; try done. by eexists.
    + intros Hlim. simpl in *. rewrite S3 in *. destruct (Hsize Hlim) as (? & _ & _).
      change (log_bytes (fl_with_staging st2 _ 0)) with (log_bytes st2). rewrite Hcur, Hlog2. simpl. lia.
    + change (files_of (fl_with_staging st2 (fl_wbuf st2) 0)) with (files_of st2). by rewrite Hfiles, Hlog.
  - split_and!; [|..|by split_and!|done|].
    + split; simpl; try done; by eexists.
    + intros Hlim. change (log_bytes (fl_with_staging st1 _ 0)) with (log_bytes st1). rewrite Hlog.
      change (0 < fl_max_file_size st) in Hlim. destruct (Hsize Hlim) as (? & _ & _).
      change (fl_max_file_size st <= 2 ^ 62 /\ s64 (fl_current_file_size st + fl_wpos st) =
        Z.of_nat (length (log_bytes st ++ staged st)) /\ Z.of_nat (length (log_bytes st ++ staged st)) <= 2 ^ 62).
      split_and!; [done|by apply Hs64|]. lia.
    + change (files_of (fl_with_staging st1 (fl_wbuf st1) 0)) with (files_of st1).
      unfold files_of at 1. by rewrite Hlog.
Qed.

(** The line the handler makes of a request in a given state. *)
Definition line_of (st : file_state) (req : log_view) : list ascii :=
  line_text strftime_local fn (time_at (fl_time_calls st)) (fl_ts st) req.

(** What the files get of a line: all of it, or as much as the room left in the
    staging buffer takes, which is at least [LMK_MAX_LINE_SIZE] bytes, one of
    them for the terminator. *)
Definition printed (kept line : list ascii) : Prop :=
  kept = line \/ kept `prefix_of` line /\ LMK_MAX_LINE_SIZE - 1 <= Z.of_nat (length kept).

Lemma printed_take line n : LMK_MAX_LINE_SIZE <= n -> printed (take (Z.to_nat (n - 1)) line) line.
Proof.
  intros Hn. destruct (decide (length line <= Z.to_nat (n - 1))%nat) as [Hle|Hgt].
  - left. by apply take_ge.
  - right. split; [apply prefix_take|]. rewrite length_take. lia.
Qed.

(** Shorter lines are never cut. *)
Lemma printed_whole kept line : Z.of_nat (length line) < LMK_MAX_LINE_SIZE -> printed kept line -> kept = line.
Proof.
  intros Hlen [->|[Hp Hk]]; [done|]. apply prefix_length_eq; [done|lia].
Qed.

Lemma printed_all_whole kept lines : Forall (fun line => Z.of_nat (length line) < LMK_MAX_LINE_SIZE) lines ->
  Forall2 printed kept lines -> kept = lines.
Proof.
  intros Hshort Hall. induction Hall as [|k l kept lines Hp _ IH]; [done|].
  apply Forall_cons in Hshort as [Hl Hshort]. by rewrite (printed_whole k l Hl Hp), IH.
Qed.

(** Formatting into the staging buffer appends the line, cut to the room there is. *)
Lemma stage_line_spec st req : file_ok st ->
  Z.of_nat (length (line_of st req)) <= INT_MAX ->
  let kept := take (Z.to_nat (LMK_WRITE_BUF_SIZE - fl_wpos st - 1)) (line_of st req) in
  exists out, lmk_format_log_line strftime_local (fl_format_fn st) (time_at (fl_time_calls st))
      (fl_ts st) (drop (Z.to_nat (fl_wpos st)) (fl_wbuf st)) (LMK_WRITE_BUF_SIZE - fl_wpos st) req =
      (out, Z.of_nat (length kept), ts_refresh strftime_local (time_at (fl_time_calls st)) (fl_ts st)) /\
    length out = (length (fl_wbuf st) - Z.to_nat (fl_wpos st))%nat /\
    take (length kept) out = kept.
Proof.
  intros [_ _ Hfmt Hbuf Hpos _] Hmax. cbv zeta. unfold line_of in *.
  change (lmk_format_log_line strftime_local (fl_format_fn st)) with
    (lmk_format_log_line strftime_local (Some (default lmk_default_format (fl_format_fn st)))).
  rewrite Hfmt. set (line := line_text _ _ _ _ _) in *.
  set (out := drop (Z.to_nat (fl_wpos st)) (fl_wbuf st)).
  assert (Z.of_nat (length out) = LMK_WRITE_BUF_SIZE - fl_wpos st) as Hout.
  { unfold out. rewrite length_drop. lia. }
  unfold LMK_WRITE_BUF_SIZE in *.
  rewrite (format_log_line_prints strftime_local fn); [|lia|unfold INT_MAX; lia|done].
  fold line. eexists. split; [done|].
  rewrite length_snprintf by lia. split; [unfold out; by rewrite length_drop|].
  exact (snprintf_prefix out (64 * 1024 - fl_wpos st) line ltac:(lia)).
Qed.

(** A record either joins the staged lines or begins a new batch. *)
Lemma file_process_spec st req : file_ok st -> size_known st ->
  0 < Z.of_nat (length (line_of st req)) <= INT_MAX ->
  let st' := file_process can_open strftime_local time_at req st in
  file_ok st' /\ size_known st' /\ fl_max_file_size st' = fl_max_file_size st /\ 0 < fl_wpos st' /\
  fl_ts st' = ts_refresh strftime_local (time_at (fl_time_calls st)) (fl_ts st) /\
  fl_time_calls st' = S (fl_time_calls st) /\
  exists kept, printed kept (line_of st req) /\
    (files_of st' = files_of st /\ staged st' = staged st ++ kept \/
     files_of st' = write_batch (fl_max_file_size st) (files_of st) (staged st) /\
       staged st' = kept /\ 0 < fl_wpos st).
Proof.
  intros Hok Hsize Hline. cbv zeta. unfold file_process.
  destruct (fo_fp st Hok) as (fp & Hfp & Hpath). rewrite Hfp.
  set (st1 := if _ <? _ then _ else st).
  assert (file_ok st1 /\ size_known st1 /\ same_settings st st1 /\
    fl_wpos st1 + LMK_MAX_LINE_SIZE <= LMK_WRITE_BUF_SIZE /\
    (files_of st1 = files_of st /\ staged st1 = staged st \/
     files_of st1 = write_batch (fl_max_file_size st) (files_of st) (staged st) /\ fl_wpos st1 = 0 /\ 0 < fl_wpos st))
    as (Hok1 & Hsize1 & (_ & _ & S3 & S4 & _ & S6 & S7) & Hroom & Hfiles).
  { unfold st1. destruct (Z.ltb_spec LMK_WRITE_BUF_SIZE (fl_wpos st + LMK_MAX_LINE_SIZE)) as [Hfull|Hfree].
    - destruct (write_staged_spec st Hok Hsize) as (? & ? & ? & Hw & ?).
      unfold LMK_WRITE_BUF_SIZE, LMK_MAX_LINE_SIZE, LMK_LOG_MSG_MAX_SIZE in *.
      split_and!; [done..|lia|right; split_and!; [done..|lia]].
    - split_and!; try done. by left. }
  assert (line_of st1 req = line_of st req) as Hsame by (unfold line_of; by rewrite S6, S7).
  rewrite <- Hsame in Hline.
  destruct (stage_line_spec st1 req Hok1 ltac:(lia)) as (out & -> & Hlen & Htake).
  pose proof (printed_take (line_of st1 req) (LMK_WRITE_BUF_SIZE - fl_wpos st1) ltac:(lia)) as Hprinted.
  set (kept := take _ (line_of st1 req)) in *.
  assert (0 < Z.of_nat (length kept) <= LMK_WRITE_BUF_SIZE - fl_wpos st1 - 1) as Hkept.
  { unfold kept. rewrite length_take. unfold LMK_WRITE_BUF_SIZE, LMK_MAX_LINE_SIZE, LMK_LOG_MSG_MAX_SIZE in *. lia. }
  rewrite (proj2 (Z.ltb_lt _ _)) by lia. rewrite Hsame in Hprinted.
  destruct Hok1 as [K1 K2 K3 K4 K5 K6].
  set (st2 := fl_with_staging _ _ _).
  assert (staged st2 = staged st1 ++ kept) as Hstaged.
  { unfold staged, st2. simpl.
    replace (Z.to_nat (fl_wpos st1 + Z.of_nat (length kept))) with
      (length (take (Z.to_nat (fl_wpos st1)) (fl_wbuf st1)) + length kept)%nat
      by (rewrite length_take; lia).
    by rewrite take_app_add, Htake. }
  split_and!; [|done|done|simpl; lia|simpl; by rewrite S6, S7|simpl; by rewrite S7|].
  - split; simpl; try done; [rewrite length_app, length_take|]; lia.
  - exists kept. split; [done|]. rewrite Hstaged. change (files_of st2) with (files_of st1).
    destruct Hfiles as [[-> ->]|(-> & Hw & Hpos)]; [by left|right].
    unfold staged. rewrite Hw. simpl. by split_and!.
Qed.

Lemma fflush_spec st : file_ok st ->
  file_ok (fl_fflush st) /\ (size_known st -> size_known (fl_fflush st)) /\
  same_settings st (fl_fflush st) /\ files_of (fl_fflush st) = files_of st /\
  pending (fl_fflush st) = [] /\ fl_wpos (fl_fflush st) = fl_wpos st.
Proof.
  intros Hok. destruct (fo_fp st Hok) as (fp & Hfp & Hpath). pose proof (fo_paths st Hok) as Hpaths.
  assert (log_bytes (fl_fflush st) = log_bytes st) as Hlog.
  { unfold fl_fflush, log_bytes, pending, flush_stream. rewrite Hfp. simpl.
    by rewrite Hpath, contents_insert_eq, app_nil_r. }
  unfold size_known, files_of. rewrite Hlog. unfold fl_fflush. rewrite Hfp.
  destruct Hok as [K1 K2 K3 K4 K5 K6]. split_and!; try done.
  - split; try done. simpl. by eexists.
  - simpl. unfold flush_stream. rewrite Hpath. by rewrite slots_insert_name.
Qed.

(** Nothing is left in stdio's buffer without something staged after it. *)
Definition pending_ok (st : file_state) : Prop := pending st = [] \/ 0 < fl_wpos st.

Lemma file_idle_spec st : file_ok st -> size_known st -> pending_ok st ->
  let st' := file_idle can_open st in
  file_ok st' /\ size_known st' /\ fl_max_file_size st' = fl_max_file_size st /\
  fl_ts st' = fl_ts st /\ fl_time_calls st' = fl_time_calls st /\
  pending st' = [] /\ fl_wpos st' = 0 /\
  (fl_wpos st = 0 /\ files_of st' = files_of st \/
   0 < fl_wpos st /\ files_of st' = write_batch (fl_max_file_size st) (files_of st) (staged st)).
Proof.
  intros Hok Hsize Hpend. cbv zeta. unfold file_idle. destruct (fo_fp st Hok) as (fp & Hfp & Hpath). rewrite Hfp.
  destruct (Z.ltb_spec 0 (fl_wpos st)) as [Hpos|Hpos].
  - destruct (write_staged_spec st Hok Hsize) as (Hok1 & Hsize1 & (_ & _ & S3 & _ & _ & S6 & S7) & Hw & Hfiles).
    destruct (fflush_spec _ Hok1) as (Hok2 & Hsize2 & (_ & _ & T3 & _ & _ & T6 & T7) & Hf & Hp & Hw').
    split_and!; try congruence; try done; [by apply Hsize2|]. right. by rewrite Hf.
  - pose proof (fo_wpos st Hok). split_and!; try done; [|lia|left; split; [lia|done]].
    destruct Hpend; [done|lia].
Qed.

(** The final flush puts what is staged at the end of the log, without rotating. *)
Lemma file_finish_spec st : file_ok st ->
  let st' := file_finish st in
  pending st' = [] /\ (0 < fl_wpos st -> fl_wpos st' = 0) /\
  files_of st' = mk_log_files (log_bytes st ++ staged st) (lf_backups (files_of st)).
Proof.
  intros Hok. cbv zeta. unfold file_finish. destruct (fo_fp st Hok) as (fp & Hfp & Hpath). rewrite Hfp.
  pose proof (fo_wpos st Hok).
  destruct (Z.ltb_spec 0 (fl_wpos st)) as [Hpos|Hpos].
  - set (st1 := fl_with_staging _ _ _).
    assert (file_ok st1) as Hok1.
    { destruct Hok as [K1 K2 K3 K4 K5 K6]. split; try done. simpl. by eexists. }
    destruct (fflush_spec st1 Hok1) as (_ & _ & _ & Hf & Hp & Hw'). split_and!; [done|by rewrite Hw'|].
    rewrite Hf. unfold files_of at 1, log_bytes, pending. simpl. by rewrite Hfp, <- app_assoc.
  - destruct (fflush_spec st Hok) as (_ & _ & _ & Hf & Hp & Hw'). split_and!; [done|lia|].
    rewrite Hf. unfold staged. replace (fl_wpos st) with 0 by lia. simpl. by rewrite app_nil_r.
Qed.

(** *** Whole runs *)

Abbreviation fsink := (file_sink can_open strftime_local time_at).

(** The files of [st] after whole batches of lines; [cur] are the lines still staged. *)
Definition batched (st st' : file_state) (batches : list (list (list ascii))) (cur : list (list ascii)) : Prop :=
  files_of st' = foldl (write_batch (fl_max_file_size st)) (files_of st) (map (@concat ascii) batches) /\
  staged st' = concat cur /\ (fl_wpos st' = 0 -> cur = []) /\
  Forall (fun b => 0 < Z.of_nat (length (concat b)) < LMK_WRITE_BUF_SIZE) batches.

Lemma staged_length st : file_ok st -> Z.of_nat (length (staged st)) = fl_wpos st.
Proof. intros [_ _ _ Hbuf Hpos _]. unfold staged. rewrite length_take. lia. Qed.

(** Writing out what is staged closes the batch. *)
Lemma batched_write st st1 st2 batches cur : batched st st1 batches cur -> file_ok st1 -> 0 < fl_wpos st1 ->
  fl_max_file_size st1 = fl_max_file_size st ->
  files_of st2 = write_batch (fl_max_file_size st1) (files_of st1) (staged st1) ->
  files_of st2 = foldl (write_batch (fl_max_file_size st)) (files_of st) (map (@concat ascii) (batches ++ [cur])) /\
  Forall (fun b => 0 < Z.of_nat (length (concat b)) < LMK_WRITE_BUF_SIZE) (batches ++ [cur]).
Proof.
  intros (Hf & Hs & _ & Hall) Hok Hpos Hmax Hf2. pose proof (staged_length st1 Hok) as Hlen. rewrite Hs in Hlen.
  rewrite map_app, foldl_app, <- Hf. split; [by rewrite Hf2, Hmax, Hs|].
  apply Forall_app. split; [done|]. constructor; [|done]. rewrite Hlen. pose proof (fo_wpos st1 Hok). lia.
Qed.

Lemma file_replay_spec ops st :
  file_ok st -> size_known st -> pending_ok st -> fl_wpos st = 0 -> ts_ok strftime_local (fl_ts st) ->
  printable strftime_local fn (processed ops) -> OpFinish ∉ ops ->
  let st' := sink_replay (H := fsink) ops st in
  file_ok st' /\ size_known st' /\ pending_ok st' /\ fl_max_file_size st' = fl_max_file_size st /\
  fl_time_calls st' = (length (processed ops) + fl_time_calls st)%nat /\
  fl_ts st' = foldl (fun t i => ts_refresh strftime_local (time_at i) t) (fl_ts st)
    (seq (fl_time_calls st) (length (processed ops))) /\ ts_ok strftime_local (fl_ts st') /\
  (last ops = Some OpIdle -> pending st' = [] /\ fl_wpos st' = 0) /\
  exists batches cur, batched st st' batches cur /\
    Forall2 printed (concat batches ++ cur)
      (record_lines strftime_local fn time_at (processed ops) (fl_ts st) (fl_time_calls st)).
Proof.
  intros Hok Hsize Hpend Hempty Hts. cbv zeta. induction ops as [|op ops IH] using rev_ind; intros Hfit Hfin.
  { split_and!; try done. exists [], []. split; [|constructor]. split_and!; try done.
    unfold staged. simpl. by rewrite Hempty. }
  rewrite processed_snoc in *. rewrite not_elem_of_app, list_elem_of_singleton in Hfin.
  destruct Hfin as [Hfin Hop].
  destruct IH as (Hok1 & Hsize1 & Hpend1 & Hmax1 & Hcalls1 & Hts1 & Htsok1 & _ & batches & cur & Hb & Hprinted);
    [|done|].
  { intros req now ts Hreq. apply Hfit. apply elem_of_app. by left. }
  rewrite sink_replay_snoc. set (st1 := sink_replay ops st) in *.
  destruct op as [req| |]; simpl; [| |done].
  - destruct (file_process_spec st1 req Hok1 Hsize1)
      as (Hok2 & Hsize2 & Hmax2 & Hpos2 & Hts2 & Hcalls2 & kept & Hkept & Hcase).
    { apply Hfit; [apply elem_of_app; right; by left|done]. }
    set (st2 := file_process _ _ _ _ _) in *.
    rewrite length_app. simpl. rewrite seq_app, foldl_app. simpl.
    split_and!; [done|done|by right|congruence|lia| | |by rewrite last_snoc|].
    + rewrite Hts2, Hts1, Hcalls1. do 2 f_equal. lia.
    + rewrite Hts2. by apply ts_ok_refresh.
    + rewrite record_lines_snoc. unfold line_of in Hkept. rewrite Hcalls1, Hts1 in Hkept.
      assert (Forall2 printed ((concat batches ++ cur) ++ [kept]) (record_lines strftime_local fn time_at
        (processed ops) (fl_ts st) (fl_time_calls st) ++ [line_text strftime_local fn
          (time_at (length (processed ops) + fl_time_calls st)%nat) (foldl (fun t i =>
            ts_refresh strftime_local (time_at i) t) (fl_ts st) (seq (fl_time_calls st) (length (processed ops)))) req]))
        as Hall by (apply Forall2_app; [done|by constructor]).
      destruct Hcase as [[Hf2 Hs2]|(Hf2 & Hs2 & Hpos)].
      * exists batches, (cur ++ [kept]). rewrite app_assoc. split; [|done]. destruct Hb as (Hf & Hs & _ & Hsizes).
        split_and!; [congruence| |lia|done]. rewrite Hs2, Hs, concat_app. simpl. by rewrite app_nil_r.
      * exists (batches ++ [cur]), [kept]. rewrite concat_app. simpl. rewrite app_nil_r. split; [|done].
        destruct (batched_write st st1 st2 batches cur Hb Hok1 Hpos Hmax1 Hf2) as [Hf Hsizes].
        split_and!; [done| |lia|done]. rewrite Hs2. simpl. by rewrite app_nil_r.
  - rewrite app_nil_r.
    destruct (file_idle_spec st1 Hok1 Hsize1 Hpend1) as (Hok2 & Hsize2 & Hmax2 & Hts2 & Hcalls2 & Hp2 & Hw2 & Hcase).
    set (st2 := file_idle can_open st1) in *.
    split_and!; [done|done|by left|congruence|congruence|congruence|congruence|done|].
    assert (staged st2 = []) as Hs2 by (unfold staged; by rewrite Hw2).
    destruct Hcase as [[Hw Hf2]|[Hpos Hf2]].
    + exists batches, cur. split; [|done]. destruct Hb as (Hf & Hs & Hcur & Hsizes). specialize (Hcur Hw).
      split_and!; [congruence|by rewrite Hs2, Hcur|done|done].
    + exists (batches ++ [cur]), []. rewrite app_nil_r, concat_app. simpl. rewrite app_nil_r. split; [|done].
      destruct (batched_write st st1 st2 batches cur Hb Hok1 Hpos Hmax1 Hf2) as [Hf Hsizes]. by split_and!.
Qed.
End rotating.
