(* ===== verification/FileTheorems.v ===== *)
(** The file handler's contract: rotation shifts the backups and bounds the size
    of the log, what the handler accepts ends up in its files in order and in
    whole batches, and the limit of the path buffer. *)
From S2P Require Import Prelude Types Ring RingMachine AsyncHandler AsyncSafety AsyncTheorems AsyncInit Format FileHandler RotatingLog FileSafety.
Local Open Scope Z_scope.

#[local] Existing Instance file_sink.

(** What a reader finds on disk. *)
Definition disk_files (name : string) (st : file_state) : log_files :=
  mk_log_files (contents (fl_fs st) name) (slots name (fl_fs st) (Z.to_nat (fl_max_backup_files st))).

Lemma disk_files_flushed name st : pending st = [] -> disk_files name st = files_of name st.
Proof. intros Hp. unfold disk_files, files_of, log_bytes. by rewrite Hp, app_nil_r. Qed.

(** ** Theorems *)

(** C19. Rotation pushes the log it closes, buffered bytes included, into the row of
    backups: each backup that exists moves one place on, the last one goes when
    the one before it takes its place, and no other file changes. With no backups
    the closed log is discarded. If the log can be opened again it is empty and
    its stream is at its start; otherwise the handler has no stream any more and
    the log is where the renaming left it. This is for names whose backup paths
    fit the 512-byte buffer. *)
Theorem rotation_shifts_backups (can_open : string -> bool) (name : string) (st : file_state) (fp : stream)
    (Hfp : fl_log_fp st = Some fp) (Hpath : st_path fp = name)
    (Hpaths : short_paths name (Z.to_nat (fl_max_backup_files st))) :
  let n := Z.to_nat (fl_max_backup_files st) in
  let closed := contents (fl_fs st) name ++ st_pending fp in
  let st' := lmk_rotate_log_file can_open name st in
  slots name (fl_fs st') n = push (Some closed) (slots name (fl_fs st) n) /\
  fl_current_file_size st' = 0 /\
  (if can_open name
   then fl_log_fp st' = Some (mk_stream name []) /\ fl_fs st' !! name = Some []
   else fl_log_fp st' = None /\ fl_fs st' !! name = if (0 <? n)%nat then None else Some closed) /\
  (forall p, p <> name -> (forall i, (1 <= i <= n)%nat -> p <> backup_path name (Z.of_nat i)) ->
     fl_fs st' !! p = fl_fs st !! p).
Proof.
  cbv zeta. rewrite (rotate_files can_open name st fp Hfp Hpath). set (n := Z.to_nat (fl_max_backup_files st)) in *.
  assert (log_bytes name st = contents (fl_fs st) name ++ st_pending fp) as ->.
  { unfold log_bytes, pending. by rewrite Hfp. }
  set (closed := contents _ _ ++ _). set (fs := <[name := closed]> (fl_fs st)).
  assert (slots name (shift_files name n fs) n = push (Some closed) (slots name (fl_fs st) n)) as Hslots.
  { rewrite (shift_files_slots name n Hpaths fs closed) by apply lookup_insert_eq.
    unfold fs. by rewrite slots_insert_name. }
  assert (forall p, p <> name -> (forall i, (1 <= i <= n)%nat -> p <> backup_path name (Z.of_nat i)) ->
    shift_files name n fs !! p = fl_fs st !! p) as Hframe.
  { intros p Hp Hb. rewrite shift_files_frame by done. by apply lookup_insert_ne. }
  unfold fopen_truncate. destruct (can_open name); simpl.
  - rewrite slots_insert_name by done. split_and!; [done..|by rewrite lookup_insert_eq|].
    intros p Hp Hb. rewrite lookup_insert_ne by done. by apply Hframe.
  - split_and!; try done. destruct (Nat.ltb_spec 0 n) as [Hn|Hn]; [by apply shift_files_name|].
    unfold shift_files. replace n with 0%nat by lia. by apply lookup_insert_eq.
Qed.

(** C20. Rotation bounds the log, for backup paths that fit the 512-byte buffer, lines
    that are not empty and shorter than 2^31 bytes, and sizes of at most 2^62.
    Between the consumer's steps, as long as the log can
    be opened and before the final flush of a shutdown, a log with a positive
    [max_file_size] is below that limit or still what it was at the start, the
    handler's own count of its bytes is exact, and no backup made since is longer
    than the larger of the limit and the first log by more than one staging
    buffer: by that much, between the write and the renaming, the log itself may
    pass the limit. *)
Theorem rotation_bounds_log_size (can_open : string -> bool) (strftime_local : Z -> list ascii)
    (time_at : nat -> Z) (name : string) (fn : lmk_format_fn) `(!FormatFn fn)
    (ops : list sink_op) (st : file_state)
    (Hopen : can_open name = true) (Hok : file_ok name fn st) (Hpend : pending_ok st) (Hempty : fl_wpos st = 0)
    (Hts : ts_ok strftime_local (fl_ts st)) (Hlines : printable strftime_local fn (processed ops))
    (Hsize : size_known name st) (Hlimit : 0 < fl_max_file_size st) (Hrunning : OpFinish ∉ ops) :
  let st' := sink_replay (H := file_sink can_open strftime_local time_at) ops st in
  let size lines := Z.of_nat (length lines) in
  (log_bytes name st' = log_bytes name st \/ size (log_bytes name st') < fl_max_file_size st) /\
  fl_current_file_size st' = size (log_bytes name st') /\
  (forall b, Some b ∈ lf_backups (files_of name st') -> Some b ∈ lf_backups (files_of name st) \/
     size b < Z.max (fl_max_file_size st) (size (log_bytes name st)) + LMK_WRITE_BUF_SIZE).
Proof.
  destruct (file_replay_spec can_open strftime_local time_at name Hopen fn ops st Hok Hsize Hpend Hempty Hts Hlines
    Hrunning) as (_ & Hsize' & _ & Hmax & _ & _ & _ & _ & batches & cur & (Hfiles & _ & _ & Hsizes) & _).
  cbv zeta. rewrite Hfiles.
  destruct (write_batches_bound (fl_max_file_size st) (Z.to_nat LMK_WRITE_BUF_SIZE)
    (map (@concat ascii) batches) (files_of name st) Hlimit) as [Hlog Hbackups].
  { apply Forall_map. eapply Forall_impl; [exact Hsizes|]. simpl. intros b Hb. lia. }
  split_and!; [|by apply Hsize'; rewrite Hmax|].
  - rewrite <- Hfiles in Hlog. destruct Hlog as [Hnone|Hlog]; [left|by right].
    rewrite Hnone in Hfiles. exact (f_equal lf_log Hfiles).
  - intros b Hb. apply Hbackups in Hb. by rewrite Z2Nat.id in Hb by (unfold LMK_WRITE_BUF_SIZE; lia).
Qed.

(** What is logged is kept: through any sequence of records and flushes the
    backups, oldest first, the log and what is still staged are the previous
    files followed by one line per record in order, except that rotation may
    have dropped some of the oldest text; without rotation nothing is dropped. *)
Theorem file_log_keeps_recent_lines (can_open : string -> bool) (strftime_local : Z -> list ascii)
    (time_at : nat -> Z) (name : string) (fn : lmk_format_fn) `(!FormatFn fn)
    (ops : list sink_op) (st : file_state)
    (Hopen : can_open name = true) (Hok : file_ok name fn st) (Hpend : pending_ok st) (Hempty : fl_wpos st = 0)
    (Hts : ts_ok strftime_local (fl_ts st)) (Hlines : printable strftime_local fn (processed ops))
    (Hsize : size_known name st) (Hrunning : OpFinish ∉ ops) :
  let st' := sink_replay (H := file_sink can_open strftime_local time_at) ops st in
  exists kept lost,
    Forall2 printed kept (record_lines strftime_local fn time_at (processed ops) (fl_ts st) (fl_time_calls st)) /\
    lost ++ all_text (files_of name st') ++ staged st' = all_text (files_of name st) ++ concat kept /\
    (fl_max_file_size st <= 0 -> lost = []).
Proof.
  destruct (file_replay_spec can_open strftime_local time_at name Hopen fn ops st Hok Hsize Hpend Hempty Hts Hlines
    Hrunning) as (_ & _ & _ & _ & _ & _ & _ & _ & batches & cur & (Hfiles & Hstaged & _) & Hprinted).
  cbv zeta. destruct (write_batches_keep (fl_max_file_size st) (map (@concat ascii) batches) (files_of name st))
    as (lost & Hlost & Hkeep).
  exists (concat batches ++ cur), lost. split; [done|]. split; [|done].
  rewrite Hfiles, app_assoc, Hlost, Hstaged, <- app_assoc. f_equal.
  rewrite concat_app. f_equal. clear. induction batches as [|b batches IH]; simpl; [done|].
  by rewrite concat_app, IH.
Qed.

(** The backup names are built in a buffer of 512 bytes: for a log whose name has
    511 bytes or more all backups are one and the same file, so rotation keeps
    one of them at most. *)
Theorem long_names_share_one_backup (name : string) (i j : Z)
    (Hlong : (Z.to_nat (PATH_BUF_SIZE - 1) <= length (chars name))%nat) :
  backup_path name i = backup_path name j /\
  chars (backup_path name i) = take (Z.to_nat (PATH_BUF_SIZE - 1)) (chars name).
Proof. unfold backup_path. rewrite chars_str, !take_app_le by done. done. Qed.

(** The state a file handler starts from: allocated, not yet opened, its thread
    not yet started, with sizes a [long] can count. *)
Definition file_fresh (name : string) (fn : lmk_format_fn) (st : file_state) : Prop :=
  fl_filename st = Some name /\ fl_log_fp st = None /\
  default lmk_default_format (fl_format_fn st) = fn /\
  Z.of_nat (length (fl_wbuf st)) = LMK_WRITE_BUF_SIZE /\ fl_wpos st = 0 /\ fl_ts st = ts_start /\
  short_paths name (Z.to_nat (fl_max_backup_files st)) /\
  fl_max_file_size st <= 2 ^ 62 /\ Z.of_nat (length (contents (fl_fs st) name)) <= 2 ^ 62.

Lemma file_open_ok can_open name fn st : can_open name = true -> file_fresh name fn st ->
  let st' := file_open can_open st in
  file_ok name fn st' /\ size_known name st' /\ pending st' = [] /\ fl_wpos st' = 0 /\ fl_ts st' = ts_start /\
  fl_max_file_size st' = fl_max_file_size st /\ fl_time_calls st' = fl_time_calls st /\
  files_of name st' = disk_files name st.
Proof.
  intros Hopen (Hname & Hfp & Hfmt & Hbuf & Hpos & Hts & Hpaths & Hlim & Hlen). cbv zeta.
  unfold file_open, fl_fclose, fopen_append. rewrite Hfp, Hname, Hopen. simpl.
  split_and!; try done.
  - split; try done; simpl; [by eexists|]. rewrite Hpos. done.
  - intros _. unfold log_bytes, pending. simpl. by rewrite contents_insert_eq, app_nil_r.
  - unfold files_of, disk_files, log_bytes, pending. simpl.
    by rewrite contents_insert_eq, app_nil_r, slots_insert_name.
Qed.

(** A freshly opened handler that has processed records and is flushed has applied
    whole batches of their lines to the files. *)
Lemma file_run_batches can_open strftime_local time_at name fn `(!FormatFn fn) ops st0 :
  can_open name = true -> file_fresh name fn st0 -> printable strftime_local fn (processed ops) ->
  OpFinish ∉ ops -> last ops = Some OpIdle ->
  let st := sink_replay (H := file_sink can_open strftime_local time_at) ops (file_open can_open st0) in
  exists batches,
    disk_files name st = foldl (write_batch (fl_max_file_size st0)) (disk_files name st0) (map (@concat ascii) batches) /\
    Forall (fun batch => 0 < Z.of_nat (length (concat batch)) < LMK_WRITE_BUF_SIZE) batches /\
    Forall2 printed (concat batches)
      (record_lines strftime_local fn time_at (processed ops) ts_start (fl_time_calls st0)).
Proof.
  intros Hopen Hfresh Hlines Hfin Hlast. cbv zeta.
  destruct (file_open_ok can_open name fn st0 Hopen Hfresh) as (Hok & Hsize & Hpend & Hpos & Hts & Hmax & Hcalls & Hfiles).
  destruct (file_replay_spec can_open strftime_local time_at name Hopen fn ops (file_open can_open st0))
    as (_ & _ & _ & _ & _ & _ & _ & Hflushed & batches & cur & (Hrun & _ & Hcur & Hsizes) & Hprinted);
    [done|done|by left|done|by left|done|done|].
  destruct (Hflushed Hlast) as [Hp Hw]. rewrite (Hcur Hw), app_nil_r, Hts, Hcalls in Hprinted.
  exists batches. split; [|done]. by rewrite (disk_files_flushed name _ Hp), Hrun, Hmax, Hfiles.
Qed.

(** End to end for one handler: initialised on a path it can open, its consumer
    asleep and no log call in progress, it has on disk its previous files after
    batches of the lines of the accepted records, in order of acceptance. *)
Theorem file_handler_persists_accepted_records (can_open : string -> bool)
    (strftime_local : Z -> list ascii) (time_at : nat -> Z) (name : string) (fn : lmk_format_fn)
    `(!FormatFn fn) (env : init_env) (st0 st1 : file_state) (mask : Z) (s0 s : handler_state file_state)
    (tr : list ring_event)
    (Hopen : can_open name = true) (Hfresh : file_fresh name fn st0)
    (Hsize : 0 <= env_ring_buffer_size env < 2 ^ 32)
    (Hinit : lmk_file_log_handler_init can_open env st0 = (InitOk mask s0, st1))
    (Hlen : Z.of_nat (length tr) <= 2 ^ 62)
    (Hrun : run (handler_step (H := file_sink can_open strftime_local time_at) mask) s0 tr s)
    (Hparked : hs_cons s = KParked) (Hidle : hs_prods s = ∅)
    (Hlines : printable strftime_local fn (enqueued tr)) :
  exists batches,
    disk_files name (hs_sink s) =
      foldl (write_batch (fl_max_file_size st0)) (disk_files name st0) (map (@concat ascii) batches) /\
    Forall (fun batch => 0 < Z.of_nat (length (concat batch)) < LMK_WRITE_BUF_SIZE) batches /\
    Forall2 printed (concat batches)
      (record_lines strftime_local fn time_at (enqueued tr) ts_start (fl_time_calls st0)).
Proof.
  unfold lmk_file_log_handler_init in Hinit.
  destruct (ring_handler_init_start env (file_open can_open st0) Hsize) as (k & Hk & _ & _ & Hstart).
  rewrite Hstart in Hinit.
  destruct (env_alloc_ok env), (env_thread_ok env); simpl in Hinit; simplify_eq.
  destruct (quiescent_drained (H := file_sink can_open strftime_local time_at) k (file_open can_open st0) tr s Hk Hlen Hrun Hparked Hidle)
    as (_ & (ops & Hsink & Hops & Hlast & Hfin) & _).
  rewrite Hsink, <- Hops in *. by apply file_run_batches.
Qed.

(** ** Witnesses *)

Definition ex_open (_ : string) : bool := true.
Definition ex_strftime (_ : Z) : list ascii := chars "2026-01-01 12:00:00".
Definition ex_time (n : nat) : Z := 1767268800 + Z.of_nat n.

Definition ex_file (max_file_size : Z) : file_state :=
  mk_file_state (Some "a.log") None max_file_size 2 0 (Some lmk_simple_format)
    (replicate (Z.to_nat LMK_WRITE_BUF_SIZE) NUL) 0 ts_start 0
    (<["a.log.1" := chars "older"]> (<["a.log" := chars "old"]> ∅)).

Lemma ex_short_paths : short_paths "a.log" 2.
Proof.
  intros i Hi. assert (i = 1%nat \/ i = 2%nat) as [->| ->] by lia; by apply (bool_decide_unpack _); vm_compute.
Qed.

Lemma ex_fresh max_file_size : max_file_size <= 2 ^ 62 -> file_fresh "a.log" lmk_simple_format (ex_file max_file_size).
Proof.
  intros Hmax. unfold file_fresh, ex_file.
  cbn [fl_filename fl_log_fp fl_format_fn fl_wbuf fl_wpos fl_ts fl_max_backup_files fl_max_file_size fl_fs default].
  rewrite length_replicate, Z2Nat.id by (unfold LMK_WRITE_BUF_SIZE; lia).
  split_and!; [reflexivity..|apply ex_short_paths|exact Hmax|by vm_compute].
Qed.

(** Any line of these records has between 30 and 50 bytes. *)
Lemma ex_printable_short reqs : (forall req, req ∈ reqs -> (length (v_text req) <= 3)%nat) ->
  printable ex_strftime lmk_simple_format reqs.
Proof.
  intros Hshort req now ts Hreq Hts. specialize (Hshort req Hreq).
  assert (length (ts_text (ts_refresh ex_strftime now ts)) <= 19)%nat as Hlen.
  { destruct (ts_ok_refresh ex_strftime now ts Hts) as [->| ->]; simpl; lia. }
  unfold line_text, INT_MAX. simpl. unfold simple_text, fmt_s5.
  rewrite !length_app, length_replicate. simpl.
  assert (length (chars (lmk_get_log_level_str (v_log_level req))) <= 7)%nat.
  { unfold lmk_get_log_level_str. destruct (_ && _); [|simpl; lia].
    destruct (Z.to_nat (v_log_level req)) as [|[|[|[|[|[|[|n]]]]]]]; simpl; try lia. destruct n; simpl; lia. }
  lia.
Qed.

Abbreviation ex_sink := (file_sink ex_open ex_strftime ex_time).

Definition ex_view (c : ascii) : log_view := mk_log_view 2 10 "main.c" "h" [c; c; c].
Definition ex_ops : list sink_op := [OpProcess (ex_view "a"); OpProcess (ex_view "b"); OpIdle].

Lemma ex_ops_printable : printable ex_strftime lmk_simple_format (processed ex_ops).
Proof.
  apply ex_printable_short. intros req Hreq. unfold processed, ex_ops in Hreq. simpl in Hreq.
  repeat (apply elem_of_cons in Hreq as [->|Hreq]; [simpl; lia|]). by apply not_elem_of_nil in Hreq.
Qed.

Lemma ex_ops_running : OpFinish ∉ ex_ops.
Proof. unfold ex_ops. rewrite !elem_of_cons, elem_of_nil. intros [|[|[|]]]; done. Qed.

Lemma file_log_keeps_recent_lines_witness :
  let st := file_open ex_open (ex_file 0) in
  let st' := sink_replay (H := ex_sink) ex_ops st in
  contents (fl_fs st') "a.log" =
    chars "old2026-01-01 12:00:00 [INFO ] aaa" ++ NEWLINE :: chars "2026-01-01 12:00:00 [INFO ] bbb" ++ [NEWLINE] /\
  exists kept lost, lost ++ all_text (files_of "a.log" st') ++ staged st' =
    all_text (files_of "a.log" st) ++ concat kept /\ (fl_max_file_size st <= 0 -> lost = []).
Proof.
  destruct (file_open_ok ex_open "a.log" lmk_simple_format (ex_file 0) eq_refl (ex_fresh 0 ltac:(lia)))
    as (Hok & Hsize & Hpend & Hpos & Hts & _).
  split; [by vm_compute|].
  destruct (file_log_keeps_recent_lines ex_open ex_strftime ex_time "a.log" lmk_simple_format
    simple_format_fn ex_ops (file_open ex_open (ex_file 0)) eq_refl Hok (or_introl Hpend) Hpos (or_introl Hts)
    ex_ops_printable Hsize ex_ops_running) as (kept & lost & _ & Hlost).
  by exists kept, lost.
Defined.

Lemma rotation_shifts_backups_witness :
  let st := file_open ex_open (ex_file 0) in
  let st' := lmk_rotate_log_file ex_open "a.log" st in
  map (option_map str) (slots "a.log" (fl_fs st') 2) = [Some "old"; Some "older"]%string /\
  slots "a.log" (fl_fs st') 2 = push (Some (contents (fl_fs st) "a.log" ++ [])) (slots "a.log" (fl_fs st) 2).
Proof.
  split; [by vm_compute|].
  destruct (rotation_shifts_backups ex_open "a.log" (file_open ex_open (ex_file 0)) (mk_stream "a.log" [])
    eq_refl eq_refl ex_short_paths) as (H & _). exact H.
Defined.

Lemma rotation_bounds_log_size_witness :
  let st := file_open ex_open (ex_file 40) in
  let st' := sink_replay (H := ex_sink) ex_ops st in
  fl_fs st' !! "a.log.2" = Some (chars "older") /\
  (log_bytes "a.log" st' = log_bytes "a.log" st \/ Z.of_nat (length (log_bytes "a.log" st')) < 40).
Proof.
  destruct (file_open_ok ex_open "a.log" lmk_simple_format (ex_file 40) eq_refl (ex_fresh 40 ltac:(lia)))
    as (Hok & Hsize & Hpend & Hpos & Hts & _).
  split; [by vm_compute|].
  refine (proj1 (rotation_bounds_log_size ex_open ex_strftime ex_time "a.log" lmk_simple_format
    simple_format_fn ex_ops (file_open ex_open (ex_file 40)) eq_refl Hok (or_introl Hpend) Hpos (or_introl Hts)
    ex_ops_printable Hsize _ ex_ops_running)).
  vm_compute. reflexivity.
Defined.

Lemma long_names_share_one_backup_witness :
  backup_path (str (replicate 511 "x"%char)) 1 = backup_path (str (replicate 511 "x"%char)) 2.
Proof.
  refine (proj1 (long_names_share_one_backup (str (replicate 511 "x"%char)) 1 2 _)).
  apply (bool_decide_unpack _). by vm_compute.
Defined.

Definition ex_machine : handler_state file_state := handler_start 1 (file_open ex_open (ex_file 0)).

Abbreviation ex_play acts := (handler_schedule (H := ex_sink) 1 ex_machine acts).

Lemma file_handler_persists_accepted_records_witness :
  contents (fl_fs (hs_sink (ex_play drained_schedule).2)) "a.log" =
    chars "old2026-01-01 12:00:00 [INFO ] aaa" ++ [NEWLINE] /\
  exists batches, disk_files "a.log" (hs_sink (ex_play drained_schedule).2) =
    foldl (write_batch 0) (disk_files "a.log" (ex_file 0)) (map (@concat ascii) batches).
Proof.
  split; [by vm_compute|].
  destruct (file_handler_persists_accepted_records ex_open ex_strftime ex_time "a.log" lmk_simple_format
    simple_format_fn (mk_init_env 2 true true) (ex_file 0) (file_open ex_open (ex_file 0)) 1 ex_machine
    (ex_play drained_schedule).2 (ex_play drained_schedule).1
    eq_refl (ex_fresh 0 ltac:(lia)) ltac:(by vm_compute) eq_refl ltac:(by vm_compute)
    (handler_schedule_run _ _ _) ltac:(by vm_compute) ltac:(by vm_compute)) as (batches & H & _).
  - apply ex_printable_short. intros req Hreq. vm_compute in Hreq.
    apply elem_of_cons in Hreq as [->|Hreq]; [simpl; lia|]. by apply not_elem_of_nil in Hreq.
  - exact (ex_intro _ batches H).
Defined.
