(* ===== verification/ConsoleHandler.v ===== *)
(** The console handler ([logmoko_console_log_handler.c]): every record becomes a
    formatted line between the escape sequences of its level's colour, on the
    buffered standard output; the idle flush makes it visible. *)
From S2P Require Import Prelude Types Ring RingMachine AsyncHandler AsyncSafety AsyncTheorems AsyncInit Format.
Local Open Scope Z_scope.

(** ** Colours *)

Definition ESC : ascii := ascii_of_nat 27.
Definition ANSI_RESET : list ascii := ESC :: chars "[0m".
Definition ANSI_GRAY : list ascii := ESC :: chars "[2;37m".
Definition ANSI_CYAN : list ascii := ESC :: chars "[0;36m".
Definition ANSI_WHITE : list ascii := ESC :: chars "[0;37m".
Definition ANSI_YELLOW : list ascii := ESC :: chars "[0;33m".
Definition ANSI_RED : list ascii := ESC :: chars "[0;31m".

Definition lmk_console_level_color (level : Z) : list ascii :=
  if level =? LMK_LOG_LEVEL_TRACE then ANSI_GRAY
  else if level =? LMK_LOG_LEVEL_DEBUG then ANSI_CYAN
  else if level =? LMK_LOG_LEVEL_INFO then ANSI_WHITE
  else if level =? LMK_LOG_LEVEL_WARN then ANSI_YELLOW
  else if level =? LMK_LOG_LEVEL_ERROR then ANSI_RED
  else ANSI_RESET.

(** ** The sink *)

(** The local buffer [out] of the thread routine, its timestamp cache, and
    standard output: what is still in its buffer, what the terminal shows. *)
Record console_state := mk_console_state {
  cl_format_fn : option lmk_format_fn;
  cl_out : list ascii;
  cl_ts : ts_cache;
  cl_time_calls : nat;
  cl_pending : list ascii;
  cl_terminal : list ascii
}.

Definition CONSOLE_OUT_SIZE : Z := LMK_LOG_MSG_MAX_SIZE + 512.

Definition fputs (s : list ascii) (st : console_state) : console_state :=
  mk_console_state (cl_format_fn st) (cl_out st) (cl_ts st) (cl_time_calls st) (cl_pending st ++ cstr s)
    (cl_terminal st).

Definition fflush_stdout (st : console_state) : console_state :=
  mk_console_state (cl_format_fn st) (cl_out st) (cl_ts st) (cl_time_calls st) []
    (cl_terminal st ++ cl_pending st).

Section console_handler.
Context (strftime_local : Z -> list ascii) (time_at : nat -> Z).

Definition console_process (req : log_view) (st : console_state) : console_state :=
  let '(out, _, ts) := lmk_format_log_line strftime_local (cl_format_fn st) (time_at (cl_time_calls st))
    (cl_ts st) (cl_out st) CONSOLE_OUT_SIZE req in
  let st := mk_console_state (cl_format_fn st) out ts (S (cl_time_calls st)) (cl_pending st) (cl_terminal st) in
  let st := fputs (lmk_console_level_color (v_log_level req)) st in
  let st := fputs (cl_out st) st in
  fputs ANSI_RESET st.

#[local] Instance console_sink : Sink console_state := {
  sink_process := console_process;
  sink_idle := fflush_stdout;
  sink_finish := id
}.

Definition lmk_console_log_handler_thread_routine := consumer_step (St := console_state).
Definition lmk_console_log_handler_log_impl := log_impl_step (St := console_state).
Definition lmk_console_log_handler_init := ring_handler_init (St := console_state).

(** What [lmk_console_log_handler_destroy] reports after the join. *)
Definition lmk_console_log_handler_destroy (s : handler_state console_state) : option (Z * Z) :=
  if hs_dropped s =? 0 then None else Some (hs_dropped s, hs_nr_log_calls s).

(** ** What the terminal shows *)

Context (fn : lmk_format_fn) `{!FormatFn fn}.

(** A record as it appears: colour, the line cut to the buffer, reset. *)
Definition console_line (now : Z) (ts : ts_cache) (req : log_view) : list ascii :=
  lmk_console_level_color (v_log_level req) ++
  cstr (take (Z.to_nat (CONSOLE_OUT_SIZE - 1)) (line_text strftime_local fn now ts req)) ++ ANSI_RESET.

Definition console_ok (st : console_state) : Prop :=
  default lmk_default_format (cl_format_fn st) = fn /\
  Z.of_nat (length (cl_out st)) = CONSOLE_OUT_SIZE.

(** The lines of a sequence of sink operations, with the times at which they are formatted. *)
Fixpoint console_lines (reqs : list log_view) (ts : ts_cache) (calls : nat) : list ascii :=
  match reqs with
  | [] => []
  | req :: reqs' =>
      console_line (time_at calls) ts req ++
      console_lines reqs' (ts_refresh strftime_local (time_at calls) ts) (S calls)
  end.

Lemma color_is_cstr level : cstr (lmk_console_level_color level) = lmk_console_level_color level.
Proof. unfold lmk_console_level_color. by repeat case_match. Qed.

Lemma length_lmk_format_log_line now ts out size req :
  0 < size <= Z.of_nat (length out) ->
  let '(out', _, ts') := lmk_format_log_line strftime_local (Some fn) now ts out size req in
  length out' = length out /\
  cstr out' = cstr (take (Z.to_nat (size - 1)) (line_text strftime_local fn now ts req)) /\
  ts' = ts_refresh strftime_local now ts.
Proof.
  intros Hsize. unfold lmk_format_log_line. simpl. rewrite fmt_prints by done.
  fold (line_text strftime_local fn now ts req).
  pose proof (length_snprintf out size (line_text strftime_local fn now ts req) Hsize) as Hl.
  pose proof (snprintf_terminated out size (line_text strftime_local fn now ts req) ltac:(lia)) as Ht.
  by destruct (snprintf out size (line_text strftime_local fn now ts req)).
Qed.

Lemma console_process_spec req st : console_ok st ->
  let st' := console_process req st in
  console_ok st' /\ cl_ts st' = ts_refresh strftime_local (time_at (cl_time_calls st)) (cl_ts st) /\
  cl_time_calls st' = S (cl_time_calls st) /\ cl_terminal st' = cl_terminal st /\
  cl_pending st' = cl_pending st ++ console_line (time_at (cl_time_calls st)) (cl_ts st) req.
Proof.
  intros [Hfmt Hout]. cbv zeta. unfold console_process.
  change (lmk_format_log_line strftime_local (cl_format_fn st)) with
    (lmk_format_log_line strftime_local (Some (default lmk_default_format (cl_format_fn st)))).
  rewrite Hfmt.
  pose proof (length_lmk_format_log_line (time_at (cl_time_calls st)) (cl_ts st) (cl_out st) CONSOLE_OUT_SIZE req)
    as Hline.
  destruct (lmk_format_log_line _ _ _ _ _ _ _) as [[out n] ts'].
  destruct Hline as (Hl & Hc & ->); [unfold CONSOLE_OUT_SIZE, LMK_LOG_MSG_MAX_SIZE in *; lia|].
  unfold console_ok. simpl. rewrite color_is_cstr, Hc, Hl. split_and!; try done.
  unfold console_line. by rewrite <- !app_assoc.
Qed.

Lemma console_lines_snoc reqs req ts calls :
  exists now ts', console_lines (reqs ++ [req]) ts calls = console_lines reqs ts calls ++ console_line now ts' req /\
    now = time_at (length reqs + calls)%nat /\
    ts' = foldl (fun t i => ts_refresh strftime_local (time_at i) t) ts (seq calls (length reqs)).
Proof.
  revert ts calls. induction reqs as [|r reqs IH]; intros ts calls; simpl.
  - do 2 eexists. by rewrite app_nil_r.
  - destruct (IH (ts_refresh strftime_local (time_at calls) ts) (S calls)) as (now & ts' & Heq & -> & ->).
    do 2 eexists. rewrite Heq, <- app_assoc. split_and!; [done|f_equal; lia|done].
Qed.

Lemma console_replay_spec ops st : console_ok st ->
  let st' := sink_replay ops st in
  console_ok st' /\ cl_time_calls st' = (length (processed ops) + cl_time_calls st)%nat /\
  cl_ts st' = foldl (fun t i => ts_refresh strftime_local (time_at i) t) (cl_ts st)
    (seq (cl_time_calls st) (length (processed ops))) /\
  cl_terminal st' ++ cl_pending st' =
    cl_terminal st ++ cl_pending st ++ console_lines (processed ops) (cl_ts st) (cl_time_calls st) /\
  (last ops = Some OpIdle -> cl_pending st' = []).
Proof.
  intros Hok. cbv zeta. induction ops as [|op ops IH] using rev_ind.
  { split_and!; try done. simpl. by rewrite app_nil_r. }
  destruct IH as (Hok1 & Hcalls & Hts & Hshown & _). rewrite sink_replay_snoc, processed_snoc.
  set (st1 := sink_replay ops st) in *. destruct op as [req| |]; simpl.
  - destruct (console_process_spec req st1 Hok1) as (Hok2 & Hts2 & Hcalls2 & Hterm & Hpend).
    destruct (console_lines_snoc (processed ops) req (cl_ts st) (cl_time_calls st)) as (now & ts' & Heq & -> & ->).
    rewrite length_app. simpl. rewrite Nat.add_1_r, seq_S, foldl_app. simpl.
    split_and!; [done|lia| | |by rewrite last_snoc].
    + rewrite Hts2, Hts, Hcalls. f_equal. f_equal. lia.
    + rewrite Hterm, Hpend, app_assoc, Hshown, Heq, Hts, Hcalls. by rewrite <- !app_assoc.
  - rewrite app_nil_r. split_and!; try done. simpl. by rewrite app_nil_r.
  - rewrite app_nil_r. split_and!; try done. intros Hl. by rewrite last_snoc in Hl.
Qed.
End console_handler.

(** ** Theorems *)

(** The terminal shows every accepted record: once the consumer sleeps and no
    log call is in progress, what was printed is, in order of acceptance, each
    record's line cut to the line buffer, in its level's colour, and nothing is
    left in the output buffer. *)
Theorem console_shows_accepted_records (strftime_local : Z -> list ascii) (time_at : nat -> Z)
    (fn : lmk_format_fn) `(!FormatFn fn) (env : init_env) (st : console_state) (mask : Z)
    (s0 s : handler_state console_state) (tr : list ring_event)
    (Hok : console_ok fn st) (Hsize : 0 <= env_ring_buffer_size env < 2 ^ 32)
    (Hinit : lmk_console_log_handler_init env st = InitOk mask s0)
    (Hlen : Z.of_nat (length tr) <= 2 ^ 62)
    (Hrun : run (handler_step (H := console_sink strftime_local time_at) mask) s0 tr s)
    (Hparked : hs_cons s = KParked) (Hidle : hs_prods s = ∅) :
  cl_terminal (hs_sink s) = cl_terminal st ++ cl_pending st ++
    console_lines strftime_local time_at fn (enqueued tr) (cl_ts st) (cl_time_calls st) /\
  cl_pending (hs_sink s) = [].
Proof.
  unfold lmk_console_log_handler_init in Hinit.
  destruct (ring_handler_init_start env st Hsize) as (k & Hk & _ & _ & Hstart).
  rewrite Hstart in Hinit.
  destruct (env_alloc_ok env), (env_thread_ok env); simpl in Hinit; simplify_eq.
  destruct (quiescent_drained (H := console_sink strftime_local time_at) k st tr s Hk Hlen Hrun Hparked Hidle)
    as (_ & (ops & Hsink & Hops & Hlast & _) & _).
  destruct (console_replay_spec strftime_local time_at fn ops st Hok) as (_ & _ & _ & Hshown & Hflush).
  specialize (Hflush Hlast). rewrite Hsink. rewrite Hflush, app_nil_r, Hops in Hshown. done.
Qed.

(** ** Witnesses *)

Definition ex_console : console_state :=
  mk_console_state None (replicate (Z.to_nat CONSOLE_OUT_SIZE) NUL) ts_start 0 [] [].

Definition ex_console_time (n : nat) : Z := 100.
Definition ex_console_strftime (now : Z) : list ascii := chars "12:00:00".

Abbreviation ex_console_play acts :=
  (handler_schedule (H := console_sink ex_console_strftime ex_console_time) 1 (handler_start 1 ex_console) acts).

Lemma console_shows_accepted_records_witness :
  cl_terminal (hs_sink (ex_console_play drained_schedule).2) =
    ANSI_WHITE ++ chars "[INFO  12:00:00 (main.c:10) h] : aaa" ++ NEWLINE :: ANSI_RESET /\
  cl_terminal (hs_sink (ex_console_play drained_schedule).2) =
    console_lines ex_console_strftime ex_console_time lmk_default_format
      (enqueued (ex_console_play drained_schedule).1) ts_start 0.
Proof.
  split; [by vm_compute|].
  refine (proj1 (console_shows_accepted_records ex_console_strftime ex_console_time lmk_default_format
    default_format_fn (mk_init_env 2 true true) ex_console 1 (handler_start 1 ex_console) _ _ _ _ _ _
    (handler_schedule_run _ _ _) _ _)).
  - split; [reflexivity|by vm_compute].
  - by vm_compute.
  - reflexivity.
  - by vm_compute.
  - by vm_compute.
  - by vm_compute.
Defined.
