(* ===== verification/SyslogHandler.v ===== *)
(** The syslog handler ([logmoko_syslog_log_handler.c]): levels and facility names
    are mapped to the codes of [syslog.h], and every record becomes one message
    of the system log. *)
From S2P Require Import Prelude Types Ring RingMachine AsyncHandler AsyncSafety AsyncTheorems AsyncInit Format.
Local Open Scope Z_scope.

(** ** [syslog.h] *)

Definition LOG_ERR : Z := 3.
Definition LOG_WARNING : Z := 4.
Definition LOG_INFO : Z := 6.
Definition LOG_DEBUG : Z := 7.
Definition LOG_USER : Z := Z.shiftl 1 3.
Definition LOG_DAEMON : Z := Z.shiftl 3 3.
Definition LOG_LOCAL (n : Z) : Z := Z.shiftl (16 + n) 3.

Definition lmk_to_syslog_priority (level : Z) : Z :=
  if level =? LMK_LOG_LEVEL_TRACE then LOG_DEBUG
  else if level =? LMK_LOG_LEVEL_DEBUG then LOG_DEBUG
  else if level =? LMK_LOG_LEVEL_INFO then LOG_INFO
  else if level =? LMK_LOG_LEVEL_WARN then LOG_WARNING
  else if level =? LMK_LOG_LEVEL_ERROR then LOG_ERR
  else LOG_INFO.

Definition lmk_parse_syslog_facility (s : option string) : Z :=
  match s with
  | None => LOG_USER
  | Some s =>
      if strcaseeq s "user" then LOG_USER
      else if strcaseeq s "daemon" then LOG_DAEMON
      else if strcaseeq s "local0" then LOG_LOCAL 0
      else if strcaseeq s "local1" then LOG_LOCAL 1
      else if strcaseeq s "local2" then LOG_LOCAL 2
      else if strcaseeq s "local3" then LOG_LOCAL 3
      else if strcaseeq s "local4" then LOG_LOCAL 4
      else if strcaseeq s "local5" then LOG_LOCAL 5
      else if strcaseeq s "local6" then LOG_LOCAL 6
      else if strcaseeq s "local7" then LOG_LOCAL 7
      else LOG_USER
  end.

(** ** The sink *)

(** The connection ([openlog]'s identity and facility, or none) and the messages
    sent so far, as priority and text. *)
Record syslog_state := mk_syslog_state {
  sy_ident : string;
  sy_facility : Z;
  sy_open : option (option string * Z);
  sy_messages : list (Z * list ascii)
}.

Definition IDENT_SIZE : Z := 64.

Definition syslog (priority : Z) (text : list ascii) (st : syslog_state) : syslog_state :=
  mk_syslog_state (sy_ident st) (sy_facility st) (sy_open st) (sy_messages st ++ [(priority, text)]).

Definition with_open (st : syslog_state) (o : option (option string * Z)) : syslog_state :=
  mk_syslog_state (sy_ident st) (sy_facility st) o (sy_messages st).

(** ["[%s] (%s:%d) %s"]. *)
Definition syslog_text (req : log_view) : list ascii :=
  chars "[" ++ chars (lmk_get_log_level_str (v_log_level req)) ++ chars "] (" ++
  chars (v_file_name req) ++ chars ":" ++ fmt_d (v_line_no req) ++ chars ") " ++ v_text req.

Definition syslog_process (req : log_view) (st : syslog_state) : syslog_state :=
  syslog (lmk_to_syslog_priority (v_log_level req)) (syslog_text req) st.

#[export] Instance syslog_sink : Sink syslog_state := {
  sink_process := syslog_process;
  sink_idle := id;
  sink_finish := id
}.

Definition lmk_syslog_log_handler_thread_routine := consumer_step (St := syslog_state).
Definition lmk_syslog_log_handler_log_impl := log_impl_step (St := syslog_state).

(** [openlog(slh->ident[0] ? slh->ident : NULL, LOG_PID, slh->facility)]. *)
Definition syslog_openlog (st : syslog_state) : syslog_state :=
  with_open st (Some (if String.eqb (sy_ident st) "" then None else Some (sy_ident st), sy_facility st)).

Definition lmk_syslog_log_handler_init (env : init_env) (st : syslog_state) :
    init_result syslog_state * syslog_state :=
  let st := syslog_openlog st in
  match ring_handler_init env st with
  | InitOk mask s => (InitOk mask s, st)
  | InitNoRing => (InitNoRing, with_open st None)
  | InitNoThread => (InitNoThread, with_open st None)
  end.

(** After the join: the connection is closed; the drop report. *)
Definition lmk_syslog_log_handler_destroy (s : handler_state syslog_state) : syslog_state * option (Z * Z) :=
  (with_open (hs_sink s) None,
   if hs_dropped s =? 0 then None else Some (hs_dropped s, hs_nr_log_calls s)).

Definition syslog_message (req : log_view) : Z * list ascii :=
  (lmk_to_syslog_priority (v_log_level req), syslog_text req).

Lemma syslog_replay_messages ops st :
  sy_messages (sink_replay ops st) = sy_messages st ++ map syslog_message (processed ops) /\
  sy_open (sink_replay ops st) = sy_open st.
Proof.
  induction ops as [|op ops [IH1 IH2]] using rev_ind; [by rewrite app_nil_r|].
  rewrite sink_replay_snoc, processed_snoc, map_app, app_assoc, <- IH1.
  destruct op; simpl; by rewrite ?app_nil_r, <- ?IH2.
Qed.

(** ** Theorems *)

(** Every accepted record is sent to the system log: once the consumer sleeps and
    no log call is in progress, the messages sent are those of the accepted
    records, in order, on the connection [init] opened. *)
Theorem syslog_sends_accepted_records (env : init_env) (st st1 : syslog_state) (mask : Z)
    (s0 s : handler_state syslog_state) (tr : list ring_event)
    (Hsize : 0 <= env_ring_buffer_size env < 2 ^ 32)
    (Hinit : lmk_syslog_log_handler_init env st = (InitOk mask s0, st1))
    (Hlen : Z.of_nat (length tr) <= 2 ^ 62)
    (Hrun : run (handler_step mask) s0 tr s)
    (Hparked : hs_cons s = KParked) (Hidle : hs_prods s = ∅) :
  sy_messages (hs_sink s) = sy_messages st ++ map syslog_message (enqueued tr) /\
  sy_open (hs_sink s) = sy_open st1.
Proof.
  unfold lmk_syslog_log_handler_init in Hinit.
  destruct (ring_handler_init_start env (syslog_openlog st) Hsize) as (k & Hk & _ & _ & Hstart).
  rewrite Hstart in Hinit.
  destruct (env_alloc_ok env), (env_thread_ok env); simpl in Hinit; simplify_eq.
  destruct (quiescent_drained k (syslog_openlog st) tr s Hk Hlen Hrun Hparked Hidle)
    as (_ & (ops & Hsink & Hops & Hlast) & _).
  rewrite Hsink, <- Hops. apply (syslog_replay_messages ops (syslog_openlog st)).
Qed.

(** The codes are well chosen: a more severe level never gets a less urgent
    priority, and any text at all is mapped to one of the ten facilities, by
    name and without regard to case. *)
Theorem syslog_codes_valid :
  (forall a b, LMK_IS_VALID_LOG_LEVEL a = true -> a <= b < LMK_LOG_LEVEL_OFF ->
     LOG_ERR <= lmk_to_syslog_priority b <= lmk_to_syslog_priority a /\
     lmk_to_syslog_priority a <= LOG_DEBUG) /\
  (forall s, lmk_parse_syslog_facility s ∈
     [LOG_USER; LOG_DAEMON; LOG_LOCAL 0; LOG_LOCAL 1; LOG_LOCAL 2; LOG_LOCAL 3; LOG_LOCAL 4;
      LOG_LOCAL 5; LOG_LOCAL 6; LOG_LOCAL 7]) /\
  (forall s s', map tolower (chars s) = map tolower (chars s') ->
     lmk_parse_syslog_facility (Some s) = lmk_parse_syslog_facility (Some s')).
Proof.
  split_and!.
  - intros a b Ha Hb. unfold LMK_IS_VALID_LOG_LEVEL, LMK_LOG_LEVEL_TRACE, LMK_LOG_LEVEL_OFF in *.
    assert (0 <= a <= 4 /\ 0 <= b <= 4) as [Ha' Hb'] by lia.
    assert (a = 0 \/ a = 1 \/ a = 2 \/ a = 3 \/ a = 4) as Hca by lia.
    assert (b = 0 \/ b = 1 \/ b = 2 \/ b = 3 \/ b = 4) as Hcb by lia.
    destruct_or! Hca; destruct_or! Hcb; subst; try lia; by vm_compute.
  - intros s. unfold lmk_parse_syslog_facility. destruct s; repeat case_match; set_solver.
  - intros s s' Heq. unfold lmk_parse_syslog_facility, strcaseeq. by rewrite Heq.
Qed.

(** ** Witnesses *)

Definition ex_syslog : syslog_state := mk_syslog_state "demo" LOG_DAEMON None [].

Abbreviation ex_syslog_play acts :=
  (handler_schedule 1 (handler_start 1 (syslog_openlog ex_syslog)) acts).

Lemma syslog_sends_accepted_records_witness :
  sy_messages (hs_sink (ex_syslog_play drained_schedule).2) = [(LOG_INFO, chars "[INFO] (main.c:10) aaa")] /\
  sy_messages (hs_sink (ex_syslog_play drained_schedule).2) =
    map syslog_message (enqueued (ex_syslog_play drained_schedule).1).
Proof.
  split; [by vm_compute|].
  refine (proj1 (syslog_sends_accepted_records (mk_init_env 2 true true) ex_syslog _ 1
    (handler_start 1 (syslog_openlog ex_syslog)) _ _ _ _ _ (handler_schedule_run _ _ _) _ _)).
  - by vm_compute.
  - reflexivity.
  - by vm_compute.
  - by vm_compute.
  - by vm_compute.
Defined.
