(* ===== verification/Crypto.v ===== *)
(** Packet encryption ([logmoko_encryption.c]).  OpenSSL is the parameter [Evp]: its
    cipher-context calls, each of which may fail, with the documented behaviour
    of AES-256-GCM as the laws [EvpLaws]. *)
From S2P Require Import Prelude.
Local Open Scope Z_scope.

Abbreviation bytes := (list ascii).

Definition CRYPTO_KEY_LEN : nat := 32.
Definition CRYPTO_IV_LEN : nat := 12.
Definition CRYPTO_TAG_LEN : nat := 16.
Definition CRYPTO_OVERHEAD : nat := CRYPTO_IV_LEN + CRYPTO_TAG_LEN.

(** ** OpenSSL *)

(** The calls the code makes on an [EVP_CIPHER_CTX]; [None] is any result but 1.
    [update] and [final] return the bytes they store. *)
Class Evp (ctx : Type) := {
  RAND_bytes : nat -> option bytes;  (* the n-th request for an IV *)
  SHA256 : bytes -> bytes;
  EVP_CIPHER_CTX_reset : ctx -> ctx;
  EVP_EncryptInit : ctx -> bytes -> bytes -> option ctx;
  EVP_EncryptUpdate : ctx -> bytes -> option (ctx * bytes);
  EVP_EncryptFinal : ctx -> option (ctx * bytes);
  EVP_CTRL_GET_TAG : ctx -> option (ctx * bytes);
  EVP_DecryptInit : ctx -> bytes -> bytes -> option ctx;
  EVP_DecryptUpdate : ctx -> bytes -> option (ctx * bytes);
  EVP_CTRL_SET_TAG : ctx -> bytes -> option ctx;
  EVP_DecryptFinal : ctx -> option (ctx * bytes)
}.

(** AES-256-GCM: ciphertexts are as long as plaintexts, tags have the length asked
    for, IVs too; and a decryption under the same key and IV with the tag of the
    encryption succeeds and restores the plaintext. *)
Class EvpLaws (ctx : Type) `{Evp ctx} := {
  rand_length n iv : RAND_bytes n = Some iv -> length iv = CRYPTO_IV_LEN;
  sha256_length m : length (SHA256 m) = CRYPTO_KEY_LEN;
  gcm_lengths c key iv plain c1 c2 ct1 c3 ct2 c4 tag :
    EVP_EncryptInit c key iv = Some c1 -> EVP_EncryptUpdate c1 plain = Some (c2, ct1) ->
    EVP_EncryptFinal c2 = Some (c3, ct2) -> EVP_CTRL_GET_TAG c3 = Some (c4, tag) ->
    length (ct1 ++ ct2) = length plain /\ length tag = CRYPTO_TAG_LEN;
  gcm_inverse c key iv plain c1 c2 ct1 c3 ct2 c4 tag d :
    EVP_EncryptInit c key iv = Some c1 -> EVP_EncryptUpdate c1 plain = Some (c2, ct1) ->
    EVP_EncryptFinal c2 = Some (c3, ct2) -> EVP_CTRL_GET_TAG c3 = Some (c4, tag) ->
    exists d1 d2 p1 d3 d4 p2,
      EVP_DecryptInit d key iv = Some d1 /\ EVP_DecryptUpdate d1 (ct1 ++ ct2) = Some (d2, p1) /\
      EVP_CTRL_SET_TAG d2 tag = Some d3 /\ EVP_DecryptFinal d3 = Some (d4, p2) /\ p1 ++ p2 = plain
}.

(** ** Buffers *)

(** Stores bytes at an offset of a buffer. *)
Definition write_at (off : nat) (bs buf : bytes) : bytes :=
  take off buf ++ bs ++ drop (off + length bs) buf.

Lemma length_write_at off bs buf : (off + length bs <= length buf)%nat ->
  length (write_at off bs buf) = length buf.
Proof. intros Hl. unfold write_at. rewrite !length_app, length_take, length_drop. lia. Qed.

(** A store right after a known prefix extends it. *)
Lemma take_write_at off bs buf : (off <= length buf)%nat ->
  take (off + length bs) (write_at off bs buf) = take off buf ++ bs.
Proof.
  intros Hl. unfold write_at. rewrite app_assoc, take_app_le.
  - apply take_ge. rewrite length_app, length_take. lia.
  - rewrite length_app, length_take. lia.
Qed.

Section crypto.
Context {ctx : Type} `{Evp ctx}.

(** [derive_key]: the SHA-256 of the preshared key's C string. *)
Definition derive_key (psk : string) : bytes := SHA256 (chars psk).

(** [encrypt_packet]: the context, the output buffer and the length of the packet,
    or [-1]. *)
Definition encrypt_packet (rand : nat) (c : ctx) (key plain out : bytes) : ctx * bytes * option nat :=
  match RAND_bytes rand with
  | None => (c, out, None)
  | Some iv =>
      match EVP_EncryptInit c key iv with
      | None => (EVP_CIPHER_CTX_reset c, out, None)
      | Some c1 =>
          match EVP_EncryptUpdate c1 plain with
          | None => (EVP_CIPHER_CTX_reset c1, out, None)
          | Some (c2, ct1) =>
              let out := write_at CRYPTO_IV_LEN ct1 out in
              match EVP_EncryptFinal c2 with
              | None => (EVP_CIPHER_CTX_reset c2, out, None)
              | Some (c3, ct2) =>
                  let out := write_at (CRYPTO_IV_LEN + length ct1) ct2 out in
                  let ciphertext_len := (length ct1 + length ct2)%nat in
                  match EVP_CTRL_GET_TAG c3 with
                  | None => (EVP_CIPHER_CTX_reset c3, out, None)
                  | Some (c4, tag) =>
                      let out := write_at (CRYPTO_IV_LEN + ciphertext_len) tag out in
                      let out := write_at 0 iv out in
                      (c4, out, Some (CRYPTO_IV_LEN + ciphertext_len + CRYPTO_TAG_LEN)%nat)
                  end
              end
          end
      end
  end.

(** [decrypt_packet] of the first [in_len] bytes of a buffer. *)
Definition decrypt_packet (c : ctx) (key inp : bytes) (in_len : nat) (out : bytes) :
    ctx * bytes * option nat :=
  if (in_len <? CRYPTO_OVERHEAD)%nat then (c, out, None)
  else
    let iv := take CRYPTO_IV_LEN inp in
    let ciphertext := take (in_len - CRYPTO_OVERHEAD) (drop CRYPTO_IV_LEN inp) in
    let tag := take CRYPTO_TAG_LEN (drop (in_len - CRYPTO_TAG_LEN) inp) in
    match EVP_DecryptInit c key iv with
    | None => (EVP_CIPHER_CTX_reset c, out, None)
    | Some c1 =>
        match EVP_DecryptUpdate c1 ciphertext with
        | None => (EVP_CIPHER_CTX_reset c1, out, None)
        | Some (c2, p1) =>
            let out := write_at 0 p1 out in
            match EVP_CTRL_SET_TAG c2 tag with
            | None => (EVP_CIPHER_CTX_reset c2, out, None)
            | Some c3 =>
                match EVP_DecryptFinal c3 with
                | None => (EVP_CIPHER_CTX_reset c3, out, None)
                | Some (c4, p2) => (c4, write_at (length p1) p2 out, Some (length p1 + length p2)%nat)
                end
            end
        end
    end.

Context `{!EvpLaws ctx}.

#[local] Opaque CRYPTO_IV_LEN CRYPTO_TAG_LEN.

(** What a successful encryption leaves in the buffer. *)
Lemma encrypt_packet_ok rand c key plain out c' out' n :
  (length plain + CRYPTO_OVERHEAD <= length out)%nat ->
  encrypt_packet rand c key plain out = (c', out', Some n) ->
  exists iv ct tag, n = (length plain + CRYPTO_OVERHEAD)%nat /\ take n out' = iv ++ ct ++ tag /\
    length out' = length out /\ length iv = CRYPTO_IV_LEN /\ length ct = length plain /\
    length tag = CRYPTO_TAG_LEN /\
    (forall d, exists d1 d2 p1 d3 d4 p2,
      EVP_DecryptInit d key iv = Some d1 /\ EVP_DecryptUpdate d1 ct = Some (d2, p1) /\
      EVP_CTRL_SET_TAG d2 tag = Some d3 /\ EVP_DecryptFinal d3 = Some (d4, p2) /\ p1 ++ p2 = plain).
Proof.
  intros Hroom Henc. unfold encrypt_packet in Henc.
  destruct (RAND_bytes rand) as [iv|] eqn:Hiv; [|done]. apply rand_length in Hiv.
  destruct (EVP_EncryptInit c key iv) as [c1|] eqn:H1; [|done].
  destruct (EVP_EncryptUpdate c1 plain) as [[c2 ct1]|] eqn:H2; [|done].
  destruct (EVP_EncryptFinal c2) as [[c3 ct2]|] eqn:H3; [|done].
  destruct (EVP_CTRL_GET_TAG c3) as [[c4 tag]|] eqn:H4; [|done].
  destruct (gcm_lengths c key iv plain c1 c2 ct1 c3 ct2 c4 tag) as [Hct Htag]; [done..|].
  injection Henc as <- <- <-. rewrite length_app in Hct.
  unfold CRYPTO_OVERHEAD in *.
  exists iv, (ct1 ++ ct2), tag. rewrite length_app.
  set (o1 := write_at CRYPTO_IV_LEN ct1 out). set (o2 := write_at _ ct2 o1). set (o3 := write_at _ tag o2).
  assert (length o1 = length out) as L1 by (apply length_write_at; lia).
  assert (length o2 = length out) as L2 by (unfold o2; rewrite length_write_at; lia).
  assert (length o3 = length out) as L3 by (unfold o3; rewrite length_write_at; lia).
  assert (take (CRYPTO_IV_LEN + length ct1) o1 = take CRYPTO_IV_LEN out ++ ct1) as T1
    by (apply take_write_at; lia).
  assert (take (CRYPTO_IV_LEN + length ct1 + length ct2) o2 = take CRYPTO_IV_LEN out ++ ct1 ++ ct2) as T2.
  { unfold o2. rewrite take_write_at by lia. by rewrite T1, <- app_assoc. }
  assert (take (CRYPTO_IV_LEN + (length ct1 + length ct2) + length tag) o3 =
    take CRYPTO_IV_LEN out ++ ct1 ++ ct2 ++ tag) as T3.
  { unfold o3. rewrite take_write_at by lia. by rewrite Nat.add_assoc, T2, <- !app_assoc. }
  split_and!; try done; try lia.
  - unfold write_at. rewrite take_0. simpl. rewrite take_app_ge by lia. f_equal.
    rewrite Hiv, <- Htag, <- skipn_firstn_comm, T3.
    rewrite drop_app_ge by (rewrite length_take; lia).
    rewrite length_take, Nat.min_l, Nat.sub_diag by lia. simpl. by rewrite <- app_assoc.
  - rewrite length_write_at; lia.
  - intros d. by apply (gcm_inverse c key iv plain c1 c2 ct1 c3 ct2 c4 tag d).
Qed.

Lemma decrypt_encrypted rand c key plain out c' out' n d buf rest :
  (length plain + CRYPTO_OVERHEAD <= length out)%nat -> (length plain <= length buf)%nat ->
  encrypt_packet rand c key plain out = (c', out', Some n) ->
  exists d' buf', decrypt_packet d key (take n out' ++ rest) n buf = (d', buf', Some (length plain)) /\
    take (length plain) buf' = plain /\ length buf' = length buf.
Proof.
  intros Hroom Hbuf Henc.
  destruct (encrypt_packet_ok rand c key plain out c' out' n Hroom Henc)
    as (iv & ct & tag & -> & -> & _ & Hiv & Hct & Htag & Hdec).
  destruct (Hdec d) as (d1 & d2 & p1 & d3 & d4 & p2 & H1 & H2 & H3 & H4 & Hplain).
  unfold decrypt_packet. unfold CRYPTO_OVERHEAD in *.
  destruct (Nat.ltb_spec (length plain + (CRYPTO_IV_LEN + CRYPTO_TAG_LEN)) (CRYPTO_IV_LEN + CRYPTO_TAG_LEN)); [lia|].
  rewrite <- !app_assoc.
  assert (take CRYPTO_IV_LEN (iv ++ ct ++ tag ++ rest) = iv) as ->.
  { rewrite <- Hiv. apply take_app_length. }
  replace (length plain + (CRYPTO_IV_LEN + CRYPTO_TAG_LEN) - (CRYPTO_IV_LEN + CRYPTO_TAG_LEN))%nat
    with (length ct) by lia.
  assert (drop CRYPTO_IV_LEN (iv ++ ct ++ tag ++ rest) = ct ++ tag ++ rest) as ->.
  { rewrite <- Hiv. apply drop_app_length. }
  rewrite take_app_length.
  replace (length plain + (CRYPTO_IV_LEN + CRYPTO_TAG_LEN) - CRYPTO_TAG_LEN)%nat
    with (length (iv ++ ct)) by (rewrite length_app; lia).
  rewrite (app_assoc iv ct), drop_app_length.
  assert (take CRYPTO_TAG_LEN (tag ++ rest) = tag) as -> by (rewrite <- Htag; apply take_app_length).
  rewrite H1, H2, H3, H4. rewrite <- Hplain, length_app in *.
  do 2 eexists. split; [done|]. split; [|rewrite !length_write_at; [done|lia|rewrite length_write_at; lia]].
  rewrite take_write_at by (rewrite length_write_at; lia).
  pose proof (take_write_at 0 p1 buf ltac:(lia)) as Hp. simpl in Hp. by rewrite Hp.
Qed.
End crypto.

(** ** Theorems *)

(** C18. Round trip: a packet made by [encrypt_packet] is 28 bytes longer than the
    plaintext, stays inside its buffer, and [decrypt_packet] with the same key, in
    whatever state its context is, restores exactly the plaintext. *)
Theorem packet_roundtrip {ctx : Type} `{EvpLaws ctx} (rand n : nat) (c c' d : ctx)
    (key plain out out' buf : bytes)
    (Hroom : (length plain + CRYPTO_OVERHEAD <= length out)%nat)
    (Hbuf : (length plain <= length buf)%nat)
    (Henc : encrypt_packet rand c key plain out = (c', out', Some n)) :
  n = (length plain + CRYPTO_OVERHEAD)%nat /\ length out' = length out /\
  exists d' buf', decrypt_packet d key (take n out') n buf = (d', buf', Some (length plain)) /\
    take (length plain) buf' = plain /\ length buf' = length buf.
Proof.
  destruct (encrypt_packet_ok rand c key plain out c' out' n Hroom Henc) as (iv & ct & tag & Hn & _ & Hl & _).
  split_and!; [done|done|].
  destruct (decrypt_encrypted rand c key plain out c' out' n d buf [] Hroom Hbuf Henc) as (d' & buf' & Hdec & ?).
  rewrite app_nil_r in Hdec. by exists d', buf'.
Qed.

(** A packet too short to hold an IV and a tag is refused before anything is
    read from it. *)
Theorem short_packets_rejected {ctx : Type} `{Evp ctx} (d : ctx) (key inp buf : bytes) (in_len : nat)
    (Hshort : (in_len < CRYPTO_OVERHEAD)%nat) :
  decrypt_packet d key inp in_len buf = (d, buf, None).
Proof. unfold decrypt_packet. by rewrite (proj2 (Nat.ltb_lt _ _)). Qed.

(** ** A concrete cipher *)

(** The identity cipher whose tag is cut from the key: enough to satisfy the laws
    and to tell keys apart.  The context remembers the key and the tag to check. *)
Definition toy_ctx : Type := bytes * bytes.
Definition toy_tag (key : bytes) : bytes := take CRYPTO_TAG_LEN (key ++ replicate CRYPTO_TAG_LEN "0"%char).

#[export] Instance toy_evp : Evp toy_ctx := {
  RAND_bytes := fun n => Some (replicate CRYPTO_IV_LEN (ascii_of_nat n));
  SHA256 := fun m => take CRYPTO_KEY_LEN (m ++ replicate CRYPTO_KEY_LEN "0"%char);
  EVP_CIPHER_CTX_reset := fun _ => ([], []);
  EVP_EncryptInit := fun _ key _ => Some (key, []);
  EVP_EncryptUpdate := fun c plain => Some (c, plain);
  EVP_EncryptFinal := fun c => Some (c, []);
  EVP_CTRL_GET_TAG := fun c => Some (c, toy_tag c.1);
  EVP_DecryptInit := fun _ key _ => Some (key, []);
  EVP_DecryptUpdate := fun c ct => Some (c, ct);
  EVP_CTRL_SET_TAG := fun c tag => Some (c.1, tag);
  EVP_DecryptFinal := fun c => if bool_decide (c.2 = toy_tag c.1) then Some (c, []) else None
}.

Lemma length_padded n (m : bytes) : length (take n (m ++ replicate n "0"%char)) = n.
Proof. rewrite length_take, length_app, length_replicate. lia. Qed.

#[export] Instance toy_laws : EvpLaws toy_ctx.
Proof.
  split.
  - by intros n iv [= <-].
  - intros m. apply length_padded.
  - intros c key iv plain c1 c2 ct1 c3 ct2 c4 tag [= <-] [= <- <-] [= <- <-] [= <- <-].
    rewrite app_nil_r. split; [done|]. apply length_padded.
  - intros c key iv plain c1 c2 ct1 c3 ct2 c4 tag d [= <-] [= <- <-] [= <- <-] [= <- <-].
    do 6 eexists. split_and!; [done..| |by rewrite !app_nil_r]. simpl. by rewrite bool_decide_eq_true_2.
Qed.

Definition toy_packet : toy_ctx * bytes * option nat :=
  encrypt_packet (ctx := toy_ctx) 65 ([], []) (derive_key (ctx := toy_ctx) "secret") (chars "hello")
    (replicate 40 NUL).

Lemma packet_roundtrip_witness :
  toy_packet.2 = Some 33%nat /\
  exists d' buf', decrypt_packet (ctx := toy_ctx) ([], []) (derive_key (ctx := toy_ctx) "secret")
      (take 33 toy_packet.1.2) 33 (replicate 10 NUL) = (d', buf', Some 5%nat) /\
    take 5 buf' = chars "hello".
Proof.
  split; [by vm_compute|].
  destruct (packet_roundtrip (ctx := toy_ctx) 65 33 ([], []) toy_packet.1.1 ([], [])
    (derive_key (ctx := toy_ctx) "secret") (chars "hello") (replicate 40 NUL) toy_packet.1.2
    (replicate 10 NUL)) as (_ & _ & d' & buf' & Hdec & Htake & _).
  - vm_compute. lia.
  - vm_compute. lia.
  - by vm_compute.
  - exists d', buf'. by split.
Defined.

Lemma short_packets_rejected_witness :
  decrypt_packet (ctx := toy_ctx) ([], []) [] (chars "junk") 4 [] = (([], []), [], None).
Proof. apply (short_packets_rejected (ctx := toy_ctx) ([], []) [] (chars "junk") [] 4). vm_compute. lia. Defined.
