(* ===== verification/Receiver.v ===== *)
(** The log receiver program ([logmoko_log_receiver.c]): options, set-up and the
    loop that decrypts datagrams and prints them as lines. *)
From S2P Require Import Prelude Types Format Crypto.
Local Open Scope Z_scope.

(** ** Options *)

Definition DEFAULT_PORT : Z := 9000.
Definition MAX_PACKET_SIZE : nat := 4096.

Record receiver_options := mk_receiver_options {
  ro_psk : option string;
  ro_host : string;
  ro_port : Z
}.

(** The results of [getopt] for ["p:b:l:"]: an option and its argument. *)
Fixpoint receiver_getopt (opts : list (ascii * string)) (o : receiver_options) : option receiver_options :=
  match opts with
  | [] => Some o
  | (c, arg) :: opts' =>
      if Ascii.eqb c "p"%char then receiver_getopt opts' (mk_receiver_options (Some arg) (ro_host o) (ro_port o))
      else if Ascii.eqb c "b"%char then receiver_getopt opts' (mk_receiver_options (ro_psk o) arg (ro_port o))
      else if Ascii.eqb c "l"%char then receiver_getopt opts' (mk_receiver_options (ro_psk o) (ro_host o) (atoi (chars arg)))
      else None
  end.

(** The system's answers during set-up. *)
Record receiver_env := mk_receiver_env {
  re_socket : Z;
  re_inet_pton : string -> option Z;
  re_bind : Z -> Z -> bool;   (* address, port *)
  re_ctx_new : bool
}.

Inductive receiver_exit := ReceiverFailure | ReceiverSuccess.

(** Conversion to [uint16_t], by [htons]. *)
Definition w16 (z : Z) : Z := z mod 2 ^ 16.

(** [main] up to the loop: the key, or the failure. *)
Definition receiver_setup {ctx : Type} `{Evp ctx} (env : receiver_env) (opts : list (ascii * string)) :
    bytes + receiver_exit :=
  match receiver_getopt opts (mk_receiver_options None "0.0.0.0" DEFAULT_PORT) with
  | None => inr ReceiverFailure
  | Some o =>
      match ro_psk o with
      | None => inr ReceiverFailure
      | Some psk =>
          if re_socket env <? 0 then inr ReceiverFailure
          else match re_inet_pton env (ro_host o) with
               | None => inr ReceiverFailure
               | Some addr =>
                   if negb (re_bind env addr (w16 (ro_port o))) then inr ReceiverFailure
                   else if negb (re_ctx_new env) then inr ReceiverFailure
                   else inl (derive_key psk)
               end
      end
  end.

(** ** The loop *)

Section loop.
Context {ctx : Type} `{Evp ctx}.

(** The cipher context, the two buffers, standard output and the number of
    "decrypt failed" messages. *)
Record receiver_state := mk_receiver_state {
  rv_ctx : ctx;
  rv_buf : bytes;
  rv_plain : bytes;
  rv_stdout : bytes;
  rv_failures : nat
}.

(** One turn of the loop for a datagram; [recvfrom] keeps what fits [buf]. *)
Definition receive (key : bytes) (d : bytes) (st : receiver_state) : receiver_state :=
  let got := take MAX_PACKET_SIZE d in
  let n := length got in
  let buf := write_at 0 got (rv_buf st) in
  match decrypt_packet (rv_ctx st) key buf n (rv_plain st) with
  | (c, plain, None) => mk_receiver_state c buf plain (rv_stdout st) (S (rv_failures st))
  | (c, plain, Some plain_len) =>
      let out := take plain_len plain in
      let newline :=
        if (0 <? plain_len)%nat && negb (bool_decide (plain !! (plain_len - 1)%nat = Some NEWLINE))
        then [NEWLINE] else [] in
      mk_receiver_state c buf plain (rv_stdout st ++ out ++ newline) (rv_failures st)
  end.

(** The loop over the datagrams received until [recvfrom] fails. *)
Definition receiver_loop (key : bytes) (ds : list bytes) (st : receiver_state) : receiver_state :=
  foldl (fun st d => receive key d st) st ds.

Definition receiver_ok (st : receiver_state) : Prop :=
  length (rv_buf st) = MAX_PACKET_SIZE /\ length (rv_plain st) = MAX_PACKET_SIZE.

(** How a plaintext is shown. *)
Definition shown (plain : bytes) : bytes :=
  match last plain with
  | None => []
  | Some c => if bool_decide (c = NEWLINE) then plain else plain ++ [NEWLINE]
  end.

Context `{!EvpLaws ctx}.

Lemma receive_encrypted rand c key plain out c' out' n st :
  receiver_ok st -> (length plain + CRYPTO_OVERHEAD <= MAX_PACKET_SIZE)%nat ->
  (length plain + CRYPTO_OVERHEAD <= length out)%nat ->
  encrypt_packet rand c key plain out = (c', out', Some n) ->
  let st' := receive key (take n out') st in
  receiver_ok st' /\ rv_stdout st' = rv_stdout st ++ shown plain /\ rv_failures st' = rv_failures st.
Proof.
  intros [Hbuf Hplain] Hmax Hroom Henc. cbv zeta.
  destruct (encrypt_packet_ok rand c key plain out c' out' n Hroom Henc)
    as (iv & ct & tag & -> & Hpkt & Hlen & Hiv & Hct & Htag & _).
  assert (length (take (length plain + CRYPTO_OVERHEAD) out') = length plain + CRYPTO_OVERHEAD)%nat as Hn.
  { rewrite Hpkt, !length_app, Hiv, Hct, Htag. unfold CRYPTO_OVERHEAD. lia. }
  destruct (decrypt_encrypted rand c key plain out c' out' _ (rv_ctx st) (rv_plain st)
    (drop (length (take (length plain + CRYPTO_OVERHEAD) out')) (rv_buf st)) Hroom ltac:(lia) Henc)
    as (d' & buf' & Hdec & Htake & Hl').
  set (pkt := take (length plain + CRYPTO_OVERHEAD) out') in *.
  assert (exists newline, receive key pkt st = mk_receiver_state d' (write_at 0 pkt (rv_buf st)) buf'
      (rv_stdout st ++ plain ++ newline) (rv_failures st) /\
    newline = if (0 <? length plain)%nat &&
      negb (bool_decide (buf' !! (length plain - 1)%nat = Some NEWLINE)) then [NEWLINE] else [])
    as (newline & -> & ->).
  { eexists. split; [|done]. unfold receive. rewrite (take_ge pkt) by lia. rewrite Hn.
    change (write_at 0 pkt (rv_buf st)) with (pkt ++ drop (length pkt) (rv_buf st)) at 1.
    by rewrite Hdec, Htake. }
  unfold receiver_ok. simpl. split_and!; [|congruence| |done].
  - rewrite length_write_at; [done|]. simpl. lia.
  - f_equal. unfold shown. destruct plain as [|a plain'] eqn:Hp; [done|]. rewrite <- Hp in *.
    assert (0 < length plain)%nat as Hpos by (rewrite Hp; simpl; lia).
    rewrite (proj2 (Nat.ltb_lt _ _)) by done. simpl.
    assert (buf' !! (length plain - 1)%nat = last plain) as ->.
    { rewrite <- (lookup_take_lt _ (length plain)) by lia. rewrite Htake, last_lookup. f_equal. lia. }
    destruct (last plain) as [b|] eqn:Hl; [|apply last_None in Hl; congruence].
    destruct (decide (b = NEWLINE)) as [->|Hne].
    + rewrite !bool_decide_eq_true_2 by done. simpl. by rewrite app_nil_r.
    + rewrite !bool_decide_eq_false_2 by congruence. done.
Qed.
End loop.
Arguments receiver_state : clear implicits.
