(* ===== verification/Connector.v ===== *)
(** UDP sockets ([logmoko_connector.c]).  The kernel's answers to [socket] and
    [sendto] are parameters; what was handed to [sendto] is recorded. *)
From S2P Require Import Prelude Types.
Local Open Scope Z_scope.

(** A [struct sockaddr_in]: port in host order and IPv4 address. *)
Record sockaddr_in := mk_sockaddr { sin_port : Z; sin_addr : Z }.

#[export] Instance sockaddr_in_eq_dec : EqDecision sockaddr_in.
Proof. solve_decision. Defined.

(** [lmk_udp_socket]: the descriptor. *)
Record lmk_udp_socket := mk_udp_socket { sockd : Z }.

(** [lmk_open_udp_socket]: the socket after the call (untouched on failure) and
    the result; [fd] is what [socket] returned. *)
Definition lmk_open_udp_socket (fd : Z) (udp_socket : lmk_udp_socket) : lmk_udp_socket * Z :=
  if fd <? 0 then (udp_socket, LMK_E_NG) else (mk_udp_socket fd, LMK_E_OK).

(** [lmk_close_udp_socket]: the descriptor closed, if any. *)
Definition lmk_close_udp_socket (udp_socket : option lmk_udp_socket) : option Z :=
  sockd <$> udp_socket.

(** A call [sendto(sockd, addr, size, ...)]. *)
Record datagram := mk_datagram { dg_sockd : Z; dg_to : sockaddr_in; dg_data : list ascii }.

#[export] Instance datagram_eq_dec : EqDecision datagram.
Proof. solve_decision. Defined.

(** [lmk_send_udp_packet]: the calls of [sendto] it makes and its result;
    [nr_bytes] is what [sendto] answers to a call.  The comparison with the
    [size_t] length converts [nr_bytes], negative values being excluded before. *)
Definition lmk_send_udp_packet (nr_bytes : datagram -> Z) (udp_socket : option lmk_udp_socket)
    (packet : option (option (list ascii) * sockaddr_in)) : list datagram * Z :=
  match udp_socket with
  | None => ([], LMK_E_NG)
  | Some sock =>
      match packet with
      | None | Some (None, _) => ([], LMK_E_NG)
      | Some (Some data, addr) =>
          let dg := mk_datagram (sockd sock) addr data in
          let n := nr_bytes dg in
          if (n <? 0) || negb (n =? Z.of_nat (length data)) then ([dg], LMK_E_NG) else ([dg], LMK_E_OK)
      end
  end.

(** A packet is handed to the kernel at most once, complete, to the address it
    carries; success is reported exactly when the kernel took all of it. *)
Theorem send_udp_packet_result (nr_bytes : datagram -> Z) (udp_socket : option lmk_udp_socket)
    (packet : option (option (list ascii) * sockaddr_in)) :
  let '(sent, result) := lmk_send_udp_packet nr_bytes udp_socket packet in
  (length sent <= 1)%nat /\
  (result = LMK_E_OK <-> exists sock data addr, udp_socket = Some sock /\ packet = Some (Some data, addr) /\
     nr_bytes (mk_datagram (sockd sock) addr data) = Z.of_nat (length data)) /\
  (forall dg, dg ∈ sent -> exists sock data addr, udp_socket = Some sock /\
     packet = Some (Some data, addr) /\ dg = mk_datagram (sockd sock) addr data).
Proof.
  destruct udp_socket as [sock|]; [destruct packet as [[[data|] addr]|]|]; simpl.
  2-4: split_and!; [lia|split; [done|]; by intros (? & ? & ? & ? & ? & ?)|by intros dg ?%not_elem_of_nil].
  set (dg0 := mk_datagram (sockd sock) addr data).
  assert ((if (nr_bytes dg0 <? 0) || negb (nr_bytes dg0 =? Z.of_nat (length data))
    then ([dg0], LMK_E_NG) else ([dg0], LMK_E_OK)) =
    ([dg0], if nr_bytes dg0 =? Z.of_nat (length data) then LMK_E_OK else LMK_E_NG)) as ->.
  { destruct (Z.ltb_spec (nr_bytes dg0) 0), (Z.eqb_spec (nr_bytes dg0) (Z.of_nat (length data))); try done. lia. }
  split_and!; [done| |].
  - destruct (Z.eqb_spec (nr_bytes dg0) (Z.of_nat (length data))) as [He|Hne].
    + split; [intros _; by exists sock, data, addr|done].
    + split; [done|]. by intros (? & ? & ? & [= <-] & [= <- <-] & ?).
  - intros dg Hdg. apply elem_of_cons in Hdg as [->|?%not_elem_of_nil]; [|done]. by exists sock, data, addr.
Qed.
