(* ===== verification/SocketHandler.v ===== *)
(** The socket handler ([logmoko_socket_log_handler.c]): every record's line is
    sent to each listener as one datagram, encrypted when a preshared key is set;
    with the listener and key setters, [init] and [destroy].  The listener list
    is appended to by [lmk_insert_list], whose effect on the list [DList.v]
    proves, and is a plain list here. *)
From S2P Require Import Prelude Types Ring RingMachine AsyncHandler AsyncSafety AsyncTheorems AsyncInit Format Crypto Receiver Connector.
Local Open Scope Z_scope.

(** The part of [lmk_socket_log_handler] the consumer thread works on, its local
    buffers and caches, and what it did to the outside world: datagrams handed
    to the kernel and descriptors closed. *)
Record socket_state (ctx : Type) := mk_socket_state {
  so_format_fn : option lmk_format_fn;
  so_servers : list sockaddr_in;
  so_socket : lmk_udp_socket;
  so_psk_enabled : bool;
  so_psk_key : bytes;
  so_ctx : ctx;
  so_out : bytes;
  so_enc : bytes;
  so_ts : ts_cache;
  so_time_calls : nat;
  so_rand_calls : nat;
  so_net : list datagram;
  so_closed : list Z
}.
Arguments mk_socket_state {ctx}.
Arguments so_format_fn {ctx}.
Arguments so_servers {ctx}.
Arguments so_socket {ctx}.
Arguments so_psk_enabled {ctx}.
Arguments so_psk_key {ctx}.
Arguments so_ctx {ctx}.
Arguments so_out {ctx}.
Arguments so_enc {ctx}.
Arguments so_ts {ctx}.
Arguments so_time_calls {ctx}.
Arguments so_rand_calls {ctx}.
Arguments so_net {ctx}.
Arguments so_closed {ctx}.

Definition SOCKET_OUT_SIZE : Z := LMK_LOG_MSG_MAX_SIZE + 512.

Section socket_handler.
Context {ctx : Type} `{Evp ctx}.
Context (strftime_local : Z -> list ascii) (time_at : nat -> Z) (nr_bytes : datagram -> Z).
Abbreviation state := (socket_state ctx).

Definition so_with_line (st : state) (out : bytes) (ts : ts_cache) : state :=
  mk_socket_state (so_format_fn st) (so_servers st) (so_socket st) (so_psk_enabled st) (so_psk_key st)
    (so_ctx st) out (so_enc st) ts (S (so_time_calls st)) (so_rand_calls st) (so_net st) (so_closed st).

Definition so_with_crypto (st : state) (c : ctx) (enc : bytes) : state :=
  mk_socket_state (so_format_fn st) (so_servers st) (so_socket st) (so_psk_enabled st) (so_psk_key st)
    c (so_out st) enc (so_ts st) (so_time_calls st) (S (so_rand_calls st)) (so_net st) (so_closed st).

Definition so_send (st : state) (data : bytes) (server : sockaddr_in) : state :=
  let '(sent, _) := lmk_send_udp_packet nr_bytes (Some (so_socket st)) (Some (Some data, server)) in
  mk_socket_state (so_format_fn st) (so_servers st) (so_socket st) (so_psk_enabled st) (so_psk_key st)
    (so_ctx st) (so_out st) (so_enc st) (so_ts st) (so_time_calls st) (so_rand_calls st)
    (so_net st ++ sent) (so_closed st).

(** The body of the loop over the listeners; [n] is the length of the line in [out]. *)
Definition send_to_server (use_psk : bool) (n : nat) (st : state) (server : sockaddr_in) : state :=
  if use_psk then
    match encrypt_packet (so_rand_calls st) (so_ctx st) (so_psk_key st) (take n (so_out st)) (so_enc st) with
    | (c, enc, Some enc_len) => so_send (so_with_crypto st c enc) (take enc_len enc) server
    | (c, enc, None) => so_with_crypto st c enc
    end
  else so_send st (take n (so_out st)) server.

Definition socket_process (req : log_view) (st : state) : state :=
  let '(out, n, ts) := lmk_format_log_line strftime_local (so_format_fn st) (time_at (so_time_calls st))
    (so_ts st) (so_out st) SOCKET_OUT_SIZE req in
  let st := so_with_line st out ts in
  if 0 <? n then foldl (send_to_server (so_psk_enabled st) (Z.to_nat n)) st (so_servers st) else st.

#[local] Instance socket_sink : Sink state := {
  sink_process := socket_process;
  sink_idle := id;
  sink_finish := id
}.

Definition lmk_socket_log_handler_thread_routine := consumer_step (St := state).
Definition lmk_socket_log_handler_log_impl := log_impl_step (St := state).

Definition so_with_socket (st : state) (sock : lmk_udp_socket) : state :=
  mk_socket_state (so_format_fn st) [] sock false (so_psk_key st)
    (so_ctx st) (so_out st) (so_enc st) (so_ts st) (so_time_calls st) (so_rand_calls st)
    (so_net st) (so_closed st).

Definition so_close (st : state) : state :=
  mk_socket_state (so_format_fn st) (so_servers st) (so_socket st) (so_psk_enabled st) (so_psk_key st)
    (so_ctx st) (so_out st) (so_enc st) (so_ts st) (so_time_calls st) (so_rand_calls st)
    (so_net st) (so_closed st ++ [sockd (so_socket st)]).

(** [lmk_socket_log_handler_init]: an empty listener list, a socket (the result
    of [lmk_open_udp_socket] is not looked at), the ring and the thread. *)
Definition lmk_socket_log_handler_init (env : init_env) (fd : Z) (st : state) : init_result state * state :=
  let st := so_with_socket st (lmk_open_udp_socket fd (so_socket st)).1 in
  match ring_handler_init env st with
  | InitOk mask s => (InitOk mask s, st)
  | InitNoRing => (InitNoRing, so_close st)
  | InitNoThread => (InitNoThread, so_close st)
  end.

(** After the join: the drop report, the listeners freed, the socket closed. *)
Definition lmk_socket_log_handler_destroy (s : handler_state state) : state * option (Z * Z) :=
  let st := hs_sink s in
  let st := so_close (mk_socket_state (so_format_fn st) [] (so_socket st) (so_psk_enabled st) (so_psk_key st)
    (so_ctx st) (so_out st) (so_enc st) (so_ts st) (so_time_calls st) (so_rand_calls st)
    (so_net st) (so_closed st)) in
  (st, if hs_dropped s =? 0 then None else Some (hs_dropped s, hs_nr_log_calls s)).

(** ** Setters, on a handler pointer: its type and socket fields *)

(** [lmk_attach_log_listener]; [inet_pton] fails on a malformed address, which
    leaves the zeroed one; [alloc_ok] is the allocation's outcome. *)
Definition lmk_attach_log_listener (inet_pton : string -> option Z) (alloc_ok : bool)
    (handler : option (Z * state)) (host : option string) (port : Z) : option (Z * state) :=
  match handler, host with
  | Some (type, st), Some host =>
      if (port <=? 0) || negb (type =? LMK_LOG_HANDLER_TYPE_SOCKET) then handler
      else if alloc_ok then
        let server := mk_sockaddr (w16 port) (default 0 (inet_pton host)) in
        Some (type, mk_socket_state (so_format_fn st) (so_servers st ++ [server]) (so_socket st)
          (so_psk_enabled st) (so_psk_key st) (so_ctx st) (so_out st) (so_enc st) (so_ts st)
          (so_time_calls st) (so_rand_calls st) (so_net st) (so_closed st))
      else handler
  | _, _ => handler
  end.

Definition lmk_set_socket_psk (handler : option (Z * state)) (psk : option string) : option (Z * state) :=
  match handler, psk with
  | Some (type, st), Some psk =>
      if negb (type =? LMK_LOG_HANDLER_TYPE_SOCKET) then handler
      else Some (type, mk_socket_state (so_format_fn st) (so_servers st) (so_socket st)
        true (derive_key psk) (so_ctx st) (so_out st) (so_enc st) (so_ts st)
        (so_time_calls st) (so_rand_calls st) (so_net st) (so_closed st))
  | _, _ => handler
  end.

(** ** What is sent *)

Context `{!EvpLaws ctx} (fn : lmk_format_fn) `{!FormatFn fn}.

(** No OpenSSL call of an encryption fails. *)
Definition evp_available : Prop := forall rand c key plain out,
  exists c' out' n, encrypt_packet rand c key plain out = (c', out', Some n).

Definition socket_line (now : Z) (ts : ts_cache) (req : log_view) : bytes :=
  take (Z.to_nat (SOCKET_OUT_SIZE - 1)) (line_text strftime_local fn now ts req).

Fixpoint socket_lines (reqs : list log_view) (ts : ts_cache) (calls : nat) : list bytes :=
  match reqs with
  | [] => []
  | req :: reqs' => socket_line (time_at calls) ts req ::
      socket_lines reqs' (ts_refresh strftime_local (time_at calls) ts) (S calls)
  end.

Definition ENC_SIZE : nat := Z.to_nat SOCKET_OUT_SIZE + CRYPTO_OVERHEAD.

Record socket_ok (st : state) : Prop := {
  sk_format : default lmk_default_format (so_format_fn st) = fn;
  sk_out : Z.of_nat (length (so_out st)) = SOCKET_OUT_SIZE;
  sk_enc : length (so_enc st) = ENC_SIZE
}.

(** The datagram carries the line: in the clear, or as a packet encrypted under the key. *)
Definition carries (use_psk : bool) (key line data : bytes) : Prop :=
  if use_psk then
    exists rand c out c' out' n, (length line + CRYPTO_OVERHEAD <= length out)%nat /\
      encrypt_packet rand c key line out = (c', out', Some n) /\ data = take n out'
  else data = line.

(** What sending never changes. *)
Definition same_socket (st st' : state) : Prop :=
  so_format_fn st' = so_format_fn st /\ so_servers st' = so_servers st /\ so_socket st' = so_socket st /\
  so_psk_enabled st' = so_psk_enabled st /\ so_psk_key st' = so_psk_key st /\ so_out st' = so_out st /\
  so_ts st' = so_ts st /\ so_time_calls st' = so_time_calls st.

Lemma so_send_net st data server :
  so_net (so_send st data server) = so_net st ++ [mk_datagram (sockd (so_socket st)) server data].
Proof. unfold so_send, lmk_send_udp_packet. by destruct (_ || _). Qed.

Lemma so_send_same st data server :
  same_socket st (so_send st data server) /\ so_enc (so_send st data server) = so_enc st.
Proof.
  unfold so_send, same_socket, lmk_send_udp_packet. destruct (_ || _); by split_and!.
Qed.

Definition delivers (st : state) (line : bytes) (server : sockaddr_in) (dg : datagram) : Prop :=
  dg_to dg = server /\ carries (so_psk_enabled st) (so_psk_key st) line (dg_data dg).

Lemma send_to_server_spec n line st server :
  evp_available -> take n (so_out st) = line ->
  (length line + CRYPTO_OVERHEAD <= length (so_enc st))%nat ->
  exists dg, let st' := send_to_server (so_psk_enabled st) n st server in
    same_socket st st' /\ length (so_enc st') = length (so_enc st) /\
    so_net st' = so_net st ++ [dg] /\ delivers st line server dg.
Proof.
  intros Hevp Hline Hroom. unfold send_to_server, delivers. rewrite Hline.
  destruct (so_psk_enabled st) eqn:Hpsk; simpl.
  - destruct (Hevp (so_rand_calls st) (so_ctx st) (so_psk_key st) line (so_enc st)) as (c' & enc' & len & Henc).
    rewrite Henc. destruct (encrypt_packet_ok _ _ _ _ _ _ _ _ Hroom Henc) as (_ & _ & _ & _ & _ & Hl & _).
    destruct (so_send_same (so_with_crypto st c' enc') (take len enc') server) as [Hsame He].
    eexists. rewrite so_send_net, He. split_and!; [|exact Hl|done|done|simpl].
    + destruct Hsame as (? & ? & ? & ? & ? & ? & ? & ?). by split_and!.
    + by exists (so_rand_calls st), (so_ctx st), (so_enc st), c', enc', len.
  - destruct (so_send_same st line server) as [Hsame He].
    eexists. rewrite so_send_net, He. by split_and!.
Qed.

Lemma send_to_servers_spec n line servers st :
  evp_available -> take n (so_out st) = line ->
  (length line + CRYPTO_OVERHEAD <= length (so_enc st))%nat ->
  exists dgs, let st' := foldl (send_to_server (so_psk_enabled st) n) st servers in
    same_socket st st' /\ length (so_enc st') = length (so_enc st) /\
    so_net st' = so_net st ++ dgs /\ Forall2 (delivers st line) servers dgs.
Proof.
  intros Hevp. revert st. induction servers as [|server servers IH]; intros st Hline Hroom.
  - exists []. simpl. by rewrite app_nil_r.
  - destruct (send_to_server_spec n line st server Hevp Hline Hroom) as (dg & Hsame & He & Hnet & Hdg).
    cbn [foldl]. set (st1 := send_to_server (so_psk_enabled st) n st server) in *.
    destruct Hsame as (S1 & S2 & S3 & S4 & S5 & S6 & S7 & S8).
    destruct (IH st1) as (dgs & (R1 & R2 & R3 & R4 & R5 & R6 & R7 & R8) & He' & Hnet' & Hdgs);
      [congruence|lia|].
    rewrite S4 in *. exists (dg :: dgs). cbv zeta. rewrite He', Hnet', Hnet, <- app_assoc.
    split_and!; [split_and!; congruence|done|done|].
    constructor; [done|]. eapply Forall2_impl; [exact Hdgs|]. unfold delivers. by rewrite S4, S5.
Qed.

Lemma socket_process_spec req st :
  evp_available -> socket_ok st ->
  0 < Z.of_nat (length (line_text strftime_local fn (time_at (so_time_calls st)) (so_ts st) req)) <= INT_MAX ->
  let line := socket_line (time_at (so_time_calls st)) (so_ts st) req in
  let st' := socket_process req st in
  socket_ok st' /\ so_servers st' = so_servers st /\ so_psk_enabled st' = so_psk_enabled st /\
  so_psk_key st' = so_psk_key st /\
  so_ts st' = ts_refresh strftime_local (time_at (so_time_calls st)) (so_ts st) /\
  so_time_calls st' = S (so_time_calls st) /\
  exists dgs, so_net st' = so_net st ++ dgs /\ Forall2 (delivers st line) (so_servers st) dgs.
Proof.
  intros Hevp [Hfmt Hout Henc] Htext. cbv zeta. unfold socket_process.
  change (lmk_format_log_line strftime_local (so_format_fn st)) with
    (lmk_format_log_line strftime_local (Some (default lmk_default_format (so_format_fn st)))).
  unfold SOCKET_OUT_SIZE, LMK_LOG_MSG_MAX_SIZE in Hout.
  rewrite Hfmt, (format_log_line_prints strftime_local fn); [cbv zeta| | |lia].
  2-3: unfold SOCKET_OUT_SIZE, LMK_LOG_MSG_MAX_SIZE, INT_MAX; lia.
  set (text := line_text _ _ _ _ _) in *.
  set (line := socket_line _ _ _). change (take (Z.to_nat (SOCKET_OUT_SIZE - 1)) text) with line.
  assert (length line = Nat.min (Z.to_nat (SOCKET_OUT_SIZE - 1)) (length text)) as Hline by apply length_take.
  unfold SOCKET_OUT_SIZE, LMK_LOG_MSG_MAX_SIZE in Hline.
  rewrite (proj2 (Z.ltb_lt _ _)) by lia. rewrite Nat2Z.id.
  pose proof (length_snprintf (so_out st) SOCKET_OUT_SIZE text
    ltac:(unfold SOCKET_OUT_SIZE, LMK_LOG_MSG_MAX_SIZE; lia)) as Hl.
  pose proof (snprintf_prefix (so_out st) SOCKET_OUT_SIZE text
    ltac:(unfold SOCKET_OUT_SIZE, LMK_LOG_MSG_MAX_SIZE; lia)) as Hp.
  change (take (Z.to_nat (SOCKET_OUT_SIZE - 1)) text) with line in Hp.
  set (st1 := so_with_line st (snprintf (so_out st) SOCKET_OUT_SIZE text).1 _).
  change (so_psk_enabled st) with (so_psk_enabled st1). change (so_servers st) with (so_servers st1).
  destruct (send_to_servers_spec (length line) line (so_servers st1) st1 Hevp Hp)
    as (dgs & (S1 & S2 & S3 & S4 & S5 & S6 & S7 & S8) & He & Hnet & Hdgs).
  { simpl. rewrite Henc. unfold ENC_SIZE, SOCKET_OUT_SIZE, LMK_LOG_MSG_MAX_SIZE. lia. }
  split_and!; try done.
  - split; [by rewrite S1| |by rewrite He].
    rewrite S6. change (so_out st1) with (snprintf (so_out st) SOCKET_OUT_SIZE text).1. rewrite Hl. exact Hout.
  - by exists dgs.
Qed.

Lemma socket_lines_snoc reqs req ts calls :
  let ts' := foldl (fun t i => ts_refresh strftime_local (time_at i) t) ts (seq calls (length reqs)) in
  socket_lines (reqs ++ [req]) ts calls =
    socket_lines reqs ts calls ++ [socket_line (time_at (calls + length reqs)%nat) ts' req].
Proof.
  revert ts calls. induction reqs as [|r reqs IH]; intros ts calls; simpl.
  - by rewrite Nat.add_0_r.
  - rewrite IH. simpl. do 4 f_equal. by rewrite Nat.add_succ_r.
Qed.

Lemma socket_replay_spec ops st :
  evp_available -> socket_ok st -> so_ts st = ts_start -> printable strftime_local fn (processed ops) ->
  let st' := sink_replay ops st in
  socket_ok st' /\ so_servers st' = so_servers st /\ so_psk_enabled st' = so_psk_enabled st /\
  so_psk_key st' = so_psk_key st /\
  so_time_calls st' = (so_time_calls st + length (processed ops))%nat /\
  so_ts st' = foldl (fun t i => ts_refresh strftime_local (time_at i) t) (so_ts st)
    (seq (so_time_calls st) (length (processed ops))) /\
  ts_ok strftime_local (so_ts st') /\
  exists dgss, so_net st' = so_net st ++ concat dgss /\
    Forall2 (fun line dgs => Forall2 (delivers st line) (so_servers st) dgs)
      (socket_lines (processed ops) (so_ts st) (so_time_calls st)) dgss.
Proof.
  intros Hevp Hok Hts0. cbv zeta. induction ops as [|op ops IH] using rev_ind; intros Hfit.
  { simpl. rewrite Nat.add_0_r. split_and!; try done; [by left|]. exists []. by rewrite app_nil_r. }
  rewrite processed_snoc in *.
  destruct IH as (Hok1 & Hsrv & Hpsk & Hkey & Hcalls & Hts & Htsok & dgss & Hnet & Hdgss).
  { intros req now ts Hreq. apply Hfit. apply elem_of_app. by left. }
  rewrite sink_replay_snoc. set (st1 := sink_replay ops st) in *.
  destruct op as [req| |]; simpl.
  2-3: rewrite app_nil_r; split_and!; try done; by exists dgss.
  destruct (socket_process_spec req st1 Hevp Hok1) as (Hok2 & Hsrv2 & Hpsk2 & Hkey2 & Hts2 & Hcalls2 & dgs & Hnet2 & Hdgs).
  { apply Hfit; [apply elem_of_app; right; by left|done]. }
  rewrite length_app. simpl. rewrite seq_app, foldl_app. simpl.
  split_and!; try congruence; try lia.
  - rewrite Hts2. by apply ts_ok_refresh.
  - exists (dgss ++ [dgs]). rewrite Hnet2, Hnet, concat_app, <- app_assoc. simpl. rewrite app_nil_r.
    split; [done|]. rewrite socket_lines_snoc. apply Forall2_app; [done|]. constructor; [|done].
    rewrite <- Hts, <- Hcalls, <- Hsrv. eapply Forall2_impl; [exact Hdgs|]. unfold delivers.
    by rewrite Hpsk, Hkey.
Qed.

(** The datagrams one of the listeners gets. *)
Definition sent_to (a : sockaddr_in) (net : list datagram) : list bytes :=
  map dg_data (filter (fun dg => dg_to dg = a) net).

Lemma sent_to_app a net1 net2 : sent_to a (net1 ++ net2) = sent_to a net1 ++ sent_to a net2.
Proof. unfold sent_to. by rewrite filter_app, map_app. Qed.

Lemma sent_to_one st line servers dgs a :
  NoDup servers -> a ∈ servers -> Forall2 (delivers st line) servers dgs ->
  exists data, sent_to a dgs = [data] /\ carries (so_psk_enabled st) (so_psk_key st) line data.
Proof.
  intros Hnd Ha Hdgs. induction Hdgs as [|server dg servers dgs [Hto Hcarry] Hdgs IH].
  { by apply not_elem_of_nil in Ha. }
  apply NoDup_cons in Hnd as [Hnotin Hnd]. unfold sent_to in *.
  destruct (decide (server = a)) as [->|Hne].
  - rewrite filter_cons_True by done. exists (dg_data dg). split; [|done]. simpl. f_equal.
    clear IH Ha. induction Hdgs as [|server' dg' servers dgs [Hto' _] _ IH]; [done|].
    apply not_elem_of_cons in Hnotin as [Hne Hnotin]. apply NoDup_cons in Hnd as [_ Hnd].
    rewrite filter_cons_False by congruence. by apply IH.
  - rewrite filter_cons_False by congruence. apply IH; [done|].
    apply elem_of_cons in Ha as [->|Ha]; done.
Qed.

Lemma sent_to_all st lines dgss a :
  NoDup (so_servers st) -> a ∈ so_servers st ->
  Forall2 (fun line dgs => Forall2 (delivers st line) (so_servers st) dgs) lines dgss ->
  Forall2 (carries (so_psk_enabled st) (so_psk_key st)) lines (sent_to a (concat dgss)).
Proof.
  intros Hnd Ha Hall. induction Hall as [|line dgs lines dgss Hdgs _ IH]; [by constructor|].
  simpl. rewrite sent_to_app. destruct (sent_to_one st line _ dgs a Hnd Ha Hdgs) as (data & -> & Hc).
  by constructor.
Qed.

(** The receiver with the same key prints the lines encrypted datagrams carry. *)
Lemma receiver_shows key lines ds (rv : receiver_state ctx) :
  receiver_ok rv -> Forall (fun line => length line + CRYPTO_OVERHEAD <= MAX_PACKET_SIZE)%nat lines ->
  Forall2 (carries true key) lines ds ->
  rv_stdout (receiver_loop key ds rv) = rv_stdout rv ++ concat (map shown lines) /\
  rv_failures (receiver_loop key ds rv) = rv_failures rv.
Proof.
  intros Hrv Hlen Hall. revert rv Hrv Hlen.
  induction Hall as [|line d lines ds (rand & c & out & c' & out' & n & Hroom & Henc & ->) _ IH];
    intros rv Hrv Hlen; [by rewrite app_nil_r|].
  apply Forall_cons in Hlen as [Hl Hlen].
  destruct (receive_encrypted rand c key line out c' out' n rv Hrv Hl Hroom Henc) as (Hrv' & Hout & Hf).
  unfold receiver_loop. cbn [foldl map concat]. fold (receiver_loop key ds).
  destruct (IH (receive key (take n out') rv) Hrv' Hlen) as [Ho Hf2].
  unfold receiver_loop in *. rewrite Ho, Hf2, Hout, Hf, <- app_assoc. done.
Qed.

Lemma socket_lines_short reqs ts calls :
  Forall (fun line => length line + CRYPTO_OVERHEAD <= MAX_PACKET_SIZE)%nat (socket_lines reqs ts calls).
Proof.
  revert ts calls. induction reqs as [|req reqs IH]; intros ts calls; constructor; [|apply IH].
  unfold socket_line. rewrite length_take. unfold SOCKET_OUT_SIZE, LMK_LOG_MSG_MAX_SIZE, MAX_PACKET_SIZE.
  assert (CRYPTO_OVERHEAD = 28%nat) as -> by done. lia.
Qed.
End socket_handler.

(** ** Theorems *)

Section theorems.
Context {ctx : Type} `{EvpLaws ctx} (strftime_local : Z -> list ascii) (time_at : nat -> Z)
  (nr_bytes : datagram -> Z) (fn : lmk_format_fn) `{!FormatFn fn}.

Lemma socket_quiescent k (st : socket_state ctx) s tr a :
  (1 <= k <= 32)%nat -> Z.of_nat (length tr) <= 2 ^ 62 ->
  run (handler_step (H := socket_sink strftime_local time_at nr_bytes) (mask_of k)) (handler_start k st) tr s ->
  hs_cons s = KParked -> hs_prods s = ∅ ->
  evp_available (ctx := ctx) -> socket_ok fn st -> so_ts st = ts_start -> so_net st = [] ->
  printable strftime_local fn (enqueued tr) -> NoDup (so_servers st) -> a ∈ so_servers st ->
  Forall2 (carries (ctx := ctx) (so_psk_enabled st) (so_psk_key st))
    (socket_lines strftime_local time_at fn (enqueued tr) ts_start (so_time_calls st))
    (sent_to a (so_net (hs_sink s))).
Proof.
  intros Hk Hlen Hrun Hparked Hidle Hevp Hok Hts Hnet0 Hfit Hnd Ha.
  destruct (quiescent_drained (H := socket_sink strftime_local time_at nr_bytes) k st tr s Hk Hlen Hrun Hparked Hidle)
    as (_ & (ops & Hsink & Hops & _) & _).
  rewrite <- Hops in Hfit.
  destruct (socket_replay_spec strftime_local time_at nr_bytes fn ops st Hevp Hok Hts Hfit)
    as (_ & _ & _ & _ & _ & _ & _ & dgss & Hnet & Hdgss).
  rewrite Hsink, Hnet, Hnet0, <- Hops. rewrite Hts in Hdgss. by apply sent_to_all.
Qed.

(** Without a key, each listener gets each accepted record's line as one datagram,
    in order of acceptance. *)
Theorem socket_sends_accepted_records (k : nat) (st : socket_state ctx) (s : handler_state (socket_state ctx))
    (tr : list ring_event) (a : sockaddr_in)
    (Hk : (1 <= k <= 32)%nat) (Hlen : Z.of_nat (length tr) <= 2 ^ 62)
    (Hrun : run (handler_step (H := socket_sink strftime_local time_at nr_bytes) (mask_of k)) (handler_start k st) tr s)
    (Hparked : hs_cons s = KParked) (Hidle : hs_prods s = ∅)
    (Hevp : evp_available (ctx := ctx)) (Hok : socket_ok fn st) (Hts : so_ts st = ts_start) (Hnet : so_net st = [])
    (Hfit : printable strftime_local fn (enqueued tr))
    (Hnd : NoDup (so_servers st)) (Ha : a ∈ so_servers st) (Hplain : so_psk_enabled st = false) :
  sent_to a (so_net (hs_sink s)) =
    socket_lines strftime_local time_at fn (enqueued tr) ts_start (so_time_calls st).
Proof.
  pose proof (socket_quiescent k st s tr a Hk Hlen Hrun Hparked Hidle Hevp Hok Hts Hnet Hfit Hnd Ha) as Hall.
  rewrite Hplain in Hall. induction Hall as [|line data lines ds Hc _ IH]; [done|].
  simpl in Hc. by rewrite Hc, IH.
Qed.

(** With a preshared key, the log receiver started with the same key prints, for
    the datagrams of a listener, exactly the lines of the accepted records, in
    order, and reports no failure. *)
Theorem socket_to_receiver_roundtrip (k : nat) (st : socket_state ctx) (s : handler_state (socket_state ctx))
    (tr : list ring_event) (a : sockaddr_in) (psk : string) (rv : receiver_state ctx)
    (Hk : (1 <= k <= 32)%nat) (Hlen : Z.of_nat (length tr) <= 2 ^ 62)
    (Hrun : run (handler_step (H := socket_sink strftime_local time_at nr_bytes) (mask_of k)) (handler_start k st) tr s)
    (Hparked : hs_cons s = KParked) (Hidle : hs_prods s = ∅)
    (Hevp : evp_available (ctx := ctx)) (Hok : socket_ok fn st) (Hts : so_ts st = ts_start) (Hnet : so_net st = [])
    (Hfit : printable strftime_local fn (enqueued tr))
    (Hnd : NoDup (so_servers st)) (Ha : a ∈ so_servers st)
    (Hpsk : so_psk_enabled st = true) (Hkey : so_psk_key st = derive_key (ctx := ctx) psk)
    (Hrv : receiver_ok rv) :
  let lines := socket_lines strftime_local time_at fn (enqueued tr) ts_start (so_time_calls st) in
  let rv' := receiver_loop (derive_key (ctx := ctx) psk) (sent_to a (so_net (hs_sink s))) rv in
  rv_stdout rv' = rv_stdout rv ++ concat (map shown lines) /\ rv_failures rv' = rv_failures rv.
Proof.
  pose proof (socket_quiescent k st s tr a Hk Hlen Hrun Hparked Hidle Hevp Hok Hts Hnet Hfit Hnd Ha) as Hall.
  rewrite Hpsk, Hkey in Hall. cbv zeta. apply receiver_shows; [done| |done]. by apply socket_lines_short.
Qed.
End theorems.

(** Attaching a listener: exactly on a socket handler, with a host, a positive
    port and memory, it becomes the last listener, at the port taken modulo
    65536 and at address 0.0.0.0 when the host is not a numeric address;
    otherwise nothing changes. *)
Theorem attach_log_listener_appends {ctx : Type} (inet_pton : string -> option Z) (alloc_ok : bool)
    (type : Z) (st : socket_state ctx) (host : option string) (port : Z) :
  let handler := Some (type, st) in
  match lmk_attach_log_listener inet_pton alloc_ok handler host port with
  | None => False
  | Some (type', st') =>
      type' = type /\ so_net st' = so_net st /\ so_psk_key st' = so_psk_key st /\
      (so_servers st' = so_servers st \/
       exists h, host = Some h /\ so_servers st' =
         so_servers st ++ [mk_sockaddr (port mod 65536) (default 0 (inet_pton h))]) /\
      (so_servers st' <> so_servers st <->
       host <> None /\ 0 < port /\ type = LMK_LOG_HANDLER_TYPE_SOCKET /\ alloc_ok = true)
  end.
Proof.
  unfold lmk_attach_log_listener. destruct host as [h|]; [|by split_and!; [..|by left|]; split; [|intros [? _]]].
  destruct (Z.leb_spec port 0) as [Hp|Hp]; simpl.
  { split_and!; [done..|by left|]. split; [done|lia]. }
  destruct (Z.eqb_spec type LMK_LOG_HANDLER_TYPE_SOCKET) as [Ht|Ht]; simpl.
  2: { split_and!; [done..|by left|]. split; [done|]. by intros (_ & _ & ? & _). }
  destruct alloc_ok; simpl.
  - split_and!; [done..|right; by exists h|]. split; [done|]. intros _ Heq.
    apply (f_equal length) in Heq. rewrite length_app in Heq. simpl in Heq. lia.
  - split_and!; [done..|by left|]. split; [done|]. by intros (_ & _ & _ & ?).
Qed.

(** ** Witnesses *)

Lemma toy_available : evp_available (ctx := toy_ctx).
Proof. intros rand c key plain out. unfold encrypt_packet. simpl. by do 3 eexists. Qed.

Definition ex_listener : sockaddr_in := mk_sockaddr 9000 2130706433.

Definition ex_socket (psk : bool) : socket_state toy_ctx :=
  mk_socket_state (Some lmk_simple_format) [ex_listener; mk_sockaddr 9001 1] (mk_udp_socket 5) psk
    (derive_key (ctx := toy_ctx) "secret") ([], []) (replicate (Z.to_nat SOCKET_OUT_SIZE) NUL)
    (replicate ENC_SIZE NUL) ts_start 0 0 [] [].

Definition ex_sock_strftime (_ : Z) : list ascii := chars "12:00:00".
Definition ex_sock_time (_ : nat) : Z := 100.

Lemma ex_socket_ok psk : socket_ok lmk_simple_format (ex_socket psk).
Proof. split; [reflexivity|by vm_compute|by vm_compute]. Qed.

Lemma ex_printable reqs : (forall req, req ∈ reqs -> (length (v_text req) <= 100)%nat) ->
  printable ex_sock_strftime lmk_simple_format reqs.
Proof.
  intros Hshort req now ts Hreq Hts. specialize (Hshort req Hreq).
  assert (length (ts_text (ts_refresh ex_sock_strftime now ts)) <= 8)%nat.
  { destruct (ts_ok_refresh ex_sock_strftime now ts Hts) as [->| ->]; simpl; lia. }
  unfold line_text, INT_MAX. simpl. unfold simple_text, fmt_s5.
  rewrite !length_app, length_replicate. simpl.
  assert (length (chars (lmk_get_log_level_str (v_log_level req))) <= 7)%nat.
  { unfold lmk_get_log_level_str. destruct (_ && _); [|simpl; lia].
    destruct (Z.to_nat (v_log_level req)) as [|[|[|[|[|[|[|n]]]]]]]; simpl; try lia. destruct n; simpl; lia. }
  lia.
Qed.

Abbreviation ex_socket_play psk acts :=
  (handler_schedule (H := socket_sink ex_sock_strftime ex_sock_time (fun _ => 0)) (mask_of 1)
    (handler_start 1 (ex_socket psk)) acts).

Lemma ex_play_printable psk :
  printable ex_sock_strftime lmk_simple_format (enqueued (ex_socket_play psk drained_schedule).1).
Proof.
  apply ex_printable. intros req Hreq. destruct psk; vm_compute in Hreq;
    (apply elem_of_cons in Hreq as [->|Hreq]; [simpl; lia|by apply not_elem_of_nil in Hreq]).
Qed.

Lemma ex_listeners psk : NoDup (so_servers (ex_socket psk)) /\ ex_listener ∈ so_servers (ex_socket psk).
Proof. split; apply (bool_decide_unpack _); by vm_compute. Qed.

Lemma socket_sends_accepted_records_witness :
  sent_to ex_listener (so_net (hs_sink (ex_socket_play false drained_schedule).2)) =
    [chars "12:00:00 [INFO ] aaa" ++ [NEWLINE]] /\
  sent_to ex_listener (so_net (hs_sink (ex_socket_play false drained_schedule).2)) =
    socket_lines ex_sock_strftime ex_sock_time lmk_simple_format
      (enqueued (ex_socket_play false drained_schedule).1) ts_start 0.
Proof.
  split; [by vm_compute|].
  refine (socket_sends_accepted_records ex_sock_strftime ex_sock_time (fun _ => 0) lmk_simple_format 1
    (ex_socket false) _ _ ex_listener _ _ (handler_schedule_run _ _ _) _ _ toy_available (ex_socket_ok false)
    eq_refl eq_refl (ex_play_printable false) (proj1 (ex_listeners false)) (proj2 (ex_listeners false)) eq_refl).
  - lia.
  - by vm_compute.
  - by vm_compute.
  - by vm_compute.
Defined.

Definition ex_receiver : receiver_state toy_ctx :=
  mk_receiver_state ([], []) (replicate MAX_PACKET_SIZE NUL) (replicate MAX_PACKET_SIZE NUL) [] 0.

Lemma socket_to_receiver_roundtrip_witness :
  rv_stdout (receiver_loop (derive_key (ctx := toy_ctx) "secret")
    (sent_to ex_listener (so_net (hs_sink (ex_socket_play true drained_schedule).2))) ex_receiver) =
    chars "12:00:00 [INFO ] aaa" ++ [NEWLINE] /\
  rv_failures (receiver_loop (derive_key (ctx := toy_ctx) "secret")
    (sent_to ex_listener (so_net (hs_sink (ex_socket_play true drained_schedule).2))) ex_receiver) = 0%nat.
Proof.
  split; [by vm_compute|].
  refine (proj2 (socket_to_receiver_roundtrip ex_sock_strftime ex_sock_time (fun _ => 0) lmk_simple_format 1
    (ex_socket true) _ _ ex_listener "secret" ex_receiver _ _ (handler_schedule_run _ _ _) _ _ toy_available
    (ex_socket_ok true) eq_refl eq_refl (ex_play_printable true) (proj1 (ex_listeners true))
    (proj2 (ex_listeners true)) eq_refl eq_refl _)).
  - lia.
  - by vm_compute.
  - by vm_compute.
  - by vm_compute.
  - split; by vm_compute.
Defined.
