(* ===== verification/Registry.v ===== *)
(** Loggers, handlers and their registry ([logmoko.c], [logmoko_logger.c] and the
    factories and [lmk_destroy_log_handler] of [logmoko_handler.c]).  Objects
    live at addresses; the two global lists and every logger's list of handler
    references are lists of addresses, on which [DList.v] has shown the linked
    lists to act: insertion appends, removal deletes, iteration goes in order.
    The loops that destroy objects while iterating keep their saved cursor. *)
From S2P Require Import Prelude Types Format FileHandler.
Local Open Scope Z_scope.

Abbreviation addr := positive.

(** ** State *)

(** What a handler type adds to the base - the struct the base is the first
    member of -: its settings. A file name is NULL when [lmk_strdup] could not
    copy it. *)
Inductive handler_data :=
  | ConsoleData
  | FileData (filename : option string) (max_file_size max_backup_files : Z)
  | SocketData (listeners : list (string * Z)) (psk : option string)
  | SyslogData (ident : string) (facility : Z).

(** The four handler types, as the owners of the functions a base points to:
    [lmk_console_log_handler_init], [lmk_file_log_handler_init], ... *)
Inductive handler_kind := ConsoleKind | FileKind | SocketKind | SyslogKind.

(** The members [init], [destroy] and [log_impl] of the base: NULL or the
    function of that role of one of the types. *)
Record handler_methods := mk_methods {
  m_init : option handler_kind;
  m_destroy : option handler_kind;
  m_log_impl : option handler_kind
}.

(** [struct lmk_log_handler]; [name] is NULL when its copy could not be allocated. *)
Record lmk_log_handler := mk_handler {
  h_type : Z;
  h_name : option string;
  h_log_level : Z;
  h_nr_logger_ref : Z;
  h_initialized : bool;
  h_format_fn : option lmk_format_fn;
  h_methods : handler_methods;
  h_data : handler_data
}.

(** [struct lmk_logger]; the handler references, each as the handler it points to. *)
Record lmk_logger := mk_logger {
  l_name : string;
  l_log_level : Z;
  l_handler_refs : list addr;
  l_initialized : bool
}.

(** [struct lmk_config]. *)
Record lmk_config := mk_config { log_buffer_size : Z; ring_buffer_size : Z }.

(** The calls the registry makes to the functions a handler's type supplies
    ([handler->init], [handler->destroy]); their effect on the handler's own
    thread and sink is the subject of the handlers' files. *)
Inductive method_call :=
  | CallInit (handler : addr)
  | CallDestroy (handler : addr).

Record registry := mk_registry {
  g_initialized : bool;
  g_config : option lmk_config;
  g_logger_list : list addr;
  g_handler_list : list addr;
  g_loggers : gmap addr lmk_logger;
  g_handlers : gmap addr lmk_log_handler;
  g_calls : list method_call
}.

(** Static initialisation. *)
Definition registry_start : registry := mk_registry false None [] [] ∅ ∅ [].

Definition upd_logger (a : addr) (l : lmk_logger) (r : registry) : registry :=
  mk_registry (g_initialized r) (g_config r) (g_logger_list r) (g_handler_list r)
    (<[a := l]> (g_loggers r)) (g_handlers r) (g_calls r).

Definition upd_handler (a : addr) (h : lmk_log_handler) (r : registry) : registry :=
  mk_registry (g_initialized r) (g_config r) (g_logger_list r) (g_handler_list r)
    (g_loggers r) (<[a := h]> (g_handlers r)) (g_calls r).

Definition add_call (c : method_call) (r : registry) : registry :=
  mk_registry (g_initialized r) (g_config r) (g_logger_list r) (g_handler_list r)
    (g_loggers r) (g_handlers r) (g_calls r ++ [c]).

Definition set_handler_refs (h : lmk_log_handler) (n : Z) : lmk_log_handler :=
  mk_handler (h_type h) (h_name h) (h_log_level h) n (h_initialized h) (h_format_fn h) (h_methods h) (h_data h).

Definition set_handler_level (h : lmk_log_handler) (level : Z) : lmk_log_handler :=
  mk_handler (h_type h) (h_name h) level (h_nr_logger_ref h) (h_initialized h) (h_format_fn h) (h_methods h) (h_data h).

Definition set_handler_format (h : lmk_log_handler) (fn : option lmk_format_fn) : lmk_log_handler :=
  mk_handler (h_type h) (h_name h) (h_log_level h) (h_nr_logger_ref h) (h_initialized h) fn (h_methods h) (h_data h).

Definition set_handler_data (h : lmk_log_handler) (d : handler_data) : lmk_log_handler :=
  mk_handler (h_type h) (h_name h) (h_log_level h) (h_nr_logger_ref h) (h_initialized h) (h_format_fn h) (h_methods h) d.

Definition set_logger_refs (l : lmk_logger) (refs : list addr) : lmk_logger :=
  mk_logger (l_name l) (l_log_level l) refs (l_initialized l).

Definition set_logger_level (l : lmk_logger) (level : Z) : lmk_logger :=
  mk_logger (l_name l) level (l_handler_refs l) (l_initialized l).

(** ** The struct behind a base

    A function of a type casts the pointer to the base to the struct of that
    type: an invalid access when the object was allocated as another one. *)

Definition cast_file (h : lmk_log_handler) : outcome (option string * Z * Z) :=
  match h_data h with FileData filename size backups => Ok (filename, size, backups) | _ => Fault end.

Definition cast_socket (h : lmk_log_handler) : outcome (list (string * Z) * option string) :=
  match h_data h with SocketData listeners psk => Ok (listeners, psk) | _ => Fault end.

Definition cast_to (kind : handler_kind) (h : lmk_log_handler) : outcome unit :=
  match kind, h_data h with
  | ConsoleKind, ConsoleData | FileKind, FileData _ _ _ | SocketKind, SocketData _ _ | SyslogKind, SyslogData _ _ => Ok tt
  | _, _ => Fault
  end.

(** [handler->init(handler, NULL)]: a file handler's opens [filename], which must
    not be NULL, and all four read [lmk_get_config()->ring_buffer_size]. *)
Definition call_init (config : option lmk_config) (h : lmk_log_handler) : outcome unit :=
  kind ← deref (m_init (h_methods h)); _ ← cast_to kind h;
  _ ← (match kind with
       | FileKind => '(filename, _, _) ← cast_file h; _ ← deref filename; Ok tt
       | _ => Ok tt
       end);
  _ ← deref config; Ok tt.

(** [if (handler->destroy != NULL) handler->destroy(handler, NULL)]. *)
Definition call_destroy (h : lmk_log_handler) : outcome unit :=
  match m_destroy (h_methods h) with Some kind => cast_to kind h | None => Ok tt end.

(** [handler->log_impl(handler, &log_record)]. *)
Definition call_log_impl (h : lmk_log_handler) : outcome unit :=
  kind ← deref (m_log_impl (h_methods h)); cast_to kind h.

(** ** The destroying loop on lists of addresses *)

(** The entry after [saved] ([None] is the root of the list), and the one before [x]. *)
Fixpoint entry_after (saved : addr) (l : list addr) : option addr :=
  match l with
  | [] => None
  | x :: l' => if decide (x = saved) then head l' else entry_after saved l'
  end.

Fixpoint entry_before (x : addr) (prev : option addr) (l : list addr) : option addr :=
  match l with
  | [] => None
  | y :: l' => if decide (y = x) then prev else entry_before x (Some y) l'
  end.

Definition next_entry (saved : option addr) (l : list addr) : option addr :=
  match saved with None => head l | Some p => entry_after p l end.

(** [LMK_FOR_EACH_ENTRY] with [LMK_SAVE_CURSOR] / [LMK_RESTORE_CURSOR]. *)
Fixpoint saved_loop {W} (entries : W -> list addr) (fuel : nat) (cursor : option addr)
    (body : addr -> W -> outcome W) (w : W) : outcome W :=
  match cursor with
  | None => Ok w
  | Some x =>
      match fuel with
      | O => Timeout
      | S fuel' =>
          let saved := entry_before x None (entries w) in
          w' ← body x w;
          saved_loop entries fuel' (next_entry saved (entries w')) body w'
      end
  end.

(** Removes the first occurrence. *)
Fixpoint remove_first (x : addr) (l : list addr) : list addr :=
  match l with
  | [] => []
  | y :: l' => if decide (y = x) then l' else y :: remove_first x l'
  end.

(** ** Lookup *)

(** [strcmp(name, object->name)] down a list; a NULL name is an invalid access. *)
Fixpoint search_by_name {A} (objects : gmap addr A) (name_of : A -> option string) (name : string)
    (l : list addr) : outcome (option addr) :=
  match l with
  | [] => Ok None
  | a :: l' =>
      o ← deref (objects !! a); n ← deref (name_of o);
      if String.eqb n name then Ok (Some a) else search_by_name objects name_of name l'
  end.

Definition lmk_search_logger_by_name (name : option string) (r : registry) : outcome (option addr) :=
  match name with
  | None => Ok None
  | Some name => search_by_name (g_loggers r) (fun l => Some (l_name l)) name (g_logger_list r)
  end.

Definition lmk_search_log_handler_by_name (name : option string) (r : registry) : outcome (option addr) :=
  match name with
  | None => Ok None
  | Some name => search_by_name (g_handlers r) h_name name (g_handler_list r)
  end.

(** The first handler of a logger's references that has the name. *)
Definition lmk_find_handler (logger : option addr) (handler_name : option string) (r : registry) :
    outcome (option addr) :=
  match logger, handler_name with
  | Some a, Some name =>
      l ← deref (g_loggers r !! a); search_by_name (g_handlers r) h_name name (l_handler_refs l)
  | _, _ => Ok None
  end.

(** ** Operations

    [init] is [lmk_init], which every entry point calls first; [alloc] is the
    address [malloc] returns for the object, or NULL. *)

Section operations.
Context (init : registry -> outcome registry).

(** [lmk_get_logger]; [name_ok] says whether the copy of the name is allocated. *)
Definition lmk_get_logger (alloc : option addr) (name_ok : bool) (name : option string) (r : registry) :
    outcome (option addr * registry) :=
  r ← init r;
  match name with
  | None => Ok (None, r)
  | Some nm =>
      found ← lmk_search_logger_by_name name r;
      match found with
      | Some a => Ok (Some a, r)
      | None =>
          match alloc with
          | None => Ok (None, r)
          | Some a =>
              if negb name_ok then Ok (None, r)
              else
                let logger := mk_logger nm LMK_LOG_LEVEL_INFO [] true in
                Ok (Some a, mk_registry (g_initialized r) (g_config r) (g_logger_list r ++ [a])
                  (g_handler_list r) (<[a := logger]> (g_loggers r)) (g_handlers r) (g_calls r))
          end
      end
  end.

(** [lmk_init_base_log_handler]: the base fields of a zeroed handler; [name_ok]
    says whether the copy of the name is allocated. *)
Definition lmk_init_base_log_handler (type : Z) (methods : handler_methods) (name_ok : bool) (name : string)
    (data : handler_data) : lmk_log_handler :=
  mk_handler type (if name_ok then Some name else None) LMK_LOG_LEVEL_TRACE 0 false None methods data.

(** The functions of a type, as its factory passes them to the base. *)
Definition type_methods (kind : handler_kind) : handler_methods := mk_methods (Some kind) (Some kind) (Some kind).

(** The common body of the factories once the arguments have been checked:
    look the name up, else allocate, initialise and register; [init_ok] says
    whether [init] gets its ring and its thread. *)
Definition make_handler (alloc : option addr) (name_ok init_ok : bool) (type : Z) (methods : handler_methods)
    (name : string) (data : handler_data) (r : registry) : outcome (option addr * registry) :=
  found ← lmk_search_log_handler_by_name (Some name) r;
  match found with
  | Some a => Ok (Some a, r)
  | None =>
      match alloc with
      | None => Ok (None, r)
      | Some a =>
          let handler := lmk_init_base_log_handler type methods name_ok name data in
          _ ← call_init (g_config r) handler;
          let r := add_call (CallInit a) r in
          if negb init_ok then Ok (None, r)
          else
            let handler := mk_handler (h_type handler) (h_name handler) (h_log_level handler)
              (h_nr_logger_ref handler) true (h_format_fn handler) (h_methods handler) (h_data handler) in
            Ok (Some a, mk_registry (g_initialized r) (g_config r) (g_logger_list r)
              (g_handler_list r ++ [a]) (g_loggers r) (<[a := handler]> (g_handlers r)) (g_calls r))
      end
  end.

Definition lmk_get_console_log_handler (alloc : option addr) (name_ok init_ok : bool) (r : registry) :
    outcome (option addr * registry) :=
  r ← init r; make_handler alloc name_ok init_ok LMK_LOG_HANDLER_TYPE_CONSOLE (type_methods ConsoleKind) "console" ConsoleData r.

(** [filename_ok]: the copy of the file name is allocated. *)
Definition lmk_get_file_log_handler (alloc : option addr) (name_ok filename_ok init_ok : bool)
    (name filename : option string) (r : registry) : outcome (option addr * registry) :=
  r ← init r;
  match name, filename with
  | Some name, Some filename =>
      make_handler alloc name_ok init_ok LMK_LOG_HANDLER_TYPE_FILE (type_methods FileKind) name
        (FileData (if filename_ok then Some filename else None) LMK_DEFAULT_MAX_FILE_SIZE LMK_DEFAULT_MAX_BACKUP_FILES) r
  | _, _ => Ok (None, r)
  end.

Definition lmk_get_socket_log_handler (alloc : option addr) (name_ok init_ok : bool)
    (name : option string) (r : registry) : outcome (option addr * registry) :=
  r ← init r;
  match name with
  | Some name => make_handler alloc name_ok init_ok LMK_LOG_HANDLER_TYPE_SOCKET (type_methods SocketKind) name (SocketData [] None) r
  | None => Ok (None, r)
  end.

(** The identity is cut to the 63 bytes its array holds. *)
Definition lmk_get_syslog_log_handler (alloc : option addr) (name_ok init_ok : bool)
    (name ident : option string) (facility : Z) (r : registry) : outcome (option addr * registry) :=
  r ← init r;
  match name with
  | Some name => make_handler alloc name_ok init_ok LMK_LOG_HANDLER_TYPE_SYSLOG (type_methods SyslogKind) name
      (SyslogData (match ident with Some i => str (take 63 (chars i)) | None => "" end) facility) r
  | None => Ok (None, r)
  end.

Definition lmk_get_nr_loggers (r : registry) : outcome (Z * registry) :=
  r ← init r; Ok (s32 (Z.of_nat (length (g_logger_list r))), r).

Definition lmk_get_nr_handlers (r : registry) : outcome (Z * registry) :=
  r ← init r; Ok (s32 (Z.of_nat (length (g_handler_list r))), r).

(** ** Levels and formats *)

Definition lmk_set_log_level (logger : option addr) (log_level : Z) (r : registry) : outcome registry :=
  r ← init r;
  match logger with
  | None => Ok r
  | Some a =>
      l ← deref (g_loggers r !! a);
      if LMK_IS_VALID_LOG_LEVEL log_level then Ok (upd_logger a (set_logger_level l log_level) r) else Ok r
  end.

Definition lmk_get_log_level (logger : option addr) (r : registry) : outcome (Z * registry) :=
  r ← init r;
  match logger with
  | None => Ok (LMK_LOG_LEVEL_UNKNOWN, r)
  | Some a => l ← deref (g_loggers r !! a); Ok (l_log_level l, r)
  end.

Definition lmk_set_handler_log_level (handler : option addr) (log_level : Z) (r : registry) : outcome registry :=
  r ← init r;
  match handler with
  | None => Ok r
  | Some a =>
      h ← deref (g_handlers r !! a);
      if LMK_IS_VALID_LOG_LEVEL log_level then Ok (upd_handler a (set_handler_level h log_level) r) else Ok r
  end.

Definition lmk_get_handler_log_level (handler : option addr) (r : registry) : outcome (Z * registry) :=
  r ← init r;
  match handler with
  | None => Ok (LMK_LOG_LEVEL_UNKNOWN, r)
  | Some a =>
      h ← deref (g_handlers r !! a);
      Ok (if h_initialized h then h_log_level h else LMK_LOG_LEVEL_UNKNOWN, r)
  end.

Definition lmk_set_log_format (handler : option addr) (fn : option lmk_format_fn) (r : registry) :
    outcome registry :=
  match handler with
  | None => Ok r
  | Some a => h ← deref (g_handlers r !! a); Ok (upd_handler a (set_handler_format h fn) r)
  end.

(** ** Settings of one type

    Each tests [handler->type] before it casts the base. *)

(** [lmk_set_log_rotation]. *)
Definition handler_set_rotation (handler : option addr) (max_file_size max_backup_files : Z) (r : registry) :
    outcome registry :=
  match handler with
  | None => Ok r
  | Some ha =>
      h ← deref (g_handlers r !! ha);
      if h_type h =? LMK_LOG_HANDLER_TYPE_FILE then
        '(filename, _, _) ← cast_file h;
        Ok (upd_handler ha (set_handler_data h (FileData filename max_file_size max_backup_files)) r)
      else Ok r
  end.

(** [lmk_set_log_filename]; it locks [handler->lock] before it tests [handler].
    [copy_ok]: the copy of the name is allocated. *)
Definition handler_set_filename (copy_ok : bool) (handler : option addr) (filename : option string) (r : registry) :
    outcome registry :=
  ha ← deref handler; h ← deref (g_handlers r !! ha);
  match filename with
  | None => Ok r
  | Some filename =>
      if h_type h =? LMK_LOG_HANDLER_TYPE_FILE then
        '(_, size, backups) ← cast_file h;
        Ok (upd_handler ha (set_handler_data h (FileData (if copy_ok then Some filename else None) size backups)) r)
      else Ok r
  end.

(** [lmk_set_socket_psk]. *)
Definition handler_set_psk (handler : option addr) (psk : option string) (r : registry) : outcome registry :=
  match handler, psk with
  | Some ha, Some psk =>
      h ← deref (g_handlers r !! ha);
      if negb (h_type h =? LMK_LOG_HANDLER_TYPE_SOCKET) then Ok r
      else
        '(listeners, _) ← cast_socket h;
        Ok (upd_handler ha (set_handler_data h (SocketData listeners (Some psk))) r)
  | _, _ => Ok r
  end.

(** [lmk_attach_log_listener]; [listener_ok]: the list entry is allocated. *)
Definition handler_add_listener (listener_ok : bool) (handler : option addr) (host : option string) (port : Z)
    (r : registry) : outcome registry :=
  match handler, host with
  | Some ha, Some host =>
      if port <=? 0 then Ok r
      else
        h ← deref (g_handlers r !! ha);
        if negb (h_type h =? LMK_LOG_HANDLER_TYPE_SOCKET) then Ok r
        else
          '(listeners, psk) ← cast_socket h;
          if listener_ok then Ok (upd_handler ha (set_handler_data h (SocketData (listeners ++ [(host, port)]) psk)) r)
          else Ok r
  | _, _ => Ok r
  end.

(** ** References *)

Definition lmk_is_log_handler_attached (l : lmk_logger) (handler : addr) : bool :=
  bool_decide (handler ∈ l_handler_refs l).

Definition lmk_attach_log_handler (ref_ok : bool) (logger handler : option addr) (r : registry) :
    outcome (Z * registry) :=
  r ← init r;
  match logger, handler with
  | Some la, Some ha =>
      h ← deref (g_handlers r !! ha);
      if negb (h_initialized h) then Ok (LMK_E_NG, r)
      else
        l ← deref (g_loggers r !! la);
        if lmk_is_log_handler_attached l ha then Ok (LMK_E_OK, r)
        else if negb ref_ok then Ok (LMK_E_NG, r)
        else
          let r := upd_logger la (set_logger_refs l (l_handler_refs l ++ [ha])) r in
          Ok (LMK_E_OK, upd_handler ha (set_handler_refs h (w32 (h_nr_logger_ref h + 1))) r)
  | _, _ => Ok (LMK_E_NG, r)
  end.

Definition lmk_detach_log_handler (logger handler : option addr) (r : registry) : outcome (Z * registry) :=
  r ← init r;
  match logger, handler with
  | Some la, Some ha =>
      l ← deref (g_loggers r !! la);
      if negb (lmk_is_log_handler_attached l ha) then Ok (LMK_E_NG, r)
      else
        let r := upd_logger la (set_logger_refs l (remove_first ha (l_handler_refs l))) r in
        h ← deref (g_handlers r !! ha);
        Ok (LMK_E_OK, upd_handler ha (set_handler_refs h (w32 (h_nr_logger_ref h - 1))) r)
  | _, _ => Ok (LMK_E_NG, r)
  end.

(** ** Destruction *)

Definition logger_refs (la : addr) (r : registry) : list addr :=
  match g_loggers r !! la with Some l => l_handler_refs l | None => [] end.

(** [lmk_destroy_logger(&logger)]: the result and the new value of the pointer. *)
Definition lmk_destroy_logger (fuel : nat) (logger_addr : option (option addr)) (r : registry) :
    outcome (Z * registry) :=
  r ← init r;
  match logger_addr with
  | Some (Some la) =>
      _ ← deref (g_loggers r !! la);
      r ← saved_loop (logger_refs la) fuel (head (logger_refs la r))
            (fun ha r => '(_, r) ← lmk_detach_log_handler (Some la) (Some ha) r; Ok r) r;
      Ok (LMK_E_OK, mk_registry (g_initialized r) (g_config r) (remove_first la (g_logger_list r))
        (g_handler_list r) (delete la (g_loggers r)) (g_handlers r) (g_calls r))
  | _ => Ok (LMK_E_NG, r)
  end.

(** [lmk_destroy_log_handler(&handler)]. *)
Definition lmk_destroy_log_handler (handler_addr : option (option addr)) (r : registry) :
    outcome (Z * registry) :=
  match handler_addr with
  | Some (Some ha) =>
      h ← deref (g_handlers r !! ha);
      if 0 <? h_nr_logger_ref h then Ok (LMK_E_NG, r)
      else
        _ ← call_destroy h;
        let r := add_call (CallDestroy ha) r in
        Ok (LMK_E_OK, mk_registry (g_initialized r) (g_config r) (g_logger_list r)
          (remove_first ha (g_handler_list r)) (g_loggers r) (delete ha (g_handlers r)) (g_calls r))
  | _ => Ok (LMK_E_NG, r)
  end.

(** [lmk_destroy]: the two loops, with fuel for each (and for the inner loops). *)
Definition lmk_destroy (fuel : nat) (r : registry) : outcome registry :=
  if negb (g_initialized r) then Ok r
  else
    r ← saved_loop g_logger_list fuel (head (g_logger_list r))
          (fun la r => '(_, r) ← lmk_destroy_logger fuel (Some (Some la)) r; Ok r) r;
    r ← saved_loop g_handler_list fuel (head (g_handler_list r))
          (fun ha r => '(_, r) ← lmk_destroy_log_handler (Some (Some ha)) r; Ok r) r;
    Ok (mk_registry false None (g_logger_list r) (g_handler_list r) (g_loggers r) (g_handlers r) (g_calls r)).

(** ** Logging *)

(** The calls [handler->log_impl(handler, &log_record)] made for the references. *)
Fixpoint dispatch (handlers : gmap addr lmk_log_handler) (rec : lmk_log_record) (refs : list addr) :
    outcome (list (addr * lmk_log_record)) :=
  match refs with
  | [] => Ok []
  | ha :: refs' =>
      h ← deref (handlers !! ha);
      if h_log_level h <=? rec_log_level rec then
        _ ← call_log_impl h; calls ← dispatch handlers rec refs'; Ok ((ha, rec) :: calls)
      else dispatch handlers rec refs'
  end.

Definition lmk_log_impl (logger : option addr) (file_name : string) (line_no log_level : Z)
    (data : option (list ascii)) (data_len : Z) (r : registry) :
    outcome (Z * list (addr * lmk_log_record)) :=
  match logger, data with
  | Some la, Some data =>
      l ← deref (g_loggers r !! la);
      if negb (l_initialized l) then Ok (LMK_E_NG, [])
      else if negb (LMK_IS_VALID_LOG_LEVEL log_level) then Ok (LMK_E_NG, [])
      else if l_log_level l <=? log_level then
        calls ← dispatch (g_handlers r) (mk_log_record log_level data data_len line_no file_name) (l_handler_refs l);
        Ok (LMK_E_OK, calls)
      else Ok (LMK_E_OK, [])
  | _, _ => Ok (LMK_E_NG, [])
  end.

(** [lmk_log_common]: [text] is what [vsnprintf] would print without a limit
    ([None] when it reports an error), [buf] the thread's format buffer. *)
Definition lmk_log_common (logger : option addr) (file_name : string) (line_no log_level : Z)
    (text : option (list ascii)) (buf : list ascii) (r : registry) :
    outcome (list (addr * lmk_log_record) * list ascii * registry) :=
  r ← init r;
  match logger with
  | None => Ok ([], buf, r)
  | Some la =>
      l ← deref (g_loggers r !! la);
      if negb (LMK_IS_LOG_ENABLED (l_log_level l) log_level) then Ok ([], buf, r)
      else
        let '(buf, n) := match text with
                         | Some text => snprintf buf LMK_LOG_MSG_MAX_SIZE text
                         | None => (buf, -1)
                         end in
        let n := if n <? 0 then 0 else n in
        let n := if LMK_LOG_MSG_MAX_SIZE <=? n then LMK_LOG_MSG_MAX_SIZE - 1 else n in
        '(_, calls) ← lmk_log_impl logger file_name line_no log_level (Some buf) n r;
        Ok (calls, buf, r)
  end.

Definition lmk_log_trace logger file_name line_no :=
  lmk_log_common logger file_name line_no LMK_LOG_LEVEL_TRACE.
Definition lmk_log_debug logger file_name line_no :=
  lmk_log_common logger file_name line_no LMK_LOG_LEVEL_DEBUG.
Definition lmk_log_info logger file_name line_no :=
  lmk_log_common logger file_name line_no LMK_LOG_LEVEL_INFO.
Definition lmk_log_warn logger file_name line_no :=
  lmk_log_common logger file_name line_no LMK_LOG_LEVEL_WARN.
Definition lmk_log_error logger file_name line_no :=
  lmk_log_common logger file_name line_no LMK_LOG_LEVEL_ERROR.
End operations.

(** ** [lmk_init] *)

Definition LMK_CFG_DEFAULT_RING_BUFFER_SIZE : Z := 1024.
Definition LMK_CFG_DEFAULT_LOG_BUFFER_SIZE : Z := 2048.

(** Inside the set-up [g_lmk_initialized] is already 1: the nested calls of
    [lmk_init] return at once. *)
Definition init_done (r : registry) : outcome registry := if g_initialized r then Ok r else Fault.

(** [config_ok]: the configuration can be allocated; [auto_config] is
    [lmk_apply_auto_config], run between the two steps. *)
Definition lmk_init (config_ok : bool) (auto_config : registry -> outcome registry) (r : registry) :
    outcome registry :=
  if g_initialized r then Ok r
  else if negb config_ok then
    Ok (mk_registry false None [] [] (g_loggers r) (g_handlers r) (g_calls r))
  else
    r ← auto_config (mk_registry true (Some (mk_config 0 0)) [] [] (g_loggers r) (g_handlers r) (g_calls r));
    c ← deref (g_config r);
    let c := mk_config
      (if log_buffer_size c <=? 0 then LMK_CFG_DEFAULT_LOG_BUFFER_SIZE else log_buffer_size c)
      (if ring_buffer_size c <=? 0 then LMK_CFG_DEFAULT_RING_BUFFER_SIZE else ring_buffer_size c) in
    Ok (mk_registry (g_initialized r) (Some c) (g_logger_list r) (g_handler_list r)
      (g_loggers r) (g_handlers r) (g_calls r)).
