(* ===== verification/RegistrySafety.v ===== *)
(** The registry's well-formedness invariant and its preservation by every
    operation: listed objects exist, names are unique, every reference points to
    a registered handler, [nr_logger_ref] counts the references, and a handler's
    type tag and its functions are those of its struct.  With it the
    two loops of [lmk_destroy] are shown to terminate. *)
From S2P Require Import Prelude Types Format FileHandler Registry.
Local Open Scope Z_scope.

(** ** Lists *)

Lemma remove_first_notin x l : x ∉ l -> remove_first x l = l.
Proof.
  induction l as [|y l IH]; [done|]. intros Hn. apply not_elem_of_cons in Hn as [Hne Hn]. simpl.
  rewrite decide_False by done. by rewrite IH.
Qed.

Lemma elem_of_remove_first x y l : NoDup l -> y ∈ remove_first x l <-> y ∈ l /\ y <> x.
Proof.
  intros Hnd. induction Hnd as [|z l Hz Hnd IH]; simpl.
  { split; [by intros ?%not_elem_of_nil|by intros [?%not_elem_of_nil _]]. }
  destruct (decide (z = x)) as [->|Hne].
  - rewrite elem_of_cons. split; [|by intros [[->|?] ?]]. intros Hy. split; [by right|]. by intros ->.
  - rewrite !elem_of_cons, IH. split; [intros [->|[? ?]]; auto|intros [[->|?] ?]; auto].
Qed.

Lemma NoDup_remove_first x l : NoDup l -> NoDup (remove_first x l).
Proof.
  intros Hnd. induction Hnd as [|z l Hz Hnd IH]; simpl; [constructor|].
  destruct (decide (z = x)); [done|]. constructor; [|done]. by rewrite elem_of_remove_first by done; intros [? _].
Qed.

Lemma NoDup_snoc {A} (l : list A) x : NoDup l -> x ∉ l -> NoDup (l ++ [x]).
Proof.
  intros Hl Hx. apply NoDup_app. split_and!; [done| |apply NoDup_singleton].
  intros y Hy Hy'. apply elem_of_cons in Hy' as [->|Hy']; [done|]. by apply not_elem_of_nil in Hy'.
Qed.

Lemma elem_of_snoc {A} (l : list A) x y : y ∈ l ++ [x] <-> y ∈ l \/ y = x.
Proof. rewrite elem_of_app, elem_of_cons. split; [intros [?|[?|?%not_elem_of_nil]]|intros [?|?]]; auto; done. Qed.

(** The saved-cursor loop drains a list when its body removes the entry it gets. *)
Lemma saved_loop_drains {W} (entries : W -> list addr) (I : W -> Prop) fuel body w :
  (forall x l w, I w -> entries w = x :: l -> exists w', body x w = Ok w' /\ I w' /\ entries w' = l) ->
  I w -> (length (entries w) <= fuel)%nat ->
  exists w', saved_loop entries fuel (head (entries w)) body w = Ok w' /\ I w' /\ entries w' = [].
Proof.
  intros Hbody. revert w. induction fuel as [|fuel IH]; intros w HI Hfuel.
  - destruct (entries w) as [|x l] eqn:He; [by exists w|simpl in Hfuel; lia].
  - destruct (entries w) as [|x l] eqn:He; [by exists w|]. cbn [head saved_loop].
    rewrite He. cbn [entry_before]. rewrite decide_True by done.
    destruct (Hbody x l w HI He) as (w' & -> & HI' & He'). cbn [mbind outcome_bind next_entry].
    apply IH; [done|]. rewrite He'. simpl in Hfuel. lia.
Qed.

(** ** The invariant *)

Definition refers (ha : addr) (l : lmk_logger) : bool := bool_decide (ha ∈ l_handler_refs l).

Definition logger_ok (handlers : list addr) (l : lmk_logger) : Prop :=
  l_initialized l = true /\ LMK_IS_VALID_LOG_LEVEL (l_log_level l) = true /\
  NoDup (l_handler_refs l) /\ (forall ha, ha ∈ l_handler_refs l -> ha ∈ handlers).

Definition handler_ok (loggers : gmap addr lmk_logger) (ha : addr) (h : lmk_log_handler) : Prop :=
  h_initialized h = true /\ LMK_IS_VALID_LOG_LEVEL (h_log_level h) = true /\ is_Some (h_name h) /\
  h_nr_logger_ref h = w32 (count_if (refers ha) loggers).

(** The type a struct belongs to, and its tag. *)
Definition data_kind (d : handler_data) : handler_kind :=
  match d with
  | ConsoleData => ConsoleKind
  | FileData _ _ _ => FileKind
  | SocketData _ _ => SocketKind
  | SyslogData _ _ => SyslogKind
  end.

Definition kind_type (kind : handler_kind) : Z :=
  match kind with
  | ConsoleKind => LMK_LOG_HANDLER_TYPE_CONSOLE
  | FileKind => LMK_LOG_HANDLER_TYPE_FILE
  | SocketKind => LMK_LOG_HANDLER_TYPE_SOCKET
  | SyslogKind => LMK_LOG_HANDLER_TYPE_SYSLOG
  end.

(** The tag and the functions of the base are those of the struct behind it. *)
Definition handler_typed (h : lmk_log_handler) : Prop :=
  h_type h = kind_type (data_kind (h_data h)) /\ h_methods h = type_methods (data_kind (h_data h)).

Definition file_named (h : lmk_log_handler) : Prop :=
  match h_data h with FileData filename _ _ => is_Some filename | _ => True end.

Definition struct_ok (h : lmk_log_handler) : Prop := handler_typed h /\ file_named h.

Record registry_ok (r : registry) : Prop := {
  ro_init : g_initialized r = true;
  ro_logger_list : NoDup (g_logger_list r) /\ forall a, a ∈ g_logger_list r <-> is_Some (g_loggers r !! a);
  ro_handler_list : NoDup (g_handler_list r) /\ forall a, a ∈ g_handler_list r <-> is_Some (g_handlers r !! a);
  ro_loggers : forall a l, g_loggers r !! a = Some l -> logger_ok (g_handler_list r) l;
  ro_handlers : forall a h, g_handlers r !! a = Some h -> handler_ok (g_loggers r) a h;
  ro_logger_names : forall a b la lb, g_loggers r !! a = Some la -> g_loggers r !! b = Some lb ->
    l_name la = l_name lb -> a = b;
  ro_handler_names : forall a b ha hb, g_handlers r !! a = Some ha -> g_handlers r !! b = Some hb ->
    h_name ha = h_name hb -> a = b;
  ro_structs : forall a h, g_handlers r !! a = Some h -> struct_ok h;
  ro_config : is_Some (g_config r)
}.

(** ** The casts of a typed handler *)

Lemma call_destroy_typed h : handler_typed h -> call_destroy h = Ok tt.
Proof. intros [_ Hm]. unfold call_destroy, cast_to. rewrite Hm. by destruct (h_data h). Qed.

Lemma call_log_impl_typed h : handler_typed h -> call_log_impl h = Ok tt.
Proof. intros [_ Hm]. unfold call_log_impl, cast_to. rewrite Hm. by destruct (h_data h). Qed.

Lemma call_init_ok config h : is_Some config -> struct_ok h -> call_init config h = Ok tt.
Proof.
  intros [c ->] [[_ Hm] Hf]. unfold call_init, cast_to, cast_file, file_named in *. rewrite Hm.
  destruct (h_data h); [done| |done..]. by destruct Hf as [f ->].
Qed.

Lemma cast_file_typed h : handler_typed h -> h_type h = LMK_LOG_HANDLER_TYPE_FILE ->
  exists filename size backups, h_data h = FileData filename size backups /\ cast_file h = Ok (filename, size, backups).
Proof. intros [Ht _] Hf. unfold cast_file. rewrite Hf in Ht. destruct (h_data h); try done. by do 3 eexists. Qed.

Lemma cast_socket_typed h : handler_typed h -> h_type h = LMK_LOG_HANDLER_TYPE_SOCKET ->
  exists listeners psk, h_data h = SocketData listeners psk /\ cast_socket h = Ok (listeners, psk).
Proof. intros [Ht _] Hf. unfold cast_socket. rewrite Hf in Ht. destruct (h_data h); try done. by do 2 eexists. Qed.

(** ** Lookup *)

Lemma search_by_name_spec {A} (objects : gmap addr A) (name_of : A -> option string) name l :
  (forall a, a ∈ l -> exists o n, objects !! a = Some o /\ name_of o = Some n) ->
  exists found, search_by_name objects name_of name l = Ok found /\
    match found with
    | Some a => a ∈ l /\ exists o, objects !! a = Some o /\ name_of o = Some name
    | None => forall a o, a ∈ l -> objects !! a = Some o -> name_of o <> Some name
    end.
Proof.
  induction l as [|a l IH]; intros Hall.
  - exists None. split; [done|]. by intros a o ?%not_elem_of_nil.
  - destruct (Hall a ltac:(by left)) as (o & n & Ho & Hn). simpl. rewrite Ho. simpl. rewrite Hn. simpl.
    destruct (String.eqb_spec n name) as [->|Hne].
    + exists (Some a). split; [done|]. split; [by left|by exists o].
    + destruct IH as (found & -> & Hfound); [intros b Hb; apply Hall; by right|].
      exists found. split; [done|]. destruct found as [b|].
      * destruct Hfound as [? ?]. split; [by right|done].
      * intros b ob Hb Hob. apply elem_of_cons in Hb as [->|Hb]; [congruence|]. by eapply Hfound.
Qed.

Lemma search_logger_spec r name : registry_ok r ->
  exists found, lmk_search_logger_by_name (Some name) r = Ok found /\
    match found with
    | Some a => exists l, g_loggers r !! a = Some l /\ l_name l = name
    | None => forall a l, g_loggers r !! a = Some l -> l_name l <> name
    end.
Proof.
  intros Hok. destruct (ro_logger_list r Hok) as [_ Hdom].
  destruct (search_by_name_spec (g_loggers r) (fun l => Some (l_name l)) name (g_logger_list r))
    as (found & Hs & Hf).
  { intros a [l Hl]%Hdom. by exists l, (l_name l). }
  exists found. split; [done|]. destruct found as [a|].
  - destruct Hf as (_ & l & Hl & [= Hn]). by exists l.
  - intros a l Hl Hn. apply (Hf a l); [apply Hdom; by exists l|done|by rewrite Hn].
Qed.

Lemma search_handler_spec r name : registry_ok r ->
  exists found, lmk_search_log_handler_by_name (Some name) r = Ok found /\
    match found with
    | Some a => exists h, g_handlers r !! a = Some h /\ h_name h = Some name
    | None => forall a h, g_handlers r !! a = Some h -> h_name h <> Some name
    end.
Proof.
  intros Hok. destruct (ro_handler_list r Hok) as [_ Hdom].
  destruct (search_by_name_spec (g_handlers r) h_name name (g_handler_list r)) as (found & Hs & Hf).
  { intros a [h Hh]%Hdom. destruct (ro_handlers r Hok a h Hh) as (_ & _ & [n Hn] & _). by exists h, n. }
  exists found. split; [done|]. destruct found as [a|].
  - destruct Hf as (_ & h & Hh & Hn). by exists h.
  - intros a h Hh. apply (Hf a h); [apply Hdom; by exists h|done].
Qed.

(** ** Updates that keep the invariant *)

(** Replacing a logger by one with the same name and references. *)
Lemma registry_ok_logger r a l l' : registry_ok r -> g_loggers r !! a = Some l ->
  l_name l' = l_name l -> l_handler_refs l' = l_handler_refs l -> l_initialized l' = true ->
  LMK_IS_VALID_LOG_LEVEL (l_log_level l') = true -> registry_ok (upd_logger a l' r).
Proof.
  intros [] Hl Hname Hrefs Hinit Hlevel. split; simpl; try done.
  - split; [apply ro_logger_list0|]. intros b. rewrite (proj2 ro_logger_list0), lookup_insert_is_Some.
    destruct (decide (a = b)) as [<-|]; [split; [by left|by eexists]|]. split; [by right|]. by intros [|[_ ?]].
  - intros b lb [[<- <-]|[_ Hb]]%lookup_insert_Some; [|by eapply ro_loggers0].
    destruct (ro_loggers0 a l Hl) as (_ & _ & ? & ?). unfold logger_ok. by rewrite Hrefs.
  - intros b h Hh. destruct (ro_handlers0 b h Hh) as (? & ? & ? & Hrc). unfold handler_ok.
    rewrite (count_if_update _ _ a l l') by done. split_and!; try done. rewrite Hrc. f_equal.
    unfold refers. rewrite Hrefs. lia.
  - intros b c lb lc [[<- <-]|[Hb Hlb]]%lookup_insert_Some [[<- <-]|[Hc Hlc]]%lookup_insert_Some Hn;
      try done; rewrite ?Hname in Hn; by eapply ro_logger_names0.
Qed.

(** Replacing a handler by one with the same name and count. *)
Lemma registry_ok_handler r a h h' : registry_ok r -> g_handlers r !! a = Some h ->
  h_name h' = h_name h -> h_nr_logger_ref h' = h_nr_logger_ref h -> h_initialized h' = true ->
  LMK_IS_VALID_LOG_LEVEL (h_log_level h') = true -> struct_ok h' -> registry_ok (upd_handler a h' r).
Proof.
  intros [] Hh Hname Hrefs Hinit Hlevel Hstruct. split; simpl; try done.
  - split; [apply ro_handler_list0|]. intros b. rewrite (proj2 ro_handler_list0), lookup_insert_is_Some.
    destruct (decide (a = b)) as [<-|]; [split; [by left|by eexists]|]. split; [by right|]. by intros [|[_ ?]].
  - intros b hb [[<- <-]|[_ Hb]]%lookup_insert_Some; [|by eapply ro_handlers0].
    destruct (ro_handlers0 a h Hh) as (_ & _ & ? & ?). unfold handler_ok. by rewrite Hname, Hrefs.
  - intros b c hb hc [[<- <-]|[Hb Hhb]]%lookup_insert_Some [[<- <-]|[Hc Hhc]]%lookup_insert_Some Hn;
      try done; rewrite ?Hname in Hn; by eapply ro_handler_names0.
  - intros b hb [[<- <-]|[_ Hb]]%lookup_insert_Some; [done|by eapply ro_structs0].
Qed.

(** Changing the references of a logger together with the count of the one
    handler concerned. *)
Lemma registry_ok_refs r la l ha h refs n : registry_ok r ->
  g_loggers r !! la = Some l -> g_handlers r !! ha = Some h ->
  NoDup refs -> (forall x, x ∈ refs -> x ∈ g_handler_list r) ->
  (forall x, x <> ha -> x ∈ refs <-> x ∈ l_handler_refs l) ->
  n = w32 (h_nr_logger_ref h + Z.b2z (bool_decide (ha ∈ refs)) - Z.b2z (bool_decide (ha ∈ l_handler_refs l))) ->
  registry_ok (upd_handler ha (set_handler_refs h n) (upd_logger la (set_logger_refs l refs) r)).
Proof.
  intros [] Hl Hh Hnd Hin Hsame Hn. split; simpl; try done.
  - split; [apply ro_logger_list0|]. intros b. rewrite (proj2 ro_logger_list0), lookup_insert_is_Some.
    destruct (decide (la = b)) as [<-|]; [split; [by left|by eexists]|]. split; [by right|]. by intros [|[_ ?]].
  - split; [apply ro_handler_list0|]. intros b. rewrite (proj2 ro_handler_list0), lookup_insert_is_Some.
    destruct (decide (ha = b)) as [<-|]; [split; [by left|by eexists]|]. split; [by right|]. by intros [|[_ ?]].
  - intros b lb [[<- <-]|[_ Hb]]%lookup_insert_Some; [|by eapply ro_loggers0].
    destruct (ro_loggers0 la l Hl) as (? & ? & _ & _). by split_and!.
  - assert (forall x hx, g_handlers r !! x = Some hx ->
      h_nr_logger_ref hx = w32 (count_if (refers x) (g_loggers r))) as Hrc by (intros x hx Hx; by apply ro_handlers0).
    intros b hb [[<- <-]|[Hb Hhb]]%lookup_insert_Some.
    + destruct (ro_handlers0 ha h Hh) as (? & ? & ? & _). unfold handler_ok. simpl. split_and!; try done.
      rewrite Hn, (count_if_update _ _ la l) by done. rewrite (Hrc ha h Hh). unfold w32, refers. simpl.
      rewrite <- Z.add_sub_assoc, Z.add_mod_idemp_l by lia. f_equal. lia.
    + destruct (ro_handlers0 b hb Hhb) as (? & ? & ? & Hcb). unfold handler_ok. split_and!; try done.
      rewrite (count_if_update _ _ la l) by done. rewrite Hcb. f_equal. unfold refers. simpl.
      rewrite (bool_decide_ext (b ∈ refs) (b ∈ l_handler_refs l)) by (by apply Hsame). lia.
  - intros b c lb lc [[<- <-]|[Hb Hlb]]%lookup_insert_Some [[<- <-]|[Hc Hlc]]%lookup_insert_Some Hname;
      try done; by eapply ro_logger_names0.
  - intros b c hb hc [[<- <-]|[Hb Hhb]]%lookup_insert_Some [[<- <-]|[Hc Hhc]]%lookup_insert_Some Hname;
      try done; by eapply ro_handler_names0.
  - intros b hb [[<- <-]|[_ Hb]]%lookup_insert_Some; [exact (ro_structs0 ha h Hh)|by eapply ro_structs0].
Qed.

(** ** Operations *)

Section operations.
Context (init : registry -> outcome registry).
Hypothesis init_initialized : forall r, g_initialized r = true -> init r = Ok r.

Lemma init_ok r : registry_ok r -> init r = Ok r.
Proof. intros Hok. apply init_initialized, Hok. Qed.

Definition fresh (a : addr) (r : registry) : Prop := g_loggers r !! a = None /\ g_handlers r !! a = None.

Lemma logger_ok_more handlers handlers' l : (forall a, a ∈ handlers -> a ∈ handlers') ->
  logger_ok handlers l -> logger_ok handlers' l.
Proof. intros Hin (? & ? & ? & Hrefs). split_and!; try done. intros a Ha. by apply Hin, Hrefs. Qed.

(** A new, unreferenced handler. *)
Lemma registry_ok_add_handler r a h calls : registry_ok r -> fresh a r ->
  h_initialized h = true -> LMK_IS_VALID_LOG_LEVEL (h_log_level h) = true -> is_Some (h_name h) ->
  h_nr_logger_ref h = 0 -> (forall b hb, g_handlers r !! b = Some hb -> h_name hb <> h_name h) -> struct_ok h ->
  registry_ok (mk_registry (g_initialized r) (g_config r) (g_logger_list r)
    (g_handler_list r ++ [a]) (g_loggers r) (<[a := h]> (g_handlers r)) calls).
Proof.
  intros [] [_ Hfresh] Hi Hlevel Hname Hrefs Huniq Hstruct.
  destruct ro_handler_list0 as [Hnd Hdom].
  assert (a ∉ g_handler_list r) as Hnotin by (rewrite Hdom, Hfresh; by intros []).
  split; simpl; try done.
  - split; [by apply NoDup_snoc|]. intros b. rewrite elem_of_snoc, Hdom, lookup_insert_is_Some.
    destruct (decide (a = b)) as [<-|]; [split; auto|]. split; [intros [|]; [by right|done]|intros [|[_ ?]]; [done|by left]].
  - intros b l Hl. eapply logger_ok_more; [|by eapply ro_loggers0]. intros c Hc. apply elem_of_app. by left.
  - intros b hb [[<- <-]|[Hb Hhb]]%lookup_insert_Some; [|by apply ro_handlers0].
    split_and!; try done. rewrite Hrefs, count_if_zero; [done|].
    intros la l Hl. apply bool_decide_eq_false_2. intros Hin. apply Hnotin.
    by apply (ro_loggers0 la l Hl).
  - intros b c hb hc [[<- <-]|[Hb Hhb]]%lookup_insert_Some [[<- <-]|[Hc Hhc]]%lookup_insert_Some Hn;
      try done; [by destruct (Huniq c hc Hhc)|by destruct (Huniq b hb Hhb)|by eapply ro_handler_names0].
  - intros b hb [[<- <-]|[_ Hb]]%lookup_insert_Some; [done|by eapply ro_structs0].
Qed.

Lemma registry_ok_add_logger r a name : registry_ok r -> fresh a r ->
  (forall b l, g_loggers r !! b = Some l -> l_name l <> name) ->
  registry_ok (mk_registry (g_initialized r) (g_config r) (g_logger_list r ++ [a])
    (g_handler_list r) (<[a := mk_logger name LMK_LOG_LEVEL_INFO [] true]> (g_loggers r)) (g_handlers r) (g_calls r)).
Proof.
  intros [] [Hfresh _] Huniq. destruct ro_logger_list0 as [Hnd Hdom].
  assert (a ∉ g_logger_list r) as Hnotin by (rewrite Hdom, Hfresh; by intros []).
  split; simpl; try done.
  - split; [by apply NoDup_snoc|]. intros b. rewrite elem_of_snoc, Hdom, lookup_insert_is_Some.
    destruct (decide (a = b)) as [<-|]; [split; auto|]. split; [intros [|]; [by right|done]|intros [|[_ ?]]; [done|by left]].
  - intros b l [[<- <-]|[_ Hb]]%lookup_insert_Some; [|by eapply ro_loggers0].
    split_and!; try done; [constructor|]. by intros ha ?%not_elem_of_nil.
  - intros b h Hh. destruct (ro_handlers0 b h Hh) as (? & ? & ? & Hrc). split_and!; try done.
    rewrite count_if_insert by done. rewrite Hrc. f_equal. unfold refers at 3. simpl. lia.
  - intros b c lb lc [[<- <-]|[Hb Hlb]]%lookup_insert_Some [[<- <-]|[Hc Hlc]]%lookup_insert_Some Hn;
      try done; [by destruct (Huniq c lc Hlc)|by destruct (Huniq b lb Hlb)|by eapply ro_logger_names0].
Qed.

(** [lmk_get_logger] finds the logger of the name, or makes one. *)
Lemma get_logger_spec alloc name_ok name r : registry_ok r ->
  (forall a, alloc = Some a -> fresh a r) ->
  exists res r', lmk_get_logger init alloc name_ok (Some name) r = Ok (res, r') /\ registry_ok r' /\
    ((exists a l, res = Some a /\ g_loggers r !! a = Some l /\ l_name l = name /\ r' = r) \/
     ((forall a l, g_loggers r !! a = Some l -> l_name l <> name) /\
      (exists a, alloc = Some a /\ name_ok = true /\ res = Some a /\ g_logger_list r' = g_logger_list r ++ [a] /\
        g_loggers r' = <[a := mk_logger name LMK_LOG_LEVEL_INFO [] true]> (g_loggers r) /\
        g_handlers r' = g_handlers r)) \/
     ((forall a l, g_loggers r !! a = Some l -> l_name l <> name) /\
      (alloc = None \/ name_ok = false) /\ res = None /\ r' = r)).
Proof.
  intros Hok Hfresh. unfold lmk_get_logger. rewrite init_ok by done. cbn [mbind outcome_bind].
  destruct (search_logger_spec r name Hok) as (found & -> & Hfound). cbn [mbind outcome_bind].
  destruct found as [a|].
  { destruct Hfound as (l & Hl & Hn). do 2 eexists. split; [done|]. split; [done|]. left. by exists a, l. }
  destruct alloc as [a|]; [|do 2 eexists; split; [done|]; split; [done|]; right; right; auto].
  destruct name_ok; simpl; [|do 2 eexists; split; [done|]; split; [done|]; right; right; auto].
  do 2 eexists. split; [done|]. split; [by apply registry_ok_add_logger; [|apply Hfresh|]|].
  right. left. split; [done|]. by exists a.
Qed.

Lemma registry_ok_add_call c r : registry_ok r -> registry_ok (add_call c r).
Proof. by intros []. Qed.

(** The handler a factory of a type makes. *)
Definition new_handler_of (name : string) (data : handler_data) : lmk_log_handler :=
  mk_handler (kind_type (data_kind data)) (Some name) LMK_LOG_LEVEL_TRACE 0 true None (type_methods (data_kind data)) data.

(** The data a factory starts with: a file handler's has a file name. *)
Definition data_named (data : handler_data) : Prop :=
  match data with FileData filename _ _ => is_Some filename | _ => True end.

(** The factories find the handler of the name, whatever its type, or make one. *)
Lemma make_handler_spec alloc init_ok type methods name data r : registry_ok r ->
  (forall a, alloc = Some a -> fresh a r) ->
  type = kind_type (data_kind data) -> methods = type_methods (data_kind data) -> data_named data ->
  exists res r', make_handler alloc true init_ok type methods name data r = Ok (res, r') /\ registry_ok r' /\
    ((exists a h, res = Some a /\ g_handlers r !! a = Some h /\ h_name h = Some name /\ r' = r) \/
     ((forall a h, g_handlers r !! a = Some h -> h_name h <> Some name) /\
      (exists a, alloc = Some a /\ init_ok = true /\ res = Some a /\ g_handler_list r' = g_handler_list r ++ [a] /\
        g_handlers r' = <[a := new_handler_of name data]> (g_handlers r) /\
        g_loggers r' = g_loggers r /\ g_calls r' = g_calls r ++ [CallInit a])) \/
     ((forall a h, g_handlers r !! a = Some h -> h_name h <> Some name) /\ res = None /\
      ((alloc = None /\ r' = r) \/ (exists a, alloc = Some a /\ init_ok = false /\ r' = add_call (CallInit a) r)))).
Proof.
  intros Hok Hfresh -> -> Hnamed. unfold make_handler.
  destruct (search_handler_spec r name Hok) as (found & -> & Hfound). cbn [mbind outcome_bind].
  destruct found as [a|].
  { destruct Hfound as (h & Hh & Hn). do 2 eexists. split; [done|]. split; [done|]. left. by exists a, h. }
  destruct alloc as [a|]; [|do 2 eexists; split; [done|]; split; [done|]; right; right; auto].
  rewrite call_init_ok by first [apply (ro_config r Hok)|done]. rewrite outcome_bind_ok. destruct init_ok; cbn [negb].
  2: { do 2 eexists. split; [done|]. split; [by apply registry_ok_add_call|]. right. right. split_and!; try done.
       right. by exists a. }
  do 2 eexists. split; [done|].
  split; [by apply (registry_ok_add_handler r); [|apply Hfresh|..]|].
  right. left. split; [done|]. by exists a.
Qed.

Lemma attach_spec ref_ok la ha l h r : registry_ok r ->
  g_loggers r !! la = Some l -> g_handlers r !! ha = Some h ->
  exists res r', lmk_attach_log_handler init ref_ok (Some la) (Some ha) r = Ok (res, r') /\ registry_ok r' /\
    if bool_decide (ha ∈ l_handler_refs l) then res = LMK_E_OK /\ r' = r
    else if ref_ok then res = LMK_E_OK /\
      r' = upd_handler ha (set_handler_refs h (w32 (h_nr_logger_ref h + 1)))
             (upd_logger la (set_logger_refs l (l_handler_refs l ++ [ha])) r)
    else res = LMK_E_NG /\ r' = r.
Proof.
  intros Hok Hl Hh. unfold lmk_attach_log_handler. rewrite init_ok by done. cbn [mbind outcome_bind].
  rewrite Hh. cbn [deref mbind outcome_bind]. destruct (ro_handlers r Hok ha h Hh) as (Hi & _ & _ & _). rewrite Hi.
  rewrite Hl. simpl. unfold lmk_is_log_handler_attached.
  destruct (bool_decide (ha ∈ l_handler_refs l)) eqn:Hin; [by do 2 eexists|].
  apply bool_decide_eq_false in Hin.
  destruct ref_ok; simpl; [|by do 2 eexists]. do 2 eexists. split; [done|]. split; [|done].
  destruct (ro_loggers r Hok la l Hl) as (_ & _ & Hnd & Hrefs).
  apply (registry_ok_refs r la l ha h); try done.
  - by apply NoDup_snoc.
  - intros x. rewrite elem_of_snoc. intros [Hx| ->]; [by apply Hrefs|].
    apply (ro_handler_list r Hok). by exists h.
  - intros x Hx. rewrite elem_of_snoc. split; [by intros [|]|by left].
  - rewrite (bool_decide_eq_true_2 (ha ∈ _ ++ _)) by (apply elem_of_snoc; by right).
    rewrite bool_decide_eq_false_2 by done. simpl. f_equal. lia.
Qed.

Lemma detach_spec la ha l h r : registry_ok r ->
  g_loggers r !! la = Some l -> g_handlers r !! ha = Some h ->
  exists res r', lmk_detach_log_handler init (Some la) (Some ha) r = Ok (res, r') /\ registry_ok r' /\
    if bool_decide (ha ∈ l_handler_refs l) then res = LMK_E_OK /\
      r' = upd_handler ha (set_handler_refs h (w32 (h_nr_logger_ref h - 1)))
             (upd_logger la (set_logger_refs l (remove_first ha (l_handler_refs l))) r)
    else res = LMK_E_NG /\ r' = r.
Proof.
  intros Hok Hl Hh. unfold lmk_detach_log_handler. rewrite init_ok by done. cbn [mbind outcome_bind].
  rewrite Hl. cbn [deref mbind outcome_bind]. unfold lmk_is_log_handler_attached.
  destruct (bool_decide (ha ∈ l_handler_refs l)) eqn:Hin; simpl; [|by do 2 eexists].
  apply bool_decide_eq_true in Hin. rewrite Hh. simpl. do 2 eexists. split; [done|]. split; [|done].
  destruct (ro_loggers r Hok la l Hl) as (_ & _ & Hnd & Hrefs).
  apply (registry_ok_refs r la l ha h); try done.
  - by apply NoDup_remove_first.
  - intros x. rewrite elem_of_remove_first by done. intros [Hx _]. by apply Hrefs.
  - intros x Hx. rewrite elem_of_remove_first by done. split; [by intros []|done].
  - rewrite (bool_decide_eq_false_2 (ha ∈ remove_first _ _)) by (rewrite elem_of_remove_first by done; by intros []).
    rewrite bool_decide_eq_true_2 by done. simpl. f_equal. lia.
Qed.

(** *** Destruction *)

(** What detaching the handlers of [la] preserves. *)
Definition detaching (r0 : registry) (la : addr) (name : string) (r : registry) : Prop :=
  registry_ok r /\ (exists l, g_loggers r !! la = Some l /\ l_name l = name) /\
  g_config r = g_config r0 /\ g_logger_list r = g_logger_list r0 /\ g_handler_list r = g_handler_list r0 /\
  (forall b, b <> la -> g_loggers r !! b = g_loggers r0 !! b) /\ g_calls r = g_calls r0 /\
  (forall b h, g_handlers r !! b = Some h -> exists n h0, g_handlers r0 !! b = Some h0 /\ h = set_handler_refs h0 n).

Lemma detaching_step r0 la name ha rest r : detaching r0 la name r -> logger_refs la r = ha :: rest ->
  exists r', ('(_, r') ← lmk_detach_log_handler init (Some la) (Some ha) r; Ok r') = Ok r' /\
    detaching r0 la name r' /\ logger_refs la r' = rest.
Proof.
  intros (Hok & (l & Hl & Hname) & Hc & Hll & Hhl & Hother & Hcalls & Hhs) Hrefs.
  unfold logger_refs in Hrefs. rewrite Hl in Hrefs.
  assert (exists h, g_handlers r !! ha = Some h) as [h Hh].
  { apply (ro_handler_list r Hok), (ro_loggers r Hok la l Hl). rewrite Hrefs. by left. }
  destruct (detach_spec la ha l h r Hok Hl Hh) as (res & r' & -> & Hok' & Hres).
  rewrite bool_decide_eq_true_2 in Hres by (rewrite Hrefs; by left). destruct Hres as [_ ->].
  exists (upd_handler ha (set_handler_refs h (w32 (h_nr_logger_ref h - 1)))
    (upd_logger la (set_logger_refs l (remove_first ha (l_handler_refs l))) r)).
  split; [done|]. split.
  - split_and!; try done; simpl.
    + eexists. by rewrite lookup_insert_eq.
    + intros b Hb. rewrite lookup_insert_ne by done. by apply Hother.
    + intros b hb [[<- <-]|[Hb Hhb]]%lookup_insert_Some; [|by apply Hhs].
      destruct (Hhs ha h Hh) as (n & h0 & Hh0 & ->). by do 2 eexists.
  - unfold logger_refs. simpl. rewrite lookup_insert_eq. simpl. rewrite Hrefs. simpl. by rewrite decide_True.
Qed.

Lemma destroy_logger_spec fuel la l r : registry_ok r -> g_loggers r !! la = Some l ->
  (length (l_handler_refs l) <= fuel)%nat ->
  exists r', lmk_destroy_logger init fuel (Some (Some la)) r = Ok (LMK_E_OK, r') /\ registry_ok r' /\
    g_logger_list r' = remove_first la (g_logger_list r) /\ g_handler_list r' = g_handler_list r /\
    g_loggers r' = delete la (g_loggers r) /\ g_calls r' = g_calls r /\
    (forall b h, g_handlers r' !! b = Some h -> exists n h0, g_handlers r !! b = Some h0 /\ h = set_handler_refs h0 n).
Proof.
  intros Hok Hl Hfuel. unfold lmk_destroy_logger. rewrite init_ok by done. cbn [mbind outcome_bind].
  rewrite Hl. cbn [deref mbind outcome_bind].
  destruct (saved_loop_drains (logger_refs la) (detaching r la (l_name l)) fuel
    (fun ha r => '(_, r) ← lmk_detach_log_handler init (Some la) (Some ha) r; Ok r) r)
    as (r1 & -> & (Hok1 & (l1 & Hl1 & Hname1) & Hc1 & Hll & Hhl & Hother & Hcalls & Hhs) & Hempty).
  - intros ha rest w HI Hrefs. by eapply detaching_step.
  - split_and!; try done; [by exists l|]. intros b h Hh. exists (h_nr_logger_ref h), h. by destruct h.
  - unfold logger_refs. by rewrite Hl.
  - cbn [mbind outcome_bind]. eexists. split; [done|]. unfold logger_refs in Hempty. rewrite Hl1 in Hempty.
    assert (delete la (g_loggers r1) = delete la (g_loggers r)) as Hdel.
    { apply map_eq. intros b. destruct (decide (b = la)) as [->|]; [by rewrite !lookup_delete_eq|].
      rewrite !lookup_delete_ne by done. by apply Hother. }
    split; [|simpl; rewrite Hll, Hhl, Hdel; by split_and!].
    destruct Hok1. split; simpl; try done.
    + destruct ro_logger_list0 as [Hnd Hdom]. split; [by apply NoDup_remove_first|].
      intros b. rewrite elem_of_remove_first, Hdom, lookup_delete_is_Some by done.
    split; intros [? ?]; auto.
    + intros b lb [_ Hb]%lookup_delete_Some. by eapply ro_loggers0.
    + intros b h Hh. destruct (ro_handlers0 b h Hh) as (? & ? & ? & Hrc). split_and!; try done.
      rewrite Hrc, (count_if_delete _ _ la l1) by done. unfold refers at 2. rewrite Hempty.
      rewrite bool_decide_eq_false_2 by (apply not_elem_of_nil). simpl. f_equal. lia.
    + intros b c lb lc [_ Hb]%lookup_delete_Some [_ Hc]%lookup_delete_Some. by apply ro_logger_names0.
Qed.

Lemma destroy_handler_spec ha h r : registry_ok r -> g_handlers r !! ha = Some h ->
  exists res r', lmk_destroy_log_handler (Some (Some ha)) r = Ok (res, r') /\
    if 0 <? h_nr_logger_ref h then res = LMK_E_NG /\ r' = r
    else res = LMK_E_OK /\ g_handler_list r' = remove_first ha (g_handler_list r) /\
      g_handlers r' = delete ha (g_handlers r) /\ g_logger_list r' = g_logger_list r /\
      g_loggers r' = g_loggers r /\ g_initialized r' = g_initialized r /\ g_config r' = g_config r /\
      g_calls r' = g_calls r ++ [CallDestroy ha].
Proof.
  intros Hok Hh. unfold lmk_destroy_log_handler. rewrite Hh. cbn [deref mbind outcome_bind].
  rewrite (call_destroy_typed h) by apply (ro_structs r Hok ha h Hh). cbn [mbind outcome_bind].
  destruct (0 <? h_nr_logger_ref h); by do 2 eexists.
Qed.

(** A destroyed handler was referenced by no logger, so the rest stays well formed. *)
Lemma registry_ok_delete_handler r r' ha h : registry_ok r -> g_handlers r !! ha = Some h ->
  count_if (refers ha) (g_loggers r) = 0 ->
  g_handler_list r' = remove_first ha (g_handler_list r) -> g_handlers r' = delete ha (g_handlers r) ->
  g_logger_list r' = g_logger_list r -> g_loggers r' = g_loggers r -> g_initialized r' = g_initialized r ->
  g_config r' = g_config r -> registry_ok r'.
Proof.
  intros [] Hh Hzero Hhl Hhs Hll Hls Hi Hcfg. split; rewrite ?Hcfg, ?Hi, ?Hll, ?Hls, ?Hhl, ?Hhs; try done.
  - destruct ro_handler_list0 as [Hnd Hdom]. split; [by apply NoDup_remove_first|].
    intros b. rewrite elem_of_remove_first, Hdom, lookup_delete_is_Some by done.
    split; intros [? ?]; auto.
  - intros a l Hl. destruct (ro_loggers0 a l Hl) as (? & ? & ? & Hrefs). split_and!; try done.
    intros b Hb. apply elem_of_remove_first; [apply ro_handler_list0|]. split; [by apply Hrefs|].
    intros ->. pose proof (count_if_pos (refers ha) _ a l Hl ltac:(by apply bool_decide_eq_true_2)). lia.
  - intros b hb [_ Hb]%lookup_delete_Some. by apply ro_handlers0.
  - intros b c hb hc [_ Hb]%lookup_delete_Some [_ Hc]%lookup_delete_Some. by apply ro_handler_names0.
  - intros b hb [_ Hb]%lookup_delete_Some. by eapply ro_structs0.
Qed.

(** *** [lmk_destroy] *)

Definition all_refs_fit (fuel : nat) (r : registry) : Prop :=
  forall a l, g_loggers r !! a = Some l -> (length (l_handler_refs l) <= fuel)%nat.

(** The objects of an empty list are gone. *)
Lemma no_loggers r : registry_ok r -> g_logger_list r = [] -> g_loggers r = ∅.
Proof.
  intros Hok Hnil. apply map_empty. intros a. destruct (g_loggers r !! a) eqn:Ha; [|done].
  assert (a ∈ g_logger_list r) as Hin by (apply (ro_logger_list r Hok); by eexists).
  rewrite Hnil in Hin. by apply not_elem_of_nil in Hin.
Qed.

Lemma no_handlers r : registry_ok r -> g_handler_list r = [] -> g_handlers r = ∅.
Proof.
  intros Hok Hnil. apply map_empty. intros a. destruct (g_handlers r !! a) eqn:Ha; [|done].
  assert (a ∈ g_handler_list r) as Hin by (apply (ro_handler_list r Hok); by eexists).
  rewrite Hnil in Hin. by apply not_elem_of_nil in Hin.
Qed.

(** The first loop of [lmk_destroy]. *)
Lemma destroy_loggers_loop fuel r : registry_ok r -> (length (g_logger_list r) <= fuel)%nat -> all_refs_fit fuel r ->
  exists r', saved_loop g_logger_list fuel (head (g_logger_list r))
      (fun la r => '(_, r) ← lmk_destroy_logger init fuel (Some (Some la)) r; Ok r) r = Ok r' /\
    registry_ok r' /\ g_logger_list r' = [] /\ g_handler_list r' = g_handler_list r /\ g_calls r' = g_calls r.
Proof.
  intros Hok Hfl Hfit.
  destruct (saved_loop_drains g_logger_list
    (fun r1 => registry_ok r1 /\ all_refs_fit fuel r1 /\ g_handler_list r1 = g_handler_list r /\ g_calls r1 = g_calls r) fuel
    (fun la r => '(_, r) ← lmk_destroy_logger init fuel (Some (Some la)) r; Ok r) r)
    as (r1 & -> & (Hok1 & _ & Hhl1 & Hc1) & Hempty1); [|done..|by exists r1].
  intros la rest w (Hokw & Hfitw & Hhlw & Hcw) Hlist.
  assert (exists l, g_loggers w !! la = Some l) as [l Hl].
  { apply (ro_logger_list w Hokw). rewrite Hlist. by left. }
  destruct (destroy_logger_spec fuel la l w Hokw Hl (Hfitw la l Hl)) as (w' & -> & Hok' & Hll' & Hhl' & Hls' & Hc' & _).
  exists w'. split; [done|]. split; [split_and!; [done| |congruence..]|].
  - intros a la' Ha. rewrite Hls' in Ha. apply lookup_delete_Some in Ha as [_ Ha]. by eapply Hfitw.
  - rewrite Hll', Hlist. simpl. by rewrite decide_True.
Qed.

(** The second loop, which runs when no loggers are left. *)
Lemma destroy_handlers_loop fuel r : registry_ok r -> (length (g_handler_list r) <= fuel)%nat -> g_logger_list r = [] ->
  exists r', saved_loop g_handler_list fuel (head (g_handler_list r))
      (fun ha r => '(_, r) ← lmk_destroy_log_handler (Some (Some ha)) r; Ok r) r = Ok r' /\
    registry_ok r' /\ g_logger_list r' = [] /\ g_handler_list r' = [] /\
    g_calls r' = g_calls r ++ map CallDestroy (g_handler_list r).
Proof.
  intros Hok Hfh Hnil.
  destruct (saved_loop_drains g_handler_list
    (fun r2 => registry_ok r2 /\ g_logger_list r2 = [] /\
      g_calls r2 ++ map CallDestroy (g_handler_list r2) = g_calls r ++ map CallDestroy (g_handler_list r)) fuel
    (fun ha r => '(_, r) ← lmk_destroy_log_handler (Some (Some ha)) r; Ok r) r)
    as (r2 & -> & (Hok2 & Hnil2 & Hc2) & Hempty2); [|done..|].
  - intros ha rest w (Hokw & Hnilw & Hcw) Hlist.
    assert (exists h, g_handlers w !! ha = Some h) as [h Hh].
    { apply (ro_handler_list w Hokw). rewrite Hlist. by left. }
    assert (count_if (refers ha) (g_loggers w) = 0) as Hzero.
    { rewrite (no_loggers w Hokw Hnilw). by apply count_if_zero. }
    destruct (ro_handlers w Hokw ha h Hh) as (_ & _ & _ & Hrc). rewrite Hzero in Hrc.
    destruct (destroy_handler_spec ha h w Hokw Hh) as (res & w' & -> & Hres).
    rewrite Hrc in Hres. simpl in Hres. destruct Hres as (_ & Hhl' & Hhs' & Hll' & Hls' & Hi' & Hcfg' & Hc').
    assert (g_handler_list w' = rest) as Hrest by (rewrite Hhl', Hlist; simpl; by rewrite decide_True).
    exists w'. split; [done|]. split; [split_and!|done].
    + by eapply (registry_ok_delete_handler w w').
    + congruence.
    + rewrite <- Hcw, Hrest, Hc', Hlist, <- app_assoc. done.
  - exists r2. rewrite Hempty2, app_nil_r in Hc2. done.
Qed.

Lemma destroy_terminates fuel r : registry_ok r ->
  (length (g_logger_list r) <= fuel)%nat -> (length (g_handler_list r) <= fuel)%nat ->
  all_refs_fit fuel r ->
  lmk_destroy init fuel r =
    Ok (mk_registry false None [] [] ∅ ∅ (g_calls r ++ map CallDestroy (g_handler_list r))).
Proof.
  intros Hok Hfl Hfh Hfit. unfold lmk_destroy. rewrite (ro_init r Hok). cbn [negb].
  destruct (destroy_loggers_loop fuel r Hok Hfl Hfit) as (r1 & -> & Hok1 & Hnil1 & Hhl1 & Hc1).
  rewrite outcome_bind_ok.
  destruct (destroy_handlers_loop fuel r1 Hok1 ltac:(by rewrite Hhl1) Hnil1) as (r2 & -> & Hok2 & Hnil2 & Hhl2 & Hc2).
  rewrite outcome_bind_ok. rewrite Hnil2, Hhl2, (no_loggers r2 Hok2 Hnil2), (no_handlers r2 Hok2 Hhl2), Hc2, Hc1, Hhl1.
  done.
Qed.

(** *** Logging *)

Definition accepts (r : registry) (level : Z) (ha : addr) : bool :=
  match g_handlers r !! ha with Some h => h_log_level h <=? level | None => false end.

Lemma dispatch_spec r rec refs : registry_ok r -> (forall a, a ∈ refs -> a ∈ g_handler_list r) ->
  dispatch (g_handlers r) rec refs =
    Ok (map (fun a => (a, rec)) (filter (fun a => accepts r (rec_log_level rec) a = true) refs)).
Proof.
  intros Hok. induction refs as [|a refs IH]; intros Hin; [done|].
  assert (exists h, g_handlers r !! a = Some h) as [h Hh] by (apply (ro_handler_list r Hok), Hin; by left).
  cbn [dispatch]. rewrite Hh. cbn [deref]. rewrite outcome_bind_ok, IH by (intros b Hb; apply Hin; by right).
  rewrite (call_log_impl_typed h) by apply (ro_structs r Hok a h Hh). rewrite !outcome_bind_ok.
  destruct (h_log_level h <=? rec_log_level rec) eqn:Hle; f_equal.
  - rewrite filter_cons_True; [done|]. unfold accepts. by rewrite Hh.
  - rewrite filter_cons_False; [done|]. unfold accepts. by rewrite Hh, Hle.
Qed.

Lemma log_impl_spec r la l file_name line_no level data len : registry_ok r -> g_loggers r !! la = Some l ->
  LMK_IS_VALID_LOG_LEVEL level = true ->
  lmk_log_impl (Some la) file_name line_no level (Some data) len r =
    Ok (LMK_E_OK, if l_log_level l <=? level then
      map (fun a => (a, mk_log_record level data len line_no file_name))
        (filter (fun a => accepts r level a = true) (l_handler_refs l)) else []).
Proof.
  intros Hok Hl Hlevel. unfold lmk_log_impl. rewrite Hl. cbn [deref]. rewrite outcome_bind_ok.
  destruct (ro_loggers r Hok la l Hl) as (Hi & _ & _ & Hrefs). rewrite Hi, Hlevel. simpl.
  destruct (l_log_level l <=? level); [|done].
  by rewrite (dispatch_spec r) by done.
Qed.

(** The message the handlers get: the text cut to what the format buffer holds. *)
Definition message_of (text : list ascii) : list ascii := take (Z.to_nat (LMK_LOG_MSG_MAX_SIZE - 1)) text.

Lemma log_common_spec r la l file_name line_no level text buf : registry_ok r -> g_loggers r !! la = Some l ->
  LMK_IS_VALID_LOG_LEVEL level = true -> length buf = Z.to_nat LMK_LOG_MSG_MAX_SIZE ->
  Z.of_nat (length text) <= INT_MAX ->
  if l_log_level l <=? level then
    exists buf' n, lmk_log_common init (Some la) file_name line_no level (Some text) buf r =
        Ok (map (fun a => (a, mk_log_record level buf' n line_no file_name))
              (filter (fun a => accepts r level a = true) (l_handler_refs l)), buf', r) /\
      length buf' = length buf /\ n = Z.of_nat (length (message_of text)) /\
      take (Z.to_nat n) buf' = message_of text /\
      wf_record (mk_log_record level buf' n line_no file_name)
  else lmk_log_common init (Some la) file_name line_no level (Some text) buf r = Ok ([], buf, r).
Proof.
  intros Hok Hl Hlevel Hbuf Hlen. unfold lmk_log_common. rewrite init_ok by done. rewrite outcome_bind_ok.
  rewrite Hl. cbn [deref]. rewrite outcome_bind_ok. unfold LMK_IS_LOG_ENABLED.
  destruct (l_log_level l <=? level) eqn:Henabled; cbn [negb]; [|done].
  pose proof (length_snprintf buf LMK_LOG_MSG_MAX_SIZE text ltac:(unfold LMK_LOG_MSG_MAX_SIZE in *; lia)) as Hl'.
  pose proof (snprintf_prefix buf LMK_LOG_MSG_MAX_SIZE text ltac:(unfold LMK_LOG_MSG_MAX_SIZE; lia)) as Hp.
  assert ((snprintf buf LMK_LOG_MSG_MAX_SIZE text).2 = Z.of_nat (length text)) as Hn.
  { unfold snprintf. simpl. destruct (Z.leb_spec (Z.of_nat (length text)) INT_MAX); [done|lia]. }
  destruct (snprintf buf LMK_LOG_MSG_MAX_SIZE text) as [buf' n]. simpl in Hl', Hp, Hn. subst n.
  fold (message_of text) in Hp.
  assert (length (message_of text) = Nat.min 2047 (length text)) as Hm by apply length_take.
  set (n := if LMK_LOG_MSG_MAX_SIZE <=? _ then _ else _).
  assert (n = Z.of_nat (length (message_of text))) as Hn.
  { unfold n, LMK_LOG_MSG_MAX_SIZE. destruct (Z.ltb_spec (Z.of_nat (length text)) 0); [lia|].
    destruct (Z.leb_spec 2048 (Z.of_nat (length text))); lia. }
  rewrite (log_impl_spec r la l) by done. rewrite outcome_bind_ok, Henabled.
  exists buf', n. split; [done|]. rewrite Hn, Nat2Z.id. split_and!; try done.
  unfold LMK_LOG_MSG_MAX_SIZE in *. split; simpl; lia.
Qed.
End operations.
