(* ===== verification/RegistryTheorems.v ===== *)
(** The registry's contract: the public operations on loggers and handlers are
    safe and keep the registry well formed, look-ups find or create, attaching
    and detaching are inverse, a handler is destroyed exactly when no logger
    refers to it, [lmk_destroy] terminates with everything gone, and a log call
    reaches exactly the enabled handlers. *)
From S2P Require Import Prelude Types Format FileHandler Registry RegistrySafety.
Local Open Scope Z_scope.

(** ** The public operations as one type *)

(** A call of the public interface with what the allocator answers to it: for an
    object its address or NULL, for a copy of a name, a reference, a list entry
    or a handler's ring and thread whether there was room. *)
Inductive api_op :=
  | Init
  | InitFromFile (path : option string)
  | Destroy
  | GetLogger (alloc : option addr) (name_ok : bool) (name : option string)
  | GetConsoleHandler (alloc : option addr) (name_ok init_ok : bool)
  | GetFileHandler (alloc : option addr) (name_ok filename_ok init_ok : bool) (name filename : option string)
  | GetSocketHandler (alloc : option addr) (name_ok init_ok : bool) (name : option string)
  | GetSyslogHandler (alloc : option addr) (name_ok init_ok : bool) (name ident : option string) (facility : Z)
  | GetNrLoggers
  | GetNrHandlers
  | FindHandler (logger : option addr) (handler_name : option string)
  | SetLogLevel (logger : option addr) (level : Z)
  | GetLogLevel (logger : option addr)
  | SetHandlerLogLevel (handler : option addr) (level : Z)
  | GetHandlerLogLevel (handler : option addr)
  | SetLogFormat (handler : option addr) (fn : option lmk_format_fn)
  | SetLogRotation (handler : option addr) (max_file_size max_backup_files : Z)
  | SetLogFilename (copy_ok : bool) (handler : option addr) (filename : option string)
  | SetSocketPsk (handler : option addr) (psk : option string)
  | AttachLogListener (listener_ok : bool) (handler : option addr) (host : option string) (port : Z)
  | AttachLogHandler (ref_ok : bool) (logger handler : option addr)
  | DetachLogHandler (logger handler : option addr)
  | DestroyLogger (logger_addr : option (option addr))
  | DestroyLogHandler (handler_addr : option (option addr))
  | Log (logger : option addr) (file_name : string) (line_no level : Z) (text : option (list ascii)) (buf : list ascii).

Definition drop_result {A} (o : outcome (A * registry)) : outcome registry := '(_, r) ← o; Ok r.

(** Fuel for the destroying loops: the number of registered objects. *)
Definition objects (r : registry) : nat := length (g_logger_list r) + length (g_handler_list r).

(** The call; [init] is [lmk_init] and [load] is [lmk_init_from_file]. *)
Definition api_exec (init : registry -> outcome registry) (load : option string -> registry -> outcome (Z * registry))
    (op : api_op) (r : registry) : outcome registry :=
  match op with
  | Init => init r
  | InitFromFile path => drop_result (load path r)
  | Destroy => lmk_destroy init (objects r) r
  | GetLogger alloc name_ok name => drop_result (lmk_get_logger init alloc name_ok name r)
  | GetConsoleHandler alloc name_ok init_ok => drop_result (lmk_get_console_log_handler init alloc name_ok init_ok r)
  | GetFileHandler alloc name_ok filename_ok init_ok name filename =>
      drop_result (lmk_get_file_log_handler init alloc name_ok filename_ok init_ok name filename r)
  | GetSocketHandler alloc name_ok init_ok name => drop_result (lmk_get_socket_log_handler init alloc name_ok init_ok name r)
  | GetSyslogHandler alloc name_ok init_ok name ident facility =>
      drop_result (lmk_get_syslog_log_handler init alloc name_ok init_ok name ident facility r)
  | GetNrLoggers => drop_result (lmk_get_nr_loggers init r)
  | GetNrHandlers => drop_result (lmk_get_nr_handlers init r)
  | FindHandler logger handler_name => _ ← lmk_find_handler logger handler_name r; Ok r
  | SetLogLevel logger level => lmk_set_log_level init logger level r
  | GetLogLevel logger => drop_result (lmk_get_log_level init logger r)
  | SetHandlerLogLevel handler level => lmk_set_handler_log_level init handler level r
  | GetHandlerLogLevel handler => drop_result (lmk_get_handler_log_level init handler r)
  | SetLogFormat handler fn => lmk_set_log_format handler fn r
  | SetLogRotation handler size backups => handler_set_rotation handler size backups r
  | SetLogFilename copy_ok handler filename => handler_set_filename copy_ok handler filename r
  | SetSocketPsk handler psk => handler_set_psk handler psk r
  | AttachLogListener listener_ok handler host port => handler_add_listener listener_ok handler host port r
  | AttachLogHandler ref_ok logger handler => drop_result (lmk_attach_log_handler init ref_ok logger handler r)
  | DetachLogHandler logger handler => drop_result (lmk_detach_log_handler init logger handler r)
  | DestroyLogger logger_addr => drop_result (lmk_destroy_logger init (objects r) logger_addr r)
  | DestroyLogHandler handler_addr => drop_result (lmk_destroy_log_handler handler_addr r)
  | Log logger file_name line_no level text buf =>
      drop_result (lmk_log_common init logger file_name line_no level text buf r)
  end.

(** The caller's side: pointers are NULL or to live objects, and the allocator
    returns memory that is not in use. *)
Definition alloc_ok (alloc : option addr) (r : registry) : Prop := forall a, alloc = Some a -> fresh a r.
Definition live_logger (p : option addr) (r : registry) : Prop := forall a, p = Some a -> a ∈ g_logger_list r.
Definition live_handler (p : option addr) (r : registry) : Prop := forall a, p = Some a -> a ∈ g_handler_list r.

(** What a call must respect: its pointers are NULL or live
    ([lmk_set_log_filename] takes no NULL), the object it allocates is fresh
    once [lmk_init] has run, and the copies of a handler's name and file name
    succeed. *)
Definition op_ok (init : registry -> outcome registry) (op : api_op) (r : registry) : Prop :=
  let alloc_after alloc := forall r', init r = Ok r' -> alloc_ok alloc r' in
  match op with
  | GetLogger alloc _ _ => alloc_after alloc
  | GetConsoleHandler alloc name_ok _ | GetSocketHandler alloc name_ok _ _
  | GetSyslogHandler alloc name_ok _ _ _ _ => alloc_after alloc /\ name_ok = true
  | GetFileHandler alloc name_ok filename_ok _ _ _ => alloc_after alloc /\ name_ok = true /\ filename_ok = true
  | SetLogLevel p _ | GetLogLevel p | FindHandler p _ | Log p _ _ _ _ _ => live_logger p r
  | SetHandlerLogLevel p _ | GetHandlerLogLevel p | SetLogFormat p _ | SetLogRotation p _ _ | SetSocketPsk p _
  | AttachLogListener _ p _ _ => live_handler p r
  | SetLogFilename copy_ok p _ => p <> None /\ live_handler p r /\ copy_ok = true
  | AttachLogHandler _ l h | DetachLogHandler l h => live_logger l r /\ live_handler h r
  | DestroyLogger p => forall q, p = Some q -> live_logger q r
  | DestroyLogHandler p => (forall q, p = Some q -> live_handler q r) /\ Z.of_nat (size (g_loggers r)) < 2 ^ 32
  | Init | InitFromFile _ | Destroy | GetNrLoggers | GetNrHandlers => True
  end.

(** Before [lmk_init] and after [lmk_destroy]. *)
Definition torn_down (r : registry) : Prop :=
  g_initialized r = false /\ g_logger_list r = [] /\ g_handler_list r = [] /\ g_loggers r = ∅ /\ g_handlers r = ∅.

(** At any time between two calls. *)
Definition session_ok (r : registry) : Prop := registry_ok r \/ torn_down r.

(** ** Helpers *)

Lemma live_logger_lookup a r : registry_ok r -> live_logger (Some a) r -> exists l, g_loggers r !! a = Some l.
Proof. intros Hok Hlive. by apply (ro_logger_list r Hok), Hlive. Qed.

Lemma live_handler_lookup a r : registry_ok r -> live_handler (Some a) r -> exists h, g_handlers r !! a = Some h.
Proof. intros Hok Hlive. by apply (ro_handler_list r Hok), Hlive. Qed.

Lemma lmk_init_initialized config_ok auto_config r :
  g_initialized r = true -> lmk_init config_ok auto_config r = Ok r.
Proof. unfold lmk_init. by intros ->. Qed.

Lemma count_refers_w32 r ha : Z.of_nat (size (g_loggers r)) < 2 ^ 32 ->
  w32 (count_if (refers ha) (g_loggers r)) = count_if (refers ha) (g_loggers r).
Proof.
  intros Hsize. unfold w32. apply Z.mod_small.
  pose proof (count_if_bound (refers ha) (g_loggers r)). pose proof (count_if_nonneg (refers ha) (g_loggers r)). lia.
Qed.

(** The references of the loggers fit the fuel of the destroying loops. *)
Lemma refs_length_bound r a l : registry_ok r -> g_loggers r !! a = Some l ->
  (length (l_handler_refs l) <= length (g_handler_list r))%nat.
Proof.
  intros Hok Hl. destruct (ro_loggers r Hok a l Hl) as (_ & _ & Hnd & Hin).
  by apply submseteq_length, NoDup_submseteq.
Qed.

(** ** Preservation, one lemma per kind of operation *)

Section preservation.
Context (init : registry -> outcome registry).
Hypothesis init_initialized : forall r, g_initialized r = true -> init r = Ok r.

(** A call succeeds and leaves a well-formed registry. *)
Definition keeps_ok (call : outcome registry) : Prop := exists r', call = Ok r' /\ registry_ok r'.

Lemma init_keeps f r : registry_ok r -> keeps_ok (f r) -> keeps_ok (r ← init r; f r).
Proof. intros Hok Hf. rewrite (init_ok init init_initialized r Hok). by rewrite outcome_bind_ok. Qed.

Lemma make_handler_keeps alloc init_ok name data r : data_named data -> registry_ok r -> alloc_ok alloc r ->
  keeps_ok (drop_result (make_handler alloc true init_ok (kind_type (data_kind data)) (type_methods (data_kind data)) name data r)).
Proof.
  intros Hd Hok Ha.
  destruct (make_handler_spec alloc init_ok _ _ name data r Hok Ha eq_refl eq_refl Hd) as (res & r' & -> & Hok' & _).
  by exists r'.
Qed.

(** The same behind the call of [lmk_init] that every factory starts with. *)
Lemma factory_keeps (f : registry -> outcome (option addr * registry)) r : registry_ok r ->
  keeps_ok (drop_result (f r)) -> keeps_ok (drop_result (r ← init r; f r)).
Proof. intros Hok Hf. rewrite (init_ok init init_initialized r Hok). by rewrite outcome_bind_ok. Qed.

Lemma null_keeps r : registry_ok r -> keeps_ok (drop_result (Ok (@None addr, r))).
Proof. by exists r. Qed.

Lemma get_logger_keeps alloc name_ok name r : registry_ok r -> alloc_ok alloc r ->
  keeps_ok (drop_result (lmk_get_logger init alloc name_ok name r)).
Proof.
  intros Hok Ha. destruct name as [name|].
  - destruct (get_logger_spec init init_initialized alloc name_ok name r Hok Ha) as (res & r' & -> & Hok' & _).
    by exists r'.
  - by apply factory_keeps, null_keeps.
Qed.

Lemma set_log_level_keeps p level r : registry_ok r -> live_logger p r ->
  keeps_ok (lmk_set_log_level init p level r).
Proof.
  intros Hok Hlive. apply init_keeps; [done|]. destruct p as [a|]; [|by exists r].
  destruct (live_logger_lookup a r Hok Hlive) as [l Hl]. rewrite Hl. cbn [deref]. rewrite outcome_bind_ok.
  destruct (LMK_IS_VALID_LOG_LEVEL level) eqn:Hv; [|by exists r]. eexists. split; [done|].
  eapply registry_ok_logger; try done. by apply (ro_loggers r Hok a l Hl).
Qed.

Lemma set_handler_log_level_keeps p level r : registry_ok r -> live_handler p r ->
  keeps_ok (lmk_set_handler_log_level init p level r).
Proof.
  intros Hok Hlive. apply init_keeps; [done|]. destruct p as [a|]; [|by exists r].
  destruct (live_handler_lookup a r Hok Hlive) as [h Hh]. rewrite Hh. cbn [deref]. rewrite outcome_bind_ok.
  destruct (LMK_IS_VALID_LOG_LEVEL level) eqn:Hv; [|by exists r]. eexists. split; [done|].
  eapply registry_ok_handler; try done; [by apply (ro_handlers r Hok a h Hh)|exact (ro_structs r Hok a h Hh)].
Qed.

Lemma set_log_format_keeps p fn r : registry_ok r -> live_handler p r -> keeps_ok (lmk_set_log_format p fn r).
Proof.
  intros Hok Hlive. destruct p as [a|]; [|by exists r]. cbn [lmk_set_log_format].
  destruct (live_handler_lookup a r Hok Hlive) as [h Hh]. rewrite Hh. cbn [deref]. rewrite outcome_bind_ok.
  eexists. split; [done|]. eapply registry_ok_handler; try done; first [exact (ro_structs r Hok a h Hh)|by apply (ro_handlers r Hok a h Hh)].
Qed.

Lemma attach_keeps ref_ok l h r : registry_ok r -> live_logger l r -> live_handler h r ->
  keeps_ok (drop_result (lmk_attach_log_handler init ref_ok l h r)).
Proof.
  intros Hok Hl Hh. destruct l as [la|], h as [ha|];
    try (unfold lmk_attach_log_handler; rewrite (init_ok init init_initialized r Hok), outcome_bind_ok; by exists r).
  destruct (live_logger_lookup la r Hok Hl) as [l Hla], (live_handler_lookup ha r Hok Hh) as [h Hha].
  destruct (attach_spec init init_initialized ref_ok la ha l h r Hok Hla Hha) as (res & r' & -> & Hok' & _).
  by exists r'.
Qed.

Lemma detach_keeps l h r : registry_ok r -> live_logger l r -> live_handler h r ->
  keeps_ok (drop_result (lmk_detach_log_handler init l h r)).
Proof.
  intros Hok Hl Hh. destruct l as [la|], h as [ha|];
    try (unfold lmk_detach_log_handler; rewrite (init_ok init init_initialized r Hok), outcome_bind_ok; by exists r).
  destruct (live_logger_lookup la r Hok Hl) as [l Hla], (live_handler_lookup ha r Hok Hh) as [h Hha].
  destruct (detach_spec init init_initialized la ha l h r Hok Hla Hha) as (res & r' & -> & Hok' & _).
  by exists r'.
Qed.

Lemma destroy_logger_keeps fuel p r : registry_ok r -> (forall q, p = Some q -> live_logger q r) ->
  (length (g_handler_list r) <= fuel)%nat ->
  keeps_ok (drop_result (lmk_destroy_logger init fuel p r)).
Proof.
  intros Hok Hlive Hfuel. destruct p as [[la|]|];
    try (unfold lmk_destroy_logger; rewrite (init_ok init init_initialized r Hok), outcome_bind_ok; by exists r).
  destruct (live_logger_lookup la r Hok (Hlive _ eq_refl)) as [l Hl].
  destruct (destroy_logger_spec init init_initialized fuel la l r Hok Hl) as (r' & -> & Hok' & _).
  - pose proof (refs_length_bound r la l Hok Hl). lia.
  - by exists r'.
Qed.

Lemma destroy_handler_keeps p r : registry_ok r -> (forall q, p = Some q -> live_handler q r) ->
  Z.of_nat (size (g_loggers r)) < 2 ^ 32 ->
  keeps_ok (drop_result (lmk_destroy_log_handler p r)).
Proof.
  intros Hok Hlive Hsize. destruct p as [[ha|]|]; try by exists r.
  destruct (live_handler_lookup ha r Hok (Hlive _ eq_refl)) as [h Hh].
  destruct (destroy_handler_spec ha h r Hok Hh) as (res & r' & -> & Hres). exists r'. split; [done|].
  destruct (ro_handlers r Hok ha h Hh) as (_ & _ & _ & Hrc). rewrite count_refers_w32 in Hrc by done.
  destruct (Z.ltb_spec 0 (h_nr_logger_ref h)); [by destruct Hres as [_ ->]|].
  destruct Hres as (_ & ? & ? & ? & ? & ? & ? & _). eapply registry_ok_delete_handler; try done.
  pose proof (count_if_nonneg (refers ha) (g_loggers r)). lia.
Qed.

(** *** The settings of one type *)

(** Replacing the settings by others of the same type. *)
Lemma upd_data_ok a h d r : registry_ok r -> g_handlers r !! a = Some h -> data_kind d = data_kind (h_data h) ->
  data_named d -> registry_ok (upd_handler a (set_handler_data h d) r).
Proof.
  intros Hok Hh Hk Hn. destruct (ro_structs r Hok a h Hh) as [[Ht Hm] _], (ro_handlers r Hok a h Hh) as (? & ? & _).
  eapply registry_ok_handler; try done. split; [|exact Hn]. unfold handler_typed. simpl. by rewrite Hk.
Qed.

(** The shape of a setter: it changes nothing, or the settings of the live
    handler it is given. *)
Definition sets_data (p : option addr) (r : registry) (call : outcome registry) : Prop :=
  call = Ok r \/ exists a h d, p = Some a /\ g_handlers r !! a = Some h /\ data_kind d = data_kind (h_data h) /\
    data_named d /\ call = Ok (upd_handler a (set_handler_data h d) r).

Lemma sets_data_keeps p r call : registry_ok r -> sets_data p r call -> keeps_ok call.
Proof.
  intros Hok [->|(a & h & d & _ & Hh & Hk & Hn & ->)]; [by exists r|]. eexists. split; [done|]. by apply upd_data_ok.
Qed.

Lemma set_rotation_sets p size backups r : registry_ok r -> live_handler p r ->
  sets_data p r (handler_set_rotation p size backups r).
Proof.
  intros Hok Hlive. destruct p as [a|]; [|by left]. destruct (live_handler_lookup a r Hok Hlive) as [h Hh].
  cbn [handler_set_rotation]. rewrite Hh. cbn [deref]. rewrite outcome_bind_ok.
  destruct (Z.eqb_spec (h_type h) LMK_LOG_HANDLER_TYPE_FILE) as [Ht|]; [|by left].
  destruct (ro_structs r Hok a h Hh) as [Hty Hf]. destruct (cast_file_typed h Hty Ht) as (f & n & m & Hd & ->).
  rewrite outcome_bind_ok. right. unfold file_named in Hf. rewrite Hd in Hf.
  exists a, h, (FileData f size backups). rewrite Hd. by split_and!.
Qed.

Lemma set_filename_sets p filename r : registry_ok r -> p <> None -> live_handler p r ->
  sets_data p r (handler_set_filename true p filename r).
Proof.
  intros Hok Hp Hlive. destruct p as [a|]; [|done]. destruct (live_handler_lookup a r Hok Hlive) as [h Hh].
  unfold handler_set_filename. cbn [deref]. rewrite outcome_bind_ok, Hh. cbn [deref]. rewrite outcome_bind_ok.
  destruct filename as [f|]; [|by left].
  destruct (Z.eqb_spec (h_type h) LMK_LOG_HANDLER_TYPE_FILE) as [Ht|]; [|by left].
  destruct (ro_structs r Hok a h Hh) as [Hty _]. destruct (cast_file_typed h Hty Ht) as (f' & n & m & Hd & ->).
  rewrite outcome_bind_ok. right. exists a, h, (FileData (Some f) n m). rewrite Hd. split_and!; try done. by eexists.
Qed.

Lemma set_psk_sets p psk r : registry_ok r -> live_handler p r -> sets_data p r (handler_set_psk p psk r).
Proof.
  intros Hok Hlive. destruct p as [a|], psk as [psk|]; try by left. destruct (live_handler_lookup a r Hok Hlive) as [h Hh].
  cbn [handler_set_psk]. rewrite Hh. cbn [deref]. rewrite outcome_bind_ok.
  destruct (Z.eqb_spec (h_type h) LMK_LOG_HANDLER_TYPE_SOCKET) as [Ht|]; [|by left]. cbn [negb].
  destruct (ro_structs r Hok a h Hh) as [Hty _]. destruct (cast_socket_typed h Hty Ht) as (ls & k & Hd & ->).
  rewrite outcome_bind_ok. right. exists a, h, (SocketData ls (Some psk)). rewrite Hd. by split_and!.
Qed.

Lemma add_listener_sets ok p host port r : registry_ok r -> live_handler p r ->
  sets_data p r (handler_add_listener ok p host port r).
Proof.
  intros Hok Hlive. destruct p as [a|], host as [host|]; try by left. destruct (live_handler_lookup a r Hok Hlive) as [h Hh].
  cbn [handler_add_listener]. destruct (port <=? 0); [by left|]. rewrite Hh. cbn [deref]. rewrite outcome_bind_ok.
  destruct (Z.eqb_spec (h_type h) LMK_LOG_HANDLER_TYPE_SOCKET) as [Ht|]; [|by left]. cbn [negb].
  destruct (ro_structs r Hok a h Hh) as [Hty _]. destruct (cast_socket_typed h Hty Ht) as (ls & k & Hd & ->).
  rewrite outcome_bind_ok. destruct ok; [|by left].
  right. exists a, h, (SocketData (ls ++ [(host, port)]) k). rewrite Hd. by split_and!.
Qed.

(** *** Reading and logging *)

Lemma get_log_level_keeps p r : registry_ok r -> live_logger p r -> keeps_ok (drop_result (lmk_get_log_level init p r)).
Proof.
  intros Hok Hlive. unfold lmk_get_log_level. rewrite (init_ok init init_initialized r Hok), outcome_bind_ok.
  destruct p as [a|]; [|by exists r]. destruct (live_logger_lookup a r Hok Hlive) as [l ->]. by exists r.
Qed.

Lemma get_handler_log_level_keeps p r : registry_ok r -> live_handler p r ->
  keeps_ok (drop_result (lmk_get_handler_log_level init p r)).
Proof.
  intros Hok Hlive. unfold lmk_get_handler_log_level. rewrite (init_ok init init_initialized r Hok), outcome_bind_ok.
  destruct p as [a|]; [|by exists r]. destruct (live_handler_lookup a r Hok Hlive) as [h ->]. by exists r.
Qed.

Lemma find_handler_keeps p name r : registry_ok r -> live_logger p r -> keeps_ok (_ ← lmk_find_handler p name r; Ok r).
Proof.
  intros Hok Hlive. destruct p as [a|], name as [name|]; try by exists r. cbn [lmk_find_handler].
  destruct (live_logger_lookup a r Hok Hlive) as [l Hl]. rewrite Hl. cbn [deref]. rewrite outcome_bind_ok.
  destruct (search_by_name_spec (g_handlers r) h_name name (l_handler_refs l)) as (found & -> & _); [|by exists r].
  intros ha Hin. destruct (ro_loggers r Hok a l Hl) as (_ & _ & _ & Hrefs).
  apply Hrefs, (ro_handler_list r Hok) in Hin as [h Hh]. destruct (ro_handlers r Hok ha h Hh) as (_ & _ & [n Hn] & _).
  by exists h, n.
Qed.

Lemma log_impl_returns p file_name line_no level data len r : registry_ok r -> live_logger p r ->
  exists res, lmk_log_impl p file_name line_no level data len r = Ok res.
Proof.
  intros Hok Hlive. destruct p as [a|], data as [data|]; try by eexists. cbn [lmk_log_impl].
  destruct (live_logger_lookup a r Hok Hlive) as [l Hl]. rewrite Hl. cbn [deref]. rewrite outcome_bind_ok.
  destruct (negb (l_initialized l)), (negb (LMK_IS_VALID_LOG_LEVEL level)), (l_log_level l <=? level); try by eexists.
  destruct (ro_loggers r Hok a l Hl) as (_ & _ & _ & Hrefs). rewrite (dispatch_spec r) by done. by eexists.
Qed.

Lemma log_keeps p file_name line_no level text buf r : registry_ok r -> live_logger p r ->
  keeps_ok (drop_result (lmk_log_common init p file_name line_no level text buf r)).
Proof.
  intros Hok Hlive. unfold lmk_log_common. rewrite (init_ok init init_initialized r Hok), outcome_bind_ok.
  destruct p as [a|]; [|by exists r]. destruct (live_logger_lookup a r Hok Hlive) as [l Hl].
  rewrite Hl. cbn [deref]. rewrite outcome_bind_ok. destruct (negb _); [by exists r|].
  destruct (match text with Some _ => _ | None => _ end) as [buf' n].
  destruct (log_impl_returns (Some a) file_name line_no level (Some buf')
    (if LMK_LOG_MSG_MAX_SIZE <=? (if n <? 0 then 0 else n) then LMK_LOG_MSG_MAX_SIZE - 1 else if n <? 0 then 0 else n)
    r Hok Hlive) as ([res calls] & ->). by exists r.
Qed.
End preservation.

(** ** A program's calls *)

Section sessions.
Context (init : registry -> outcome registry) (load : option string -> registry -> outcome (Z * registry)).
Hypothesis init_initialized : forall r, g_initialized r = true -> init r = Ok r.
Hypothesis init_revives : forall r, torn_down r -> keeps_ok (init r).
Hypothesis load_keeps : forall path r, session_ok r -> keeps_ok (drop_result (load path r)).

(** The call leaves a well-formed or a torn-down registry. *)
Definition stays_ok (call : outcome registry) : Prop := exists r', call = Ok r' /\ session_ok r'.

Lemma keeps_stays call : keeps_ok call -> stays_ok call.
Proof. intros (r & He & Hok). exists r. split; [done|by left]. Qed.

Lemma alloc_after_init alloc r : registry_ok r -> (forall r', init r = Ok r' -> alloc_ok alloc r') -> alloc_ok alloc r.
Proof. intros Hok Ha. by apply Ha, (init_ok init init_initialized). Qed.

(** A call on a well-formed registry. *)
Lemma api_exec_keeps op r : registry_ok r -> op_ok init op r -> stays_ok (api_exec init load op r).
Proof.
  intros Hok Hop. pose proof (init_ok init init_initialized r Hok) as Hi.
  destruct op; cbn [api_exec op_ok] in *; destruct_and?; subst;
    repeat match goal with H : forall r', init r = Ok r' -> alloc_ok _ r' |- _ => apply (alloc_after_init _ r Hok) in H end;
    try match goal with |- stays_ok (lmk_destroy _ _ _) => fail 1 | _ => apply keeps_stays end.
  - rewrite Hi. by exists r.
  - apply load_keeps. by left.
  - eexists. split; [apply destroy_terminates; [done..| | |]; unfold objects; [lia..|]|by right].
    intros a l Hl. pose proof (refs_length_bound r a l Hok Hl). lia.
  - by apply get_logger_keeps.
  - apply factory_keeps; [done..|]. by apply (make_handler_keeps alloc init_ok "console" ConsoleData).
  - apply factory_keeps; [done..|]. destruct name as [name|], filename as [f|]; try by apply null_keeps.
    apply (make_handler_keeps alloc init_ok name (FileData (Some f) LMK_DEFAULT_MAX_FILE_SIZE LMK_DEFAULT_MAX_BACKUP_FILES));
      [by eexists|done..].
  - apply factory_keeps; [done..|]. destruct name as [name|]; [|by apply null_keeps].
    by apply (make_handler_keeps alloc init_ok name (SocketData [] None)).
  - apply factory_keeps; [done..|]. destruct name as [name|]; [|by apply null_keeps].
    by apply (make_handler_keeps alloc init_ok name (SyslogData _ facility)).
  - unfold lmk_get_nr_loggers. rewrite Hi. by exists r.
  - unfold lmk_get_nr_handlers. rewrite Hi. by exists r.
  - by apply find_handler_keeps.
  - by apply set_log_level_keeps.
  - by apply get_log_level_keeps.
  - by apply set_handler_log_level_keeps.
  - by apply get_handler_log_level_keeps.
  - by apply set_log_format_keeps.
  - by eapply sets_data_keeps, set_rotation_sets.
  - by eapply sets_data_keeps, set_filename_sets.
  - by eapply sets_data_keeps, set_psk_sets.
  - by eapply sets_data_keeps, add_listener_sets.
  - by apply attach_keeps.
  - by apply detach_keeps.
  - apply destroy_logger_keeps; try done. unfold objects. lia.
  - by apply destroy_handler_keeps.
  - by apply log_keeps.
Qed.

(** On a torn-down registry there are no pointers but NULL. *)
Lemma torn_down_no_logger p r : torn_down r -> live_logger p r -> p = None.
Proof. intros (_ & Hl & _) Hp. destruct p as [a|]; [|done]. specialize (Hp a eq_refl). rewrite Hl in Hp. by apply not_elem_of_nil in Hp. Qed.

Lemma torn_down_no_handler p r : torn_down r -> live_handler p r -> p = None.
Proof. intros (_ & _ & Hl & _) Hp. destruct p as [a|]; [|done]. specialize (Hp a eq_refl). rewrite Hl in Hp. by apply not_elem_of_nil in Hp. Qed.
(** A call that runs [lmk_init] first does on a torn-down registry what it does on the new one. *)
Lemma after_init {A} (f : registry -> outcome A) r r1 : init r = Ok r1 -> init r1 = Ok r1 ->
  (r ← init r; f r) = (r ← init r1; f r).
Proof. by intros -> ->. Qed.

Lemma api_exec_revives op r : torn_down r -> op_ok init op r -> stays_ok (api_exec init load op r).
Proof.
  intros Ht Hop. destruct (init_revives r Ht) as (r1 & Hi & Hok1). pose proof (init_ok init init_initialized r1 Hok1) as Hi1.
  assert (stays_ok (Ok r)) as Hsame by (exists r; split; [done|by right]).
  assert (forall alloc, (forall r', init r = Ok r' -> alloc_ok alloc r') -> forall r', init r1 = Ok r' -> alloc_ok alloc r') as Hal.
  { intros alloc Ha r'. rewrite Hi1. intros [= <-]. by apply Ha. }
  assert (forall op', op_ok init op' r1 -> api_exec init load op' r = api_exec init load op' r1 ->
    stays_ok (api_exec init load op' r)) as Hsim.
  { intros op' Hop' ->. by apply api_exec_keeps. }
  assert (forall p, live_logger p r -> p = None) as Hnl by (intros p; by apply torn_down_no_logger).
  assert (forall p, live_handler p r -> p = None) as Hnh by (intros p; by apply torn_down_no_handler).
  assert (forall p r2, p = None -> live_logger p r2 /\ live_handler p r2) as Hnull by (by intros ? ? ->).
  destruct op; cbn [op_ok] in Hop; destruct_and?; subst;
    repeat match goal with H : live_logger ?p r |- _ => apply Hnl in H; subst p | H : live_handler ?p r |- _ => apply Hnh in H; subst p end;
    try done;
    try (apply Hsim; [cbn [op_ok]; split_and?; by (done || apply Hal || apply Hnull)|
      cbn [api_exec]; try match goal with |- drop_result _ = _ => unfold drop_result; f_equal end; apply (after_init _ r r1 Hi Hi1)]).
  - exists r1. split; [done|by left].
  - by apply keeps_stays, load_keeps; right.
  - cbn [api_exec]. unfold lmk_destroy. by rewrite (proj1 Ht).
  - destruct logger_addr as [q|]; [rewrite (Hnl q (Hop q eq_refl))|]; cbn [api_exec]; unfold lmk_destroy_logger;
      rewrite Hi, outcome_bind_ok; (exists r1; split; [done|by left]).
  - destruct handler_addr as [q|]; [|done]. rewrite (Hnh q); [done|]. by apply H.
Qed.

(** The calls of a program, one after the other, and the caller's side at each of them. *)
Fixpoint api_run (ops : list api_op) (r : registry) : outcome registry :=
  match ops with [] => Ok r | op :: ops' => r ← api_exec init load op r; api_run ops' r end.

Fixpoint ops_ok (ops : list api_op) (r : registry) : Prop :=
  match ops with
  | [] => True
  | op :: ops' => op_ok init op r /\ forall r', api_exec init load op r = Ok r' -> ops_ok ops' r'
  end.

Lemma api_run_keeps ops r : session_ok r -> ops_ok ops r -> stays_ok (api_run ops r).
Proof.
  revert r. induction ops as [|op ops IH]; intros r Hok; [by exists r|]. intros (Hop & Hnext).
  assert (stays_ok (api_exec init load op r)) as (r1 & He & Hok1).
  { destruct Hok; [by apply api_exec_keeps|by apply api_exec_revives]. }
  cbn [api_run]. rewrite He, outcome_bind_ok. apply IH; [done|by apply Hnext].
Qed.
End sessions.

(** ** A concrete registry for the witnesses *)

Lemma registry_ok_empty c calls : registry_ok (mk_registry true (Some c) [] [] ∅ ∅ calls).
Proof.
  split; simpl; try done; (split; [constructor|]; intros a; rewrite lookup_empty;
    split; [by intros ?%not_elem_of_nil|by intros []]).
Qed.

(** A logger [app] (level INFO) with the console handler and, not attached, a file handler. *)
Definition sample_config : lmk_config := mk_config 2048 1024.

Definition sample_logger : lmk_logger := mk_logger "app" LMK_LOG_LEVEL_INFO [2%positive] true.

Definition sample_console : lmk_log_handler :=
  mk_handler LMK_LOG_HANDLER_TYPE_CONSOLE (Some "console"%string) LMK_LOG_LEVEL_TRACE 1 true None (type_methods ConsoleKind) ConsoleData.

Definition sample_file : lmk_log_handler :=
  mk_handler LMK_LOG_HANDLER_TYPE_FILE (Some "file"%string) LMK_LOG_LEVEL_TRACE 0 true None (type_methods FileKind)
    (FileData (Some "app.log"%string) LMK_DEFAULT_MAX_FILE_SIZE LMK_DEFAULT_MAX_BACKUP_FILES).

Definition empty_registry : registry := mk_registry true (Some sample_config) [] [] ∅ ∅ [].

Definition sample_registry : registry :=
  mk_registry true (Some sample_config) [1%positive] [2; 3]%positive
    {[ 1%positive := sample_logger ]} (<[3%positive := sample_file]> {[ 2%positive := sample_console ]}) [CallInit 2; CallInit 3].

Definition sample_ops : list api_op :=
  [GetLogger (Some 1%positive) true (Some "app"%string); GetConsoleHandler (Some 2%positive) true true;
   GetFileHandler (Some 3%positive) true true true (Some "file"%string) (Some "app.log"%string);
   AttachLogHandler true (Some 1%positive) (Some 2%positive)].

(** A fixed [lmk_init] and [lmk_init_from_file]: no configuration file is found. *)
Definition plain_init : registry -> outcome registry := lmk_init true Ok.

Definition plain_load (path : option string) (r : registry) : outcome (Z * registry) := r ← plain_init r; Ok (LMK_E_NG, r).

Lemma plain_init_initialized r : g_initialized r = true -> plain_init r = Ok r.
Proof. apply lmk_init_initialized. Qed.

Lemma plain_init_revives r : torn_down r -> keeps_ok (plain_init r).
Proof.
  intros (Hi & _ & _ & Hls & Hhs). unfold plain_init, lmk_init. rewrite Hi, Hls, Hhs. eexists. split; [done|].
  apply registry_ok_empty.
Qed.

Lemma plain_load_keeps path r : session_ok r -> keeps_ok (drop_result (plain_load path r)).
Proof.
  intros [Hok|Ht]; unfold plain_load, drop_result.
  - rewrite plain_init_initialized by apply Hok. by exists r.
  - destruct (plain_init_revives r Ht) as (r' & -> & Hok'). by exists r'.
Qed.

Abbreviation plain_run := (api_run plain_init plain_load).

Lemma plain_run_keeps ops r r' : session_ok r -> ops_ok plain_init plain_load ops r -> plain_run ops r = Ok r' ->
  session_ok r'.
Proof.
  intros Hs Hops He.
  destruct (api_run_keeps plain_init plain_load plain_init_initialized plain_init_revives plain_load_keeps ops r Hs Hops)
    as (r2 & He2 & Hs2). congruence.
Qed.

Lemma sample_registry_built : plain_run sample_ops empty_registry = Ok sample_registry.
Proof. vm_compute. reflexivity. Qed.

(** Evaluates a call at a concrete registry. *)
Ltac run_call H := vm_compute in H; injection H as <-.

(** One call of a concrete program: its operands are fresh or live. *)
Ltac play_op :=
  cbn [ops_ok op_ok]; split;
  [split_and?; try reflexivity; try match goal with |- forall _, _ = Ok _ -> _ => let H1 := fresh in intros ? H1; run_call H1 end;
   intros ? [= <-]; first [split; reflexivity|apply (bool_decide_unpack _); vm_compute; reflexivity]
  |let r1 := fresh "r" in let H1 := fresh in intros r1 H1; run_call H1].

Lemma sample_ops_ok : ops_ok plain_init plain_load sample_ops empty_registry.
Proof. unfold sample_ops. repeat play_op. done. Qed.

Lemma sample_registry_ok : registry_ok sample_registry.
Proof.
  destruct (plain_run_keeps sample_ops empty_registry sample_registry) as [Hok|[Hi _]];
    [left; apply registry_ok_empty|apply sample_ops_ok|apply sample_registry_built|done..].
Qed.

(** ** The properties *)

(** C27. [lmk_get_logger] is a lookup that creates. If a logger has the name, it is
    returned and nothing changes. If none has, a new logger of that name at level
    INFO with no handlers is registered last and returned, or, when the logger
    or the copy of its name cannot be allocated, NULL is returned and nothing
    changes. A returned logger is the only one of its name: searching and asking
    again, whatever allocations would fail, give the same logger and change
    nothing. *)
Theorem get_logger_finds_or_creates config_ok auto_config alloc name_ok name r : registry_ok r ->
  (forall a, alloc = Some a -> fresh a r) ->
  let get := lmk_get_logger (lmk_init config_ok auto_config) in
  exists res r', get alloc name_ok (Some name) r = Ok (res, r') /\ registry_ok r' /\
    ((exists p l, g_loggers r !! p = Some l /\ l_name l = name /\ res = Some p /\ r' = r) \/
     (forall p l, g_loggers r !! p = Some l -> l_name l <> name) /\
     match alloc, name_ok with
     | Some a, true => res = Some a /\ g_logger_list r' = g_logger_list r ++ [a] /\
         g_loggers r' = <[a := mk_logger name LMK_LOG_LEVEL_INFO [] true]> (g_loggers r) /\
         g_handlers r' = g_handlers r
     | _, _ => res = None /\ r' = r
     end) /\
    (forall p, res = Some p ->
      (forall q l, g_loggers r' !! q = Some l -> l_name l = name -> q = p) /\
      lmk_search_logger_by_name (Some name) r' = Ok (Some p) /\
      forall alloc' name_ok', get alloc' name_ok' (Some name) r' = Ok (Some p, r')).
Proof.
  intros Hok Hfresh get. pose proof (lmk_init_initialized config_ok auto_config) as Hinit.
  destruct (get_logger_spec _ Hinit alloc name_ok name r Hok Hfresh) as (res & r' & Hg & Hok' & Hcases).
  exists res, r'. split; [done|]. split; [done|].
  assert (forall p, res = Some p -> exists l, g_loggers r' !! p = Some l /\ l_name l = name) as Hres.
  { intros p ->. destruct Hcases as [(q & l & [= ->] & Hl & Hn & ->)|[(_ & a & _ & _ & [= ->] & _ & -> & _)|(_ & _ & [=] & _)]].
    - by exists l.
    - eexists. by rewrite lookup_insert_eq. }
  split.
  - destruct Hcases as [(p & l & -> & Hl & Hn & ->)|[(Hno & a & -> & -> & -> & Hlist & Hlog & Hh)|(Hno & Hfail & -> & ->)]].
    + left. by exists p, l.
    + by right.
    + right. split; [done|]. destruct alloc, name_ok; [by destruct Hfail|done..].
  - intros p Hp. destruct (Hres p Hp) as (lp & Hlp & Hnp).
    assert (forall q l, g_loggers r' !! q = Some l -> l_name l = name -> q = p) as Huniq.
    { intros q l Hl Hn. eapply (ro_logger_names r' Hok'); try done. congruence. }
    destruct (search_logger_spec r' name Hok') as (found & Hs & Hfound).
    assert (found = Some p) as ->.
    { destruct found as [q|]; [|by destruct (Hfound p lp Hlp)].
      destruct Hfound as (lq & Hlq & Hnq). f_equal. by eapply Huniq. }
    split; [done|]. split; [done|]. intros alloc' name_ok'. unfold get, lmk_get_logger.
    by rewrite (init_ok _ Hinit r' Hok'), outcome_bind_ok, Hs, outcome_bind_ok.
Qed.

Lemma get_logger_finds_or_creates_witness :
  exists res r', lmk_get_logger (lmk_init true Ok) (Some 7%positive) true (Some "db"%string) sample_registry =
    Ok (res, r') /\ registry_ok r'.
Proof.
  destruct (get_logger_finds_or_creates true Ok (Some 7%positive) true "db" sample_registry sample_registry_ok)
    as (p & r' & Hg & Hok & _).
  - intros a [= <-]. by split.
  - by exists p, r'.
Defined.

Lemma remove_first_snoc x l : x ∉ l -> remove_first x (l ++ [x]) = l.
Proof.
  induction l as [|y l IH]; [intros _; simpl; by rewrite decide_True|]. intros Hn.
  apply not_elem_of_cons in Hn as [Hne Hn]. simpl. rewrite decide_False by done. by rewrite IH.
Qed.

Lemma w32_pred_succ n : w32 (w32 (w32 n + 1) - 1) = w32 n.
Proof. unfold w32. rewrite Zminus_mod_idemp_l, Z.add_simpl_r. apply Z.mod_mod. lia. Qed.

Lemma upd_refs_undo r la ha l h n : g_loggers r !! la = Some l -> g_handlers r !! ha = Some h ->
  l_handler_refs l = n ->
  upd_handler ha (set_handler_refs h (h_nr_logger_ref h)) (upd_logger la (set_logger_refs l n) r) = r.
Proof.
  intros Hl Hh <-. destruct r, l, h. unfold upd_handler, upd_logger, set_handler_refs, set_logger_refs. simpl in *.
  by rewrite !insert_id.
Qed.

(** C33. Attaching a handler and detaching it again gives back the registry, count
    included; attaching twice is the same as once, and detaching a handler that
    is not attached is refused. *)
Theorem attach_detach_roundtrip config_ok auto_config la ha l h r : registry_ok r ->
  g_loggers r !! la = Some l -> g_handlers r !! ha = Some h -> ha ∉ l_handler_refs l ->
  let init := lmk_init config_ok auto_config in
  lmk_detach_log_handler init (Some la) (Some ha) r = Ok (LMK_E_NG, r) /\
  exists r', lmk_attach_log_handler init true (Some la) (Some ha) r = Ok (LMK_E_OK, r') /\ registry_ok r' /\
    logger_refs la r' = l_handler_refs l ++ [ha] /\
    lmk_attach_log_handler init true (Some la) (Some ha) r' = Ok (LMK_E_OK, r') /\
    lmk_detach_log_handler init (Some la) (Some ha) r' = Ok (LMK_E_OK, r).
Proof.
  intros Hok Hl Hh Hn init. pose proof (lmk_init_initialized config_ok auto_config : forall r, _ -> init r = _) as Hinit.
  destruct (detach_spec init Hinit la ha l h r Hok Hl Hh) as (res0 & r0 & -> & _ & Hd0).
  destruct (attach_spec init Hinit true la ha l h r Hok Hl Hh) as (res1 & r1 & Ha1 & Hok1 & Hr1).
  rewrite bool_decide_eq_false_2 in Hd0, Hr1 by done. destruct Hd0 as [-> ->], Hr1 as [-> Hr1].
  split; [done|]. exists r1. rewrite Ha1. split; [done|]. split; [done|].
  set (l1 := set_logger_refs l (l_handler_refs l ++ [ha])) in Hr1.
  set (h1 := set_handler_refs h (w32 (h_nr_logger_ref h + 1))) in Hr1.
  assert (g_loggers r1 !! la = Some l1) as Hl1 by (rewrite Hr1; apply lookup_insert_eq).
  assert (g_handlers r1 !! ha = Some h1) as Hh1 by (rewrite Hr1; apply lookup_insert_eq).
  assert (ha ∈ l_handler_refs l1) as Hin by (apply elem_of_snoc; by right).
  destruct (attach_spec init Hinit true la ha l1 h1 r1 Hok1 Hl1 Hh1) as (res2 & r2 & -> & _ & Hr2).
  destruct (detach_spec init Hinit la ha l1 h1 r1 Hok1 Hl1 Hh1) as (res3 & r3 & -> & _ & Hr3).
  rewrite bool_decide_eq_true_2 in Hr2, Hr3 by done. destruct Hr2 as [-> ->], Hr3 as [-> ->].
  split; [unfold logger_refs; by rewrite Hl1|]. split; [done|]. do 2 f_equal.
  destruct (ro_handlers r Hok ha h Hh) as (_ & _ & _ & Hrc).
  rewrite Hr1. unfold upd_handler at 1, upd_logger at 1. simpl. rewrite !insert_insert_eq. subst l1 h1. simpl.
  rewrite remove_first_snoc by done.
  assert (w32 (w32 (h_nr_logger_ref h + 1) - 1) = h_nr_logger_ref h) as -> by (rewrite Hrc; apply w32_pred_succ).
  exact (upd_refs_undo r la ha l h _ Hl Hh eq_refl).
Qed.

Lemma attach_detach_roundtrip_witness :
  exists r', lmk_attach_log_handler plain_init true (Some 1%positive) (Some 3%positive) sample_registry =
      Ok (LMK_E_OK, r') /\
    lmk_detach_log_handler plain_init (Some 1%positive) (Some 3%positive) r' = Ok (LMK_E_OK, sample_registry).
Proof.
  destruct (attach_detach_roundtrip true Ok 1 3 sample_logger sample_file sample_registry sample_registry_ok)
    as (_ & r' & Ha & _ & _ & _ & Hd); [done|done|by intros [|?%not_elem_of_nil]%elem_of_cons|].
  by exists r'.
Defined.

(** C15. A handler is destroyed exactly when no logger refers to it (for fewer than
    2^32 loggers): then it leaves the registry and nothing refers to it any
    more, otherwise the call is refused and nothing changes. *)
Theorem handler_destroyed_iff_unreferenced ha h r : registry_ok r -> g_handlers r !! ha = Some h ->
  Z.of_nat (size (g_loggers r)) < 2 ^ 32 ->
  ((exists la l, g_loggers r !! la = Some l /\ ha ∈ l_handler_refs l) ->
     lmk_destroy_log_handler (Some (Some ha)) r = Ok (LMK_E_NG, r)) /\
  ((forall la l, g_loggers r !! la = Some l -> ha ∉ l_handler_refs l) ->
     exists r', lmk_destroy_log_handler (Some (Some ha)) r = Ok (LMK_E_OK, r') /\ registry_ok r' /\
       g_handlers r' = delete ha (g_handlers r) /\ (ha ∉ g_handler_list r') /\ g_loggers r' = g_loggers r /\
       g_calls r' = g_calls r ++ [CallDestroy ha]).
Proof.
  intros Hok Hh Hsize. destruct (destroy_handler_spec ha h r Hok Hh) as (res & r' & -> & Hres).
  destruct (ro_handlers r Hok ha h Hh) as (_ & _ & _ & Hrc). rewrite count_refers_w32 in Hrc by done. split.
  - intros (la & l & Hl & Hin). pose proof (count_if_pos (refers ha) _ la l Hl ltac:(by apply bool_decide_eq_true_2)).
    assert ((0 <? h_nr_logger_ref h) = true) as Hpos by lia. rewrite Hpos in Hres. by destruct Hres as [-> ->].
  - intros Hno. rewrite count_if_zero in Hrc by (intros la l Hl; apply bool_decide_eq_false_2; by eapply Hno).
    rewrite Hrc in Hres. simpl in Hres. destruct Hres as (-> & Hhl & Hhs & Hll & Hls & Hi & Hcfg & Hcalls).
    exists r'. split; [done|]. split.
    + eapply registry_ok_delete_handler; try done. apply count_if_zero.
      intros la l Hl. apply bool_decide_eq_false_2. by eapply Hno.
    + split; [done|]. split; [|done]. rewrite Hhl, elem_of_remove_first by apply (ro_handler_list r Hok). by intros [].
Qed.

Lemma handler_destroyed_iff_unreferenced_witness :
  lmk_destroy_log_handler (Some (Some 2%positive)) sample_registry = Ok (LMK_E_NG, sample_registry) /\
  exists r', lmk_destroy_log_handler (Some (Some 3%positive)) sample_registry = Ok (LMK_E_OK, r') /\ registry_ok r'.
Proof.
  split.
  - apply (proj1 (handler_destroyed_iff_unreferenced 2 sample_console sample_registry sample_registry_ok eq_refl eq_refl)).
    exists 1%positive, sample_logger. split; [done|by left].
  - destruct (proj2 (handler_destroyed_iff_unreferenced 3 sample_file sample_registry sample_registry_ok eq_refl eq_refl))
      as (r' & Hd & Hok' & _); [|by exists r'].
    intros la l Hl. change (({[ 1%positive := sample_logger ]} : gmap addr lmk_logger) !! la = Some l) in Hl.
    apply lookup_singleton_Some in Hl as [<- <-]. by intros [|?%not_elem_of_nil]%elem_of_cons.
Defined.

(** C23. [lmk_destroy] terminates from every well-formed registry: its loops need no
    more turns than there are loggers and handlers although each turn removes
    the entry it stands on; every handler's [destroy] is called once, in the
    order of registration; everything is gone at the end and a second call does
    nothing. *)
Theorem destroy_empties_registry config_ok auto_config fuel r : registry_ok r ->
  (length (g_logger_list r) <= fuel)%nat -> (length (g_handler_list r) <= fuel)%nat ->
  exists r', lmk_destroy (lmk_init config_ok auto_config) fuel r = Ok r' /\
    r' = mk_registry false None [] [] ∅ ∅ (g_calls r ++ map CallDestroy (g_handler_list r)) /\
    forall fuel', lmk_destroy (lmk_init config_ok auto_config) fuel' r' = Ok r'.
Proof.
  intros Hok Hfl Hfh. eexists. split; [|by split].
  apply (destroy_terminates _ (lmk_init_initialized config_ok auto_config)); [done..|].
  intros a l Hl. pose proof (refs_length_bound r a l Hok Hl). lia.
Qed.

Lemma destroy_empties_registry_witness :
  lmk_destroy plain_init 2 sample_registry =
    Ok (mk_registry false None [] [] ∅ ∅ [CallInit 2; CallInit 3; CallDestroy 2; CallDestroy 3]).
Proof.
  destruct (destroy_empties_registry true Ok 2 sample_registry sample_registry_ok) as (r' & Hd & -> & _);
    [simpl; lia..|exact Hd].
Defined.


Definition zero_buf : list ascii := repeat NUL 2048.


(** [lmk_get_file_log_handler] does not check the copy of the file name either:
    when it fails, [fopen] is called on a null pointer. *)
Theorem uncopied_filename_breaks_open config_ok auto_config a name_ok set_up filename name r : registry_ok r ->
  (forall b h, g_handlers r !! b = Some h -> h_name h <> Some name) ->
  lmk_get_file_log_handler (lmk_init config_ok auto_config) (Some a) name_ok false set_up (Some name) (Some filename) r = Fault.
Proof.
  intros Hok Hnew. destruct (search_handler_spec r name Hok) as (found & Hs & Hf).
  destruct found as [b|]; [destruct Hf as (h & Hh & Hn); by destruct (Hnew b h Hh)|].
  unfold lmk_get_file_log_handler. rewrite (init_ok _ (lmk_init_initialized config_ok auto_config) r Hok), outcome_bind_ok.
  unfold make_handler. by rewrite Hs, outcome_bind_ok.
Qed.

(** A handler whose name could not be copied is registered all the same
    ([lmk_init_base_log_handler] ignores the failed allocation); from then on
    looking up any handler that is not found before it reads a null pointer. *)
Theorem unnamed_handler_breaks_lookup config_ok auto_config a filename name r : registry_ok r -> fresh a r ->
  (forall b h, g_handlers r !! b = Some h -> h_name h <> Some name) ->
  exists r', lmk_get_file_log_handler (lmk_init config_ok auto_config) (Some a) false true true (Some name) (Some filename) r =
      Ok (Some a, r') /\ lmk_search_log_handler_by_name (Some name) r' = Fault.
Proof.
  intros Hok Hfresh Hnew. destruct (search_handler_spec r name Hok) as (found & Hs & Hf).
  destruct found as [b|]; [destruct Hf as (h & Hh & Hn); by destruct (Hnew b h Hh)|].
  unfold lmk_get_file_log_handler. rewrite (init_ok _ (lmk_init_initialized config_ok auto_config) r Hok), outcome_bind_ok.
  unfold make_handler. rewrite Hs, outcome_bind_ok, call_init_ok, outcome_bind_ok; [|apply (ro_config r Hok)|by split; [|eexists]].
  eexists. split; [done|]. cbn [lmk_search_log_handler_by_name g_handler_list g_handlers add_call].
  assert (forall b, b ∈ g_handler_list r -> exists h n, g_handlers r !! b = Some h /\ h_name h = Some n /\ n <> name) as Hall.
  { intros b [h Hh]%(ro_handler_list r Hok). destruct (ro_handlers r Hok b h Hh) as (_ & _ & [n Hn] & _).
    exists h, n. split_and!; try done. intros ->. by destruct (Hnew b h Hh). }
  induction (g_handler_list r) as [|b bs IH]; cbn [search_by_name app].
  - by rewrite lookup_insert_eq.
  - destruct (Hall b ltac:(by left)) as (h & n & Hh & Hn & Hne).
    rewrite lookup_insert_ne by (intros <-; by rewrite (proj2 Hfresh) in Hh). rewrite Hh. cbn [deref].
    rewrite outcome_bind_ok, Hn. cbn [deref]. rewrite outcome_bind_ok.
    destruct (String.eqb_spec n name); [done|]. apply IH. intros c Hc. apply Hall. by right.
Qed.

Lemma unnamed_handler_breaks_lookup_witness :
  exists r', lmk_get_file_log_handler plain_init (Some 9%positive) false true true (Some "audit"%string) (Some "a.log"%string)
      sample_registry = Ok (Some 9%positive, r') /\ lmk_search_log_handler_by_name (Some "audit"%string) r' = Fault.
Proof.
  apply (unnamed_handler_breaks_lookup true Ok 9 "a.log" "audit" sample_registry sample_registry_ok ltac:(by split)).
  intros b h Hh.
  change ((<[3%positive := sample_file]> {[ 2%positive := sample_console ]} : gmap addr lmk_log_handler) !! b = Some h) in Hh.
  apply lookup_insert_Some in Hh as [[_ <-]|[_ Hh]]; [done|]. by apply lookup_singleton_Some in Hh as [_ <-].
Defined.
