(* ===== verification/ListRefinement.v ===== *)
(** The registry of [Registry.v] works on plain lists of addresses; the program
    works on linked cells.  This file closes the gap for the loops that destroy
    objects while they iterate ([LMK_FOR_EACH_ENTRY] with [LMK_SAVE_CURSOR] and
    [LMK_RESTORE_CURSOR]): run on the cells or on the addresses they take the
    same turns and end the same way, for any loop body that keeps the cell the
    saved cursor points to. *)
From S2P Require Import Prelude DList Registry RegistrySafety.

(** Two computations that end alike: both with related results, both in an
    invalid access, or both out of fuel. *)
Definition outcome_rel {A B} (R : A -> B -> Prop) (x : outcome A) (y : outcome B) : Prop :=
  match x, y with
  | Ok a, Ok b => R a b
  | Fault, Fault => True
  | Timeout, Timeout => True
  | _, _ => False
  end.

Lemma outcome_rel_bind {A B A' B'} (R : A -> B -> Prop) (R' : A' -> B' -> Prop) x y f g :
  outcome_rel R x y -> (forall a b, x = Ok a -> y = Ok b -> R a b -> outcome_rel R' (f a) (g b)) ->
  outcome_rel R' (x ≫= f) (y ≫= g).
Proof. destruct x, y; try done. intros HR Hfg. by apply Hfg. Qed.

(** ** Neighbours *)

Lemma entry_before_split x l1 l2 o : x ∉ l1 -> entry_before x o (l1 ++ x :: l2) = match last l1 with Some p => Some p | None => o end.
Proof.
  revert o. induction l1 as [|y l1 IH]; intros o Hx; simpl; [by rewrite decide_True|].
  apply not_elem_of_cons in Hx as [Hne Hx]. rewrite decide_False by done. rewrite IH by done.
  change (y :: l1) with ([y] ++ l1). rewrite last_app. by destruct (last l1).
Qed.

Lemma entry_after_split x l1 l2 : x ∉ l1 -> entry_after x (l1 ++ x :: l2) = head l2.
Proof.
  induction l1 as [|y l1 IH]; intros Hx; simpl; [by rewrite decide_True|].
  apply not_elem_of_cons in Hx as [Hne Hx]. rewrite decide_False by done. by apply IH.
Qed.

Lemma final_last root l : final root l = default root (last l).
Proof. revert root. induction l as [|y l IH]; intros root; [done|]. simpl. rewrite IH, last_cons. by destruct (last l). Qed.

(** A place in the list, as the cells have it: the root for none. *)
Definition place (root : addr) (o : option addr) : addr := default root o.

(** The entry before [x]: what [LMK_SAVE_CURSOR] reads. *)
Lemma get_prev_entry h root l x : dlist h root l -> x ∈ l -> get_prev x h = Ok (place root (entry_before x None l)).
Proof.
  intros Hl Hx. pose proof (proj1 Hl) as [_ Hnd]%NoDup_cons. apply list_elem_of_split in Hx as (l1 & l2 & ->).
  apply NoDup_app in Hnd as (_ & Hdisj & _).
  assert (x ∉ l1) as Hx by (intros Hin; apply (Hdisj x Hin); by left).
  rewrite entry_before_split by done. apply get_prev_ok.
  rewrite (proj2 (dlist_next h root l1 x l2 Hl)), final_last. by destruct (last l1).
Qed.

(** The entry after the saved one: what the loop goes on with. *)
Lemma get_next_entry h root l saved : dlist h root l -> (forall p, saved = Some p -> p ∈ l) ->
  get_next (place root saved) h = Ok (place root (next_entry saved l)).
Proof.
  intros Hl Hsaved. apply get_next_ok. destruct saved as [p|]; [|by apply dlist_next_root]. simpl.
  specialize (Hsaved p eq_refl). pose proof (proj1 Hl) as [_ Hnd]%NoDup_cons.
  apply list_elem_of_split in Hsaved as (l1 & l2 & ->). apply NoDup_app in Hnd as (_ & Hdisj & _).
  assert (p ∉ l1) as Hp by (intros Hin; apply (Hdisj p Hin); by left).
  rewrite entry_after_split by done. apply (dlist_next h root l1 p l2 Hl).
Qed.

Lemma next_entry_in saved l x : next_entry saved l = Some x -> x ∈ l.
Proof.
  destruct saved as [p|]; simpl.
  - induction l as [|y l IH]; [done|]. simpl. case_decide; [by intros ?%head_Some_elem_of; right|by intros ?%IH; right].
  - apply head_Some_elem_of.
Qed.

Lemma entry_before_in x l p : entry_before x None l = Some p -> p ∈ l.
Proof.
  assert (forall o, entry_before x o l = Some p -> o = Some p \/ p ∈ l) as H.
  { induction l as [|y l IH]; intros o; simpl; [done|]. case_decide; [by left|].
    intros [[= ->]|?]%IH; right; [by left|by right]. }
  intros [?|?]%H; done.
Qed.

(** ** The loop *)

Section loop.
Context {W1 W2 : Type} (links : W1 -> heap) (entries : W2 -> list addr) (root : addr).
Context (R : W1 -> W2 -> Prop) (body1 : addr -> W1 -> outcome W1) (body2 : addr -> W2 -> outcome W2).

(** The cells hold the list. *)
Definition represents : Prop := forall w1 w2, R w1 w2 -> dlist (links w1) root (entries w2).

(** The bodies do the same, and keep the entry before the one they are given. *)
Definition bodies_agree : Prop := forall x w1 w2, R w1 w2 -> x ∈ entries w2 ->
  outcome_rel R (body1 x w1) (body2 x w2) /\
  forall w2' p, body2 x w2 = Ok w2' -> entry_before x None (entries w2) = Some p -> p ∈ entries w2'.

Lemma saved_from_agrees fuel cursor w1 w2 : represents -> bodies_agree -> R w1 w2 ->
  (forall x, cursor = Some x -> x ∈ entries w2) ->
  outcome_rel R (for_each_saved_from links fuel root (place root cursor) body1 w1)
    (saved_loop entries fuel cursor body2 w2).
Proof.
  intros Hrep Hbody. revert cursor w1 w2. induction fuel as [|fuel IH]; intros cursor w1 w2 HR Hcursor;
    (destruct cursor as [x|]; [|by simpl; rewrite decide_True]); specialize (Hcursor x eq_refl);
    pose proof (Hrep w1 w2 HR) as Hl;
    (assert (x <> root) as Hne by (intros ->; by destruct Hl as [[Hn _]%NoDup_cons _]));
    simpl; rewrite decide_False by done; [done|].
  rewrite (get_prev_entry _ _ _ _ Hl Hcursor), outcome_bind_ok.
  destruct (Hbody x w1 w2 HR Hcursor) as [Hrel Hkeep].
  eapply outcome_rel_bind; [exact Hrel|]. intros w1' w2' He1 He2 HR'.
  rewrite (get_next_entry _ _ _ _ (Hrep _ _ HR')) by (intros p Hp; by eapply Hkeep).
  rewrite outcome_bind_ok. apply IH; [done|]. intros y. apply next_entry_in.
Qed.
End loop.

(** C14. A loop that destroys while it iterates, run on the linked cells, and the
    same loop on the list of addresses the cells hold are equivalent: with the
    same fuel both end, in states that still correspond, or both fault, or both
    run on - as long as the bodies correspond and keep the entry the saved
    cursor points to. *)
Theorem saved_loop_equivalent {W1 W2 : Type} (links : W1 -> heap) (entries : W2 -> list addr) (root : addr)
    (R : W1 -> W2 -> Prop) (body1 : addr -> W1 -> outcome W1) (body2 : addr -> W2 -> outcome W2) fuel w1 w2 :
  represents links entries root R -> bodies_agree entries R body1 body2 -> R w1 w2 ->
  outcome_rel R (for_each_saved links fuel root body1 w1) (saved_loop entries fuel (head (entries w2)) body2 w2).
Proof.
  intros Hrep Hbody HR. unfold for_each_saved.
  rewrite (get_next_ok _ _ _ (dlist_next_root _ _ _ (Hrep w1 w2 HR))), outcome_bind_ok.
  apply (saved_from_agrees links entries root R body1 body2 fuel (head (entries w2))); try done.
  intros x. apply head_Some_elem_of.
Qed.

(** ** Removal *)

Lemma remove_first_split (l1 l2 : list addr) x : x ∉ l1 -> remove_first x (l1 ++ x :: l2) = l1 ++ l2.
Proof.
  induction l1 as [|y l1 IH]; intros Hx; simpl; [by rewrite decide_True|].
  apply not_elem_of_cons in Hx as [Hne Hx]. rewrite decide_False by done. by rewrite IH.
Qed.

(** [lmk_remove_list] on the cells is [remove_first] on the addresses. *)
Lemma remove_list_first h root l x : dlist h root l -> x ∈ l ->
  exists h', lmk_remove_list (Some x) h = Ok h' /\ dlist h' root (remove_first x l).
Proof.
  intros Hl Hx. pose proof (proj1 Hl) as [_ Hnd]%NoDup_cons. apply list_elem_of_split in Hx as (l1 & l2 & ->).
  apply NoDup_app in Hnd as (_ & Hdisj & _).
  rewrite remove_first_split by (intros Hin; apply (Hdisj x Hin); by left).
  destruct (remove_list_spec h root l1 x l2 Hl) as (h' & He & Hl' & _). by exists h'.
Qed.

Lemma entry_before_other x l p : NoDup l -> x ∈ l -> entry_before x None l = Some p -> p <> x.
Proof.
  intros Hnd Hx Hp. apply list_elem_of_split in Hx as (l1 & l2 & ->). apply NoDup_app in Hnd as (_ & Hdisj & _).
  assert (x ∉ l1) as Hn by (intros Hin; apply (Hdisj x Hin); by left).
  rewrite entry_before_split in Hp by done. destruct (last l1) eqn:Hl; simplify_eq.
  intros ->. by apply Hn, last_Some_elem_of.
Qed.

(** Unlinking the current entry is a body the equivalence covers. *)
Lemma remove_bodies_agree root : bodies_agree (fun l : list addr => l) (fun h l => dlist h root l)
  (fun x h => lmk_remove_list (Some x) h) (fun x l => Ok (remove_first x l)).
Proof.
  intros x h l Hl Hx. split; [by destruct (remove_list_first h root l x Hl Hx) as (h' & -> & Hl')|].
  intros l' p [= <-] Hp. pose proof (proj1 Hl) as [_ Hnd]%NoDup_cons. apply elem_of_remove_first; [done|].
  split; [by eapply entry_before_in|by eapply entry_before_other].
Qed.

Lemma saved_loop_equivalent_witness :
  outcome_rel (fun h l => dlist h p1 l)
    (for_each_saved id 5 p1 (fun x h => lmk_remove_list (Some x) h) sample_heap)
    (saved_loop (fun l : list addr => l) 5 (Some p2) (fun x l => Ok (remove_first x l)) [p2; p3]) /\
  saved_loop (fun l : list addr => l) 5 (Some p2) (fun x l => Ok (remove_first x l)) [p2; p3] = Ok [].
Proof.
  split; [|vm_compute; reflexivity].
  exact (saved_loop_equivalent id (fun l => l) p1 (fun h l => dlist h p1 l) _ _ 5 sample_heap [p2; p3]
    (fun h l Hl => Hl) (remove_bodies_agree p1) sample_heap_dlist).
Defined.
