(* ===== verification/Memory.v ===== *)
(** The library's small services: the zeroing allocator of [logmoko_mem.c] on a
    heap of byte blocks, the configuration record it allocates
    ([logmoko_config.c]) and the timestamp of [logmoko_time.c]. *)
From S2P Require Import Prelude Types Format Registry.
Local Open Scope Z_scope.

Abbreviation block := (list ascii).
Abbreviation memory := (gmap positive block).

(** ** Allocation *)

Section memory.
(** [malloc]: the address of a block of that many bytes (whose contents C leaves
    open), or NULL. *)
Context (malloc : memory -> Z -> option positive) (garbage : memory -> Z -> list ascii).

(** A block [malloc] returns is not in use, and has the size asked for. *)
Class Malloc : Prop := {
  malloc_fresh m size a : malloc m size = Some a -> m !! a = None;
  malloc_size m size : length (garbage m size) = Z.to_nat size
}.

Definition memset_zero (a : positive) (m : memory) : outcome memory :=
  b ← deref (m !! a); Ok (<[a := replicate (length b) NUL]> m).

Definition lmk_malloc (size : Z) (m : memory) : outcome (option positive * memory) :=
  match malloc m size with
  | Some ptr =>
      let m := <[ptr := garbage m size]> m in
      m ← memset_zero ptr m; Ok (Some ptr, m)
  | None => Ok (None, m)
  end.

(** [free] of an address that is not a live block is undefined. *)
Definition lmk_free (addr : option positive) (m : memory) : outcome memory :=
  match addr with
  | Some a => _ ← deref (m !! a); Ok (delete a m)
  | None => Ok m
  end.

(** [strlen]: runs off the block when no terminator is in it. *)
Definition strlen (a : positive) (m : memory) : outcome Z :=
  b ← deref (m !! a);
  if bool_decide (NUL ∈ b) then Ok (Z.of_nat (length (cstr b))) else Fault.

(** [memcpy(dst, src, len)], both within their blocks. *)
Definition memcpy (dst src : positive) (len : Z) (m : memory) : outcome memory :=
  d ← deref (m !! dst); s ← deref (m !! src);
  if (len <=? Z.of_nat (length d)) && (len <=? Z.of_nat (length s))
  then Ok (<[dst := take (Z.to_nat len) s ++ drop (Z.to_nat len) d]> m) else Fault.

Definition lmk_strdup (str : option positive) (m : memory) : outcome (option positive * memory) :=
  match str with
  | None => Ok (None, m)
  | Some str =>
      n ← strlen str m;
      let len := n + 1 in
      '(new_str, m) ← lmk_malloc len m;
      match new_str with
      | Some new_str => m ← memcpy new_str str len m; Ok (Some new_str, m)
      | None => Ok (None, m)
      end
  end.

Context `{!Malloc}.

Lemma lmk_malloc_ok size m : lmk_malloc size m =
  match malloc m size with
  | Some a => Ok (Some a, <[a := replicate (Z.to_nat size) NUL]> m)
  | None => Ok (None, m)
  end.
Proof.
  unfold lmk_malloc. destruct (malloc m size) as [a|]; [|done]. unfold memset_zero. rewrite lookup_insert_eq.
  cbn [deref]. rewrite !outcome_bind_ok, malloc_size. by rewrite insert_insert_eq.
Qed.

Lemma cstr_prefix b : NUL ∈ b -> exists rest, b = cstr b ++ NUL :: rest.
Proof.
  induction b as [|c b IH]; [by intros ?%not_elem_of_nil|]. simpl. intros Hin.
  destruct (Ascii.eqb_spec c NUL) as [->|Hne]; [by exists b|].
  apply elem_of_cons in Hin as [Heq|Hin]; [congruence|]. destruct (IH Hin) as [rest He]. exists rest. simpl. by f_equal.
Qed.

Lemma lmk_free_fresh a b m : m !! a = None -> lmk_free (Some a) (<[a := b]> m) = Ok m.
Proof. intros Ha. unfold lmk_free. rewrite lookup_insert_eq. cbn [deref]. by rewrite outcome_bind_ok, delete_insert_id. Qed.

Lemma strlen_ok a b m : m !! a = Some b -> NUL ∈ b -> strlen a m = Ok (Z.of_nat (length (cstr b))).
Proof.
  intros Ha Hb. unfold strlen. rewrite Ha. cbn [deref]. by rewrite outcome_bind_ok, bool_decide_eq_true_2.
Qed.

(** [lmk_strdup] copies the string and nothing else: on a terminated string it
    never faults; if the allocation succeeds the result is a new block that
    holds exactly the string and its terminator, every other block is as it
    was, and freeing the copy gives the memory back as it was; if it fails,
    nothing has changed. *)
Theorem strdup_copies a b m : m !! a = Some b -> NUL ∈ b ->
  match malloc m (Z.of_nat (length (cstr b)) + 1) with
  | None => lmk_strdup (Some a) m = Ok (None, m)
  | Some c => exists m', lmk_strdup (Some a) m = Ok (Some c, m') /\ m !! c = None /\
      m' !! c = Some (cstr b ++ [NUL]) /\ (forall d, d <> c -> m' !! d = m !! d) /\ lmk_free (Some c) m' = Ok m
  end.
Proof.
  intros Ha Hb. destruct (cstr_prefix b Hb) as [rest Hrest].
  assert (lmk_strdup (Some a) m = '(new_str, m) ← lmk_malloc (Z.of_nat (length (cstr b)) + 1) m;
    match new_str with
    | Some new_str => m ← memcpy new_str a (Z.of_nat (length (cstr b)) + 1) m; Ok (Some new_str, m)
    | None => Ok (None, m)
    end) as -> by (unfold lmk_strdup; by rewrite (strlen_ok a b m Ha Hb), outcome_bind_ok).
  rewrite lmk_malloc_ok. destruct (malloc m (Z.of_nat (length (cstr b)) + 1)) as [c|] eqn:Hc; [|done].
  apply malloc_fresh in Hc. assert (a <> c) as Hne by congruence. rewrite outcome_bind_ok. cbv beta iota.
  assert (Z.to_nat (Z.of_nat (length (cstr b)) + 1) = S (length (cstr b))) as Hlen by lia.
  unfold memcpy. rewrite lookup_insert_eq, lookup_insert_ne, Ha by done. cbn [deref]. rewrite !outcome_bind_ok.
  assert (Z.of_nat (length (cstr b)) + 1 <= Z.of_nat (length b)) as Hle by (rewrite Hrest at 2; rewrite length_app; simpl; lia).
  rewrite length_replicate, Hlen. rewrite !(proj2 (Z.leb_le _ _)) by lia. cbn [andb]. rewrite outcome_bind_ok.
  assert (take (S (length (cstr b))) b ++ drop (S (length (cstr b))) (replicate (S (length (cstr b))) NUL) = cstr b ++ [NUL]) as ->.
  { rewrite drop_ge by (rewrite length_replicate; lia). rewrite app_nil_r. rewrite Hrest at 2.
    by rewrite cons_middle, app_assoc, take_app_length' by (rewrite length_app; simpl; lia). }
  rewrite insert_insert_eq. eexists. split; [done|]. split; [done|]. split; [by rewrite lookup_insert_eq|].
  split; [intros d Hd; by rewrite lookup_insert_ne|]. by apply lmk_free_fresh.
Qed.
End memory.

(** ** The configuration record *)

(** [lmk_create_config]: the zeroed record, or NULL when [malloc] fails. *)
Definition lmk_create_config (config_ok : bool) : option lmk_config := if config_ok then Some (mk_config 0 0) else None.

(** ** Time *)

Definition LMK_TSTAMP_BUFF_SIZE : Z := 32.

(** [lmk_get_timestamp]: the text [strftime] makes of the current time; a buffer that is
    missing or shorter than its constant is refused. *)
Definition lmk_get_timestamp (strftime_local : Z -> list ascii) (now : Z) (ts_buff : option (list ascii)) (ts_buff_len : Z) :
    Z * option (list ascii) :=
  match ts_buff with
  | None => (LMK_E_NG, None)
  | Some buf =>
      if ts_buff_len <? LMK_TSTAMP_BUFF_SIZE then (LMK_E_NG, Some buf)
      else
        let text := strftime_local now in
        (LMK_E_OK, Some (if Z.of_nat (length text) <? ts_buff_len
                         then text ++ NUL :: drop (S (length text)) buf else buf))
  end.

(** ** A concrete allocator *)

Definition ex_malloc (m : memory) (size : Z) : option positive := if size <=? 1024 then Some (fresh (dom m)) else None.
Definition ex_garbage (m : memory) (size : Z) : list ascii := replicate (Z.to_nat size) "?"%char.

Lemma ex_malloc_ok : Malloc ex_malloc ex_garbage.
Proof.
  split; [|intros m size; apply length_replicate]. unfold ex_malloc. intros m size a.
  destruct (size <=? 1024); [|done]. intros [= <-]. apply not_elem_of_dom, is_fresh.
Qed.

Definition ex_memory : memory := <[1%positive := chars "disk" ++ NUL :: chars "junk"]> ∅.

Lemma strdup_copies_witness :
  exists c m', lmk_strdup ex_malloc ex_garbage (Some 1%positive) ex_memory = Ok (Some c, m') /\
    m' !! c = Some (chars "disk" ++ [NUL]) /\ lmk_free (Some c) m' = Ok ex_memory.
Proof.
  assert (NUL ∈ chars "disk" ++ NUL :: chars "junk") as Hnul by (apply (bool_decide_unpack _); vm_compute; exact I).
  destruct (strdup_copies ex_malloc ex_garbage (H := ex_malloc_ok) 1 _ ex_memory (lookup_insert_eq _ _ _) Hnul)
    as (m' & He & _ & Hc & _ & Hf).
  exact (ex_intro _ _ (ex_intro _ m' (conj He (conj Hc Hf)))).
Defined.
