(* ===== verification/RateLimiter.v ===== *)
(** The rate limiter ([logmoko_rate_limiter.c]).  Its arithmetic is that of IEEE
    754 doubles, computed by the Standard Library's executable specification of
    binary floating point: 53 bits of precision, exponents below 1024, rounding
    to nearest even. *)
From Stdlib Require Import SpecFloat.
From S2P Require Import Prelude.
Local Open Scope Z_scope.

(** ** Doubles *)

Abbreviation double := spec_float.

Definition d_add : double -> double -> double := SFadd 53 1024.
Definition d_sub : double -> double -> double := SFsub 53 1024.
Definition d_mul : double -> double -> double := SFmul 53 1024.
Definition d_div : double -> double -> double := SFdiv 53 1024.

(** The conversion of an integer. *)
Definition d_of_Z (z : Z) : double := binary_normalize 53 1024 z 0 false.

(** The conversion to an integer: towards zero (0 where C leaves it undefined). *)
Definition d_trunc (d : double) : Z :=
  match d with
  | S754_finite s m e =>
      let n := if 0 <=? e then Z.shiftl (Zpos m) e else Z.shiftr (Zpos m) (- e) in
      if s then - n else n
  | _ => 0
  end.

Definition d_zero : double := S754_zero false.

(** ** The limiter *)

(** [struct timespec]. *)
Record timespec := mk_timespec { tv_sec : Z; tv_nsec : Z }.

Record lmk_rate_limiter := mk_rate_limiter { rl_rps : Z; rl_count : Z; rl_start : double }.

(** The value of [rl_now] when the monotonic clock shows [t]. *)
Definition rl_now (t : timespec) : double := d_add (d_of_Z (tv_sec t)) (d_div (d_of_Z (tv_nsec t)) (d_of_Z 1000000000)).

Definition lmk_rate_limiter_init (rps : Z) : lmk_rate_limiter := mk_rate_limiter rps 0 d_zero.

(** The [nanosleep] of a wait that ends at [deadline] when it is [now]. *)
Definition rl_sleep (deadline now : double) : option timespec :=
  let wait := d_sub deadline now in
  if SFltb d_zero wait then
    let sec := d_trunc wait in
    Some (mk_timespec sec (d_trunc (d_mul (d_sub wait (d_of_Z sec)) (d_of_Z 1000000000))))
  else None.

(** The new limiter, and what the call sleeps, if it does. *)
Definition lmk_rate_limiter_wait (clock : timespec) (rl : lmk_rate_limiter) : lmk_rate_limiter * option timespec :=
  if rl_rps rl <=? 0 then (rl, None)
  else
    let now := rl_now clock in
    let start := if SFeqb (rl_start rl) d_zero then now else rl_start rl in
    let count := rl_count rl + 1 in
    let deadline := d_add start (d_div (d_of_Z count) (d_of_Z (rl_rps rl))) in
    (mk_rate_limiter (rl_rps rl) count start, rl_sleep deadline now).

Definition lmk_rate_limiter_reset (rl : lmk_rate_limiter) : lmk_rate_limiter := mk_rate_limiter (rl_rps rl) 0 d_zero.

(** A loop of operations, each followed by a wait at a reading of the clock. *)
Fixpoint rl_run (clocks : list timespec) (rl : lmk_rate_limiter) : list (option timespec) * lmk_rate_limiter :=
  match clocks with
  | [] => ([], rl)
  | c :: clocks' =>
      let '(rl, s) := lmk_rate_limiter_wait c rl in
      let '(ss, rl) := rl_run clocks' rl in (s :: ss, rl)
  end.

(** The deadline of the [n]-th operation of a run that started at [start]. *)
Definition rl_deadline (rps : Z) (start : double) (n : Z) : double := d_add start (d_div (d_of_Z n) (d_of_Z rps)).

Lemma rl_run_started clocks rps count start : 0 < rps -> SFeqb start d_zero = false ->
  (rl_run clocks (mk_rate_limiter rps count start)).2 = mk_rate_limiter rps (count + Z.of_nat (length clocks)) start /\
  forall i c, clocks !! i = Some c ->
    (rl_run clocks (mk_rate_limiter rps count start)).1 !! i =
      Some (rl_sleep (rl_deadline rps start (count + Z.of_nat i + 1)) (rl_now c)).
Proof.
  intros Hrps Hstart. revert count. induction clocks as [|c clocks IH]; intros count.
  { split; [simpl; f_equal; lia|done]. }
  cbn [rl_run]. unfold lmk_rate_limiter_wait. cbn [rl_rps rl_count rl_start].
  rewrite (proj2 (Z.leb_gt rps 0)), Hstart by lia. destruct (IH (count + 1)) as [Hrl Hs].
  destruct (rl_run clocks (mk_rate_limiter rps (count + 1) start)) as [ss rl]. cbn [fst snd] in *. split.
  - rewrite Hrl. simpl length. f_equal. lia.
  - intros [|i] c' Hc; simpl in Hc.
    + simplify_eq. simpl. unfold rl_deadline. by rewrite Z.add_0_r.
    + simpl. rewrite (Hs i c' Hc). do 3 f_equal. lia.
Qed.

(** C40. Pacing without drift: from the first wait after an initialisation or a reset, the
    deadline of the n-th operation is the start plus n periods, however long
    the operations and the sleeps before it took; a limiter without a positive
    rate never sleeps and never changes. *)
Theorem rate_limiter_paces (rl : lmk_rate_limiter) (clock : timespec) (clocks : list timespec) :
  (rl_rps rl <= 0 -> rl_run (clock :: clocks) rl = (None :: replicate (length clocks) None, rl)) /\
  (0 < rl_rps rl -> SFeqb (rl_now clock) d_zero = false ->
   lmk_rate_limiter_reset rl = lmk_rate_limiter_init (rl_rps rl) /\
   let '(sleeps, rl') := rl_run (clock :: clocks) (lmk_rate_limiter_reset rl) in
   rl_start rl' = rl_now clock /\ rl_count rl' = Z.of_nat (length (clock :: clocks)) /\
   forall i c, (clock :: clocks) !! i = Some c ->
     sleeps !! i = Some (rl_sleep (rl_deadline (rl_rps rl) (rl_now clock) (Z.of_nat i + 1)) (rl_now c))).
Proof.
  split.
  - intros Hrps. change (None :: replicate (length clocks) None) with (replicate (length (clock :: clocks)) (@None timespec)).
    induction (clock :: clocks) as [|c cs IH]; [done|]. cbn [rl_run]. unfold lmk_rate_limiter_wait.
    rewrite (proj2 (Z.leb_le _ _)) by done. by rewrite IH.
  - intros Hrps Hstart. split; [done|]. destruct rl as [rps count start]. cbn [rl_rps] in *.
    unfold lmk_rate_limiter_reset. cbn [rl_run rl_rps]. unfold lmk_rate_limiter_wait. cbn [rl_rps rl_count rl_start].
    rewrite (proj2 (Z.leb_gt rps 0)) by lia. change (SFeqb d_zero d_zero) with true. cbv iota.
    destruct (rl_run_started clocks rps (0 + 1) (rl_now clock) Hrps Hstart) as [Hrl Hs].
    destruct (rl_run clocks _) as [ss rl]. cbn [fst snd] in *. rewrite Hrl. cbn [rl_start rl_count].
    split; [done|]. split; [simpl length; lia|]. intros [|i] c Hc; simpl in Hc; [by simplify_eq|].
    simpl. rewrite (Hs i c Hc). do 3 f_equal. lia.
Qed.

(** One operation a millisecond; the second takes longer than its period. *)
Definition ex_clocks : list timespec :=
  [mk_timespec 100 0; mk_timespec 100 1000000; mk_timespec 100 3500000; mk_timespec 100 3500100].

Lemma rate_limiter_paces_witness :
  (rl_run ex_clocks (lmk_rate_limiter_init 1000)).1 =
    [Some (mk_timespec 0 1000000); Some (mk_timespec 0 999999); None; Some (mk_timespec 0 499900)] /\
  rl_count (rl_run ex_clocks (lmk_rate_limiter_init 1000)).2 = 4.
Proof.
  split; [vm_compute; reflexivity|].
  destruct (proj2 (rate_limiter_paces (mk_rate_limiter 1000 7 d_zero) (mk_timespec 100 0)
    [mk_timespec 100 1000000; mk_timespec 100 3500000; mk_timespec 100 3500100]) eq_refl) as [_ H].
  - vm_compute. reflexivity.
  - exact (proj1 (proj2 H)).
Defined.
