(* ===== verification/Dump.v ===== *)
(** [lmk_dump_loggers] ([logmoko.c]): the registry as text on standard output -
    the handlers with their type, level, reference count and destination, then
    the loggers with the handlers attached to them. *)
From S2P Require Import Prelude Types Format Registry RegistrySafety RegistryTheorems.
Local Open Scope Z_scope.

Abbreviation text := (list ascii).

Definition LEVEL_1_SEPARATOR : text := chars "    ".
Definition LEVEL_2_SEPARATOR : text := chars "        ".
Definition LEVEL_3_SEPARATOR : text := chars "            ".

(** One [fprintf] of a line. *)
Definition line (s : text) : text := s ++ [NEWLINE].

Section dump.
(** [inet_ntop] of the address [inet_pton] made of the listener's host (0.0.0.0 when it made none). *)
Context (inet_pton : string -> option Z) (inet_ntop : Z -> text).

Definition handler_line (name : string) (h : lmk_log_handler) : text :=
  line (LEVEL_2_SEPARATOR ++ chars "+-handler[name = " ++ chars name ++
    chars ", type = " ++ chars (lmk_get_log_handler_type_str (h_type h)) ++
    chars ", level = " ++ chars (lmk_get_log_level_str (h_log_level h)) ++
    chars ", logger-refs = " ++ fmt_d (h_nr_logger_ref h) ++ chars "]").

Definition filename_line (filename : option string) : text :=
  line (LEVEL_3_SEPARATOR ++ chars "+-filename = " ++ chars (default "(none)"%string filename)).

Definition listener_line (listener : string * Z) : text :=
  line (LEVEL_3_SEPARATOR ++ chars "+-listener = " ++ inet_ntop (default 0 (inet_pton listener.1)) ++
    chars ":" ++ fmt_d (listener.2 mod 65536)).

(** What a handler's type adds: the tag is tested, then the base is cast. *)
Definition settings_lines (h : lmk_log_handler) : outcome text :=
  if h_type h =? LMK_LOG_HANDLER_TYPE_FILE then '(filename, _, _) ← cast_file h; Ok (filename_line filename)
  else if h_type h =? LMK_LOG_HANDLER_TYPE_SOCKET then
    '(listeners, _) ← cast_socket h; Ok (concat (map listener_line listeners))
  else Ok [].

(** [%s] of a NULL name is an invalid access. *)
Fixpoint dump_handlers (handlers : gmap addr lmk_log_handler) (l : list addr) : outcome text :=
  match l with
  | [] => Ok []
  | ha :: l' =>
      h ← deref (handlers !! ha); name ← deref (h_name h);
      settings ← settings_lines h; rest ← dump_handlers handlers l';
      Ok (handler_line name h ++ settings ++ rest)
  end.

Definition logger_line (l : lmk_logger) : text :=
  line (LEVEL_2_SEPARATOR ++ chars "+-logger[name = " ++ chars (l_name l) ++
    chars ", level = " ++ chars (lmk_get_log_level_str (l_log_level l)) ++ chars "]").

Definition attached_line (name : string) : text :=
  line (LEVEL_3_SEPARATOR ++ chars "+-attached handler[name = " ++ chars name ++ chars "]").

Fixpoint dump_refs (handlers : gmap addr lmk_log_handler) (refs : list addr) : outcome text :=
  match refs with
  | [] => Ok []
  | ha :: refs' =>
      h ← deref (handlers !! ha); name ← deref (h_name h);
      rest ← dump_refs handlers refs';
      Ok (attached_line name ++ rest)
  end.

Fixpoint dump_loggers (r : registry) (l : list addr) : outcome text :=
  match l with
  | [] => Ok []
  | la :: l' =>
      lg ← deref (g_loggers r !! la); refs ← dump_refs (g_handlers r) (l_handler_refs lg);
      rest ← dump_loggers r l';
      Ok (logger_line lg ++ refs ++ rest)
  end.

Definition lmk_dump_loggers (r : registry) : outcome text :=
  if g_initialized r then
    hs ← (match g_handler_list r with
          | [] => Ok []
          | _ => hs ← dump_handlers (g_handlers r) (g_handler_list r);
                 Ok (line (LEVEL_1_SEPARATOR ++ chars "+-[Log Handlers]") ++ hs)
          end);
    ls ← (match g_logger_list r with
          | [] => Ok []
          | _ => ls ← dump_loggers r (g_logger_list r);
                 Ok (line (LEVEL_1_SEPARATOR ++ chars "+-[Loggers]") ++ ls)
          end);
    Ok (line (chars "[Logmoko Dump Begin]") ++ hs ++ ls ++ line (chars "[Logmoko Dump End]"))
  else Ok [].

(** ** What it shows *)

(** The name a handler goes by. *)
Definition name_of (r : registry) (ha : addr) : string := default "" (g_handlers r !! ha ≫= h_name).

(** [s] is part of [out]. *)
Definition shows (out s : text) : Prop := exists a b, out = a ++ s ++ b.

Lemma shows_app_l out a s : shows out s -> shows (a ++ out) s.
Proof. intros (x & y & ->). exists (a ++ x), y. by rewrite <- app_assoc. Qed.

Lemma shows_app_r out b s : shows out s -> shows (out ++ b) s.
Proof. intros (x & y & ->). exists x, (y ++ b). by rewrite <- !app_assoc. Qed.

Lemma shows_refl s : shows s s.
Proof. exists [], []. by rewrite app_nil_r. Qed.

(** The lines of a handler's settings. *)
Definition shown_settings (d : handler_data) : text :=
  match d with
  | FileData filename _ _ => filename_line filename
  | SocketData listeners _ => concat (map listener_line listeners)
  | _ => []
  end.

Lemma settings_lines_typed h : handler_typed h -> settings_lines h = Ok (shown_settings (h_data h)).
Proof.
  intros [Ht _]. unfold settings_lines, cast_file, cast_socket. rewrite Ht. by destruct (h_data h).
Qed.

Lemma handler_named r ha : registry_ok r -> ha ∈ g_handler_list r ->
  exists h, g_handlers r !! ha = Some h /\ h_name h = Some (name_of r ha).
Proof.
  intros Hok Hin. apply (ro_handler_list r Hok) in Hin as [h Hh]. exists h. split; [done|].
  destruct (ro_handlers r Hok ha h Hh) as (_ & _ & [name Hn] & _). unfold name_of. rewrite Hh. simpl. by rewrite Hn.
Qed.

Lemma dump_handlers_shows r l : registry_ok r -> (forall ha, ha ∈ l -> ha ∈ g_handler_list r) ->
  exists out, dump_handlers (g_handlers r) l = Ok out /\
    forall ha h, ha ∈ l -> g_handlers r !! ha = Some h -> shows out (handler_line (name_of r ha) h ++ shown_settings (h_data h)).
Proof.
  intros Hok. induction l as [|ha l IH]; intros Hl; [exists []; by split; [|intros ?? ?%not_elem_of_nil]|].
  destruct (handler_named r ha Hok (Hl ha ltac:(by left))) as (h & Hh & Hn).
  destruct IH as (out & He & Hall); [intros x Hx; apply Hl; by right|].
  cbn [dump_handlers]. rewrite Hh. cbn [deref]. rewrite outcome_bind_ok, Hn. cbn [deref].
  rewrite outcome_bind_ok, settings_lines_typed, outcome_bind_ok, He, outcome_bind_ok by apply (ro_structs r Hok ha h Hh).
  eexists. split; [done|]. intros ha2 h2 [->|Hin]%elem_of_cons Hh2.
  - rewrite Hh in Hh2. simplify_eq. rewrite app_assoc. apply shows_app_r, shows_refl.
  - apply shows_app_l, shows_app_l. by apply Hall.
Qed.

Lemma dump_refs_ok r refs : registry_ok r -> (forall ha, ha ∈ refs -> ha ∈ g_handler_list r) ->
  dump_refs (g_handlers r) refs = Ok (concat (map (fun ha => attached_line (name_of r ha)) refs)).
Proof.
  intros Hok. induction refs as [|ha refs IH]; intros Hl; [done|].
  destruct (handler_named r ha Hok (Hl ha ltac:(by left))) as (h & Hh & Hn).
  cbn [dump_refs]. rewrite Hh. cbn [deref]. rewrite outcome_bind_ok, Hn. cbn [deref].
  by rewrite outcome_bind_ok, IH by (intros x Hx; apply Hl; by right).
Qed.

(** A logger's lines: its own and one for each handler attached to it, in the order of attachment. *)
Definition logger_lines (r : registry) (l : lmk_logger) : text :=
  logger_line l ++ concat (map (fun ha => attached_line (name_of r ha)) (l_handler_refs l)).

Lemma dump_loggers_shows r ls : registry_ok r -> (forall la, la ∈ ls -> la ∈ g_logger_list r) ->
  exists out, dump_loggers r ls = Ok out /\
    forall la l, la ∈ ls -> g_loggers r !! la = Some l -> shows out (logger_lines r l).
Proof.
  intros Hok. induction ls as [|la ls IH]; intros Hl; [exists []; by split; [|intros ?? ?%not_elem_of_nil]|].
  assert (exists l, g_loggers r !! la = Some l) as [l Hll] by (apply (ro_logger_list r Hok), Hl; by left).
  destruct IH as (out & He & Hall); [intros x Hx; apply Hl; by right|].
  destruct (ro_loggers r Hok la l Hll) as (_ & _ & _ & Hrefs).
  cbn [dump_loggers]. rewrite Hll. cbn [deref]. rewrite outcome_bind_ok, dump_refs_ok, outcome_bind_ok, He, outcome_bind_ok by done.
  eexists. split; [done|]. intros la2 l2 [->|Hin]%elem_of_cons Hl2.
  - rewrite Hll in Hl2. simplify_eq. unfold logger_lines. rewrite app_assoc. apply shows_app_r, shows_refl.
  - apply shows_app_l, shows_app_l. by eapply Hall.
Qed.

(** The dump of a well-formed registry never reads a NULL name or a freed
    object, and leaves nothing out: every registered handler appears with its
    settings, and every logger with the handlers attached to it. *)
Theorem dump_shows_the_registry r : registry_ok r ->
  exists out, lmk_dump_loggers r = Ok out /\
    (forall ha h, g_handlers r !! ha = Some h -> shows out (handler_line (name_of r ha) h ++ shown_settings (h_data h))) /\
    (forall la l, g_loggers r !! la = Some l -> shows out (logger_lines r l)).
Proof.
  intros Hok. destruct (dump_handlers_shows r (g_handler_list r) Hok ltac:(done)) as (hs & Hhs & Hh).
  destruct (dump_loggers_shows r (g_logger_list r) Hok ltac:(done)) as (ls & Hls & Hl).
  unfold lmk_dump_loggers. rewrite (ro_init r Hok), Hhs, Hls, !outcome_bind_ok.
  assert (forall {A} (l : list A) (a b : text), exists c, (match l with [] => Ok [] | _ :: _ => Ok (a ++ b) end : outcome text) = Ok c /\
    (l <> [] -> forall s, shows b s -> shows c s)) as Hpart.
  { intros A [|x l] a b; eexists; (split; [done|]); [done|]. intros _ s. apply shows_app_l. }
  destruct (Hpart _ (g_handler_list r) (line (LEVEL_1_SEPARATOR ++ chars "+-[Log Handlers]")) hs) as (chs & -> & Hchs).
  destruct (Hpart _ (g_logger_list r) (line (LEVEL_1_SEPARATOR ++ chars "+-[Loggers]")) ls) as (cls & -> & Hcls).
  rewrite !outcome_bind_ok. eexists. split; [done|]. split.
  - intros ha h Hha. assert (ha ∈ g_handler_list r) as Hin by (apply (ro_handler_list r Hok); by eexists).
    apply shows_app_l, shows_app_r, Hchs; [intros Hnil; rewrite Hnil in Hin; by apply not_elem_of_nil in Hin|by apply Hh].
  - intros la l Hla. assert (la ∈ g_logger_list r) as Hin by (apply (ro_logger_list r Hok); by eexists).
    apply shows_app_l, shows_app_l, shows_app_r, Hcls; [intros Hnil; rewrite Hnil in Hin; by apply not_elem_of_nil in Hin|by eapply Hl].
Qed.
End dump.

Lemma dump_shows_the_registry_witness :
  exists out, lmk_dump_loggers (fun _ => None) fmt_d sample_registry = Ok out /\
    shows out (line (chars "        +-handler[name = console, type = CONSOLE, level = TRACE, logger-refs = 1]")) /\
    shows out (line (chars "        +-logger[name = app, level = INFO]") ++
      line (chars "            +-attached handler[name = console]")).
Proof.
  destruct (dump_shows_the_registry (fun _ => None) fmt_d sample_registry sample_registry_ok) as (out & He & Hh & Hl).
  exact (ex_intro _ out (conj He (conj (Hh 2%positive sample_console eq_refl) (Hl 1%positive sample_logger eq_refl)))).
Defined.
