(* ===== verification/ConfigFile.v ===== *)
(** The configuration file ([logmoko_config_file.c]): the line-based parser with
    its fixed-size tables, its application to the registry, and [lmk_init] /
    [lmk_init_from_file] with the automatic configuration. *)
From S2P Require Import Prelude Types Format FileHandler SyslogHandler Registry.
Local Open Scope Z_scope.

Abbreviation text := (list ascii).

(** ** Limits *)

Definition LMK_CFG_MAX_LISTENERS : nat := 16.
Definition LMK_CFG_MAX_HANDLERS : nat := 32.
Definition LMK_CFG_MAX_LOGGERS : nat := 64.
Definition LMK_CFG_MAX_HANDLERS_PER_LOGGER : nat := 16.
Definition LMK_CFG_LINE_MAX : nat := 512.

(** ** The tables *)

Record lmk_cfg_listener := mk_cfg_listener { cl_host : text; cl_port : Z }.

Record lmk_cfg_handler := mk_cfg_handler {
  ch_name : text;
  ch_type : Z;
  ch_level : Z;
  ch_filename : text;
  ch_listeners : list lmk_cfg_listener;
  ch_max_file_size : Z;
  ch_max_backup_files : Z;
  ch_format : text;
  ch_ident : text;
  ch_facility : text;
  ch_psk : text
}.

Record lmk_cfg_logger := mk_cfg_logger {
  lg_name : text;
  lg_level : Z;
  lg_handler_names : list text
}.

Record lmk_cfg := mk_cfg {
  cf_log_buffer_size : Z;
  cf_ring_buffer_size : Z;
  cf_handlers : list lmk_cfg_handler;
  cf_loggers : list lmk_cfg_logger
}.

Definition cfg_start : lmk_cfg := mk_cfg 0 0 [] [].

(** ** String helpers *)

(** [lmk_cfg_trim]. *)
Definition lmk_cfg_trim (s : text) : text :=
  match skip_spaces s with
  | [] => []
  | s' => rev (skip_spaces (rev s'))
  end.

(** [strchr]: the text before and after the first occurrence. *)
Fixpoint split_at (c : ascii) (s : text) : option (text * text) :=
  match s with
  | [] => None
  | d :: s' => if Ascii.eqb d c then Some ([], s') else
      match split_at c s' with Some (a, b) => Some (d :: a, b) | None => None end
  end.

(** [strrchr]: the text before and after the last occurrence. *)
Definition split_at_last (c : ascii) (s : text) : option (text * text) :=
  match split_at c (rev s) with Some (a, b) => Some (rev b, rev a) | None => None end.

(** [strcasecmp] and [strncasecmp] with a literal. *)
Definition is_word (s : text) (w : string) : bool := bool_decide (map tolower s = map tolower (chars w)).
Definition has_prefix (s : text) (w : string) : bool := is_word (take (length (chars w)) s) w.

(** [strncpy(dst, src, sizeof(dst) - 1)] into a zeroed array of [size] bytes. *)
Definition copy_str (size : nat) (s : text) : text := take (size - 1) s.

(** The tokens of [strtok_r(val, ",", ...)]. *)
Fixpoint tokens (cur : text) (s : text) : list text :=
  match s with
  | [] => match cur with [] => [] | _ => [rev cur] end
  | c :: s' =>
      if Ascii.eqb c ","%char
      then match cur with [] => tokens [] s' | _ => rev cur :: tokens [] s' end
      else tokens (c :: cur) s'
  end.

Definition lmk_cfg_parse_level (s : text) : Z :=
  if is_word s "trace" then LMK_LOG_LEVEL_TRACE
  else if is_word s "debug" then LMK_LOG_LEVEL_DEBUG
  else if is_word s "info" then LMK_LOG_LEVEL_INFO
  else if is_word s "warn" then LMK_LOG_LEVEL_WARN
  else if is_word s "error" then LMK_LOG_LEVEL_ERROR
  else if is_word s "off" then LMK_LOG_LEVEL_OFF
  else -1.

(** ** The parser *)

Inductive section := LMK_SEC_NONE | LMK_SEC_GLOBAL | LMK_SEC_HANDLER | LMK_SEC_LOGGER.

(** The parser's local variables; [cur_handler] and [cur_logger] are the indices
    of the entries they point to. *)
Record parse_state := mk_parse_state {
  ps_cfg : lmk_cfg;
  ps_section : section;
  ps_cur_handler : option nat;
  ps_cur_logger : option nat
}.

Definition set_handlers (cfg : lmk_cfg) (hs : list lmk_cfg_handler) : lmk_cfg :=
  mk_cfg (cf_log_buffer_size cfg) (cf_ring_buffer_size cfg) hs (cf_loggers cfg).

Definition set_loggers (cfg : lmk_cfg) (ls : list lmk_cfg_logger) : lmk_cfg :=
  mk_cfg (cf_log_buffer_size cfg) (cf_ring_buffer_size cfg) (cf_handlers cfg) ls.

Definition new_handler (hname : text) : lmk_cfg_handler :=
  mk_cfg_handler (copy_str 64 hname) (-1) (-1) [] [] 0 0 [] [] [] [].

Definition new_logger (lname : text) : lmk_cfg_logger := mk_cfg_logger (copy_str 64 lname) (-1) [].

(** A line that starts with ['[']. *)
Definition parse_section (s : text) (st : parse_state) : parse_state :=
  match split_at "]"%char s with
  | None => st
  | Some (before, _) =>
      let sec_name := lmk_cfg_trim (drop 1 before) in
      let cfg := ps_cfg st in
      if is_word sec_name "global" then mk_parse_state cfg LMK_SEC_GLOBAL None None
      else if has_prefix sec_name "handler:" then
        let hname := lmk_cfg_trim (drop 8 sec_name) in
        if bool_decide (hname <> []) && (length (cf_handlers cfg) <? LMK_CFG_MAX_HANDLERS)%nat
        then mk_parse_state (set_handlers cfg (cf_handlers cfg ++ [new_handler hname])) LMK_SEC_HANDLER
               (Some (length (cf_handlers cfg))) None
        else mk_parse_state cfg LMK_SEC_HANDLER None None
      else if has_prefix sec_name "logger:" then
        let lname := lmk_cfg_trim (drop 7 sec_name) in
        if bool_decide (lname <> []) && (length (cf_loggers cfg) <? LMK_CFG_MAX_LOGGERS)%nat
        then mk_parse_state (set_loggers cfg (cf_loggers cfg ++ [new_logger lname])) LMK_SEC_LOGGER
               None (Some (length (cf_loggers cfg)))
        else mk_parse_state cfg LMK_SEC_LOGGER None None
      else mk_parse_state cfg LMK_SEC_NONE None None
  end.

(** [listener = host:port]. *)
Definition parse_listener (val : text) (h : lmk_cfg_handler) : lmk_cfg_handler :=
  if (length (ch_listeners h) <? LMK_CFG_MAX_LISTENERS)%nat then
    match split_at_last ":"%char val with
    | None => h
    | Some (host, port) =>
        mk_cfg_handler (ch_name h) (ch_type h) (ch_level h) (ch_filename h)
          (ch_listeners h ++ [mk_cfg_listener (copy_str 64 host) (atoi port)])
          (ch_max_file_size h) (ch_max_backup_files h) (ch_format h) (ch_ident h) (ch_facility h) (ch_psk h)
    end
  else h.

(** A [key = value] line of a handler section. *)
Definition parse_handler_key (key val : text) (h : lmk_cfg_handler) : lmk_cfg_handler :=
  let '(mk_cfg_handler name type level filename listeners max_file_size max_backup_files format ident
    facility psk) := h in
  if is_word key "type" then
    let type :=
      if is_word val "console" then LMK_LOG_HANDLER_TYPE_CONSOLE
      else if is_word val "file" then LMK_LOG_HANDLER_TYPE_FILE
      else if is_word val "socket" then LMK_LOG_HANDLER_TYPE_SOCKET
      else if is_word val "syslog" then LMK_LOG_HANDLER_TYPE_SYSLOG
      else type in
    mk_cfg_handler name type level filename listeners max_file_size max_backup_files format ident facility psk
  else if is_word key "level" then
    mk_cfg_handler name type (lmk_cfg_parse_level val) filename listeners max_file_size max_backup_files
      format ident facility psk
  else if is_word key "filename" then
    mk_cfg_handler name type level (copy_str 256 val) listeners max_file_size max_backup_files
      format ident facility psk
  else if is_word key "ident" then
    mk_cfg_handler name type level filename listeners max_file_size max_backup_files
      format (copy_str 64 val) facility psk
  else if is_word key "facility" then
    mk_cfg_handler name type level filename listeners max_file_size max_backup_files
      format ident (copy_str 32 val) psk
  else if is_word key "format" then
    mk_cfg_handler name type level filename listeners max_file_size max_backup_files
      (copy_str 32 val) ident facility psk
  else if is_word key "max_file_size" then
    mk_cfg_handler name type level filename listeners (atol val) max_backup_files format ident facility psk
  else if is_word key "max_backup_files" then
    mk_cfg_handler name type level filename listeners max_file_size (atoi val) format ident facility psk
  else if is_word key "psk" then
    mk_cfg_handler name type level filename listeners max_file_size max_backup_files
      format ident facility (copy_str 256 val)
  else if is_word key "listener" then parse_listener val h
  else h.

(** The token loop of [handlers = a, b, ...]. *)
Fixpoint add_handler_names (toks names : list text) : list text :=
  match toks with
  | [] => names
  | tok :: toks' =>
      if (length names <? LMK_CFG_MAX_HANDLERS_PER_LOGGER)%nat then
        let hname := lmk_cfg_trim tok in
        add_handler_names toks' (if bool_decide (hname <> []) then names ++ [copy_str 64 hname] else names)
      else names
  end.

(** A [key = value] line of a logger section. *)
Definition parse_logger_key (key val : text) (l : lmk_cfg_logger) : lmk_cfg_logger :=
  if is_word key "level" then mk_cfg_logger (lg_name l) (lmk_cfg_parse_level val) (lg_handler_names l)
  else if is_word key "handlers" then
    mk_cfg_logger (lg_name l) (lg_level l) (add_handler_names (tokens [] val) (lg_handler_names l))
  else l.

(** A line with an ['=']. *)
Definition parse_key (key val : text) (st : parse_state) : parse_state :=
  let cfg := ps_cfg st in
  let with_cfg c := mk_parse_state c (ps_section st) (ps_cur_handler st) (ps_cur_logger st) in
  match ps_section st with
  | LMK_SEC_GLOBAL =>
      if is_word key "log_buffer_size"
      then with_cfg (mk_cfg (atoi val) (cf_ring_buffer_size cfg) (cf_handlers cfg) (cf_loggers cfg))
      else if is_word key "ring_buffer_size"
      then with_cfg (mk_cfg (cf_log_buffer_size cfg) (atoi val) (cf_handlers cfg) (cf_loggers cfg))
      else st
  | LMK_SEC_HANDLER =>
      match ps_cur_handler st with
      | Some i => with_cfg (set_handlers cfg (alter (parse_handler_key key val) i (cf_handlers cfg)))
      | None => st
      end
  | LMK_SEC_LOGGER =>
      match ps_cur_logger st with
      | Some i => with_cfg (set_loggers cfg (alter (parse_logger_key key val) i (cf_loggers cfg)))
      | None => st
      end
  | LMK_SEC_NONE => st
  end.

(** One turn of the loop over the lines. *)
Definition parse_line (st : parse_state) (line : text) : parse_state :=
  let s := lmk_cfg_trim (cstr line) in
  match s with
  | [] => st
  | c :: _ =>
      if Ascii.eqb c "#"%char || Ascii.eqb c ";"%char then st
      else if Ascii.eqb c "["%char then parse_section s st
      else match split_at "="%char s with
           | None => st
           | Some (key, val) => parse_key (lmk_cfg_trim key) (lmk_cfg_trim val) st
           end
  end.

(** The results of [fgets(line, LMK_CFG_LINE_MAX, fp)]: lines, newline included,
    cut after [LMK_CFG_LINE_MAX - 1] bytes. *)
Fixpoint fgets_lines (cur : text) (content : text) : list text :=
  match content with
  | [] => match cur with [] => [] | _ => [rev cur] end
  | c :: content' =>
      if Ascii.eqb c NEWLINE || (length cur =? LMK_CFG_LINE_MAX - 2)%nat
      then rev (c :: cur) :: fgets_lines [] content'
      else fgets_lines (c :: cur) content'
  end.

(** [lmk_cfg_parse_file]; [None] when the file cannot be opened. *)
Definition lmk_cfg_parse_file (content : option text) : option lmk_cfg :=
  content ← content;
  Some (ps_cfg (foldl parse_line (mk_parse_state cfg_start LMK_SEC_NONE None None) (fgets_lines [] content))).

(** ** Application to the registry *)

(** A loop that threads the registry through a list. *)
Fixpoint loop_ok {A} (f : A -> registry -> outcome registry) (l : list A) (r : registry) : outcome registry :=
  match l with [] => Ok r | a :: l' => r ← f a r; loop_ok f l' r end.

(** What memory answers while the library runs, by what the request is for - the
    name of the logger or handler, the file, the host - and by the registry at
    that time: the address of a new object or NULL, and whether a copy of a
    name, a reference, a list entry, or a handler's ring and thread can be had. *)
Record allocator := mk_allocator {
  al_object : string -> registry -> option addr;
  al_logger_name : string -> registry -> bool;
  al_handler_name : string -> registry -> bool;
  al_filename : string -> registry -> bool;
  al_ref : string -> registry -> bool;
  al_listener : string -> registry -> bool;
  al_set_up : string -> registry -> bool
}.

Section apply.
Context (A : allocator).

(** [text] as an optional C string: [s[0] ? s : NULL]. *)
Definition non_empty (s : text) : option string := match s with [] => None | _ => Some (str s) end.

(** The creation of a handler for its type, with the type's own settings. *)
Definition cfg_make_handler (ch : lmk_cfg_handler) (r : registry) : outcome (option addr * registry) :=
  let name := str (ch_name ch) in
  if ch_type ch =? LMK_LOG_HANDLER_TYPE_CONSOLE then
    lmk_get_console_log_handler init_done (al_object A "console" r) (al_handler_name A "console" r) (al_set_up A "console" r) r
  else if ch_type ch =? LMK_LOG_HANDLER_TYPE_FILE then
    '(ho, r) ← lmk_get_file_log_handler init_done (al_object A name r) (al_handler_name A name r)
      (al_filename A (str (ch_filename ch)) r) (al_set_up A name r) (Some name) (non_empty (ch_filename ch)) r;
    match ho with
    | Some _ =>
        if (0 <? ch_max_file_size ch) || (0 <? ch_max_backup_files ch) then
          r ← handler_set_rotation ho
            (if 0 <? ch_max_file_size ch then ch_max_file_size ch else LMK_DEFAULT_MAX_FILE_SIZE)
            (if 0 <? ch_max_backup_files ch then ch_max_backup_files ch else LMK_DEFAULT_MAX_BACKUP_FILES) r;
          Ok (ho, r)
        else Ok (ho, r)
    | None => Ok (ho, r)
    end
  else if ch_type ch =? LMK_LOG_HANDLER_TYPE_SYSLOG then
    lmk_get_syslog_log_handler init_done (al_object A name r) (al_handler_name A name r) (al_set_up A name r)
      (Some name) (non_empty (ch_ident ch)) (lmk_parse_syslog_facility (non_empty (ch_facility ch))) r
  else if ch_type ch =? LMK_LOG_HANDLER_TYPE_SOCKET then
    '(ho, r) ← lmk_get_socket_log_handler init_done (al_object A name r) (al_handler_name A name r) (al_set_up A name r)
      (Some name) r;
    match ho with
    | Some _ =>
        r ← (match non_empty (ch_psk ch) with Some psk => handler_set_psk ho (Some psk) r | None => Ok r end);
        r ← loop_ok (fun l r => handler_add_listener (al_listener A (str (cl_host l)) r) ho (Some (str (cl_host l))) (cl_port l) r)
              (ch_listeners ch) r;
        Ok (ho, r)
    | None => Ok (ho, r)
    end
  else Ok (None, r).

Definition cfg_apply_handler (ch : lmk_cfg_handler) (r : registry) : outcome registry :=
  if ch_type ch <? 0 then Ok r
  else
    '(ho, r) ← cfg_make_handler ch r;
    match ho with
    | None => Ok r
    | Some _ =>
        r ← (if negb (ch_level ch =? -1) then lmk_set_handler_log_level init_done ho (ch_level ch) r else Ok r);
        match non_empty (ch_format ch) with
        | Some f => lmk_set_log_format ho (lmk_get_format_fn (Some f)) r
        | None => Ok r
        end
    end.

Definition cfg_apply_logger (cl : lmk_cfg_logger) (r : registry) : outcome registry :=
  '(lo, r) ← lmk_get_logger init_done (al_object A (str (lg_name cl)) r) (al_logger_name A (str (lg_name cl)) r)
    (Some (str (lg_name cl))) r;
  match lo with
  | None => Ok r
  | Some _ =>
      r ← (if negb (lg_level cl =? -1) then lmk_set_log_level init_done lo (lg_level cl) r else Ok r);
      loop_ok (fun name r =>
        ho ← lmk_search_log_handler_by_name (Some (str name)) r;
        match ho with
        | Some _ => '(_, r) ← lmk_attach_log_handler init_done (al_ref A (str name) r) lo ho r; Ok r
        | None => Ok r
        end) (lg_handler_names cl) r
  end.

Definition lmk_cfg_apply (cfg : lmk_cfg) (r : registry) : outcome registry :=
  _ ← deref (g_config r);
  let c := mk_config
    (if 0 <? cf_log_buffer_size cfg then cf_log_buffer_size cfg else LMK_CFG_DEFAULT_LOG_BUFFER_SIZE)
    (if 0 <? cf_ring_buffer_size cfg then cf_ring_buffer_size cfg else LMK_CFG_DEFAULT_RING_BUFFER_SIZE) in
  let r := mk_registry (g_initialized r) (Some c) (g_logger_list r) (g_handler_list r)
    (g_loggers r) (g_handlers r) (g_calls r) in
  r ← loop_ok cfg_apply_handler (cf_handlers cfg) r;
  loop_ok cfg_apply_logger (cf_loggers cfg) r.

(** The contents of the files that can be opened, and [getenv("LMK_CONFIG_FILE")]. *)
Context (files : string -> option text) (env_path : option string).

Definition lmk_parse_and_apply (path : string) (r : registry) : outcome (Z * registry) :=
  match lmk_cfg_parse_file (files path) with
  | None => Ok (LMK_E_NG, r)
  | Some cfg => r ← lmk_cfg_apply cfg r; Ok (LMK_E_OK, r)
  end.

Definition lmk_apply_auto_config (r : registry) : outcome (Z * registry) :=
  lmk_parse_and_apply (default "logmoko.conf" env_path) r.

(** [lmk_init] with the automatic configuration. *)
Definition lmk_init_auto (config_ok : bool) (r : registry) : outcome registry :=
  lmk_init config_ok (fun r => '(_, r) ← lmk_apply_auto_config r; Ok r) r.

Definition lmk_init_from_file (config_ok : bool) (path : option string) (r : registry) :
    outcome (Z * registry) :=
  r ← lmk_init_auto config_ok r;
  match path with
  | None => lmk_apply_auto_config r
  | Some path => lmk_parse_and_apply path r
  end.
End apply.
