(* ===== verification/ConfigTheorems.v ===== *)
(** The configuration file's contract: the line splitting and trimming, the
    bounds of every table whatever the file holds, and the initialisation that
    applies it to the registry. *)
From S2P Require Import Prelude Types Format FileHandler SyslogHandler Registry RegistrySafety RegistryTheorems ConfigFile.
Local Open Scope Z_scope.

(** ** Strings *)

Lemma rev_is_reverse {A} (l : list A) : rev l = reverse l.
Proof. apply List.rev_alt. Qed.

Definition spaces (s : text) : Prop := Forall (fun c => is_space c = true) s.

Lemma skip_spaces_spec s : exists pre, s = pre ++ skip_spaces s /\ spaces pre /\
  forall c, head (skip_spaces s) = Some c -> is_space c = false.
Proof.
  induction s as [|c s (pre & He & Hp & Hh)]; [exists []; split_and!; [done|constructor|done]|]. simpl. destruct (is_space c) eqn:Hc.
  - exists (c :: pre). simpl. rewrite <- He. split_and!; [done|by constructor|done].
  - exists []. split_and!; [done|by constructor|by intros d [= <-]].
Qed.

(** What trimming is: the input without the spaces around it. *)
Definition trimmed (s t : text) : Prop := exists pre post,
  s = pre ++ t ++ post /\ spaces pre /\ spaces post /\
  (forall c, head t = Some c -> is_space c = false) /\ (forall c, last t = Some c -> is_space c = false).

Lemma lmk_cfg_trim_spec s : trimmed s (lmk_cfg_trim s).
Proof.
  destruct (skip_spaces_spec s) as (pre & He & Hp & Hh). unfold lmk_cfg_trim.
  destruct (skip_spaces s) as [|d s'] eqn:Hs.
  { exists pre, []. split_and!; try done. by constructor. }
  destruct (skip_spaces_spec (rev (d :: s'))) as (post & He' & Hp' & Hh').
  set (t := skip_spaces (rev (d :: s'))) in *. exists pre, (rev post).
  assert (d :: s' = rev t ++ rev post) as Hd by (rewrite <- rev_app_distr, <- He'; symmetry; apply rev_involutive).
  split_and!.
  - by rewrite <- Hd.
  - done.
  - unfold spaces. rewrite rev_is_reverse. by apply Forall_reverse.
  - destruct (rev t) as [|e t'] eqn:Ht; [done|]. simpl. intros c [= <-]. apply Hh. by injection Hd as -> _.
  - intros c. rewrite rev_is_reverse, last_reverse. apply Hh'.
Qed.

Lemma trimmed_elem s t c : trimmed s t -> c ∈ t -> c ∈ s.
Proof. intros (pre & post & -> & _) Hc. set_solver. Qed.

Lemma split_at_spec c s a b : split_at c s = Some (a, b) -> s = a ++ c :: b /\ (c ∉ a).
Proof.
  revert a. induction s as [|d s IH]; intros a; [done|]. simpl. destruct (Ascii.eqb_spec d c) as [->|Hne].
  - intros [= <- <-]. split; [done|apply not_elem_of_nil].
  - destruct (split_at c s) as [[a' b']|] eqn:Hs; [|done]. intros [= <- <-].
    destruct (IH a' eq_refl) as [-> Hn]. split; [done|]. apply not_elem_of_cons. by split; [intros ->|].
Qed.

Lemma split_at_last_spec c s a b : split_at_last c s = Some (a, b) -> s = a ++ c :: b /\ (c ∉ b).
Proof.
  unfold split_at_last. destruct (split_at c (rev s)) as [[a' b']|] eqn:Hs; [|done]. intros [= <- <-].
  apply split_at_spec in Hs as [He Hn]. split.
  - rewrite <- (rev_involutive s), He, rev_app_distr. simpl. by rewrite <- app_assoc.
  - by rewrite rev_is_reverse, elem_of_reverse.
Qed.

Lemma tokens_elem cur s t c : t ∈ tokens cur s -> c ∈ t -> c ∈ cur \/ c ∈ s.
Proof.
  assert (forall l, c ∈ rev l -> c ∈ l) as Hrev by (intros l; by rewrite rev_is_reverse, elem_of_reverse).
  revert cur. induction s as [|d s IH]; intros cur; cbn [tokens].
  - destruct cur as [|e cur]; [by intros ?%not_elem_of_nil|].
    intros [->|?%not_elem_of_nil]%elem_of_cons Hc; [left; by apply Hrev|done].
  - destruct (Ascii.eqb d ","%char).
    + destruct cur as [|e cur].
      * intros Ht Hc. destruct (IH [] Ht Hc) as [?%not_elem_of_nil|?]; [done|right; by right].
      * intros [->|Ht]%elem_of_cons Hc; [left; by apply Hrev|].
        destruct (IH [] Ht Hc) as [?%not_elem_of_nil|?]; [done|right; by right].
    + intros Ht Hc. destruct (IH (d :: cur) Ht Hc) as [[->|?]%elem_of_cons|?]; [right; by left|by left|right; by right].
Qed.

(** ** C strings that fit their arrays *)

(** A C string in an array of [size] bytes: no NUL, and room for the terminator. *)
Definition fits (size : nat) (s : text) : Prop := (length s < size)%nat /\ (NUL ∉ s).

Lemma fits_copy size s : (0 < size)%nat -> NUL ∉ s -> fits size (copy_str size s).
Proof.
  intros Hs Hn. unfold copy_str. split; [rewrite length_take; lia|]. intros Hin. apply Hn.
  by apply (subseteq_take (size - 1) s).
Qed.

Lemma trim_nul_free s : NUL ∉ s -> NUL ∉ lmk_cfg_trim s.
Proof. intros Hn Hin. apply Hn. by eapply trimmed_elem, Hin; apply lmk_cfg_trim_spec. Qed.

Lemma drop_nul_free n s : NUL ∉ s -> NUL ∉ drop n s.
Proof. intros Hn Hin. by apply Hn, (subseteq_drop n s). Qed.

Lemma split_at_nul_free c s a b : NUL ∉ s -> split_at c s = Some (a, b) -> (NUL ∉ a) /\ (NUL ∉ b).
Proof. intros Hn [-> _]%split_at_spec. set_solver. Qed.

(** ** The tables *)

(** The levels the parser stores: a valid one, or -1 for none. *)
Definition cfg_level (level : Z) : Prop := level = -1 \/ LMK_IS_VALID_LOG_LEVEL level = true.

Record cfg_handler_ok (h : lmk_cfg_handler) : Prop := {
  cho_name : fits 64 (ch_name h) /\ ch_name h <> [];
  cho_type : -1 <= ch_type h <= LMK_LOG_HANDLER_TYPE_SYSLOG;
  cho_level : cfg_level (ch_level h);
  cho_filename : fits 256 (ch_filename h);
  cho_listeners : (length (ch_listeners h) <= LMK_CFG_MAX_LISTENERS)%nat /\
    Forall (fun l => fits 64 (cl_host l)) (ch_listeners h);
  cho_strings : fits 32 (ch_format h) /\ fits 64 (ch_ident h) /\ fits 32 (ch_facility h) /\ fits 256 (ch_psk h)
}.

Record cfg_logger_ok (l : lmk_cfg_logger) : Prop := {
  clo_name : fits 64 (lg_name l) /\ lg_name l <> [];
  clo_level : cfg_level (lg_level l);
  clo_names : (length (lg_handler_names l) <= LMK_CFG_MAX_HANDLERS_PER_LOGGER)%nat /\
    Forall (fun n => fits 64 n /\ n <> []) (lg_handler_names l)
}.

Record cfg_ok (cfg : lmk_cfg) : Prop := {
  co_handlers : (length (cf_handlers cfg) <= LMK_CFG_MAX_HANDLERS)%nat /\ Forall cfg_handler_ok (cf_handlers cfg);
  co_loggers : (length (cf_loggers cfg) <= LMK_CFG_MAX_LOGGERS)%nat /\ Forall cfg_logger_ok (cf_loggers cfg);
  co_sizes : cf_log_buffer_size cfg <= INT_MAX /\ cf_ring_buffer_size cfg <= INT_MAX
}.

(** The parser's pointers point into the tables. *)
Definition parse_ok (st : parse_state) : Prop :=
  cfg_ok (ps_cfg st) /\
  (forall i, ps_cur_handler st = Some i -> (i < length (cf_handlers (ps_cfg st)))%nat) /\
  (forall i, ps_cur_logger st = Some i -> (i < length (cf_loggers (ps_cfg st)))%nat).

Lemma fits_nil size : (0 < size)%nat -> fits size [].
Proof. split; [done|apply not_elem_of_nil]. Qed.

Lemma copy_not_nil size s : (1 < size)%nat -> s <> [] -> copy_str size s <> [].
Proof. intros Hs Hn. destruct s as [|c s]; [done|]. unfold copy_str. by destruct size as [|[|size]]; [lia|lia|]. Qed.

Lemma parse_level_ok s : cfg_level (lmk_cfg_parse_level s).
Proof.
  unfold lmk_cfg_parse_level, cfg_level. repeat (destruct (is_word s _); [by right|]). by left.
Qed.

Create HintDb cfg.
#[local] Hint Resolve fits_nil fits_copy copy_not_nil parse_level_ok : cfg.
#[local] Hint Extern 1 (_ < _)%nat => lia : cfg.

Lemma new_handler_ok name : NUL ∉ name -> name <> [] -> cfg_handler_ok (new_handler name).
Proof.
  intros Hn Hne. split; simpl; auto 10 with cfg; [by vm_compute|by left|]. split; [lia|constructor].
Qed.

Lemma new_logger_ok name : NUL ∉ name -> name <> [] -> cfg_logger_ok (new_logger name).
Proof. intros Hn Hne. split; simpl; auto with cfg; [by left|]. split; [lia|constructor]. Qed.

Lemma parse_listener_ok val h : NUL ∉ val -> cfg_handler_ok h -> cfg_handler_ok (parse_listener val h).
Proof.
  intros Hn Hok. unfold parse_listener. destruct (Nat.ltb_spec (length (ch_listeners h)) LMK_CFG_MAX_LISTENERS) as [Hlt|]; [|done].
  destruct (split_at_last _ val) as [[host port]|] eqn:Hs; [|done]. apply split_at_last_spec in Hs as [-> _].
  destruct Hok as [Hname Htype Hlevel Hfile [Hlen Hls] Hstr]. split; simpl; try done. split.
  - rewrite length_app. simpl. lia.
  - apply Forall_app. split; [done|]. constructor; [|constructor]. simpl. apply fits_copy; [lia|].
    intros Hin. apply Hn, elem_of_app. by left.
Qed.

Lemma parse_handler_key_ok key val h : NUL ∉ val -> cfg_handler_ok h -> cfg_handler_ok (parse_handler_key key val h).
Proof.
  intros Hn Hok. destruct h as [name type level filename listeners mfs mbf format ident facility psk].
  pose proof (parse_listener_ok val _ Hn Hok) as Hlistener.
  destruct Hok as [Hname Htype Hlevel Hfile Hls (Hformat & Hident & Hfacility & Hpsk)]. simpl in *.
  unfold parse_handler_key.
  destruct (is_word key "type").
  { split; simpl; auto. unfold LMK_LOG_HANDLER_TYPE_SYSLOG in *.
    repeat (destruct (is_word val _); [vm_compute; split; discriminate|]). lia. }
  repeat (destruct (is_word key _); [first [exact Hlistener|split; simpl; auto 10 with cfg]|]).
  by split; simpl.
Qed.

Lemma add_handler_names_ok toks names : Forall (fun t => NUL ∉ t) toks ->
  (length names <= LMK_CFG_MAX_HANDLERS_PER_LOGGER)%nat -> Forall (fun n => fits 64 n /\ n <> []) names ->
  (length (add_handler_names toks names) <= LMK_CFG_MAX_HANDLERS_PER_LOGGER)%nat /\
  Forall (fun n => fits 64 n /\ n <> []) (add_handler_names toks names).
Proof.
  intros Htoks. revert names. induction Htoks as [|tok toks Ht _ IH]; intros names Hlen Hall; [done|].
  cbn [add_handler_names]. destruct (Nat.ltb_spec (length names) LMK_CFG_MAX_HANDLERS_PER_LOGGER) as [Hlt|]; [|done].
  destruct (bool_decide_reflect (lmk_cfg_trim tok <> [])); apply IH; try done.
  - rewrite length_app. simpl. lia.
  - apply Forall_app. split; [done|]. constructor; [|constructor]. pose proof (trim_nul_free tok Ht). auto with cfg.
Qed.

Lemma parse_logger_key_ok key val l : NUL ∉ val -> cfg_logger_ok l -> cfg_logger_ok (parse_logger_key key val l).
Proof.
  intros Hn [Hname Hlevel [Hlen Hnames]]. unfold parse_logger_key. destruct (is_word key "level").
  { split; simpl; auto with cfg. }
  destruct (is_word key "handlers"); [|by split]. split; simpl; try done. apply add_handler_names_ok; try done.
  apply Forall_forall. intros t Ht Hin. destruct (tokens_elem [] val t NUL Ht Hin) as [?%not_elem_of_nil|?]; done.
Qed.

Lemma Forall_alter_ok {A} (P : A -> Prop) f i l : (forall x, P x -> P (f x)) -> Forall P l -> Forall P (alter f i l).
Proof. intros Hf Hl. by apply Forall_alter; [|intros x _; apply Hf]. Qed.

(** ** The parser keeps the tables in bounds *)

Lemma parse_section_ok s st : NUL ∉ s -> parse_ok st -> parse_ok (parse_section s st).
Proof.
  intros Hn (Hcfg & Hh & Hl). unfold parse_section. destruct (split_at _ s) as [[before after]|] eqn:Hs; [|done].
  destruct (split_at_nul_free _ _ _ _ Hn Hs) as [Hb _].
  set (sec := lmk_cfg_trim (drop 1 before)).
  assert (NUL ∉ sec) as Hsec by (by apply trim_nul_free, drop_nul_free).
  assert (forall n, NUL ∉ lmk_cfg_trim (drop n sec)) as Hname by (intros n; by apply trim_nul_free, drop_nul_free).
  assert (forall k, parse_ok (mk_parse_state (ps_cfg st) k None None)) as Hnone by (by intros k).
  destruct (is_word sec "global"); [done|]. destruct Hcfg as [[Hhl Hhs] [Hll Hls] Hsz].
  destruct (has_prefix sec "handler:"); [|destruct (has_prefix sec "logger:"); [|done]].
  - destruct (bool_decide_reflect (lmk_cfg_trim (drop 8 sec) <> [])) as [Hne|]; [|done].
    destruct (Nat.ltb_spec (length (cf_handlers (ps_cfg st))) LMK_CFG_MAX_HANDLERS); [|done]. cbn [andb].
    split; [split; simpl; [|done|done]|split; [|done]].
    + split; [rewrite length_app; simpl; lia|]. apply Forall_app. split; [done|].
      constructor; [by apply new_handler_ok|constructor].
    + simpl. intros i [= <-]. rewrite length_app. simpl. lia.
  - destruct (bool_decide_reflect (lmk_cfg_trim (drop 7 sec) <> [])) as [Hne|]; [|done].
    destruct (Nat.ltb_spec (length (cf_loggers (ps_cfg st))) LMK_CFG_MAX_LOGGERS); [|done]. cbn [andb].
    split; [split; simpl; [done| |done]|split; [done|]].
    + split; [rewrite length_app; simpl; lia|]. apply Forall_app. split; [done|].
      constructor; [by apply new_logger_ok|constructor].
    + simpl. intros i [= <-]. rewrite length_app. simpl. lia.
Qed.

Lemma parse_key_ok key val st : NUL ∉ val -> parse_ok st -> parse_ok (parse_key key val st).
Proof.
  intros Hn Hok. pose proof Hok as ([[Hhl Hhs] [Hll Hls] [Hs1 Hs2]] & Hh & Hl). unfold parse_key.
  destruct (ps_section st); [done|..].
  - assert (atoi val <= INT_MAX) as Ha by (unfold atoi, INT_MAX; pose proof (s32_range (atol val)); lia).
    destruct (is_word key "log_buffer_size"); [done|]. by destruct (is_word key "ring_buffer_size").
  - destruct (ps_cur_handler st) as [i|] eqn:Hi; [|done].
    split; [split; simpl; [|done|done]|split; simpl; [intros j Hj; rewrite length_alter; by apply Hh|done]].
    rewrite length_alter. split; [done|]. apply Forall_alter_ok; [|done]. intros h. by apply parse_handler_key_ok.
  - destruct (ps_cur_logger st) as [i|] eqn:Hi; [|done].
    split; [split; simpl; [done| |done]|split; simpl; [done|intros j Hj; rewrite length_alter; by apply Hl]].
    rewrite length_alter. split; [done|]. apply Forall_alter_ok; [|done]. intros l. by apply parse_logger_key_ok.
Qed.

Lemma parse_line_ok st line : parse_ok st -> parse_ok (parse_line st line).
Proof.
  intros Hok. unfold parse_line. pose proof (trim_nul_free _ (cstr_no_nul line)) as Hn.
  destruct (lmk_cfg_trim (cstr line)) as [|c s]; [done|]. destruct (_ || _); [done|].
  destruct (Ascii.eqb c "["%char); [by apply parse_section_ok|].
  destruct (split_at _ (c :: s)) as [[key val]|] eqn:Hs; [|done].
  apply parse_key_ok; [|done]. apply trim_nul_free. by eapply split_at_nul_free.
Qed.

Lemma parse_lines_ok lines st : parse_ok st -> parse_ok (foldl parse_line st lines).
Proof. revert st. induction lines as [|line lines IH]; intros st Hok; [done|]. by apply IH, parse_line_ok. Qed.

Lemma parse_all_ok lines : parse_ok (foldl parse_line (mk_parse_state cfg_start LMK_SEC_NONE None None) lines).
Proof.
  apply parse_lines_ok. split; [|done]. split; (split; [vm_compute; lia || done|constructor || done]).
Qed.

Lemma parse_file_ok content cfg : lmk_cfg_parse_file (Some content) = Some cfg -> cfg_ok cfg.
Proof. intros [= <-]. apply parse_all_ok. Qed.

(** C21. Whatever bytes the configuration file holds, the parser never leaves its
    tables: at most 32 handlers and 64 loggers, 16 listeners and 16 names in
    each, every string NUL-terminated inside its array, only valid levels and
    types or -1, and the current section points to an entry of its table. *)
Theorem parser_stays_in_bounds :
  (forall lines, parse_ok (foldl parse_line (mk_parse_state cfg_start LMK_SEC_NONE None None) lines)) /\
  (forall content cfg, lmk_cfg_parse_file (Some content) = Some cfg -> cfg_ok cfg).
Proof. split; [apply parse_all_ok|apply parse_file_ok]. Qed.

(** ** Lines *)

Lemma fgets_lines_spec cur content : (length cur < LMK_CFG_LINE_MAX - 1)%nat -> NEWLINE ∉ cur ->
  concat (fgets_lines cur content) = rev cur ++ content /\
  Forall (fun l => l <> [] /\ (length l < LMK_CFG_LINE_MAX)%nat /\ forall c, In c (removelast l) -> c <> NEWLINE)
    (fgets_lines cur content).
Proof.
  assert (forall l : text, NEWLINE ∉ l -> forall c, In c (rev l) -> c <> NEWLINE) as Hin.
  { intros l Hl c Hc ->. apply Hl, list_elem_of_In. by apply in_rev. }
  revert cur. induction content as [|c content IH]; intros cur Hlen Hn; cbn [fgets_lines].
  - destruct cur as [|d cur]; [split; [done|constructor]|]. split; [simpl; by rewrite !app_nil_r|].
    constructor; [|constructor]. split; [intros He; by apply (f_equal length) in He; rewrite length_rev in He|].
    split; [rewrite length_rev; lia|]. intros e He. apply (Hin (d :: cur) Hn).
    simpl in *. rewrite removelast_last in He. apply in_app_iff. by left.
  - destruct (Ascii.eqb_spec c NEWLINE) as [->|Hc]; [|destruct (Nat.eqb_spec (length cur) (LMK_CFG_LINE_MAX - 2))]; cbn [orb].
    1,2: destruct (IH []) as [Hcat Hall]; [unfold LMK_CFG_LINE_MAX; simpl; lia|apply not_elem_of_nil|];
      cbn [concat rev]; rewrite Hcat, <- app_assoc; split; [done|]; constructor; [|done];
      (split; [by destruct (rev cur)|]); rewrite length_app, length_rev, removelast_last;
      (split; [simpl; lia|by apply Hin]).
    destruct (IH (c :: cur)) as [Hcat Hall]; [unfold LMK_CFG_LINE_MAX in *; simpl; lia|by apply not_elem_of_cons|].
    rewrite Hcat. simpl. by rewrite <- app_assoc.
Qed.

(** The lines the parser reads are the file cut into pieces: nothing is lost
    or reordered, every piece fits the 512-byte buffer with its terminator, and
    a newline only ends a piece. *)
Theorem config_lines_are_the_file content :
  concat (fgets_lines [] content) = content /\
  Forall (fun l => l <> [] /\ (length l < LMK_CFG_LINE_MAX)%nat /\ forall c, In c (removelast l) -> c <> NEWLINE)
    (fgets_lines [] content).
Proof. apply fgets_lines_spec; [unfold LMK_CFG_LINE_MAX; simpl; lia|apply not_elem_of_nil]. Qed.

(** The level names the framework prints are the ones the configuration file
    accepts, in any case: reading a printed level gives the level back. *)
Theorem level_names_roundtrip level : LMK_IS_VALID_LOG_LEVEL level = true ->
  forall s, map tolower s = map tolower (chars (lmk_get_log_level_str level)) -> lmk_cfg_parse_level s = level.
Proof.
  intros Hv s Hs. unfold lmk_cfg_parse_level, is_word. rewrite Hs.
  unfold LMK_IS_VALID_LOG_LEVEL, LMK_LOG_LEVEL_TRACE, LMK_LOG_LEVEL_OFF in Hv.
  assert (level = 0 \/ level = 1 \/ level = 2 \/ level = 3 \/ level = 4 \/ level = 5) as Hcases by lia.
  destruct_or! Hcases; by subst level.
Qed.

Lemma level_names_roundtrip_witness : lmk_cfg_parse_level (chars "wArN") = LMK_LOG_LEVEL_WARN.
Proof. apply (level_names_roundtrip LMK_LOG_LEVEL_WARN eq_refl). reflexivity. Defined.

(** ** Applying the tables to the registry *)

(** A call that succeeds, keeps the registry well formed and leaves the
    configuration record [c] alone. *)
Definition applied (c : option lmk_config) (call : outcome registry) : Prop :=
  exists r, call = Ok r /\ registry_ok r /\ g_config r = c.

(** The same for a call that also returns a live handler or logger, or NULL. *)
Definition applied_to (live : option addr -> registry -> Prop) (c : option lmk_config)
    (call : outcome (option addr * registry)) : Prop :=
  exists p r, call = Ok (p, r) /\ registry_ok r /\ g_config r = c /\ live p r.

Lemma applied_to_bind live c call f : applied_to live c call ->
  (forall p r, registry_ok r -> g_config r = c -> live p r -> applied c (f (p, r))) -> applied c (call ≫= f).
Proof. intros (p & r & -> & Hok & Hc & Hl) Hf. rewrite outcome_bind_ok. by apply Hf. Qed.

Lemma applied_ok c r : registry_ok r -> g_config r = c -> applied c (Ok r).
Proof. by exists r. Qed.

Lemma applied_keeps c call : keeps_ok call -> (forall r, call = Ok r -> g_config r = c) -> applied c call.
Proof. intros (r & He & Hok) Hc. exists r. split_and!; auto. Qed.

Lemma loop_ok_applied {A} (f : A -> registry -> outcome registry) (P : registry -> Prop) c l r :
  (forall a r, a ∈ l -> registry_ok r -> g_config r = c -> P r -> exists r', f a r = Ok r' /\ registry_ok r' /\ g_config r' = c /\ P r') ->
  registry_ok r -> g_config r = c -> P r ->
  exists r', loop_ok f l r = Ok r' /\ registry_ok r' /\ g_config r' = c /\ P r'.
Proof.
  intros Hf. revert r. induction l as [|a l IH]; intros r Hok Hc HP; [by exists r|]. cbn [loop_ok].
  destruct (Hf a r ltac:(by left) Hok Hc HP) as (r1 & -> & Hok1 & Hc1 & HP1). rewrite outcome_bind_ok.
  apply IH; [|done..]. intros b r0 Hb. apply Hf. by right.
Qed.

(** ** What is assumed of memory *)

(** A new object is at an address that is not in use. *)
Definition objects_fresh (A : allocator) : Prop := forall n r, alloc_ok (al_object A n r) r.

(** Handler names and file names, the copies whose failure the library does not check, are copied. *)
Definition names_copied (A : allocator) : Prop :=
  (forall n r, al_handler_name A n r = true) /\ (forall n r, al_filename A n r = true).

(** Memory suffices for everything, and every handler starts. *)
Record ample (A : allocator) : Prop := {
  am_fresh : objects_fresh A;
  am_copied : names_copied A;
  am_object : forall n r, is_Some (al_object A n r);
  am_logger_name : forall n r, al_logger_name A n r = true;
  am_ref : forall n r, al_ref A n r = true;
  am_listener : forall n r, al_listener A n r = true;
  am_set_up : forall n r, al_set_up A n r = true
}.

Section apply.
Context (A : allocator).
Hypothesis fresh_objects : objects_fresh A.
Hypothesis copied : names_copied A.

(** A well-formed registry is initialised: the nested [lmk_init] returns at once. *)
Lemma init_done_initialized r : g_initialized r = true -> init_done r = Ok r.
Proof. unfold init_done. by intros ->. Qed.

Lemma init_done_ok r : registry_ok r -> init_done r = Ok r.
Proof. intros Hok. apply init_done_initialized, Hok. Qed.

Lemma make_handler_applied n name data ok r : registry_ok r -> data_named data ->
  applied_to live_handler (g_config r)
    (make_handler (al_object A n r) true ok (kind_type (data_kind data)) (type_methods (data_kind data)) name data r).
Proof.
  intros Hok Hd. destruct (make_handler_spec (al_object A n r) ok _ _ name data r Hok (fresh_objects n r) eq_refl eq_refl Hd)
    as (p & r' & He & Hok' & Hcases).
  exists p, r'. split; [done|]. split; [done|].
  assert (g_config r' = g_config r) as ->.
  { unfold make_handler in He. destruct (search_handler_spec r name Hok) as (found & Hs & _).
    rewrite Hs, outcome_bind_ok in He. destruct found; [by simplify_eq|]. destruct (al_object A n r); [|by simplify_eq].
    destruct (call_init _) as [[]| |]; [|done..]. rewrite outcome_bind_ok in He. destruct (negb ok); by simplify_eq. }
  split; [done|]. intros a ->.
  destruct Hcases as [(b & h & [= <-] & Hh & _ & ->)|[(_ & b & _ & _ & [= <-] & -> & _)|(_ & ? & _)]]; [..|done].
  - apply (ro_handler_list r Hok). by exists h.
  - apply elem_of_snoc. by right.
Qed.

(** The factories, after their call of [lmk_init]. *)
Lemma factory_applied (f : registry -> outcome (option addr * registry)) r : registry_ok r ->
  applied_to live_handler (g_config r) (f r) -> applied_to live_handler (g_config r) (r ← init_done r; f r).
Proof. intros Hok Hf. by rewrite (init_done_ok r Hok), outcome_bind_ok. Qed.

Lemma null_applied live r : (forall q, live None q) -> registry_ok r -> applied_to live (g_config r) (Ok (None, r)).
Proof. intros Hl Hok. exists None, r. by split_and!. Qed.

(** A setter of a handler's settings; it keeps the live pointers live. *)
Definition settles (q : option addr) (r : registry) (call : outcome registry) : Prop :=
  exists r', call = Ok r' /\ registry_ok r' /\ g_config r' = g_config r /\ live_handler q r'.

Lemma settles_same q r : registry_ok r -> live_handler q r -> settles q r (Ok r).
Proof. by exists r. Qed.

Lemma sets_data_settles p q r call : registry_ok r -> live_handler q r -> sets_data p r call -> settles q r call.
Proof.
  intros Hok Hq [->|(a & h & d & _ & Hh & Hk & Hn & ->)]; [by apply settles_same|].
  eexists. split; [done|]. split; [by apply upd_data_ok|done].
Qed.

Lemma set_rotation_settles p size n r : registry_ok r -> live_handler p r ->
  settles p r (handler_set_rotation p size n r).
Proof. intros Hok Hp. by eapply sets_data_settles, set_rotation_sets. Qed.

Lemma set_psk_settles p psk r : registry_ok r -> live_handler p r -> settles p r (handler_set_psk p psk r).
Proof. intros Hok Hp. by eapply sets_data_settles, set_psk_sets. Qed.

Lemma add_listener_settles ok p host port r : registry_ok r -> live_handler p r ->
  settles p r (handler_add_listener ok p host port r).
Proof. intros Hok Hp. by eapply sets_data_settles, add_listener_sets. Qed.

(** A factory's result followed by settings of the handler it returned. *)
Lemma then_settles (call : outcome (option addr * registry)) (g : option addr -> registry -> outcome registry) c :
  applied_to live_handler c call ->
  (forall p r, registry_ok r -> live_handler p r -> settles p r (g p r)) ->
  applied_to live_handler c ('(ho, r) ← call;
    match ho with Some _ => r ← g ho r; Ok (ho, r) | None => Ok (ho, r) end).
Proof.
  intros (p & r & -> & Hok & Hc & Hl) Hg. rewrite outcome_bind_ok. destruct p as [ha|]; [|by exists None, r].
  destruct (Hg (Some ha) r Hok Hl) as (r' & -> & Hok' & Hc' & Hl'). rewrite outcome_bind_ok. exists (Some ha), r'.
  split_and!; try done. congruence.
Qed.

Lemma settles_bind q r call f : settles q r call ->
  (forall r', registry_ok r' -> live_handler q r' -> settles q r' (f r')) -> settles q r (call ≫= f).
Proof.
  intros (r1 & -> & Hok1 & Hc1 & Hl1) Hf. rewrite outcome_bind_ok.
  destruct (Hf r1 Hok1 Hl1) as (r2 & He & Hok2 & Hc2 & Hl2). exists r2. split_and!; try done. congruence.
Qed.

Lemma settles_loop {B} (f : B -> registry -> outcome registry) q l r :
  (forall a r', registry_ok r' -> live_handler q r' -> settles q r' (f a r')) ->
  registry_ok r -> live_handler q r -> settles q r (loop_ok f l r).
Proof.
  intros Hf. revert r. induction l as [|a l IH]; intros r Hok Hl; [by apply settles_same|].
  cbn [loop_ok]. apply settles_bind; [by apply Hf|done].
Qed.

Lemma file_handler_applied n ok name filename r : registry_ok r ->
  applied_to live_handler (g_config r) (lmk_get_file_log_handler init_done (al_object A n r) true true ok name filename r).
Proof.
  intros Hok. apply factory_applied; [done|]. destruct name as [name|], filename as [f|]; try by apply null_applied.
  apply (make_handler_applied n name (FileData (Some f) LMK_DEFAULT_MAX_FILE_SIZE LMK_DEFAULT_MAX_BACKUP_FILES)); [done|by eexists].
Qed.

Lemma socket_handler_applied n ok name r : registry_ok r ->
  applied_to live_handler (g_config r) (lmk_get_socket_log_handler init_done (al_object A n r) true ok name r).
Proof.
  intros Hok. apply factory_applied; [done|]. destruct name as [name|]; [|by apply null_applied].
  by apply (make_handler_applied n name (SocketData [] None)).
Qed.

(** The key and the listeners of a socket section. *)
Lemma socket_settings_settle ch p r : registry_ok r -> live_handler p r ->
  settles p r (r ← (match non_empty (ch_psk ch) with Some psk => handler_set_psk p (Some psk) r | None => Ok r end);
    loop_ok (fun l r => handler_add_listener (al_listener A (str (cl_host l)) r) p (Some (str (cl_host l))) (cl_port l) r)
      (ch_listeners ch) r).
Proof.
  intros Hok Hl. apply settles_bind.
  - destruct (non_empty _); [by apply set_psk_settles|by apply settles_same].
  - intros r' Hok' Hl'. apply settles_loop; [|done..]. intros l r2 Hok2 Hl2. by apply add_listener_settles.
Qed.

Lemma cfg_make_handler_applied ch r : registry_ok r ->
  applied_to live_handler (g_config r) (cfg_make_handler A ch r).
Proof.
  intros Hok. unfold cfg_make_handler. rewrite !(proj1 copied), (proj2 copied).
  destruct (ch_type ch =? LMK_LOG_HANDLER_TYPE_CONSOLE).
  { apply factory_applied; [done|]. by apply (make_handler_applied _ "console" ConsoleData). }
  destruct (ch_type ch =? LMK_LOG_HANDLER_TYPE_FILE).
  { destruct ((0 <? ch_max_file_size ch) || (0 <? ch_max_backup_files ch)).
    - apply then_settles; [by apply file_handler_applied|]. intros p r' Hok' Hl. by apply set_rotation_settles.
    - match goal with |- context [lmk_get_file_log_handler _ _ _ _ ?ok ?n ?f _] =>
        destruct (file_handler_applied (str (ch_name ch)) ok n f r Hok) as (p & r' & -> & ?) end.
      rewrite outcome_bind_ok. exists p, r'. by destruct p. }
  destruct (ch_type ch =? LMK_LOG_HANDLER_TYPE_SYSLOG).
  { apply factory_applied; [done|]. by apply (make_handler_applied _ _ (SyslogData _ _)). }
  destruct (ch_type ch =? LMK_LOG_HANDLER_TYPE_SOCKET); [|by apply null_applied].
  match goal with |- context [lmk_get_socket_log_handler _ _ _ ?ok ?n _] =>
    destruct (socket_handler_applied (str (ch_name ch)) ok n r Hok) as (p & r1 & -> & Hok1 & Hc1 & Hl1) end.
  rewrite outcome_bind_ok. destruct p as [ha|]; [|by exists None, r1].
  destruct (socket_settings_settle ch (Some ha) r1 Hok1 Hl1) as (r2 & Hr2 & Hok2 & Hc2 & Hl2).
  exists (Some ha), r2. split; [|split_and!; try done; congruence].
  destruct (match non_empty (ch_psk ch) with Some _ => _ | None => _ end) as [r0| |]; try done.
  rewrite outcome_bind_ok in Hr2. by rewrite outcome_bind_ok, Hr2, outcome_bind_ok.
Qed.

Lemma set_handler_level_applied p level r : registry_ok r -> live_handler p r ->
  exists r', lmk_set_handler_log_level init_done p level r = Ok r' /\ registry_ok r' /\ g_config r' = g_config r /\
    live_handler p r'.
Proof.
  intros Hok Hl. destruct (set_handler_log_level_keeps init_done init_done_initialized p level r Hok Hl) as (r' & He & Hok').
  exists r'. split_and!; try done; unfold lmk_set_handler_log_level in He;
    rewrite (init_done_ok r Hok), outcome_bind_ok in He; destruct p as [a|]; [| |..|done];
    try (by simplify_eq); destruct (live_handler_lookup a r Hok Hl) as [h Hh];
    rewrite Hh in He; cbn [deref] in He; rewrite outcome_bind_ok in He; by repeat (case_match || simplify_eq).
Qed.

Lemma set_format_applied p fn r : registry_ok r -> live_handler p r -> applied (g_config r) (lmk_set_log_format p fn r).
Proof.
  intros Hok Hl. apply applied_keeps; [by apply set_log_format_keeps|]. intros r' He.
  destruct p as [a|]; [|by injection He as <-]. cbn [lmk_set_log_format] in He.
  destruct (g_handlers r !! a); [|done]. cbn [deref] in He. rewrite outcome_bind_ok in He. by injection He as <-.
Qed.

Lemma cfg_apply_handler_applied ch r : registry_ok r -> applied (g_config r) (cfg_apply_handler A ch r).
Proof.
  intros Hok. unfold cfg_apply_handler. destruct (ch_type ch <? 0); [by apply applied_ok|].
  eapply applied_to_bind; [by apply cfg_make_handler_applied|]. intros p r1 Hok1 Hc1 Hl1. cbv beta iota.
  destruct p as [ha|]; [|by apply applied_ok].
  assert (exists r2, (if negb (ch_level ch =? -1) then lmk_set_handler_log_level init_done (Some ha) (ch_level ch) r1 else Ok r1)
    = Ok r2 /\ registry_ok r2 /\ g_config r2 = g_config r1 /\ live_handler (Some ha) r2) as (r2 & -> & Hok2 & Hc2 & Hl2).
  { destruct (negb _); [by apply set_handler_level_applied|by exists r1]. }
  rewrite outcome_bind_ok. rewrite <- Hc1, <- Hc2.
  destruct (non_empty (ch_format ch)); [by apply set_format_applied|by apply applied_ok].
Qed.

(** The loggers of the file. *)
Lemma get_logger_applied n name_ok name r : registry_ok r ->
  applied_to live_logger (g_config r) (lmk_get_logger init_done (al_object A n r) name_ok (Some name) r).
Proof.
  intros Hok.
  destruct (get_logger_spec init_done init_done_initialized (al_object A n r) name_ok name r Hok (fresh_objects n r))
    as (p & r' & He & Hok' & Hcases).
  exists p, r'. split; [done|]. split; [done|].
  assert (g_config r' = g_config r) as ->.
  { unfold lmk_get_logger in He. rewrite (init_done_ok r Hok), outcome_bind_ok in He.
    destruct (search_logger_spec r name Hok) as (found & Hs & _).
    rewrite Hs, outcome_bind_ok in He. by repeat (case_match || simplify_eq). }
  split; [done|]. intros a ->.
  destruct Hcases as [(b & l & [= <-] & Hl & _ & ->)|[(_ & b & _ & _ & [= <-] & -> & _)|(_ & _ & ? & _)]]; [..|done].
  - apply (ro_logger_list r Hok). by exists l.
  - apply elem_of_snoc. by right.
Qed.

Lemma set_log_level_applied p level r : registry_ok r -> live_logger p r ->
  exists r', lmk_set_log_level init_done p level r = Ok r' /\ registry_ok r' /\ g_config r' = g_config r /\
    live_logger p r'.
Proof.
  intros Hok Hl. destruct (set_log_level_keeps init_done init_done_initialized p level r Hok Hl) as (r' & He & Hok').
  assert (g_config r' = g_config r /\ g_logger_list r' = g_logger_list r) as [Hc Hll].
  { unfold lmk_set_log_level in He. rewrite (init_done_ok r Hok), outcome_bind_ok in He.
    destruct p as [a|]; [|by simplify_eq]. destruct (live_logger_lookup a r Hok Hl) as [l Hla].
    rewrite Hla in He. cbn [deref] in He. rewrite outcome_bind_ok in He. by repeat (case_match || simplify_eq). }
  exists r'. split_and!; try done. unfold live_logger. by rewrite Hll.
Qed.

Lemma attach_named_applied ok la name r : registry_ok r -> live_logger (Some la) r ->
  exists r', (ho ← lmk_search_log_handler_by_name (Some name) r;
      match ho with
      | Some _ => '(_, r) ← lmk_attach_log_handler init_done ok (Some la) ho r; Ok r
      | None => Ok r
      end) = Ok r' /\ registry_ok r' /\ g_config r' = g_config r /\ live_logger (Some la) r'.
Proof.
  intros Hok Hl. destruct (search_handler_spec r name Hok) as (found & -> & Hf). rewrite outcome_bind_ok.
  destruct found as [ha|]; [|by exists r]. destruct Hf as (h & Hh & _).
  destruct (live_logger_lookup la r Hok Hl) as [l Hla].
  destruct (attach_spec init_done init_done_initialized ok la ha l h r Hok Hla Hh) as (res & r' & -> & Hok' & Hr').
  rewrite outcome_bind_ok. exists r'. split_and!; try done;
    (case_bool_decide; [|destruct ok]); destruct Hr' as [_ ->]; done.
Qed.

Lemma cfg_apply_logger_applied cl r : registry_ok r -> applied (g_config r) (cfg_apply_logger A cl r).
Proof.
  intros Hok. unfold cfg_apply_logger. eapply applied_to_bind; [by apply get_logger_applied|].
  intros p r1 Hok1 Hc1 Hl1. cbv beta iota. destruct p as [la|]; [|by apply applied_ok].
  assert (exists r2, (if negb (lg_level cl =? -1) then lmk_set_log_level init_done (Some la) (lg_level cl) r1 else Ok r1)
    = Ok r2 /\ registry_ok r2 /\ g_config r2 = g_config r1 /\ live_logger (Some la) r2) as (r2 & -> & Hok2 & Hc2 & Hl2).
  { destruct (negb _); [by apply set_log_level_applied|by exists r1]. }
  rewrite outcome_bind_ok.
  destruct (loop_ok_applied (fun name r =>
        ho ← lmk_search_log_handler_by_name (Some (str name)) r;
        match ho with
        | Some _ => '(_, r) ← lmk_attach_log_handler init_done (al_ref A (str name) r) (Some la) ho r; Ok r
        | None => Ok r
        end) (live_logger (Some la)) (g_config r2) (lg_handler_names cl) r2) as (r3 & He & Hok3 & Hc3 & _); try done.
  - intros name r' _ Hok' Hc' Hl'. destruct (attach_named_applied (al_ref A (str name) r') la (str name) r' Hok' Hl') as (r3 & He & ? & ? & ?).
    exists r3. split_and!; try done. congruence.
  - exists r3. split_and!; try done. congruence.
Qed.

Definition applied_config (cfg : lmk_cfg) : lmk_config :=
  mk_config (if 0 <? cf_log_buffer_size cfg then cf_log_buffer_size cfg else LMK_CFG_DEFAULT_LOG_BUFFER_SIZE)
    (if 0 <? cf_ring_buffer_size cfg then cf_ring_buffer_size cfg else LMK_CFG_DEFAULT_RING_BUFFER_SIZE).

Lemma registry_ok_config c r : registry_ok r ->
  registry_ok (mk_registry (g_initialized r) (Some c) (g_logger_list r) (g_handler_list r) (g_loggers r) (g_handlers r) (g_calls r)).
Proof. intros []. by split. Qed.

(** After the handler sections what is left of [lmk_cfg_apply] is the loop over
    the logger sections. *)
Lemma cfg_handlers_split cfg r : registry_ok r ->
  exists r1, lmk_cfg_apply A cfg r = loop_ok (cfg_apply_logger A) (cf_loggers cfg) r1 /\
    registry_ok r1 /\ g_config r1 = Some (applied_config cfg).
Proof.
  intros Hok. destruct (ro_config r Hok) as [c Hc]. unfold lmk_cfg_apply. rewrite Hc. cbn [deref]. rewrite outcome_bind_ok.
  apply registry_ok_config with (c := applied_config cfg) in Hok. unfold applied_config in Hok.
  destruct (loop_ok_applied (cfg_apply_handler A) (fun _ => True) (Some (applied_config cfg)) (cf_handlers cfg) _
    ltac:(intros ch r' _ Hok' Hc' _; destruct (cfg_apply_handler_applied ch r' Hok') as (r2 & ? & ? & ?); exists r2;
      split_and!; [done..|congruence|done]) Hok eq_refl I) as (r' & He & ? & ? & _).
  exists r'. split_and!; try done. unfold applied_config in He. by rewrite He, outcome_bind_ok.
Qed.

Lemma lmk_cfg_apply_applied cfg r : registry_ok r ->
  applied (Some (applied_config cfg)) (lmk_cfg_apply A cfg r).
Proof.
  intros Hok. destruct (cfg_handlers_split cfg r Hok) as (r1 & -> & Hok1 & Hc1).
  destruct (loop_ok_applied (cfg_apply_logger A) (fun _ => True) (Some (applied_config cfg)) (cf_loggers cfg) r1
    ltac:(intros cl r' _ Hok' Hc' _; destruct (cfg_apply_logger_applied cl r' Hok') as (r2 & ? & ? & ?); exists r2;
      split_and!; [done..|congruence|done]) Hok1 Hc1 I) as (r' & He & ? & ? & _). by exists r'.
Qed.

(** ** Initialisation *)

Context (files : string -> option text) (env_path : option string).

(** The configuration record after a run over a file, if it can be opened. *)
Definition file_config (path : string) (c : option lmk_config) : option lmk_config :=
  match lmk_cfg_parse_file (files path) with Some cfg => Some (applied_config cfg) | None => c end.

Lemma parse_and_apply_applied path r : registry_ok r ->
  exists res r', lmk_parse_and_apply A files path r = Ok (res, r') /\ registry_ok r' /\
    g_config r' = file_config path (g_config r) /\ (res = LMK_E_OK <-> is_Some (files path)).
Proof.
  intros Hok. unfold lmk_parse_and_apply, file_config. destruct (files path) as [content|]; simpl.
  - destruct (lmk_cfg_apply_applied (ps_cfg (foldl parse_line (mk_parse_state cfg_start LMK_SEC_NONE None None)
      (fgets_lines [] content))) r Hok) as (r' & -> & Hok' & Hc'). rewrite outcome_bind_ok. by exists LMK_E_OK, r'.
  - exists LMK_E_NG, r. split_and!; done.
Qed.

(** The record [lmk_init] ends with has positive sizes that fit an [int]. *)
Definition config_ok_sizes (c : lmk_config) : Prop :=
  0 < log_buffer_size c <= INT_MAX /\ 0 < ring_buffer_size c <= INT_MAX.

Lemma applied_config_sizes cfg : cfg_ok cfg -> config_ok_sizes (applied_config cfg).
Proof.
  intros [_ _ [Hl Hr]]. unfold config_ok_sizes, applied_config. simpl.
  unfold LMK_CFG_DEFAULT_LOG_BUFFER_SIZE, LMK_CFG_DEFAULT_RING_BUFFER_SIZE.
  assert (2048 <= INT_MAX) by (by vm_compute).
  destruct (Z.ltb_spec 0 (cf_log_buffer_size cfg)), (Z.ltb_spec 0 (cf_ring_buffer_size cfg)); lia.
Qed.

(** A successful automatic configuration inside [lmk_init], from any state of the
    registry's variables before it. *)
Lemma lmk_init_auto_ok r : g_initialized r = false -> g_loggers r = ∅ -> g_handlers r = ∅ ->
  exists r' c, lmk_init_auto A files env_path true r = Ok r' /\ registry_ok r' /\
    g_config r' = Some c /\ config_ok_sizes c.
Proof.
  intros Hi Hls Hhs. unfold lmk_init_auto, lmk_init. rewrite Hi, Hls, Hhs. cbn [negb].
  unfold lmk_apply_auto_config.
  destruct (parse_and_apply_applied (default "logmoko.conf"%string env_path) _
    (registry_ok_empty (mk_config 0 0) (g_calls r))) as (res & r1 & -> & Hok1 & Hc1 & _).
  rewrite !outcome_bind_ok. cbn [g_config] in Hc1.
  assert (exists c1, g_config r1 = Some c1 /\ log_buffer_size c1 <= INT_MAX /\ ring_buffer_size c1 <= INT_MAX)
    as (c1 & -> & Hl & Hr).
  { rewrite Hc1. unfold file_config. destruct (files _) as [content|] eqn:Hf; [|by eexists].
    destruct (lmk_cfg_parse_file (Some content)) as [cfg|] eqn:Hp; [|done].
    eexists. split; [done|]. destruct (applied_config_sizes cfg (parse_file_ok content cfg Hp)). lia. }
  cbn [deref]. rewrite outcome_bind_ok. do 2 eexists. split; [done|]. split; [by apply registry_ok_config|].
  split; [done|]. unfold config_ok_sizes. simpl.
  unfold LMK_CFG_DEFAULT_LOG_BUFFER_SIZE, LMK_CFG_DEFAULT_RING_BUFFER_SIZE.
  assert (2048 <= INT_MAX) by (by vm_compute).
  destruct (Z.leb_spec (log_buffer_size c1) 0), (Z.leb_spec (ring_buffer_size c1) 0); lia.
Qed.
End apply.

(** A registry no configuration record could be had for stays torn down. *)
Lemma lmk_init_auto_fails A files env_path r : torn_down r ->
  exists r', lmk_init_auto A files env_path false r = Ok r' /\ torn_down r' /\ g_config r' = None.
Proof.
  intros (Hi & _ & _ & Hls & Hhs). unfold lmk_init_auto, lmk_init. rewrite Hi. cbn [negb].
  eexists. split; [done|]. by split_and!.
Qed.

(** C31. Initialisation, when the copies of the handlers' names and file names the
    configuration asks for succeed: it succeeds whatever the configuration
    file holds, whether it exists or not and whichever other allocations -
    loggers, handlers, logger names, references, listeners - and handler
    set-ups fail; the registry is well formed, the sizes are positive and fit an
    [int], and calling [lmk_init] again changes nothing. If the configuration
    record itself cannot be allocated, [lmk_init] returns all the same but
    leaves the library uninitialised, with no configuration and no object. *)
Theorem init_always_succeeds A files env_path : objects_fresh A -> names_copied A ->
  (exists r c, lmk_init_auto A files env_path true registry_start = Ok r /\ registry_ok r /\
    g_config r = Some c /\ config_ok_sizes c /\ lmk_init_auto A files env_path true r = Ok r) /\
  exists r, lmk_init_auto A files env_path false registry_start = Ok r /\ torn_down r /\ g_config r = None.
Proof.
  intros Hfresh Hcopied. split; [|by apply lmk_init_auto_fails].
  destruct (lmk_init_auto_ok A Hfresh Hcopied files env_path registry_start) as (r & c & He & Hok & Hc & Hs);
    [done..|]. exists r, c. split_and!; try done. apply lmk_init_initialized, Hok.
Qed.

(** An allocator that returns an address above all those in use. *)
Definition used (r : registry) : list addr :=
  map fst (map_to_list (g_loggers r)) ++ map fst (map_to_list (g_handlers r)).

Definition next_addr (r : registry) : option addr := Some (Pos.succ (foldr Pos.max 1%positive (used r))).

Lemma below_max (l : list addr) a : a ∈ l -> (a <= foldr Pos.max 1 l)%positive.
Proof. intros Ha. induction Ha; simpl; lia. Qed.

Lemma used_lookup {A} (m : gmap addr A) a : a ∉ map fst (map_to_list m) -> m !! a = None.
Proof.
  intros Ha. destruct (m !! a) as [x|] eqn:Hx; [|done]. destruct Ha.
  apply list_elem_of_fmap. exists (a, x). split; [done|by apply elem_of_map_to_list].
Qed.

Lemma next_addr_sound r : alloc_ok (next_addr r) r.
Proof.
  intros a [= <-]. assert (Pos.succ (foldr Pos.max 1%positive (used r)) ∉ used r) as Hn.
  { intros Hin%below_max. lia. }
  apply not_elem_of_app in Hn as [Hl Hh]. split; by apply used_lookup.
Qed.

(** Memory that suffices for everything. *)
Definition good_memory : allocator :=
  mk_allocator (fun _ => next_addr) (fun _ _ => true) (fun _ _ => true) (fun _ _ => true) (fun _ _ => true)
    (fun _ _ => true) (fun _ _ => true).

Lemma good_memory_ample : ample good_memory.
Proof. split; try done. intros n. apply next_addr_sound. Qed.

(** Memory in which only the copies whose failure is not checked succeed, and
    the objects called [lucky]. *)
Definition scarce_memory (lucky : string) : allocator :=
  mk_allocator (fun n r => if String.eqb n lucky then next_addr r else None) (fun _ _ => true) (fun _ _ => true)
    (fun _ _ => true) (fun _ _ => false) (fun _ _ => false) (fun _ _ => true).

Lemma scarce_memory_fresh lucky : objects_fresh (scarce_memory lucky).
Proof. intros n r. simpl. destruct (String.eqb n lucky); [apply next_addr_sound|done]. Qed.

(** A configuration with a comment, a global section, two handlers and a logger
    that names one of them, one unknown handler and a level in mixed case. *)
Definition sample_file_text : text :=
  chars "# sample" ++ [NEWLINE] ++ chars "[global]" ++ [NEWLINE] ++ chars "ring_buffer_size = 4096" ++ [NEWLINE] ++
  chars "[handler:out]" ++ [NEWLINE] ++ chars "type = console" ++ [NEWLINE] ++
  chars "[handler:disk]" ++ [NEWLINE] ++ chars "type = file" ++ [NEWLINE] ++ chars " filename = app.log " ++ [NEWLINE] ++
  chars "level=WARN" ++ [NEWLINE] ++ chars "max_backup_files = 3" ++ [NEWLINE] ++
  chars "[logger:app]" ++ [NEWLINE] ++ chars "level = Debug" ++ [NEWLINE] ++ chars "handlers = disk, missing" ++ [NEWLINE].

Definition sample_files (path : string) : option text :=
  if String.eqb path "logmoko.conf" then Some sample_file_text else None.

Definition sample_init : outcome registry :=
  lmk_init_auto good_memory sample_files None true registry_start.

(** What the sample configures. *)
Example sample_init_result :
  match sample_init with
  | Ok r => (g_config r, map (fun a => g_handlers r !! a) (g_handler_list r), map (fun a => g_loggers r !! a) (g_logger_list r))
  | _ => (None, [], [])
  end =
  (Some (mk_config 2048 4096),
   [Some (mk_handler LMK_LOG_HANDLER_TYPE_CONSOLE (Some "console"%string) LMK_LOG_LEVEL_TRACE 0 true None
      (type_methods ConsoleKind) ConsoleData);
    Some (mk_handler LMK_LOG_HANDLER_TYPE_FILE (Some "disk"%string) LMK_LOG_LEVEL_WARN 1 true None (type_methods FileKind)
      (FileData (Some "app.log"%string) LMK_DEFAULT_MAX_FILE_SIZE 3))],
   [Some (mk_logger "app" LMK_LOG_LEVEL_DEBUG [3%positive] true)]).
Proof. vm_compute. reflexivity. Qed.

(** With room for the logger only, the sample makes that logger and no handler. *)
Lemma init_always_succeeds_witness :
  (exists r c, sample_init = Ok r /\ registry_ok r /\ g_config r = Some c /\ config_ok_sizes c) /\
  exists r, lmk_init_auto (scarce_memory "app") sample_files None true registry_start = Ok r /\ registry_ok r.
Proof.
  split.
  - destruct (init_always_succeeds good_memory sample_files None (am_fresh _ good_memory_ample) (am_copied _ good_memory_ample))
      as [(r & c & He & Hok & Hc & Hs & _) _].
    exists r, c. exact (conj He (conj Hok (conj Hc Hs))).
  - destruct (init_always_succeeds (scarce_memory "app") sample_files None (scarce_memory_fresh "app")
      (conj (fun _ _ => eq_refl) (fun _ _ => eq_refl))) as [(r & c & He & Hok & _) _].
    exists r. exact (conj He Hok).
Defined.
