(* ===== verification/ApiSafety.v ===== *)
(** The public interface as a whole: a program that calls it in any order, from
    the start of the process and across [lmk_destroy], with a configuration file
    or without, never makes an invalid access; and, whatever memory does, the type
    tag of a handler and the functions its base points to are those of the struct
    it was allocated as, so that every cast of a base finds its struct. *)
From S2P Require Import Prelude Types Format FileHandler Registry RegistrySafety RegistryTheorems ConfigFile ConfigTheorems Dump.
Local Open Scope Z_scope.

(** ** What the casts rely on *)

Definition handlers_typed (r : registry) : Prop := map_Forall (fun _ h => handler_typed h) (g_handlers r).

Lemma ensures_cast_file {A} h (k : option string * Z * Z -> outcome A) Q :
  (forall filename size backups, h_data h = FileData filename size backups -> ensures (k (filename, size, backups)) Q) ->
  ensures (cast_file h ≫= k) Q.
Proof. unfold cast_file. intros Hk. destruct (h_data h); [done| |done..]. rewrite outcome_bind_ok. by apply Hk. Qed.

Lemma ensures_cast_socket {A} h (k : list (string * Z) * option string -> outcome A) Q :
  (forall listeners psk, h_data h = SocketData listeners psk -> ensures (k (listeners, psk)) Q) ->
  ensures (cast_socket h ≫= k) Q.
Proof. unfold cast_socket. intros Hk. destruct (h_data h); [done..| |done]. rewrite outcome_bind_ok. by apply Hk. Qed.

(** ** The loops *)

Lemma ensures_saved_loop {W} (entries : W -> list addr) fuel cursor body (w : W) (Q : W -> Prop) :
  Q w -> (forall x w, Q w -> ensures (body x w) Q) -> ensures (saved_loop entries fuel cursor body w) Q.
Proof.
  intros Hw Hbody. revert cursor w Hw. induction fuel as [|fuel IH]; intros [x|] w Hw; cbn [saved_loop];
    [done|by apply ensures_ok| |by apply ensures_ok].
  apply (ensures_bind _ _ Q); [by apply Hbody|]. intros w' Hw'. by apply IH.
Qed.

Lemma ensures_loop {A} (f : A -> registry -> outcome registry) l r Q :
  Q r -> (forall a r, Q r -> ensures (f a r) Q) -> ensures (loop_ok f l r) Q.
Proof.
  intros Hr Hf. revert r Hr. induction l as [|a l IH]; intros r Hr; cbn [loop_ok]; [by apply ensures_ok|].
  apply (ensures_bind _ _ Q); [by apply Hf|exact IH].
Qed.

(** ** Changes of the registry that keep the tags *)

Lemma typed_upd_handler a h h' r : handlers_typed r -> g_handlers r !! a = Some h ->
  h_type h' = h_type h -> h_methods h' = h_methods h -> data_kind (h_data h') = data_kind (h_data h) ->
  handlers_typed (upd_handler a h' r).
Proof.
  intros Hr Ha Ht Hm Hd. apply map_Forall_insert_2; [|exact Hr]. unfold handler_typed. rewrite Ht, Hm, Hd. by apply (Hr a h).
Qed.

Lemma typed_same r r' : handlers_typed r -> g_handlers r' = g_handlers r -> handlers_typed r'.
Proof. unfold handlers_typed. by intros ? ->. Qed.

Create HintDb typed.
#[export] Hint Resolve typed_upd_handler : typed.
#[export] Hint Extern 1 (handlers_typed _) => eapply typed_same; [eassumption|reflexivity] : typed.

Section operations.
Context (init : registry -> outcome registry).
Hypothesis init_typed : forall r, handlers_typed r -> ensures (init r) handlers_typed.

Abbreviation typed_result := (fun x : _ * registry => handlers_typed x.2).

(** The call of [lmk_init] that opens an operation. *)
Lemma typed_init {A} (f : registry -> outcome A) r Q : handlers_typed r ->
  (forall r, handlers_typed r -> ensures (f r) Q) -> ensures (init r ≫= f) Q.
Proof. intros Hr. apply ensures_bind. by apply init_typed. Qed.

Lemma drop_result_typed {A} (m : outcome (A * registry)) : ensures m typed_result -> ensures (drop_result m) handlers_typed.
Proof. intros Hm. eapply ensures_bind; [exact Hm|]. intros [x r] Hr. by apply ensures_ok. Qed.

Lemma get_logger_typed alloc name_ok name r : handlers_typed r -> ensures (lmk_get_logger init alloc name_ok name r) typed_result.
Proof.
  intros Hr. apply typed_init; [done|]. clear r Hr. intros r Hr. destruct name as [nm|]; [|by apply ensures_ok].
  apply ensures_skip. intros found. run_outcome; cbn [snd]; eauto with typed.
Qed.

Lemma make_handler_typed alloc name_ok ok name data r : handlers_typed r ->
  ensures (make_handler alloc name_ok ok (kind_type (data_kind data)) (type_methods (data_kind data)) name data r) typed_result.
Proof.
  intros Hr. apply ensures_skip. intros [a|]; [by apply ensures_ok|]. destruct alloc as [a|]; [|by apply ensures_ok].
  apply ensures_skip. intros _. run_outcome; cbn [snd]; [by eauto with typed|]. by apply map_Forall_insert_2.
Qed.

Lemma get_handler_typed alloc name_ok ok r : handlers_typed r ->
  ensures (lmk_get_console_log_handler init alloc name_ok ok r) typed_result /\
  (forall copy_ok name filename, ensures (lmk_get_file_log_handler init alloc name_ok copy_ok ok name filename r) typed_result) /\
  (forall name, ensures (lmk_get_socket_log_handler init alloc name_ok ok name r) typed_result) /\
  (forall name ident facility, ensures (lmk_get_syslog_log_handler init alloc name_ok ok name ident facility r) typed_result).
Proof.
  intros Hr. split_and!; intros; (apply typed_init; [done|]); clear r Hr; intros r Hr.
  - by apply (make_handler_typed _ _ _ "console" ConsoleData).
  - destruct name as [n|], filename as [f|]; try by apply ensures_ok.
    by apply (make_handler_typed _ _ _ n (FileData _ LMK_DEFAULT_MAX_FILE_SIZE LMK_DEFAULT_MAX_BACKUP_FILES)).
  - destruct name as [n|]; [by apply (make_handler_typed _ _ _ n (SocketData [] None))|by apply ensures_ok].
  - destruct name as [n|]; [by apply (make_handler_typed _ _ _ n (SyslogData _ _))|by apply ensures_ok].
Qed.

(** The settings of one type keep the struct a struct of that type. *)
Lemma set_rotation_typed p size backups r : handlers_typed r -> ensures (handler_set_rotation p size backups r) handlers_typed.
Proof.
  intros Hr. destruct p as [ha|]; [|by apply ensures_ok]. apply ensures_deref. intros h Hh. run_outcome; [|done].
  apply ensures_cast_file. intros f n m Hd. apply ensures_ok. eapply typed_upd_handler; [done..|]. by rewrite Hd.
Qed.

Lemma set_filename_typed copy_ok p filename r : handlers_typed r -> ensures (handler_set_filename copy_ok p filename r) handlers_typed.
Proof.
  intros Hr. apply ensures_deref. intros ha _. apply ensures_deref. intros h Hh.
  destruct filename as [f'|]; [|by apply ensures_ok]. run_outcome; [|done].
  apply ensures_cast_file. intros f n m Hd. apply ensures_ok. eapply typed_upd_handler; [done..|]. by rewrite Hd.
Qed.

Lemma set_psk_typed p psk r : handlers_typed r -> ensures (handler_set_psk p psk r) handlers_typed.
Proof.
  intros Hr. destruct p as [ha|], psk as [psk|]; try by apply ensures_ok. apply ensures_deref. intros h Hh. run_outcome; [done|].
  apply ensures_cast_socket. intros ls k Hd. apply ensures_ok. eapply typed_upd_handler; [done..|]. by rewrite Hd.
Qed.

Lemma add_listener_typed ok p host port r : handlers_typed r -> ensures (handler_add_listener ok p host port r) handlers_typed.
Proof.
  intros Hr. destruct p as [ha|], host as [host|]; try by apply ensures_ok. cbn [handler_add_listener]. run_outcome; [done..|].
  apply ensures_cast_socket. intros ls k Hd. destruct ok; apply ensures_ok; [|done].
  eapply typed_upd_handler; [done..|]. by rewrite Hd.
Qed.

(** Calls that return a value and what [lmk_init] left. *)
Lemma getters_typed (p : option addr) r : handlers_typed r ->
  ensures (lmk_get_nr_loggers init r) typed_result /\ ensures (lmk_get_nr_handlers init r) typed_result /\
  ensures (lmk_get_log_level init p r) typed_result /\ ensures (lmk_get_handler_log_level init p r) typed_result.
Proof.
  intros Hr. split_and!; (apply typed_init; [done|]); clear r Hr; intros r Hr; by run_outcome.
Qed.

Lemma log_typed p file_name line_no level msg buf r : handlers_typed r ->
  ensures (lmk_log_common init p file_name line_no level msg buf r) typed_result.
Proof.
  intros Hr. apply typed_init; [done|]. clear r Hr. intros r Hr. destruct p as [a|]; [|by apply ensures_ok].
  apply ensures_deref. intros l _. destruct (negb _); [by apply ensures_ok|].
  destruct (match msg with Some _ => _ | None => _ end) as [buf' n]. apply ensures_skip. intros [res calls]. by apply ensures_ok.
Qed.

Lemma set_level_typed logger level r : handlers_typed r -> ensures (lmk_set_log_level init logger level r) handlers_typed.
Proof. intros Hr. apply typed_init; [done|]. clear r Hr. intros r Hr. run_outcome; eauto with typed. Qed.

Lemma set_handler_level_typed handler level r : handlers_typed r ->
  ensures (lmk_set_handler_log_level init handler level r) handlers_typed.
Proof. intros Hr. apply typed_init; [done|]. clear r Hr. intros r Hr. run_outcome; eauto with typed. Qed.

Lemma set_format_typed handler fn r : handlers_typed r -> ensures (lmk_set_log_format handler fn r) handlers_typed.
Proof. intros Hr. unfold lmk_set_log_format. run_outcome; eauto with typed. Qed.

Lemma attach_typed ref_ok logger handler r : handlers_typed r ->
  ensures (lmk_attach_log_handler init ref_ok logger handler r) typed_result.
Proof.
  intros Hr. apply typed_init; [done|]. clear r Hr. intros r Hr. run_outcome; cbn [snd]; eauto with typed.
Qed.

Lemma detach_typed logger handler r : handlers_typed r -> ensures (lmk_detach_log_handler init logger handler r) typed_result.
Proof.
  intros Hr. apply typed_init; [done|]. clear r Hr. intros r Hr. run_outcome; cbn [snd]; eauto with typed.
Qed.

Lemma destroy_logger_typed fuel p r : handlers_typed r -> ensures (lmk_destroy_logger init fuel p r) typed_result.
Proof.
  intros Hr. apply typed_init; [done|]. clear r Hr. intros r Hr. destruct p as [[la|]|]; try by apply ensures_ok.
  apply ensures_deref. intros l _. apply (ensures_bind _ _ handlers_typed); [|by intros r' Hr'; apply ensures_ok].
  apply ensures_saved_loop; [done|]. intros ha r' Hr'. by apply drop_result_typed, detach_typed.
Qed.

Lemma destroy_handler_typed p r : handlers_typed r -> ensures (lmk_destroy_log_handler p r) typed_result.
Proof.
  intros Hr. destruct p as [[ha|]|]; try by apply ensures_ok. cbn [lmk_destroy_log_handler].
  apply ensures_deref. intros h _. destruct (0 <? _); [by apply ensures_ok|]. apply ensures_skip. intros _.
  apply ensures_ok. by apply map_Forall_delete.
Qed.

Lemma destroy_typed fuel r : handlers_typed r -> ensures (lmk_destroy init fuel r) handlers_typed.
Proof.
  intros Hr. unfold lmk_destroy. destruct (negb _); [by apply ensures_ok|].
  apply (ensures_bind _ _ handlers_typed).
  { apply ensures_saved_loop; [done|]. intros la r' Hr'. by apply drop_result_typed, destroy_logger_typed. }
  intros r1 Hr1. apply (ensures_bind _ _ handlers_typed); [|by intros r2 Hr2; apply ensures_ok].
  apply ensures_saved_loop; [done|]. intros ha r' Hr'. by apply drop_result_typed, destroy_handler_typed.
Qed.

Context (load : option string -> registry -> outcome (Z * registry)).
Hypothesis load_typed : forall path r, handlers_typed r -> ensures (load path r) typed_result.

Lemma api_exec_typed op r : handlers_typed r -> ensures (api_exec init load op r) handlers_typed.
Proof.
  intros Hr. destruct op; cbn [api_exec]; try apply drop_result_typed;
    first [by apply init_typed|by apply load_typed|by apply destroy_typed
      |by apply get_logger_typed|by apply get_handler_typed|by apply (getters_typed None)
      |by apply getters_typed|by apply set_level_typed|by apply set_handler_level_typed
      |by apply set_format_typed|by apply set_rotation_typed|by apply set_filename_typed|by apply set_psk_typed
      |by apply add_listener_typed|by apply attach_typed|by apply detach_typed|by apply destroy_logger_typed
      |by apply destroy_handler_typed|by apply log_typed|by apply ensures_skip; intros; apply ensures_ok].
Qed.

Lemma api_run_typed ops r : handlers_typed r -> ensures (api_run init load ops r) handlers_typed.
Proof.
  revert r. induction ops as [|op ops IH]; intros r Hr; cbn [api_run]; [by apply ensures_ok|].
  apply (ensures_bind _ _ handlers_typed); [by apply api_exec_typed|exact IH].
Qed.
End operations.

(** ** The configuration file *)

Lemma init_done_typed r : handlers_typed r -> ensures (init_done r) handlers_typed.
Proof. intros Hr. unfold init_done. by run_outcome. Qed.

Section config.
Context (A : allocator) (files : string -> option text) (env_path : option string).
Abbreviation typed_result := (fun x : _ * registry => handlers_typed x.2).

Lemma cfg_make_handler_typed ch r : handlers_typed r -> ensures (cfg_make_handler A ch r) typed_result.
Proof.
  intros Hr. unfold cfg_make_handler. set (made := get_handler_typed init_done init_done_typed).
  destruct (ch_type ch =? _); [by apply made|].
  destruct (ch_type ch =? _); [|destruct (ch_type ch =? _); [by apply made|destruct (ch_type ch =? _); [|by apply ensures_ok]]].
  - eapply ensures_bind; [by apply made|]. intros [[ha|] r1] Hr1; [|by apply ensures_ok].
    destruct (_ || _); [|by apply ensures_ok].
    eapply ensures_bind; [by apply set_rotation_typed|]. intros r2 Hr2. by apply ensures_ok.
  - eapply ensures_bind; [by apply made|]. intros [[ha|] r1] Hr1; [|by apply ensures_ok].
    apply (ensures_bind _ _ handlers_typed); [destruct (non_empty _); [by apply set_psk_typed|by apply ensures_ok]|].
    intros r2 Hr2. apply (ensures_bind _ _ handlers_typed); [|by intros r3 Hr3; apply ensures_ok].
    apply ensures_loop; [done|]. intros l r3 Hr3. by apply add_listener_typed.
Qed.

Lemma cfg_apply_handler_typed ch r : handlers_typed r -> ensures (cfg_apply_handler A ch r) handlers_typed.
Proof.
  intros Hr. unfold cfg_apply_handler. destruct (ch_type ch <? 0); [by apply ensures_ok|].
  eapply ensures_bind; [by apply cfg_make_handler_typed|]. intros [[ha|] r1] Hr1; [|by apply ensures_ok].
  apply (ensures_bind _ _ handlers_typed).
  - destruct (negb _); [by apply set_handler_level_typed; [apply init_done_typed|]|by apply ensures_ok].
  - intros r2 Hr2. destruct (non_empty _); [by apply set_format_typed|by apply ensures_ok].
Qed.

Lemma cfg_apply_logger_typed cl r : handlers_typed r -> ensures (cfg_apply_logger A cl r) handlers_typed.
Proof.
  intros Hr. eapply ensures_bind; [by apply get_logger_typed; [apply init_done_typed|]|].
  intros [[la|] r1] Hr1; [|by apply ensures_ok]. apply (ensures_bind _ _ handlers_typed).
  - destruct (negb _); [by apply set_level_typed; [apply init_done_typed|]|by apply ensures_ok].
  - intros r2 Hr2. apply ensures_loop; [done|]. intros name r3 Hr3. apply ensures_skip. intros [ha|]; [|by apply ensures_ok].
    apply drop_result_typed, attach_typed; [apply init_done_typed|done].
Qed.

Lemma parse_and_apply_typed path r : handlers_typed r ->
  ensures (lmk_parse_and_apply A files path r) typed_result.
Proof.
  intros Hr. unfold lmk_parse_and_apply. destruct (lmk_cfg_parse_file _) as [cfg|]; [|by apply ensures_ok].
  apply (ensures_bind _ _ handlers_typed); [|by intros r' Hr'; apply ensures_ok]. apply ensures_skip. intros c.
  apply (ensures_bind _ _ handlers_typed); apply ensures_loop || (intros r' Hr'; apply ensures_loop); try done.
  - intros ch r' Hr'. by apply cfg_apply_handler_typed.
  - intros cl r2 Hr2. by apply cfg_apply_logger_typed.
Qed.

Lemma lmk_init_auto_typed config_ok r : handlers_typed r ->
  ensures (lmk_init_auto A files env_path config_ok r) handlers_typed.
Proof.
  intros Hr. unfold lmk_init_auto, lmk_init. destruct (g_initialized r); [by apply ensures_ok|].
  destruct (negb config_ok); [by apply ensures_ok|]. apply (ensures_bind _ _ handlers_typed).
  - apply drop_result_typed. by apply parse_and_apply_typed.
  - intros r1 Hr1. apply ensures_deref. intros c _. by apply ensures_ok.
Qed.

Lemma lmk_init_from_file_typed config_ok path r : handlers_typed r ->
  ensures (lmk_init_from_file A files env_path config_ok path r) typed_result.
Proof.
  intros Hr. eapply ensures_bind; [by apply lmk_init_auto_typed|]. intros r1 Hr1.
  destruct path; by apply parse_and_apply_typed.
Qed.
End config.

(** ** The properties *)

Section api.
Context (A : allocator) (files : string -> option text) (env_path : option string).
Abbreviation api_init := (lmk_init_auto A files env_path true).
Abbreviation api_load := (lmk_init_from_file A files env_path true).

Lemma api_init_initialized r : g_initialized r = true -> api_init r = Ok r.
Proof. apply lmk_init_initialized. Qed.

Lemma api_init_revives r : objects_fresh A -> names_copied A -> torn_down r -> keeps_ok (api_init r).
Proof.
  intros Hf Hc (Hi & _ & _ & Hls & Hhs). destruct (lmk_init_auto_ok A Hf Hc files env_path r Hi Hls Hhs) as (r' & c & He & Hok & _).
  by exists r'.
Qed.

Lemma api_load_keeps path r : objects_fresh A -> names_copied A -> session_ok r -> keeps_ok (drop_result (api_load path r)).
Proof.
  intros Hf Hc Hs. unfold lmk_init_from_file, drop_result.
  assert (keeps_ok (api_init r)) as (r1 & -> & Hok1).
  { destruct Hs as [Hok|Ht]; [|by apply api_init_revives]. exists r. split; [by apply api_init_initialized, Hok|done]. }
  rewrite outcome_bind_ok. unfold lmk_apply_auto_config.
  destruct path as [p|]; [destruct (parse_and_apply_applied A Hf Hc files p r1 Hok1) as (res & r2 & -> & Hok2 & _)
    |destruct (parse_and_apply_applied A Hf Hc files (default "logmoko.conf"%string env_path) r1 Hok1) as (res & r2 & -> & Hok2 & _)];
    by exists r2.
Qed.
End api.

(** C8. Any sequence of calls of the public interface of loggers, handlers and
    set-up - [lmk_init], [lmk_init_from_file], [lmk_destroy], the factories,
    the getters, all setters, attaching and detaching handlers and listeners,
    the destroying of one object, and logging -, from the start of the program or any
    point between two calls, runs without an invalid access or an endless loop
    and leaves the library either torn down and empty or with a well-formed
    registry: listed objects exist, names are unique, references point to
    registered handlers, the counts are right, tags and functions fit the
    structs. The caller passes NULL or live pointers - to [lmk_set_log_filename] no
    NULL -, and destroys a handler only while there are fewer than 2^32 loggers;
    memory gives fresh objects, the configuration record, and the copies of
    handler names and file names, whose failure the library does not check. Every other
    allocation, and the set-up of any handler, may fail. *)
Theorem api_calls_keep_registry A files env_path ops r : objects_fresh A -> names_copied A -> session_ok r ->
  let init := lmk_init_auto A files env_path true in
  let load := lmk_init_from_file A files env_path true in
  ops_ok init load ops r -> exists r', api_run init load ops r = Ok r' /\ session_ok r'.
Proof.
  intros Hf Hc Hs init load Hops. apply api_run_keeps; [apply api_init_initialized|..|done|done].
  - intros r1. by apply api_init_revives.
  - intros path r1. by apply api_load_keeps.
Qed.

Definition no_files (path : string) : option text := None.

(** A program that sets up, logs, destroys everything and starts again. *)
Definition restart_ops : list api_op :=
  [GetLogger (Some 1%positive) true (Some "app"%string); GetSocketHandler (Some 2%positive) true true (Some "net"%string);
   SetLogRotation (Some 2%positive) 100 1; SetSocketPsk (Some 2%positive) (Some "secret"%string);
   AttachLogListener true (Some 2%positive) (Some "127.0.0.1"%string) 9000;
   AttachLogHandler false (Some 1%positive) (Some 2%positive); AttachLogHandler true (Some 1%positive) (Some 2%positive);
   Log (Some 1%positive) "main.c" 3 LMK_LOG_LEVEL_WARN (Some (chars "up")) zero_buf;
   Destroy; GetFileHandler (Some 1%positive) true true false (Some "file"%string) (Some "a.log"%string); GetNrHandlers].

Lemma api_calls_keep_registry_witness :
  exists r', api_run (lmk_init_auto good_memory no_files None true) (lmk_init_from_file good_memory no_files None true)
    restart_ops registry_start = Ok r' /\ session_ok r'.
Proof.
  apply (api_calls_keep_registry good_memory no_files None restart_ops registry_start).
  - apply (am_fresh _ good_memory_ample).
  - apply (am_copied _ good_memory_ample).
  - right. by split_and!.
  - unfold restart_ops. repeat play_op. done.
Defined.

(** A setter of one type leaves handlers of the other types alone. *)
Definition own_type_only (type : Z) (h : lmk_log_handler) (r : registry) (call : outcome registry) : Prop :=
  (exists r', call = Ok r') /\ (h_type h <> type -> call = Ok r).

Lemma setters_own_type ha h r : g_handlers r !! ha = Some h -> handler_typed h ->
  (forall size backups, own_type_only LMK_LOG_HANDLER_TYPE_FILE h r (handler_set_rotation (Some ha) size backups r)) /\
  (forall ok filename, own_type_only LMK_LOG_HANDLER_TYPE_FILE h r (handler_set_filename ok (Some ha) filename r)) /\
  (forall psk, own_type_only LMK_LOG_HANDLER_TYPE_SOCKET h r (handler_set_psk (Some ha) psk r)) /\
  (forall ok host port, own_type_only LMK_LOG_HANDLER_TYPE_SOCKET h r (handler_add_listener ok (Some ha) host port r)).
Proof.
  intros Hh Ht. unfold own_type_only.
  split_and!.
  - intros size backups. cbn [handler_set_rotation]. rewrite Hh. cbn [deref]. rewrite outcome_bind_ok.
    destruct (Z.eqb_spec (h_type h) LMK_LOG_HANDLER_TYPE_FILE) as [Hf|]; [|by split; [eexists|]].
    destruct (cast_file_typed h Ht Hf) as (f & n & m & _ & ->). by split; [eexists|].
  - intros ok filename. unfold handler_set_filename. cbn [deref]. rewrite outcome_bind_ok, Hh. cbn [deref]. rewrite outcome_bind_ok.
    destruct filename as [f'|]; [|by split; [eexists|]].
    destruct (Z.eqb_spec (h_type h) LMK_LOG_HANDLER_TYPE_FILE) as [Hf|]; [|by split; [eexists|]].
    destruct (cast_file_typed h Ht Hf) as (f & n & m & _ & ->). by split; [eexists|].
  - intros [psk|]; [|by split; [eexists|]]. cbn [handler_set_psk]. rewrite Hh. cbn [deref]. rewrite outcome_bind_ok.
    destruct (Z.eqb_spec (h_type h) LMK_LOG_HANDLER_TYPE_SOCKET) as [Hf|]; [|by split; [eexists|]].
    destruct (cast_socket_typed h Ht Hf) as (ls & k & _ & ->). by split; [eexists|].
  - intros ok [host|] port; [|by split; [eexists|]]. cbn [handler_add_listener].
    destruct (port <=? 0); [by split; [eexists|]|]. rewrite Hh. cbn [deref]. rewrite outcome_bind_ok.
    destruct (Z.eqb_spec (h_type h) LMK_LOG_HANDLER_TYPE_SOCKET) as [Hf|]; [|by split; [eexists|]].
    destruct (cast_socket_typed h Ht Hf) as (ls & k & _ & ->). destruct ok; by split; [eexists|].
Qed.

(** C9. Type safety of the handler structs, whatever memory answers: after any
    calls of the public interface that return, configuration files with
    duplicate names of different types included, the type tag of every
    registered handler and the three functions its base points to are those of
    the struct it was allocated as. So no cast meets another type's struct: each
    setter returns on every handler and changes only handlers of its own type,
    and [log_impl], [destroy] and the dump, which cast too, return. *)
Theorem handler_casts_are_safe A files env_path config_ok ops r :
  api_run (lmk_init_auto A files env_path config_ok) (lmk_init_from_file A files env_path config_ok) ops registry_start = Ok r ->
  forall ha h, g_handlers r !! ha = Some h ->
    (h_type h = kind_type (data_kind (h_data h)) /\ h_methods h = type_methods (data_kind (h_data h))) /\
    (forall size backups, own_type_only LMK_LOG_HANDLER_TYPE_FILE h r (handler_set_rotation (Some ha) size backups r)) /\
    (forall ok filename, own_type_only LMK_LOG_HANDLER_TYPE_FILE h r (handler_set_filename ok (Some ha) filename r)) /\
    (forall psk, own_type_only LMK_LOG_HANDLER_TYPE_SOCKET h r (handler_set_psk (Some ha) psk r)) /\
    (forall ok host port, own_type_only LMK_LOG_HANDLER_TYPE_SOCKET h r (handler_add_listener ok (Some ha) host port r)) /\
    (forall rec, exists calls, dispatch (g_handlers r) rec [ha] = Ok calls) /\
    (exists result, lmk_destroy_log_handler (Some (Some ha)) r = Ok result) /\
    (forall inet_pton inet_ntop, exists lines, settings_lines inet_pton inet_ntop h = Ok lines).
Proof.
  intros Hrun ha h Hh.
  assert (handler_typed h) as Ht.
  { refine (api_run_typed _ (lmk_init_auto_typed A files env_path config_ok) _
      (lmk_init_from_file_typed A files env_path config_ok) ops registry_start _ r Hrun ha h Hh). apply map_Forall_empty. }
  destruct (setters_own_type ha h r Hh Ht) as (Hs1 & Hs2 & Hs3 & Hs4). split_and!; [apply Ht|apply Ht|done..| | |].
  - intros rec. cbn [dispatch]. rewrite Hh. cbn [deref]. rewrite outcome_bind_ok.
    destruct (_ <=? _); [|by eexists]. rewrite call_log_impl_typed by done. by eexists.
  - cbn [lmk_destroy_log_handler]. rewrite Hh. cbn [deref]. rewrite outcome_bind_ok. destruct (0 <? _); [by eexists|].
    rewrite call_destroy_typed by done. by eexists.
  - intros inet_pton inet_ntop. rewrite settings_lines_typed by done. by eexists.
Qed.

(** A file that gives one name to a file handler and to a socket handler. *)
Definition twice_text : text :=
  chars "[handler:out]" ++ [NEWLINE] ++ chars "type=file" ++ [NEWLINE] ++ chars "filename=a.log" ++ [NEWLINE] ++
  chars "[handler:out]" ++ [NEWLINE] ++ chars "type=socket" ++ [NEWLINE] ++ chars "psk=secret" ++ [NEWLINE].

Definition twice_files (path : string) : option text := Some twice_text.

Definition twice_ops : list api_op :=
  [InitFromFile (Some "twice.conf"%string); SetSocketPsk (Some 2%positive) (Some "secret"%string)].

Definition twice_registry : registry :=
  match api_run (lmk_init_auto good_memory twice_files None true) (lmk_init_from_file good_memory twice_files None true)
    twice_ops registry_start with
  | Ok r => r
  | _ => registry_start
  end.

(** The one handler keeps the first section's type; the second section's key is ignored. *)
Lemma handler_casts_are_safe_witness : exists h, g_handlers twice_registry !! 2%positive = Some h /\
  h_type h = LMK_LOG_HANDLER_TYPE_FILE /\ h_methods h = type_methods FileKind /\
  handler_set_psk (Some 2%positive) (Some "other"%string) twice_registry = Ok twice_registry.
Proof.
  assert (exists h, g_handlers twice_registry !! 2%positive = Some h /\ h_type h = LMK_LOG_HANDLER_TYPE_FILE /\
    data_kind (h_data h) = FileKind) as (h & Hh & Ht & Hk) by (eexists; split_and!; vm_compute; reflexivity).
  destruct (handler_casts_are_safe good_memory twice_files None true twice_ops twice_registry ltac:(vm_compute; reflexivity)
    2%positive h Hh) as ([_ Hm] & _ & _ & Hpsk & _).
  exists h. split; [exact Hh|]. split; [exact Ht|]. split; [rewrite Hm, Hk; reflexivity|].
  apply (proj2 (Hpsk (Some "other"%string))). rewrite Ht. discriminate.
Defined.
