(* ===== verification/ConfigApply.v ===== *)
(** What the sections of a configuration file do: a complete handler section has
    its handler registered; a logger section names a logger that exists
    afterwards, at the level the section gives, attached to every registered
    handler it names. *)
From S2P Require Import Prelude Types Format FileHandler SyslogHandler Registry RegistrySafety RegistryTheorems ConfigFile ConfigTheorems.
Local Open Scope Z_scope.

(** ** Growth

    The logger sections never take anything back: loggers and handlers stay,
    references are only added, and only the loggers called [n] change level. *)
Record grows (n : string) (r r' : registry) : Prop := {
  gr_handlers : forall a, h_name <$> g_handlers r' !! a = h_name <$> g_handlers r !! a;
  gr_loggers : forall a l, g_loggers r !! a = Some l ->
    exists l', g_loggers r' !! a = Some l' /\ l_name l' = l_name l /\ l_handler_refs l ⊆ l_handler_refs l' /\
      (l_name l <> n -> l_log_level l' = l_log_level l)
}.

#[export] Instance grows_preorder n : PreOrder (grows n).
Proof.
  split.
  - intros r. split; [done|]. intros a l Hl. by exists l.
  - intros r1 r2 r3 [Hh1 Hl1] [Hh2 Hl2]. split; [intros a; by rewrite Hh2|].
    intros a l Hl. destruct (Hl1 a l Hl) as (l' & Hl' & Hn & Hr & Hlev).
    destruct (Hl2 a l' Hl') as (l2 & Hl'' & Hn' & Hr' & Hlev'). exists l2. split_and!; [done|congruence|set_solver|].
    intros Hne. rewrite Hlev', Hlev; [done..|congruence].
Qed.

Lemma grows_upd_logger n r a l l' : g_loggers r !! a = Some l -> l_name l' = l_name l ->
  l_handler_refs l ⊆ l_handler_refs l' -> (l_name l <> n -> l_log_level l' = l_log_level l) ->
  grows n r (upd_logger a l' r).
Proof.
  intros Hl Hn Hr Hlev. split; [done|]. intros b lb Hb. simpl. destruct (decide (a = b)) as [<-|Hne].
  - rewrite lookup_insert_eq. exists l'. rewrite Hl in Hb. by injection Hb as <-.
  - rewrite lookup_insert_ne by done. by exists lb.
Qed.

Lemma grows_upd_handler n r a h h' : g_handlers r !! a = Some h -> h_name h' = h_name h ->
  grows n r (upd_handler a h' r).
Proof.
  intros Hh Hn. split; [|intros b lb Hb; by exists lb]. intros b. simpl. destruct (decide (a = b)) as [<-|Hne].
  - rewrite lookup_insert_eq, Hh. simpl. by rewrite Hn.
  - by rewrite lookup_insert_ne.
Qed.

(** ** The attachments a section asks for *)

Definition attached_to_all (names : list text) (l : lmk_logger) (r : registry) : Prop :=
  forall hn ha h, hn ∈ names -> g_handlers r !! ha = Some h -> h_name h = Some (str hn) -> ha ∈ l_handler_refs l.

Lemma attached_grows n names l l' r r' : grows n r r' -> l_handler_refs l ⊆ l_handler_refs l' ->
  attached_to_all names l r -> attached_to_all names l' r'.
Proof.
  intros Hg Hsub Hall hn ha h Hin Hh Hn. apply Hsub. pose proof (gr_handlers n r r' Hg ha) as He. rewrite Hh in He.
  destruct (g_handlers r !! ha) as [h0|] eqn:H0; [|done]. injection He as He. eapply Hall; [done..|congruence].
Qed.

(** One name of the list: the body of the loop of [cfg_apply_logger]. *)
Definition attach_named (A : allocator) (la : addr) (name : text) (r : registry) : outcome registry :=
  ho ← lmk_search_log_handler_by_name (Some (str name)) r;
  match ho with
  | Some _ => '(_, r) ← lmk_attach_log_handler init_done (al_ref A (str name) r) (Some la) ho r; Ok r
  | None => Ok r
  end.

Lemma attach_named_spec A la name l r : ample A -> registry_ok r -> g_loggers r !! la = Some l ->
  exists r' l', attach_named A la name r = Ok r' /\ registry_ok r' /\ (forall n, grows n r r') /\
    g_loggers r' !! la = Some l' /\ l_name l' = l_name l /\ l_log_level l' = l_log_level l /\
    l_handler_refs l ⊆ l_handler_refs l' /\ attached_to_all [name] l' r'.
Proof.
  intros HA Hok Hl. unfold attach_named. destruct (search_handler_spec r (str name) Hok) as (found & -> & Hf).
  rewrite outcome_bind_ok. destruct found as [ha|].
  2: { exists r, l. split_and!; try done. intros hn ha h ->%list_elem_of_singleton Hh Hn. by destruct (Hf ha h Hh). }
  destruct Hf as (h & Hh & Hn).
  assert (forall r', registry_ok r' -> h_name <$> g_handlers r' !! ha = Some (Some (str name)) ->
    forall l', ha ∈ l_handler_refs l' -> attached_to_all [name] l' r') as Hone.
  { intros r' Hok' He l' Hin hn hb h' ->%list_elem_of_singleton Hhb Hnb.
    destruct (g_handlers r' !! ha) as [h0|] eqn:H0; [|done]. injection He as He.
    by rewrite <- (ro_handler_names r' Hok' ha hb h0 h' H0 Hhb ltac:(congruence)). }
  destruct (attach_spec init_done init_done_initialized (al_ref A (str name) r) la ha l h r Hok Hl Hh) as (res & r' & -> & Hok' & Hr').
  rewrite outcome_bind_ok. rewrite (am_ref A HA) in Hr'. case_bool_decide as Hin.
  - destruct Hr' as [_ ->]. exists r, l. split_and!; try done. apply (Hone r); [done| |done]. by rewrite Hh; simpl; rewrite Hn.
  - destruct Hr' as [_ ->]. eexists _, (set_logger_refs l (l_handler_refs l ++ [ha])).
    assert (l_handler_refs l ⊆ l_handler_refs l ++ [ha]) as Hsub by (intros x Hx; apply elem_of_app; by left).
    split_and!; try done.
    + intros n. etrans; [|eapply grows_upd_handler; [exact Hh|done]]. by eapply grows_upd_logger.
    + simpl. by rewrite lookup_insert_eq.
    + apply Hone; [done| |apply elem_of_snoc; by right]. simpl. rewrite lookup_insert_eq. simpl. by rewrite Hn.
Qed.

Lemma attach_names_spec A la names l r : ample A -> registry_ok r -> g_loggers r !! la = Some l ->
  exists r' l', loop_ok (attach_named A la) names r = Ok r' /\ registry_ok r' /\ (forall n, grows n r r') /\
    g_loggers r' !! la = Some l' /\ l_name l' = l_name l /\ l_log_level l' = l_log_level l /\
    attached_to_all names l' r'.
Proof.
  intros HA. revert r l. induction names as [|name names IH]; intros r l Hok Hl.
  { exists r, l. split_and!; try done. by intros hn ha h ?%not_elem_of_nil. }
  destruct (attach_named_spec A la name l r HA Hok Hl) as (r1 & l1 & He1 & Hok1 & Hg1 & Hl1 & Hn1 & Hlev1 & _ & Hall1).
  destruct (IH r1 l1 Hok1 Hl1) as (r2 & l2 & He2 & Hok2 & Hg2 & Hl2 & Hn2 & Hlev2 & Hall2).
  exists r2, l2. cbn [loop_ok]. rewrite He1, outcome_bind_ok. split_and!; try done; [|congruence..|].
  - intros n. by transitivity r1.
  - destruct (gr_loggers "" r1 r2 (Hg2 ""%string) la l1 Hl1) as (l2' & Hl2' & _ & Hsub & _).
    rewrite Hl2 in Hl2'. injection Hl2' as <-. intros hn ha h Hin. apply elem_of_cons in Hin as [->|Hin].
    + eapply (attached_grows "" [name]); [apply Hg2|exact Hsub|exact Hall1|by left].
    + by apply Hall2.
Qed.

(** ** One logger section *)

(** The logger of a section, as the section asks for it. *)
Definition section_applied (cl : lmk_cfg_logger) (r : registry) : Prop :=
  exists la l, g_loggers r !! la = Some l /\ l_name l = str (lg_name cl) /\
    (lg_level cl <> -1 -> l_log_level l = lg_level cl) /\ attached_to_all (lg_handler_names cl) l r.

Section sections.
Context (A : allocator).
Hypothesis HA : ample A.

Lemma get_logger_grows name r : registry_ok r ->
  exists la l r', lmk_get_logger init_done (al_object A name r) (al_logger_name A name r) (Some name) r = Ok (Some la, r') /\ registry_ok r' /\
    (forall n, grows n r r') /\ g_loggers r' !! la = Some l /\ l_name l = name.
Proof.
  intros Hok. destruct (am_object A HA name r) as [a Ha]. rewrite (am_logger_name A HA).
  destruct (get_logger_spec init_done init_done_initialized (al_object A name r) true name r Hok (am_fresh A HA name r))
    as (p & r' & -> & Hok' & [(b & l & -> & Hl & Hn & ->)|[(_ & b & Hb & _ & -> & _ & Hls & Hhs)|(_ & [?|?] & _)]]);
    [| |congruence|done].
  - exists b, l, r. by split_and!.
  - exists b, (mk_logger name LMK_LOG_LEVEL_INFO [] true), r'. split_and!; try done; [|by rewrite Hls, lookup_insert_eq].
    intros n. split; [by rewrite Hhs|]. intros c l Hl. exists l. rewrite Hls, lookup_insert_ne; [done|].
    intros <-. destruct (am_fresh A HA name r b Hb) as [Hfr _]. by rewrite Hl in Hfr.
Qed.

Lemma set_level_grows la l level r : registry_ok r -> g_loggers r !! la = Some l -> cfg_level level ->
  exists r' l', (if negb (level =? -1) then lmk_set_log_level init_done (Some la) level r else Ok r) = Ok r' /\
    registry_ok r' /\ grows (l_name l) r r' /\ g_loggers r' !! la = Some l' /\ l_name l' = l_name l /\
    (level <> -1 -> l_log_level l' = level).
Proof.
  intros Hok Hl Hlevel. destruct (Z.eqb_spec level (-1)) as [->|Hne]; cbn [negb]; [by exists r, l|].
  destruct Hlevel as [?|Hv]; [done|]. unfold lmk_set_log_level.
  rewrite (init_done_ok r Hok), outcome_bind_ok, Hl. cbn [deref]. rewrite outcome_bind_ok, Hv.
  eexists _, (set_logger_level l level). split_and!; try done.
  - eapply registry_ok_logger; try done. by apply (ro_loggers r Hok la l Hl).
  - by eapply grows_upd_logger.
  - simpl. by rewrite lookup_insert_eq.
Qed.

Lemma cfg_apply_logger_spec cl r : registry_ok r -> cfg_level (lg_level cl) ->
  exists r', cfg_apply_logger A cl r = Ok r' /\ registry_ok r' /\ grows (str (lg_name cl)) r r' /\
    section_applied cl r'.
Proof.
  intros Hok Hlevel. unfold cfg_apply_logger.
  destruct (get_logger_grows (str (lg_name cl)) r Hok) as (la & l & r1 & -> & Hok1 & Hg1 & Hl1 & Hn1).
  rewrite outcome_bind_ok. cbv beta iota.
  destruct (set_level_grows la l (lg_level cl) r1 Hok1 Hl1 Hlevel) as (r2 & l2 & -> & Hok2 & Hg2 & Hl2 & Hn2 & Hlev2).
  rewrite outcome_bind_ok.
  destruct (attach_names_spec A la (lg_handler_names cl) l2 r2 HA Hok2 Hl2) as (r3 & l3 & He3 & Hok3 & Hg3 & Hl3 & Hn3 & Hlev3 & Hall).
  exists r3. split; [exact He3|]. split; [done|]. split.
  - rewrite Hn1 in Hg2. transitivity r1; [apply Hg1|]. by transitivity r2.
  - exists la, l3. split_and!; [done|congruence| |done]. intros Hne. rewrite Hlev3. by apply Hlev2.
Qed.

Lemma section_applied_grows n cl r r' : grows n r r' -> n <> str (lg_name cl) ->
  section_applied cl r -> section_applied cl r'.
Proof.
  intros Hg Hne (la & l & Hl & Hn & Hlev & Hall). destruct (gr_loggers n r r' Hg la l Hl) as (l' & Hl' & Hn' & Hsub & Hlev').
  exists la, l'. split_and!; [done|congruence| |by eapply attached_grows].
  intros Hne'. rewrite Hlev' by congruence. by apply Hlev.
Qed.

Lemma logger_sections_applied cls r : registry_ok r -> Forall (fun cl => cfg_level (lg_level cl)) cls ->
  NoDup (map (fun cl => str (lg_name cl)) cls) ->
  exists r', loop_ok (cfg_apply_logger A) cls r = Ok r' /\ registry_ok r' /\
    Forall (fun cl => section_applied cl r') cls /\
    (forall a, h_name <$> g_handlers r' !! a = h_name <$> g_handlers r !! a) /\
    (forall cl, str (lg_name cl) ∉ map (fun cl => str (lg_name cl)) cls -> section_applied cl r -> section_applied cl r').
Proof.
  intros Hok Hlevels. revert r Hok. induction Hlevels as [|cl cls Hlevel _ IH]; intros r Hok Hnd; cbn [loop_ok map] in *.
  { exists r. split; [done|]. split; [done|]. split; [constructor|done]. }
  apply NoDup_cons in Hnd as [Hnotin Hnd].
  destruct (cfg_apply_logger_spec cl r Hok Hlevel) as (r1 & -> & Hok1 & Hg1 & Happ1). rewrite outcome_bind_ok.
  destruct (IH r1 Hok1 Hnd) as (r2 & He2 & Hok2 & Hall2 & Hh2 & Hkeep2). exists r2. split_and!; try done.
  - constructor; [by apply Hkeep2|done].
  - intros a. rewrite Hh2. apply (gr_handlers _ r r1 Hg1).
  - intros cl0 [Hne Hnotin0]%not_elem_of_cons Happ. apply Hkeep2; [done|].
    eapply section_applied_grows; [exact Hg1|congruence|done].
Qed.
End sections.

(** ** The handler sections *)

(** Handlers keep their addresses and names. *)
Definition names_kept (r r' : registry) : Prop := forall a h, g_handlers r !! a = Some h ->
  exists h', g_handlers r' !! a = Some h' /\ h_name h' = h_name h.

#[export] Instance names_kept_preorder : PreOrder names_kept.
Proof.
  split; [intros r a h Hh; by exists h|]. intros r1 r2 r3 H1 H2 a h Hh.
  destruct (H1 a h Hh) as (h1 & Hh1 & Hn1). destruct (H2 a h1 Hh1) as (h2 & Hh2 & Hn2). exists h2. split; [done|congruence].
Qed.

Lemma names_kept_upd r a h h' : g_handlers r !! a = Some h -> h_name h' = h_name h -> names_kept r (upd_handler a h' r).
Proof.
  intros Hh Hn b hb Hb. simpl. destruct (decide (a = b)) as [<-|Hne].
  - rewrite lookup_insert_eq. rewrite Hh in Hb. injection Hb as <-. by exists h'.
  - rewrite lookup_insert_ne by done. by exists hb.
Qed.

(** A call whose result keeps the names. *)
Definition keeps_names (r : registry) (call : outcome registry) : Prop := forall r', call = Ok r' -> names_kept r r'.

Lemma keeps_names_ok r : keeps_names r (Ok r).
Proof. by intros r' [= <-]. Qed.

Lemma keeps_names_bind r call f : keeps_names r call -> (forall r1, keeps_names r1 (f r1)) -> keeps_names r (call ≫= f).
Proof.
  intros Hc Hf r' He. destruct call as [r1| |]; [|done..]. rewrite outcome_bind_ok in He.
  etrans; [by apply Hc|by eapply Hf].
Qed.

Lemma keeps_names_loop {A} (f : A -> registry -> outcome registry) l r :
  (forall a r, keeps_names r (f a r)) -> keeps_names r (loop_ok f l r).
Proof.
  intros Hf. revert r. induction l as [|a l IH]; intros r; [apply keeps_names_ok|]. by apply keeps_names_bind.
Qed.

(** A setter: fetch the handler, then change its settings or nothing. *)
Lemma keeps_names_setter r a (f : lmk_log_handler -> outcome registry) :
  (forall h, g_handlers r !! a = Some h -> keeps_names r (f h)) -> keeps_names r (deref (g_handlers r !! a) ≫= f).
Proof.
  intros Hf r' He. destruct (g_handlers r !! a) as [h|] eqn:Hh; [|done]. cbn [deref] in He. rewrite outcome_bind_ok in He.
  by eapply Hf.
Qed.

Lemma keeps_names_upd r a h h' : g_handlers r !! a = Some h -> h_name h' = h_name h -> keeps_names r (Ok (upd_handler a h' r)).
Proof. intros Hh Hn r' [= <-]. by eapply names_kept_upd. Qed.

Create HintDb names.
#[local] Hint Resolve keeps_names_ok keeps_names_upd : names.

Lemma handler_set_rotation_names p m n r : keeps_names r (handler_set_rotation p m n r).
Proof.
  destruct p as [a|]; [|apply keeps_names_ok]. apply keeps_names_setter. intros h Hh.
  destruct (_ =? _); [|eauto with names]. destruct (cast_file h) as [[[f k] b]| |]; [|done..].
  rewrite outcome_bind_ok. eauto with names.
Qed.

Lemma handler_set_psk_names p psk r : keeps_names r (handler_set_psk p psk r).
Proof.
  destruct p as [a|], psk as [psk|]; try apply keeps_names_ok. apply keeps_names_setter. intros h Hh.
  destruct (negb _); [eauto with names|]. destruct (cast_socket h) as [[ls k]| |]; [|done..].
  rewrite outcome_bind_ok. eauto with names.
Qed.

Lemma handler_add_listener_names ok p host port r : keeps_names r (handler_add_listener ok p host port r).
Proof.
  destruct p as [a|], host as [host|]; try apply keeps_names_ok. cbn [handler_add_listener].
  destruct (port <=? 0); [eauto with names|]. apply keeps_names_setter. intros h Hh.
  destruct (negb _); [eauto with names|]. destruct (cast_socket h) as [[ls k]| |]; [|done..].
  rewrite outcome_bind_ok. destruct ok; eauto with names.
Qed.

Lemma set_handler_level_names p level r : registry_ok r -> keeps_names r (lmk_set_handler_log_level init_done p level r).
Proof.
  intros Hok. unfold lmk_set_handler_log_level. rewrite (init_done_ok r Hok), outcome_bind_ok.
  destruct p as [a|]; [|apply keeps_names_ok]. apply keeps_names_setter. intros h Hh.
  destruct (LMK_IS_VALID_LOG_LEVEL level); eauto with names.
Qed.

Lemma set_format_names p fn r : keeps_names r (lmk_set_log_format p fn r).
Proof.
  destruct p as [a|]; [|apply keeps_names_ok]. cbn [lmk_set_log_format]. apply keeps_names_setter. intros h Hh.
  eapply keeps_names_upd; [exact Hh|done].
Qed.

(** The name under which a section's handler is registered, and whether the
    section describes a handler at all. *)
Definition cfg_handler_name (ch : lmk_cfg_handler) : string :=
  if ch_type ch =? LMK_LOG_HANDLER_TYPE_CONSOLE then "console"%string else str (ch_name ch).

Definition complete_section (ch : lmk_cfg_handler) : bool :=
  (0 <=? ch_type ch) && (ch_type ch <=? LMK_LOG_HANDLER_TYPE_SYSLOG) &&
  (negb (ch_type ch =? LMK_LOG_HANDLER_TYPE_FILE) || bool_decide (ch_filename ch <> [])).

Definition registered (name : string) (r : registry) : Prop :=
  exists ha h, g_handlers r !! ha = Some h /\ h_name h = Some name.

Lemma registered_kept name r r' : names_kept r r' -> registered name r -> registered name r'.
Proof. intros Hk (ha & h & Hh & Hn). destruct (Hk ha h Hh) as (h' & Hh' & Hn'). exists ha, h'. split; [done|congruence]. Qed.

Section handlers.
Context (A : allocator).
Hypothesis HA : ample A.

(** A call that yields the live handler of the name. *)
Definition yields (name : string) (r : registry) (call : outcome (option addr * registry)) : Prop :=
  exists ha r', call = Ok (Some ha, r') /\ registry_ok r' /\ names_kept r r' /\ live_handler (Some ha) r' /\
    registered name r'.

Lemma make_handler_yields n name data r : registry_ok r -> data_named data ->
  yields name r (make_handler (al_object A n r) true true (kind_type (data_kind data)) (type_methods (data_kind data)) name data r).
Proof.
  intros Hok Hd. destruct (am_object A HA n r) as [a Ha].
  destruct (make_handler_applied A (am_fresh A HA) n name data true r Hok Hd) as (p & r1 & He & _ & _ & Hlive).
  destruct (make_handler_spec (al_object A n r) true _ _ name data r Hok (am_fresh A HA n r) eq_refl eq_refl Hd)
    as (p' & r' & He' & Hok' & [(b & h & -> & Hh & Hn & ->)|[(_ & b & Hb & _ & -> & _ & Hhs & _)|(_ & _ & [[? _]|(b & _ & ? & _)])]]);
    [| |congruence|done]; rewrite He in He'; injection He' as -> ->.
  - exists b, r. split_and!; try done. by exists b, h.
  - exists b, r'. split_and!; try done.
    + intros c h Hc. exists h. rewrite Hhs, lookup_insert_ne; [done|]. intros <-.
      destruct (am_fresh A HA n r b Hb) as [_ Hfr]. by rewrite Hc in Hfr.
    + eexists b, _. rewrite Hhs, lookup_insert_eq. by split.
Qed.

Lemma yields_then name r call (g : option addr -> registry -> outcome registry) : yields name r call ->
  (forall p r, registry_ok r -> live_handler p r -> settles p r (g p r)) ->
  (forall p r, keeps_names r (g p r)) ->
  yields name r ('(ho, r) ← call; match ho with Some _ => r ← g ho r; Ok (ho, r) | None => Ok (ho, r) end).
Proof.
  intros (ha & r1 & -> & Hok1 & Hk1 & Hl1 & Hreg1) Hg Hgk. rewrite outcome_bind_ok.
  destruct (Hg (Some ha) r1 Hok1 Hl1) as (r2 & He2 & Hok2 & _ & Hl2). rewrite He2, outcome_bind_ok.
  pose proof (Hgk (Some ha) r1 r2 He2) as Hk2. exists ha, r2. split_and!; try done; [by transitivity r1|].
  by eapply registered_kept.
Qed.

Lemma yields_init name r (f : registry -> outcome (option addr * registry)) : registry_ok r ->
  yields name r (f r) -> yields name r (r ← init_done r; f r).
Proof. intros Hok Hf. by rewrite (init_done_ok r Hok), outcome_bind_ok. Qed.

(** The settings of a socket handler's section. *)
Definition socket_settings (ch : lmk_cfg_handler) (p : option addr) (r : registry) : outcome registry :=
  r ← (match non_empty (ch_psk ch) with Some psk => handler_set_psk p (Some psk) r | None => Ok r end);
  loop_ok (fun l r => handler_add_listener (al_listener A (str (cl_host l)) r) p (Some (str (cl_host l))) (cl_port l) r)
    (ch_listeners ch) r.

Lemma socket_settings_names ch p r : keeps_names r (socket_settings ch p r).
Proof.
  apply keeps_names_bind.
  - destruct (non_empty (ch_psk ch)); [apply handler_set_psk_names|apply keeps_names_ok].
  - intros r1. apply keeps_names_loop. intros l r2. apply handler_add_listener_names.
Qed.

Lemma cfg_make_handler_yields ch r : registry_ok r -> complete_section ch = true ->
  yields (cfg_handler_name ch) r (cfg_make_handler A ch r).
Proof.
  intros Hok Hwanted. unfold cfg_make_handler, cfg_handler_name, complete_section in *.
  destruct (am_copied A HA) as [Hcn Hcf]. rewrite !Hcn, Hcf, !(am_set_up A HA).
  destruct (Z.eqb_spec (ch_type ch) LMK_LOG_HANDLER_TYPE_CONSOLE) as [_|H0].
  { apply yields_init; [done|]. by apply (make_handler_yields _ "console" ConsoleData). }
  destruct (Z.eqb_spec (ch_type ch) LMK_LOG_HANDLER_TYPE_FILE) as [H1|H1].
  { assert (exists f, non_empty (ch_filename ch) = Some f) as [f Hf].
    { destruct (ch_filename ch); [|by eexists]. by rewrite andb_false_r in Hwanted. }
    rewrite Hf. assert (yields (str (ch_name ch)) r (lmk_get_file_log_handler init_done (al_object A (str (ch_name ch)) r)
      true true true (Some (str (ch_name ch))) (Some f) r)) as Hy.
    { apply yields_init; [done|].
      apply (make_handler_yields _ _ (FileData (Some f) LMK_DEFAULT_MAX_FILE_SIZE LMK_DEFAULT_MAX_BACKUP_FILES)); [done|by eexists]. }
    destruct ((0 <? ch_max_file_size ch) || (0 <? ch_max_backup_files ch)).
    - apply yields_then; [done| |intros ha r'; apply handler_set_rotation_names].
      intros ha r' Hok' Hl. by apply set_rotation_settles.
    - destruct Hy as (ha & r' & -> & ?). rewrite outcome_bind_ok. by exists ha, r'. }
  destruct (Z.eqb_spec (ch_type ch) LMK_LOG_HANDLER_TYPE_SYSLOG) as [H3|H3].
  { apply yields_init; [done|]. by apply (make_handler_yields _ _ (SyslogData _ _)). }
  destruct (Z.eqb_spec (ch_type ch) LMK_LOG_HANDLER_TYPE_SOCKET) as [H2|H2].
  2: { unfold LMK_LOG_HANDLER_TYPE_CONSOLE, LMK_LOG_HANDLER_TYPE_FILE, LMK_LOG_HANDLER_TYPE_SOCKET,
         LMK_LOG_HANDLER_TYPE_SYSLOG in *. lia. }
  destruct (yields_then (str (ch_name ch)) r
    (lmk_get_socket_log_handler init_done (al_object A (str (ch_name ch)) r) true true (Some (str (ch_name ch))) r)
    (socket_settings ch)) as (ha & r' & He & Hrest).
  - apply yields_init; [done|]. by apply (make_handler_yields _ _ (SocketData [] None)).
  - intros p r1. apply (socket_settings_settle A).
  - apply socket_settings_names.
  - exists ha, r'. split; [|done]. rewrite <- He. unfold lmk_get_socket_log_handler.
    rewrite (init_done_ok r Hok), outcome_bind_ok.
    destruct (make_handler _ _ _ _ _ _ _ r) as [[[b|] r1]| |]; try done. rewrite !outcome_bind_ok. unfold socket_settings.
    by destruct (match non_empty (ch_psk ch) with Some _ => _ | None => _ end).
Qed.

Lemma cfg_apply_handler_incomplete ch r : registry_ok r -> complete_section ch = false ->
  cfg_apply_handler A ch r = Ok r.
Proof.
  intros Hok Hw. unfold cfg_apply_handler, complete_section in *. destruct (Z.ltb_spec (ch_type ch) 0); [done|].
  rewrite (proj2 (Z.leb_le 0 (ch_type ch))) in Hw by lia. unfold cfg_make_handler.
  destruct (Z.eqb_spec (ch_type ch) LMK_LOG_HANDLER_TYPE_CONSOLE) as [He|]; [by rewrite He in Hw|].
  destruct (Z.eqb_spec (ch_type ch) LMK_LOG_HANDLER_TYPE_FILE) as [He|].
  { rewrite He in Hw. destruct (ch_filename ch) as [|]; [|done].
    cbn [non_empty]. unfold lmk_get_file_log_handler. by rewrite (init_done_ok r Hok), outcome_bind_ok. }
  destruct (Z.eqb_spec (ch_type ch) LMK_LOG_HANDLER_TYPE_SYSLOG) as [He|]; [by rewrite He in Hw|].
  by destruct (Z.eqb_spec (ch_type ch) LMK_LOG_HANDLER_TYPE_SOCKET) as [He|]; [rewrite He in Hw|].
Qed.

Lemma cfg_apply_handler_spec ch r : registry_ok r ->
  exists r', cfg_apply_handler A ch r = Ok r' /\ registry_ok r' /\ names_kept r r' /\
    (complete_section ch = true -> registered (cfg_handler_name ch) r').
Proof.
  intros Hok. destruct (complete_section ch) eqn:Hw.
  2: { exists r. by rewrite cfg_apply_handler_incomplete. }
  destruct (cfg_apply_handler_applied A (am_fresh A HA) (am_copied A HA) ch r Hok) as (r' & He & Hok' & _).
  exists r'. split; [done|]. split; [done|]. revert He. unfold cfg_apply_handler.
  destruct (Z.ltb_spec (ch_type ch) 0).
  { unfold complete_section in Hw. rewrite (proj2 (Z.leb_gt 0 (ch_type ch))) in Hw by lia. done. }
  destruct (cfg_make_handler_yields ch r Hok Hw) as (ha & r1 & -> & Hok1 & Hk1 & Hl1 & Hreg1).
  rewrite outcome_bind_ok. cbv beta iota. intros He.
  assert (names_kept r1 r') as Hk2.
  { revert He. apply (keeps_names_bind r1).
    - destruct (negb _); [by apply set_handler_level_names|apply keeps_names_ok].
    - intros r2. destruct (non_empty (ch_format ch)); [apply set_format_names|apply keeps_names_ok]. }
  split; [by transitivity r1|]. intros _. by eapply registered_kept.
Qed.

Lemma handler_sections_applied chs r : registry_ok r ->
  exists r', loop_ok (cfg_apply_handler A) chs r = Ok r' /\ registry_ok r' /\ names_kept r r' /\
    Forall (fun ch => complete_section ch = true -> registered (cfg_handler_name ch) r') chs.
Proof.
  revert r. induction chs as [|ch chs IH]; intros r Hok; cbn [loop_ok].
  { exists r. split_and!; done. }
  destruct (cfg_apply_handler_spec ch r Hok) as (r1 & -> & Hok1 & Hk1 & Hreg1). rewrite outcome_bind_ok.
  destruct (IH r1 Hok1) as (r2 & He2 & Hok2 & Hk2 & Hall2). exists r2. split_and!; try done; [by transitivity r1|].
  constructor; [|done]. intros Hw. eapply registered_kept; [done|by apply Hreg1].
Qed.
End handlers.

(** C13. A configuration file is honoured: when memory suffices and every handler
    starts, each complete handler section has its handler registered, and, if
    the names of the logger sections differ, each of these has its logger, at the
    level the section gives, attached to every registered handler it names. *)
Theorem config_file_is_honoured A content cfg r : ample A -> registry_ok r -> lmk_cfg_parse_file (Some content) = Some cfg ->
  NoDup (map lg_name (cf_loggers cfg)) ->
  exists r', lmk_cfg_apply A cfg r = Ok r' /\ registry_ok r' /\
    Forall (fun ch => complete_section ch = true -> registered (cfg_handler_name ch) r') (cf_handlers cfg) /\
    Forall (fun cl => section_applied cl r') (cf_loggers cfg).
Proof.
  intros HA Hok Hparse Hnd. destruct (ro_config r Hok) as [c Hc]. unfold lmk_cfg_apply. rewrite Hc. cbn [deref]. rewrite outcome_bind_ok.
  apply registry_ok_config with (c := applied_config cfg) in Hok.
  destruct (handler_sections_applied A HA (cf_handlers cfg) _ Hok) as (r1 & He1 & Hok1 & _ & Hreg1).
  unfold applied_config in He1. rewrite He1, outcome_bind_ok.
  destruct (logger_sections_applied A HA (cf_loggers cfg) r1 Hok1) as (r2 & -> & Hok2 & Hall2 & Hh2 & _).
  - destruct (co_loggers cfg (parse_file_ok content cfg Hparse)) as [_ Hl]. eapply Forall_impl; [exact Hl|]. by intros cl [].
  - rewrite <- (map_map lg_name str). apply NoDup_fmap_2; [|done]. intros a b Hab. by rewrite <- (chars_str a), Hab, chars_str.
  - exists r2. split_and!; try done. eapply Forall_impl; [exact Hreg1|]. intros ch Hreg Hw.
    apply Hreg in Hw as (ha & h & Hh & Hn). pose proof (Hh2 ha) as He. rewrite Hh in He.
    destruct (g_handlers r2 !! ha) as [h2|] eqn:Hh'; [|done]. injection He as He. exists ha, h2. split; [done|congruence].
Qed.

Definition sample_cfg : lmk_cfg := default cfg_start (lmk_cfg_parse_file (Some sample_file_text)).

Lemma config_file_is_honoured_witness :
  exists r', lmk_cfg_apply good_memory sample_cfg empty_registry = Ok r' /\
    registered "disk" r' /\ Forall (fun cl => section_applied cl r') (cf_loggers sample_cfg) /\
    length (cf_loggers sample_cfg) = 1%nat.
Proof.
  destruct (config_file_is_honoured good_memory sample_file_text sample_cfg empty_registry)
    as (r' & He & _ & Hhandlers & Hall).
  - apply good_memory_ample.
  - apply registry_ok_empty.
  - vm_compute. reflexivity.
  - apply (bool_decide_unpack _). vm_compute. exact I.
  - exists r'. split; [exact He|]. split; [|split; [exact Hall|vm_compute; reflexivity]].
    assert (exists ch, nth_error (cf_handlers sample_cfg) 1 = Some ch /\ complete_section ch = true /\
      cfg_handler_name ch = "disk"%string) as (ch & Hch & Hw & Hn).
    { eexists. split; [vm_compute; reflexivity|]. split; vm_compute; reflexivity. }
    rewrite <- Hn. apply (proj1 (Forall_forall _ _) Hhandlers ch); [|exact Hw].
    eapply list_elem_of_In, nth_error_In, Hch.
Defined.
