(* ===== verification/ConfigSettings.v ===== *)
(** The settings of the handlers a configuration makes.  Every handler section
    is a function on the record of the handler of its name, made if there is
    none; what a configuration does to a handler is the composition of its
    sections, in the order of the file.  Loading the file that [lmk_init] has
    already loaded composes them a second time. *)
From S2P Require Import Prelude Types Format FileHandler SyslogHandler Registry RegistrySafety RegistryTheorems ConfigFile ConfigTheorems ApiSafety ConfigApply.
Local Open Scope Z_scope.

(** ** A section as a function *)

Definition rotation_data (size backups : Z) (d : handler_data) : handler_data :=
  match d with FileData filename _ _ => FileData filename size backups | _ => d end.

Definition psk_data (psk : string) (d : handler_data) : handler_data :=
  match d with SocketData listeners _ => SocketData listeners (Some psk) | _ => d end.

Definition listener_data (l : lmk_cfg_listener) (d : handler_data) : handler_data :=
  match d with
  | SocketData listeners psk =>
      if cl_port l <=? 0 then d else SocketData (listeners ++ [(str (cl_host l), cl_port l)]) psk
  | _ => d
  end.

Definition section_data (ch : lmk_cfg_handler) (d : handler_data) : handler_data :=
  if ch_type ch =? LMK_LOG_HANDLER_TYPE_FILE then
    if (0 <? ch_max_file_size ch) || (0 <? ch_max_backup_files ch) then
      rotation_data (if 0 <? ch_max_file_size ch then ch_max_file_size ch else LMK_DEFAULT_MAX_FILE_SIZE)
        (if 0 <? ch_max_backup_files ch then ch_max_backup_files ch else LMK_DEFAULT_MAX_BACKUP_FILES) d
    else d
  else if ch_type ch =? LMK_LOG_HANDLER_TYPE_SOCKET then
    foldl (fun d l => listener_data l d) (from_option (fun psk => psk_data psk d) d (non_empty (ch_psk ch))) (ch_listeners ch)
  else d.

(** The handler after the section, and the one the section makes. *)
Definition with_settings (ch : lmk_cfg_handler) (h : lmk_log_handler) : lmk_log_handler :=
  mk_handler (h_type h) (h_name h)
    (if negb (ch_level ch =? -1) && LMK_IS_VALID_LOG_LEVEL (ch_level ch) then ch_level ch else h_log_level h)
    (h_nr_logger_ref h) (h_initialized h)
    (from_option (fun f => lmk_get_format_fn (Some f)) (h_format_fn h) (non_empty (ch_format ch)))
    (h_methods h) (section_data ch (h_data h)).

Definition made_data (ch : lmk_cfg_handler) : handler_data :=
  if ch_type ch =? LMK_LOG_HANDLER_TYPE_CONSOLE then ConsoleData
  else if ch_type ch =? LMK_LOG_HANDLER_TYPE_FILE then
    FileData (non_empty (ch_filename ch)) LMK_DEFAULT_MAX_FILE_SIZE LMK_DEFAULT_MAX_BACKUP_FILES
  else if ch_type ch =? LMK_LOG_HANDLER_TYPE_SYSLOG then
    SyslogData (match non_empty (ch_ident ch) with Some i => str (take 63 (chars i)) | None => ""%string end)
      (lmk_parse_syslog_facility (non_empty (ch_facility ch)))
  else SocketData [] None.

Definition made_handler (ch : lmk_cfg_handler) : lmk_log_handler :=
  mk_handler (ch_type ch) (Some (cfg_handler_name ch)) LMK_LOG_LEVEL_TRACE 0 true None
    (type_methods (data_kind (made_data ch))) (made_data ch).

(** What a section does to the handler called [name], absent or present. *)
Definition section_effect (name : string) (o : option lmk_log_handler) (ch : lmk_cfg_handler) : option lmk_log_handler :=
  if complete_section ch && bool_decide (cfg_handler_name ch = name)
  then Some (with_settings ch (default (made_handler ch) o)) else o.

(** ** The setters on a handler that is there *)

Lemma upd_handler_id a h r : g_handlers r !! a = Some h -> upd_handler a h r = r.
Proof. intros Hh. unfold upd_handler. rewrite insert_id by done. by destruct r. Qed.

Lemma upd_handler_twice a h1 h2 r : upd_handler a h2 (upd_handler a h1 r) = upd_handler a h2 r.
Proof. unfold upd_handler. simpl. by rewrite insert_insert_eq. Qed.

(** The call changes handler [a], whose tag and functions fit its struct, by [f],
    which keeps that so, and nothing else. *)
Definition sets (a : addr) (f : lmk_log_handler -> lmk_log_handler) (call : registry -> outcome registry) : Prop :=
  forall r h, g_initialized r = true -> g_handlers r !! a = Some h -> handler_typed h ->
    call r = Ok (upd_handler a (f h) r) /\ handler_typed (f h).

Lemma sets_id a : sets a (fun h => h) Ok.
Proof. intros r h _ Hh Ht. by rewrite upd_handler_id. Qed.

Lemma sets_then a f g m n : sets a f m -> sets a g n -> sets a (fun h => g (f h)) (fun r => r ← m r; n r).
Proof.
  intros Hm Hn r h Hi Hh Ht. destruct (Hm r h Hi Hh Ht) as [-> Ht1]. rewrite outcome_bind_ok.
  destruct (Hn (upd_handler a (f h) r) (f h)) as [-> Ht2]; [done|simpl; by rewrite lookup_insert_eq|done|].
  by rewrite upd_handler_twice.
Qed.

Lemma sets_loop {B} a (f : B -> lmk_log_handler -> lmk_log_handler) m (l : list B) :
  (forall x, sets a (f x) (m x)) -> sets a (fun h => foldl (fun h x => f x h) h l) (loop_ok m l).
Proof. intros Hm. induction l as [|x l IH]; [apply sets_id|]. exact (sets_then a (f x) _ (m x) _ (Hm x) IH). Qed.

Definition on_data (f : handler_data -> handler_data) (h : lmk_log_handler) : lmk_log_handler := set_handler_data h (f (h_data h)).

Lemma set_data_id h : set_handler_data h (h_data h) = h.
Proof. by destruct h. Qed.

(** A setter of the type's own settings: it fetches the handler and replaces its data or nothing. *)
Lemma sets_on_data a (f : handler_data -> handler_data) call : (forall d, data_kind (f d) = data_kind d) ->
  (forall r h, g_handlers r !! a = Some h -> handler_typed h ->
    call r = Ok (upd_handler a (set_handler_data h (f (h_data h))) r) \/ call r = Ok r /\ f (h_data h) = h_data h) ->
  sets a (on_data f) call.
Proof.
  intros Hkind Hcall r h _ Hh Ht. split.
  - unfold on_data. destruct (Hcall r h Hh Ht) as [->|[-> Hf]]; [done|]. by rewrite Hf, set_data_id, upd_handler_id.
  - unfold handler_typed. simpl. by rewrite Hkind.
Qed.

Ltac solve_sets_data :=
  apply sets_on_data; [by intros []|]; intros r h Hh [Ht _];
  cbn [handler_set_rotation handler_set_psk handler_add_listener]; unfold cast_file, cast_socket;
  rewrite Hh; cbn [deref]; rewrite outcome_bind_ok, Ht; destruct (h_data h); simpl; auto.

Lemma rotation_sets a size backups : sets a (on_data (rotation_data size backups)) (handler_set_rotation (Some a) size backups).
Proof. solve_sets_data. Qed.

Lemma psk_sets a psk : sets a (on_data (psk_data psk)) (handler_set_psk (Some a) (Some psk)).
Proof. solve_sets_data. Qed.

Lemma listener_sets a (ok : registry -> bool) l : (forall r, ok r = true) ->
  sets a (on_data (listener_data l)) (fun r => handler_add_listener (ok r) (Some a) (Some (str (cl_host l))) (cl_port l) r).
Proof.
  intros Hroom. apply sets_on_data.
  { intros []; try done. simpl. by destruct (cl_port l <=? 0). }
  intros r h Hh [Ht _]. rewrite Hroom. cbn [handler_add_listener]. unfold cast_socket.
  destruct (Z.leb_spec (cl_port l) 0).
  - right. split; [done|]. destruct (h_data h); try done. simpl. by rewrite (proj2 (Z.leb_le _ _)) by done.
  - rewrite Hh. cbn [deref]. rewrite outcome_bind_ok, Ht. destruct (h_data h); simpl; auto.
    rewrite (proj2 (Z.leb_gt _ _)) by done. by left.
Qed.

Lemma set_level_sets a level : sets a (fun h => if LMK_IS_VALID_LOG_LEVEL level then set_handler_level h level else h)
  (lmk_set_handler_log_level init_done (Some a) level).
Proof.
  intros r h Hi Hh Ht. unfold lmk_set_handler_log_level. rewrite init_done_initialized, outcome_bind_ok, Hh by done. cbn [deref].
  rewrite outcome_bind_ok. destruct (LMK_IS_VALID_LOG_LEVEL level); [done|]. by rewrite upd_handler_id.
Qed.

Lemma set_format_sets a fn : sets a (fun h => set_handler_format h fn) (lmk_set_log_format (Some a) fn).
Proof. intros r h _ Hh Ht. cbn [lmk_set_log_format]. by rewrite Hh. Qed.

(** ** A section *)

Lemma sets_ext a f g m n : (forall h, f h = g h) -> (forall r, n r = m r) -> sets a f m -> sets a g n.
Proof. intros Hf Hm Hs r h Hi Hh Ht. rewrite Hm, <- Hf. by apply Hs. Qed.

Lemma sets_if a (b : bool) f g m n : sets a f m -> sets a g n ->
  sets a (fun h => if b then f h else g h) (fun r => if b then m r else n r).
Proof. by destruct b. Qed.

Lemma foldl_on_data {B} (f : B -> handler_data -> handler_data) l h :
  foldl (fun h x => on_data (f x) h) h l = set_handler_data h (foldl (fun d x => f x d) (h_data h) l).
Proof. revert h. induction l as [|x l IH]; intros h; simpl; [by rewrite set_data_id|]. by rewrite IH. Qed.

Section calls.
Context (A : allocator).
Hypothesis HA : ample A.

(** The settings of a section, on the handler it yielded. *)
Definition data_call (ch : lmk_cfg_handler) (ha : addr) (r : registry) : outcome registry :=
  if ch_type ch =? LMK_LOG_HANDLER_TYPE_FILE then
    if (0 <? ch_max_file_size ch) || (0 <? ch_max_backup_files ch) then
      handler_set_rotation (Some ha) (if 0 <? ch_max_file_size ch then ch_max_file_size ch else LMK_DEFAULT_MAX_FILE_SIZE)
        (if 0 <? ch_max_backup_files ch then ch_max_backup_files ch else LMK_DEFAULT_MAX_BACKUP_FILES) r
    else Ok r
  else if ch_type ch =? LMK_LOG_HANDLER_TYPE_SOCKET then socket_settings A ch (Some ha) r
  else Ok r.

Lemma socket_settings_sets ch a : sets a
  (on_data (fun d => foldl (fun d l => listener_data l d) (from_option (fun psk => psk_data psk d) d (non_empty (ch_psk ch))) (ch_listeners ch)))
  (socket_settings A ch (Some a)).
Proof.
  assert (sets a (on_data (fun d => from_option (fun psk => psk_data psk d) d (non_empty (ch_psk ch))))
    (fun r => match non_empty (ch_psk ch) with Some psk => handler_set_psk (Some a) (Some psk) r | None => Ok r end)) as Hpsk.
  { destruct (non_empty (ch_psk ch)) as [psk|]; [apply psk_sets|].
    eapply sets_ext; [|done|apply sets_id]. intros h. symmetry. apply set_data_id. }
  pose proof (sets_then a _ _ _ _ Hpsk (sets_loop a (fun l => on_data (listener_data l)) _ (ch_listeners ch)
    (fun l => listener_sets a (al_listener A (str (cl_host l))) l (am_listener A HA (str (cl_host l)))))) as Hs.
  revert Hs. apply sets_ext; [|done]. intros h. by rewrite foldl_on_data.
Qed.

Lemma data_call_sets ch a : sets a (on_data (section_data ch)) (data_call ch a).
Proof.
  unfold data_call, section_data.
  destruct (ch_type ch =? LMK_LOG_HANDLER_TYPE_FILE); [destruct (_ || _)|destruct (ch_type ch =? LMK_LOG_HANDLER_TYPE_SOCKET)];
    [apply rotation_sets| |apply socket_settings_sets|];
    (eapply sets_ext; [|done|apply sets_id]; intros h; symmetry; apply set_data_id).
Qed.

Definition section_call (ch : lmk_cfg_handler) (ha : addr) (r : registry) : outcome registry :=
  r ← data_call ch ha r;
  r ← (if negb (ch_level ch =? -1) then lmk_set_handler_log_level init_done (Some ha) (ch_level ch) r else Ok r);
  match non_empty (ch_format ch) with
  | Some f => lmk_set_log_format (Some ha) (lmk_get_format_fn (Some f)) r
  | None => Ok r
  end.

Lemma section_call_sets ch a : sets a (with_settings ch) (section_call ch a).
Proof.
  pose proof (sets_if a (negb (ch_level ch =? -1)) _ _ _ _ (set_level_sets a (ch_level ch)) (sets_id a)) as Hlevel.
  assert (sets a (fun h => from_option (fun f => set_handler_format h (lmk_get_format_fn (Some f))) h (non_empty (ch_format ch)))
    (fun r => match non_empty (ch_format ch) with Some f => lmk_set_log_format (Some a) (lmk_get_format_fn (Some f)) r | None => Ok r end))
    as Hfmt by (destruct (non_empty (ch_format ch)); [apply set_format_sets|apply sets_id]).
  pose proof (sets_then a _ _ _ _ (data_call_sets ch a) (sets_then a _ _ _ _ Hlevel Hfmt)) as Hs.
  revert Hs. apply sets_ext; [|done]. intros h. unfold with_settings.
  destruct (negb _), (LMK_IS_VALID_LOG_LEVEL _), (non_empty (ch_format ch)); by destruct h.
Qed.

End calls.

(** ** The handler of a name *)

(** The count of references aside, which the logger sections change. *)
Definition plain_handler (h : lmk_log_handler) : lmk_log_handler := set_handler_refs h 0.

(** The handler called [name] is [o]; there is none if that is [None]. *)
Definition named (r : registry) (name : string) (o : option lmk_log_handler) : Prop :=
  match o with
  | Some h => exists ha h', g_handlers r !! ha = Some h' /\ h_name h' = Some name /\ plain_handler h' = h
  | None => forall ha h, g_handlers r !! ha = Some h -> h_name h <> Some name
  end.

(** The handlers are the same but for their counts. *)
Definition settings_kept (r r' : registry) : Prop :=
  forall ha, plain_handler <$> g_handlers r' !! ha = plain_handler <$> g_handlers r !! ha.

#[export] Instance settings_kept_preorder : PreOrder settings_kept.
Proof. split; [by intros r ha|]. intros r1 r2 r3 H12 H23 ha. by rewrite H23. Qed.

Lemma plain_name h h' : plain_handler h = plain_handler h' -> h_name h = h_name h'.
Proof. intros He. by injection He. Qed.

Lemma named_kept r r' name o : settings_kept r r' -> named r name o -> named r' name o.
Proof.
  intros Hk. destruct o as [h|]; simpl.
  - intros (ha & h' & Hh & Hn & Hp). pose proof (Hk ha) as He. rewrite Hh in He.
    destruct (g_handlers r' !! ha) as [h2|] eqn:H2; [|done]. apply (inj Some) in He.
    exists ha, h2. split_and!; [done|by rewrite (plain_name h2 h' He)|by rewrite He].
  - intros Hnone ha h Hh. pose proof (Hk ha) as He. rewrite Hh in He.
    destruct (g_handlers r !! ha) as [h0|] eqn:H0; [|done]. apply (inj Some) in He.
    rewrite (plain_name h h0 He). by eapply Hnone.
Qed.

Section sections.
Context (A : allocator).
Hypothesis HA : ample A.
Abbreviation apply_handler := (cfg_apply_handler A).

(** The handler of the name, found or made. *)
Record obtained (name : string) (new : lmk_log_handler) (r : registry) (ha : addr) (h : lmk_log_handler) (r1 : registry) : Prop := {
  ob_ok : registry_ok r1;
  ob_at : g_handlers r1 !! ha = Some h;
  ob_found : r1 = r /\ h_name h = Some name \/
    h = new /\ g_handlers r1 = <[ha := new]> (g_handlers r) /\ g_handlers r !! ha = None /\
      forall a h', g_handlers r !! a = Some h' -> h_name h' <> Some name
}.

Lemma make_handler_obtains n name data r : registry_ok r -> data_named data ->
  exists ha h r1, make_handler (al_object A n r) true true (kind_type (data_kind data)) (type_methods (data_kind data)) name data r =
      Ok (Some ha, r1) /\
    obtained name (new_handler_of name data) r ha h r1.
Proof.
  intros Hok Hd. destruct (am_object A HA n r) as [a Ha].
  destruct (make_handler_spec (al_object A n r) true _ _ name data r Hok (am_fresh A HA n r) eq_refl eq_refl Hd)
    as (p & r' & -> & Hok' & [(b & h & -> & Hh & Hn & ->)|[(Hnone & b & Hb & _ & -> & _ & Hhs & _)|(_ & _ & [[? _]|(b & _ & ? & _)])]]);
    [| |congruence|done].
  - exists b, h, r. split; [done|]. split; [done..|by left].
  - eexists b, _, r'. split; [done|]. split; [done|by rewrite Hhs, lookup_insert_eq|]. right. split_and!; [done..| |done].
    destruct (am_fresh A HA n r b Hb) as [_ Hfr]. by destruct (g_handlers r !! b).
Qed.

(** A section looks its handler up or makes it, then sets it. *)
Lemma apply_handler_obtains ch r : registry_ok r -> complete_section ch = true ->
  exists ha h r1, apply_handler ch r = section_call A ch ha r1 /\ obtained (cfg_handler_name ch) (made_handler ch) r ha h r1.
Proof.
  intros Hok Hwanted. unfold cfg_apply_handler, cfg_make_handler, section_call, data_call, made_handler, made_data, cfg_handler_name, complete_section in *.
  destruct (Z.ltb_spec (ch_type ch) 0); [by rewrite (proj2 (Z.leb_gt 0 (ch_type ch))) in Hwanted by lia|].
  unfold lmk_get_console_log_handler, lmk_get_file_log_handler, lmk_get_syslog_log_handler, lmk_get_socket_log_handler.
  destruct (am_copied A HA) as [Hcn Hcf]. rewrite !Hcn, Hcf, !(am_set_up A HA).
  rewrite (init_done_ok r Hok), !outcome_bind_ok.
  destruct (Z.eqb_spec (ch_type ch) LMK_LOG_HANDLER_TYPE_CONSOLE) as [H0|H0].
  { rewrite H0. cbn [Z.eqb]. destruct (make_handler_obtains "console" "console" ConsoleData r Hok I)
      as (ha & h & r1 & Hm & Hob). cbn [data_kind kind_type] in Hm. rewrite Hm. exists ha, h, r1. by rewrite !outcome_bind_ok. }
  destruct (Z.eqb_spec (ch_type ch) LMK_LOG_HANDLER_TYPE_FILE) as [H1|H1].
  { assert (exists f, non_empty (ch_filename ch) = Some f) as [f Hf].
    { destruct (ch_filename ch); [by rewrite andb_false_r in Hwanted|by eexists]. }
    rewrite Hf, H1. destruct (make_handler_obtains (str (ch_name ch)) (str (ch_name ch))
      (FileData (Some f) LMK_DEFAULT_MAX_FILE_SIZE LMK_DEFAULT_MAX_BACKUP_FILES) r Hok ltac:(by eexists)) as (ha & h & r1 & Hm & Hob).
    cbn [data_kind kind_type] in Hm. rewrite Hm. exists ha, h, r1. rewrite outcome_bind_ok. split; [|done]. cbv beta iota.
    destruct ((0 <? ch_max_file_size ch) || (0 <? ch_max_backup_files ch)); [|done].
    by destruct (handler_set_rotation (Some ha) _ _ r1). }
  destruct (Z.eqb_spec (ch_type ch) LMK_LOG_HANDLER_TYPE_SYSLOG) as [H3|H3].
  { rewrite H3. cbn [Z.eqb]. set (data := SyslogData _ _).
    destruct (make_handler_obtains (str (ch_name ch)) (str (ch_name ch)) data r Hok I) as (ha & h & r1 & Hm & Hob).
    subst data. cbn [data_kind kind_type] in Hm. rewrite Hm. exists ha, h, r1. by rewrite !outcome_bind_ok. }
  destruct (Z.eqb_spec (ch_type ch) LMK_LOG_HANDLER_TYPE_SOCKET) as [H2|H2].
  2: { unfold LMK_LOG_HANDLER_TYPE_CONSOLE, LMK_LOG_HANDLER_TYPE_FILE, LMK_LOG_HANDLER_TYPE_SOCKET,
         LMK_LOG_HANDLER_TYPE_SYSLOG in *. lia. }
  rewrite H2. destruct (make_handler_obtains (str (ch_name ch)) (str (ch_name ch)) (SocketData [] None) r Hok I)
    as (ha & h & r1 & Hm & Hob). cbn [data_kind kind_type] in Hm. rewrite Hm.
  exists ha, h, r1. rewrite outcome_bind_ok. split; [|done]. unfold socket_settings. cbv beta iota.
  destruct (match non_empty (ch_psk ch) with Some _ => _ | None => _ end) as [r2| |]; [|done..]. rewrite !outcome_bind_ok.
  by destruct (loop_ok _ (ch_listeners ch) r2).
Qed.

Lemma named_section ch r name o : registry_ok r -> named r name o ->
  exists r', apply_handler ch r = Ok r' /\ registry_ok r' /\ g_config r' = g_config r /\ named r' name (section_effect name o ch).
Proof.
  intros Hok Ho. destruct (cfg_apply_handler_applied A (am_fresh A HA) (am_copied A HA) ch r Hok) as (r' & He & Hok' & Hc').
  exists r'. split_and!; [done..|]. unfold section_effect. destruct (complete_section ch) eqn:Hw; simpl.
  2: { rewrite (cfg_apply_handler_incomplete A ch r Hok Hw) in He. by simplify_eq. }
  destruct (apply_handler_obtains ch r Hok Hw) as (ha & h & r1 & He1 & [Hok1 Hh Hfound]).
  destruct (section_call_sets A HA ch ha r1 h (ro_init r1 Hok1) Hh) as [Hsec _]; [apply (ro_structs r1 Hok1 ha h Hh)|].
  rewrite He1, Hsec in He. injection He as <-.
  assert (g_handlers (upd_handler ha (with_settings ch h) r1) = <[ha := with_settings ch h]> (g_handlers r) /\
    h_name h = Some (cfg_handler_name ch)) as [Hhs Hn].
  { destruct Hfound as [[-> Hn]|(-> & Hhs & _)]; [done|]. simpl. by rewrite Hhs, insert_insert_eq. }
  unfold named. rewrite Hhs. clear He1. destruct (bool_decide_reflect (cfg_handler_name ch = name)) as [Heq|Hne].
  - assert (default (made_handler ch) o = plain_handler h) as ->.
    { destruct o as [h0|]; simpl in *.
      - destruct Ho as (ha0 & h' & Hh' & Hn' & <-). destruct Hfound as [[-> _]|(_ & _ & _ & Hnone)].
        + assert (ha0 = ha) as -> by (apply (ro_handler_names r Hok ha0 ha h' h Hh' Hh); congruence).
          assert (h' = h) as -> by congruence. done.
        + destruct (Hnone _ _ Hh'). congruence.
      - destruct Hfound as [[-> _]|(-> & _)]; [|done]. destruct (Ho _ _ Hh). congruence. }
    exists ha, (with_settings ch h). rewrite lookup_insert_eq. split_and!; [done|simpl; congruence|done].
  - destruct o as [h0|].
    + destruct Ho as (ha0 & h' & Hh' & Hn' & Hp). exists ha0, h'. rewrite lookup_insert_ne; [done|]. intros <-.
      destruct Hfound as [[-> _]|(_ & _ & Hnone & _)]; congruence.
    + intros a h' [[<- <-]|[_ Hh']]%lookup_insert_Some; [simpl; congruence|by eapply Ho].
Qed.

Lemma named_sections chs r name o : registry_ok r -> named r name o ->
  exists r', loop_ok apply_handler chs r = Ok r' /\ registry_ok r' /\ named r' name (foldl (section_effect name) o chs).
Proof.
  revert r o. induction chs as [|ch chs IH]; intros r o Hok Ho; cbn [loop_ok foldl]; [by exists r|].
  destruct (named_section ch r name o Hok Ho) as (r1 & -> & Hok1 & _ & Ho1). rewrite outcome_bind_ok. by apply IH.
Qed.

(** The logger sections change the counts only. *)
Lemma apply_logger_keeps cl r : g_initialized r = true -> ensures (cfg_apply_logger A cl r)
  (fun r' => g_initialized r' = true /\ settings_kept r r').
Proof.
  intros Hi. set (Q := fun r' : registry => g_initialized r' = true /\ settings_kept r r').
  assert (forall a h n r', Q r' -> g_handlers r' !! a = Some h -> Q (upd_handler a (set_handler_refs h n) r')) as Hset.
  { intros a h n r' [Hi' Hk] Hh. split; [done|]. intros b. rewrite <- (Hk b). simpl.
    destruct (decide (a = b)) as [<-|Hne]; [by rewrite lookup_insert_eq, Hh|by rewrite lookup_insert_ne]. }
  assert (forall {B} (f : registry -> outcome B) r' P, Q r' -> ensures (f r') P -> ensures (init_done r' ≫= f) P) as Hinit.
  { intros B f r' P [Hi' _] Hf. by rewrite init_done_initialized, outcome_bind_ok. }
  unfold cfg_apply_logger. apply (ensures_bind _ _ (fun x => Q x.2)).
  - apply Hinit; [by split|]. apply ensures_skip. intros found. by run_outcome.
  - intros [[la|] r1] HQ; [|by apply ensures_ok]. apply (ensures_bind _ _ Q).
    + destruct (negb _); [|by apply ensures_ok]. apply Hinit; [done|]. by run_outcome.
    + intros r2 HQ2. apply ensures_loop; [done|]. intros name r3 HQ3. apply ensures_skip.
      intros [ha|]; [|by apply ensures_ok]. apply (ensures_bind _ _ (fun x => Q x.2)); [|by intros [res r4] HQ4; apply ensures_ok].
      apply Hinit; [done|]. run_outcome; simpl; try done. by apply Hset.
Qed.

Lemma cfg_apply_named cfg r name o : registry_ok r -> named r name o ->
  ensures (lmk_cfg_apply A cfg r) (fun r' => named r' name (foldl (section_effect name) o (cf_handlers cfg))).
Proof.
  intros Hok Ho. destruct (ro_config r Hok) as [c Hc]. unfold lmk_cfg_apply. rewrite Hc. cbn [deref]. rewrite outcome_bind_ok.
  apply registry_ok_config with (c := applied_config cfg) in Hok.
  destruct (named_sections (cf_handlers cfg) _ name o Hok Ho) as (r1 & He1 & Hok1 & Ho1). unfold applied_config in He1.
  rewrite He1, outcome_bind_ok. intros r' Hr'.
  assert (g_initialized r' = true /\ settings_kept r1 r') as [_ Hk]; [|by eapply named_kept].
  revert r' Hr'. apply (ensures_loop _ _ _ (fun r' => g_initialized r' = true /\ settings_kept r1 r')).
  - split; [apply Hok1|done].
  - intros cl r2 [Hi2 Hk2] r3 Hr3. destruct (apply_logger_keeps cl r2 Hi2 r3 Hr3) as [Hi3 Hk3].
    split; [done|]. by transitivity r2.
Qed.
End sections.

(** ** Several sections of one name, and one *)

Definition sections_of (name : string) (chs : list lmk_cfg_handler) : list lmk_cfg_handler :=
  filter (fun ch => complete_section ch = true /\ cfg_handler_name ch = name) chs.

Lemma section_effects name o chs :
  foldl (section_effect name) o chs = foldl (fun o ch => Some (with_settings ch (default (made_handler ch) o))) o (sections_of name chs).
Proof.
  unfold sections_of. revert o. induction chs as [|ch chs IH]; intros o; [done|]. cbn [foldl]. rewrite IH. unfold section_effect.
  destruct (complete_section ch) eqn:Hw, (bool_decide_reflect (cfg_handler_name ch = name)) as [Hn|Hn]; simpl.
  - by rewrite filter_cons_True.
  - by rewrite filter_cons_False by tauto.
  - by rewrite filter_cons_False by (intros [? _]; congruence).
  - by rewrite filter_cons_False by tauto.
Qed.

(** The listeners a section names. *)
Definition section_listeners (ch : lmk_cfg_handler) : list (string * Z) :=
  map (fun l => (str (cl_host l), cl_port l)) (filter (fun l => 0 < cl_port l) (ch_listeners ch)).

Lemma listeners_appended ls listeners psk :
  foldl (fun d l => listener_data l d) (SocketData listeners psk) ls =
    SocketData (listeners ++ map (fun l => (str (cl_host l), cl_port l)) (filter (fun l => 0 < cl_port l) ls)) psk.
Proof.
  revert listeners. induction ls as [|l ls IH]; intros listeners; [by rewrite app_nil_r|]. cbn [foldl listener_data].
  destruct (Z.leb_spec (cl_port l) 0).
  - by rewrite IH, filter_cons_False by lia.
  - rewrite IH, filter_cons_True by lia. simpl. by rewrite <- app_assoc.
Qed.

Lemma socket_section_data ch listeners psk : ch_type ch = LMK_LOG_HANDLER_TYPE_SOCKET ->
  section_data ch (SocketData listeners psk) = SocketData (listeners ++ section_listeners ch)
    (match non_empty (ch_psk ch) with Some p => Some p | None => psk end).
Proof.
  intros Ht. unfold section_data. rewrite Ht. cbn [Z.eqb LMK_LOG_HANDLER_TYPE_SOCKET LMK_LOG_HANDLER_TYPE_FILE Pos.eqb].
  destruct (non_empty (ch_psk ch)); apply listeners_appended.
Qed.

(** ** The properties *)

(** C12. What the handler sections come to: when memory suffices and every handler
    starts, applying a configuration to a registry leaves under every name the
    handler that was there before, or none, changed by the file's complete
    sections of that name in their order - the first makes it if need be, each
    sets its level, format and the settings of its type -, and nothing else
    about the handlers but the reference counts changes. *)
Theorem handler_sections_set_handlers A cfg r : ample A -> registry_ok r ->
  exists r', lmk_cfg_apply A cfg r = Ok r' /\ registry_ok r' /\
    forall name o, named r name o -> named r' name (foldl (section_effect name) o (cf_handlers cfg)).
Proof.
  intros HA Hok. destruct (lmk_cfg_apply_applied A (am_fresh A HA) (am_copied A HA) cfg r Hok) as (r' & He & Hok' & _).
  exists r'. split; [done|]. split; [done|]. intros name o Ho. by apply (cfg_apply_named A HA cfg r name o Hok Ho).
Qed.

Section load.
Context (A : allocator) (files : string -> option text) (env_path : option string).
Hypothesis HA : ample A.
Abbreviation auto_path := (default "logmoko.conf"%string env_path).

Lemma parse_and_apply_named path content cfg r : files path = Some content ->
  lmk_cfg_parse_file (Some content) = Some cfg -> registry_ok r ->
  exists r', lmk_parse_and_apply A files path r = Ok (LMK_E_OK, r') /\ registry_ok r' /\
    forall name o, named r name o -> named r' name (foldl (section_effect name) o (cf_handlers cfg)).
Proof.
  intros Hf Hp Hok. unfold lmk_parse_and_apply. rewrite Hf, Hp.
  destruct (lmk_cfg_apply_applied A (am_fresh A HA) (am_copied A HA) cfg r Hok) as (r' & He & Hok' & _).
  exists r'. rewrite He, outcome_bind_ok. split_and!; [done..|]. intros name o Ho.
  by apply (cfg_apply_named A HA cfg r name o Hok Ho).
Qed.

Lemma init_auto_named content cfg name : files auto_path = Some content -> lmk_cfg_parse_file (Some content) = Some cfg ->
  ensures (lmk_init_auto A files env_path true registry_start)
    (fun r => named r name (foldl (section_effect name) None (cf_handlers cfg))).
Proof.
  intros Hf Hp. unfold lmk_init_auto, lmk_init, lmk_apply_auto_config, registry_start.
  cbn [negb g_initialized g_loggers g_handlers g_calls].
  destruct (parse_and_apply_named auto_path content cfg _ Hf Hp (registry_ok_empty (mk_config 0 0) [])) as (r1 & -> & _ & Hn).
  rewrite !outcome_bind_ok. apply ensures_deref. intros c _. apply ensures_ok. by apply (Hn name None).
Qed.

(** Loading the file the automatic configuration reads applies it twice. *)
Lemma load_twice path content cfg : path = None \/ path = Some auto_path ->
  files auto_path = Some content -> lmk_cfg_parse_file (Some content) = Some cfg ->
  exists r, lmk_init_from_file A files env_path true path registry_start = Ok (LMK_E_OK, r) /\
    forall name, named r name (foldl (section_effect name) None (cf_handlers cfg ++ cf_handlers cfg)).
Proof.
  intros Hpath Hf Hp. unfold lmk_init_from_file, lmk_apply_auto_config.
  destruct (lmk_init_auto_ok A (am_fresh A HA) (am_copied A HA) files env_path registry_start) as (r & c & He & Hok & _); [done..|].
  pose proof (fun name => init_auto_named content cfg name Hf Hp r He) as Hn. rewrite He, outcome_bind_ok.
  destruct (parse_and_apply_named auto_path content cfg r Hf Hp Hok) as (r2 & He2 & _ & Hn2).
  exists r2. split; [by destruct Hpath as [->| ->]|]. intros name. rewrite foldl_app. apply Hn2, Hn.
Qed.
End load.

(** C36. The documented ways to load the default configuration, [lmk_init_from_file]
    on NULL or on that file's own name, apply it twice - [lmk_init] has applied
    it already - and the second pass attaches every listener of a socket
    section again: when memory suffices and every handler starts, a handler that
    one section describes ends with every address of that section twice in its
    list. *)
Theorem loading_default_file_doubles_listeners A files env_path path content cfg : ample A ->
  path = None \/ path = Some (default "logmoko.conf"%string env_path) ->
  files (default "logmoko.conf"%string env_path) = Some content -> lmk_cfg_parse_file (Some content) = Some cfg ->
  exists r, lmk_init_from_file A files env_path true path registry_start = Ok (LMK_E_OK, r) /\
    forall ch, sections_of (cfg_handler_name ch) (cf_handlers cfg) = [ch] -> ch_type ch = LMK_LOG_HANDLER_TYPE_SOCKET ->
      exists ha h psk, g_handlers r !! ha = Some h /\ h_name h = Some (cfg_handler_name ch) /\
        h_data h = SocketData (section_listeners ch ++ section_listeners ch) psk.
Proof.
  intros HA Hpath Hf Hp.
  destruct (load_twice A files env_path HA path content cfg Hpath Hf Hp) as (r & He & Hload).
  exists r. split; [exact He|]. intros ch Hone Ht. pose proof (Hload (cfg_handler_name ch)) as Hn. rewrite section_effects in Hn.
  unfold sections_of in *. rewrite filter_app, Hone in Hn. destruct Hn as (ha & h & Hh & Hname & Hplain).
  apply (f_equal h_data) in Hplain. simpl in Hplain. unfold made_data in Hplain. rewrite Ht in Hplain.
  cbn [Z.eqb Pos.eqb LMK_LOG_HANDLER_TYPE_SOCKET LMK_LOG_HANDLER_TYPE_FILE LMK_LOG_HANDLER_TYPE_CONSOLE LMK_LOG_HANDLER_TYPE_SYSLOG] in Hplain.
  rewrite !socket_section_data in Hplain by done. by do 3 eexists.
Qed.

(** ** The configuration of the examples *)

(** [examples/logmoko.conf]. *)
Definition example_conf : text := concat (map (fun l => chars l ++ [NEWLINE])
  ["[global]"; "log_buffer_size = 2048"; "ring_buffer_size = 1024"; "";
   "[handler:console]"; "type  = console"; "level = trace"; "format = default"; "";
   "[handler:file]"; "type             = file"; "level            = trace"; "filename         = app.log";
   "max_file_size    = 104857600"; "max_backup_files = 10"; "format = default"; "";
   "[handler:remote]"; "type     = socket"; "level    = trace"; "listener = 127.0.0.1:9000"; "format   = json";
   "# psk    = my-secret-passphrase"; "";
   "[handler:syslog]"; "type     = syslog"; "level    = info"; "ident    = myapp"; "facility = daemon"; "";
   "[logger:app]"; "level    = info"; "handlers = console, file, remote, syslog"; ""]%string).

Definition example_cfg : lmk_cfg := default cfg_start (lmk_cfg_parse_file (Some example_conf)).

Definition example_section (i : nat) : lmk_cfg_handler := nth i (cf_handlers example_cfg) (new_handler []).

(** The handler its section [file] makes. *)
Definition example_file_handler : lmk_log_handler :=
  mk_handler LMK_LOG_HANDLER_TYPE_FILE (Some "file"%string) LMK_LOG_LEVEL_TRACE 0 true (lmk_get_format_fn (Some "default"%string))
    (type_methods FileKind) (FileData (Some "app.log"%string) 104857600 10).

Lemma handler_sections_set_handlers_witness :
  exists r', lmk_cfg_apply good_memory example_cfg empty_registry = Ok r' /\
    named r' "file" (Some example_file_handler) /\ named r' "nowhere" None.
Proof.
  destruct (handler_sections_set_handlers good_memory example_cfg empty_registry) as (r' & He & _ & Hn).
  - apply good_memory_ample.
  - apply registry_ok_empty.
  - exists r'. split; [exact He|].
    split; [exact (Hn "file"%string None ltac:(by intros ? ?))|exact (Hn "nowhere"%string None ltac:(by intros ? ?))].
Defined.

(** With this file as [logmoko.conf], the one listener is attached twice. *)
Lemma loading_default_file_doubles_listeners_witness :
  exists r ha h psk, lmk_init_from_file good_memory (fun _ => Some example_conf) None true None registry_start = Ok (LMK_E_OK, r) /\
    g_handlers r !! ha = Some h /\ h_name h = Some "remote"%string /\
    h_data h = SocketData [("127.0.0.1"%string, 9000); ("127.0.0.1"%string, 9000)] psk.
Proof.
  destruct (loading_default_file_doubles_listeners good_memory (fun _ => Some example_conf) None None example_conf example_cfg)
    as (r & He & Hall).
  - apply good_memory_ample.
  - by left.
  - reflexivity.
  - vm_compute. reflexivity.
  - destruct (Hall (example_section 2)) as (ha & h & psk & Hh & Hn & Hd); [vm_compute; reflexivity..|].
    exists r, ha, h, psk. split; [exact He|]. split; [exact Hh|]. split; [exact Hn|exact Hd].
Defined.
