(* ===== verification/ConfigRoundtrip.v ===== *)
(** The configuration file format round trips: [render] writes a configuration
    the way the manual shows configuration files, and the parser of
    [ConfigFile.v] reads every renderable configuration back unchanged.  So the
    format can express every such configuration, the keys mean what their names
    say, and no setting interferes with another. *)
From S2P Require Import Prelude Types Format FileHandler SyslogHandler Registry ConfigFile ConfigTheorems.
Local Open Scope Z_scope.

(** ** Numbers *)

Section numbers.
Lemma digits_pretty_go x s : digits 0 (chars (pretty_N_go x s)) = digits (Z.of_N x) (chars s).
Proof.
  revert s. induction (N.lt_wf_0 x) as [x _ IH]; intros s.
  assert (x = 0 \/ 0 < x)%N as [->|Hx] by lia; [by rewrite pretty_N_go_0|].
  rewrite pretty_N_go_step, IH by (done || by apply N.div_lt).
  pose proof (N.mod_lt x 10 ltac:(done)) as Hm. pose proof (N.div_mod x 10 ltac:(done)) as Hd.
  assert (digit (pretty_N_char (x `mod` 10)) = Some (Z.of_N (x `mod` 10))) as Hdig.
  { destruct (x `mod` 10)%N as [|p]; [done|]. do 4 (destruct p as [p|p|]; try done; try lia). }
  change (chars (String ?c s)) with (c :: chars s). cbn [digits]. rewrite Hdig. f_equal. lia.
Qed.

Definition is_digit (c : ascii) : Prop := exists d, digit c = Some d.

Lemma digit_not_space c : is_digit c -> is_space c = false.
Proof.
  intros [d Hd]. unfold digit in Hd. destruct (_ && _) eqn:Hr in Hd; [|done].
  apply andb_true_iff in Hr as [H1%Z.leb_le H2%Z.leb_le]. unfold is_space. cbv zeta.
  apply orb_false_intro; [apply N.eqb_neq; lia|apply andb_false_intro2, N.leb_gt; lia].
Qed.

Lemma digits_pretty_digits x s : Forall is_digit (chars s) -> Forall is_digit (chars (pretty_N_go x s)).
Proof.
  revert s. induction (N.lt_wf_0 x) as [x _ IH]; intros s Hs.
  assert (x = 0 \/ 0 < x)%N as [->|Hx] by lia; [by rewrite pretty_N_go_0|].
  rewrite pretty_N_go_step by done. apply IH; [by apply N.div_lt|]. constructor; [|done].
  unfold pretty_N_char. repeat case_match; by eexists.
Qed.

Lemma length_pretty_go n x s : (x < 10 ^ N.of_nat n)%N ->
  (length (chars (pretty_N_go x s)) <= n + length (chars s))%nat.
Proof.
  revert x s. induction n as [|n IH]; intros x s Hx.
  { assert (x = 0)%N as -> by (simpl in Hx; lia). by rewrite pretty_N_go_0. }
  assert (x = 0 \/ 0 < x)%N as [->|Hpos] by lia; [rewrite pretty_N_go_0; lia|].
  rewrite pretty_N_go_step by done. etrans.
  - apply IH. apply N.Div0.div_lt_upper_bound. rewrite Nat2N.inj_succ, N.pow_succ_r' in Hx. lia.
  - change (chars (String ?c s)) with (c :: chars s). simpl. lia.
Qed.

(** What [%d] prints. *)
Definition number_char (c : ascii) : Prop := is_digit c \/ c = "-"%char.

Lemma fmt_d_chars z : Forall number_char (fmt_d z) /\ fmt_d z <> [].
Proof.
  assert (forall p, Forall is_digit (chars (pretty_N_go (Npos p) ""))) as Hp by (intros p; by apply digits_pretty_digits).
  assert (forall p, chars (pretty_N_go (Npos p) "") <> []) as Hne.
  { intros p Hnil. apply (f_equal (digits 0)) in Hnil. rewrite digits_pretty_go in Hnil. by destruct p. }
  destruct z as [|p|p].
  - split; [|done]. constructor; [left; by eexists|constructor].
  - split; [|apply Hne]. eapply Forall_impl; [apply Hp|]. by left.
  - split; [|done]. constructor; [by right|]. eapply Forall_impl; [apply Hp|]. by left.
Qed.

Lemma length_fmt_d z : - 2 ^ 63 <= z < 2 ^ 63 -> (length (fmt_d z) <= 20)%nat.
Proof.
  intros Hz. assert (forall p, (N.pos p < 10 ^ 19)%N -> (length (chars (pretty_N_go (Npos p) "")) <= 19)%nat) as Hlen.
  { intros p Hp. etrans; [apply (length_pretty_go 19); lia|]. simpl. lia. }
  destruct z as [|p|p]; [simpl; lia| |].
  - transitivity 19%nat; [|lia]. apply Hlen. lia.
  - change (fmt_d (Z.neg p)) with ("-"%char :: chars (pretty_N_go (Npos p) "")). simpl. specialize (Hlen p). lia.
Qed.

Lemma atol_fmt_d z : - 2 ^ 63 <= z < 2 ^ 63 -> atol (fmt_d z) = z.
Proof.
  intros Hz. unfold atol.
  assert (forall p, digits 0 (chars (pretty_N_go (Npos p) "")) = Z.pos p) as Hd by (intros p; by rewrite digits_pretty_go).
  assert (forall p, Forall is_digit (chars (pretty_N_go (Npos p) ""))) as Hp by (intros p; by apply digits_pretty_digits).
  destruct z as [|p|p]; [done| |].
  - change (fmt_d (Z.pos p)) with (chars (pretty_N_go (Npos p) "")). specialize (Hd p). specialize (Hp p).
    destruct (chars (pretty_N_go (Npos p) "")) as [|c t]; [simpl in Hd; lia|].
    apply Forall_cons in Hp as [[d Hc] _]. cbn [skip_spaces]. unfold digit in Hc.
    destruct ((48 <=? Z.of_N (N_of_ascii c)) && (Z.of_N (N_of_ascii c) <=? 57)) eqn:Hr; [|done].
    rewrite (digit_not_space c) by (by exists (Z.of_N (N_of_ascii c) - 48); unfold digit; rewrite Hr).
    destruct (Ascii.eqb_spec c "-"%char) as [->|_]; [done|]. destruct (Ascii.eqb_spec c "+"%char) as [->|_]; [done|].
    rewrite Hd. lia.
  - change (fmt_d (Z.neg p)) with ("-"%char :: chars (pretty_N_go (Npos p) "")). simpl. rewrite Hd. lia.
Qed.

Lemma atoi_fmt_d z : - 2 ^ 31 <= z < 2 ^ 31 -> atoi (fmt_d z) = z.
Proof. intros Hz. unfold atoi. rewrite atol_fmt_d by lia. apply s32_small. lia. Qed.
End numbers.

(** ** Trimming *)

(** Text without blanks at its ends. *)
Definition tight (s : text) : Prop :=
  (forall c, head s = Some c -> is_space c = false) /\ (forall c, last s = Some c -> is_space c = false).

Lemma skip_spaces_app pre s : spaces pre -> (forall c, head s = Some c -> is_space c = false) ->
  skip_spaces (pre ++ s) = s.
Proof.
  intros Hp Hs. induction Hp as [|c pre Hc _ IH]; simpl.
  - destruct s as [|c s]; [done|]. simpl. by rewrite (Hs c eq_refl).
  - by rewrite Hc.
Qed.

Lemma trim_tight pre s post : spaces pre -> spaces post -> tight s -> lmk_cfg_trim (pre ++ s ++ post) = s.
Proof.
  intros Hpre Hpost [Hhead Hlast]. unfold lmk_cfg_trim. destruct s as [|c s].
  - simpl. rewrite <- (app_nil_r (pre ++ post)), skip_spaces_app; [done|by apply Forall_app_2|done].
  - rewrite skip_spaces_app by done. cbn [app]. change (c :: s ++ post) with ((c :: s) ++ post).
    rewrite rev_app_distr, (skip_spaces_app (rev post)).
    + apply rev_involutive.
    + unfold spaces. rewrite rev_is_reverse. by apply Forall_reverse.
    + intros d. rewrite rev_is_reverse, head_reverse. apply Hlast.
Qed.

Lemma trim_id s : tight s -> lmk_cfg_trim s = s.
Proof. intros Hs. rewrite <- (app_nil_r s) at 1. exact (trim_tight [] s [] (Forall_nil_2 _) (Forall_nil_2 _) Hs). Qed.

(** ** Writing a configuration *)

Definition cfg_line (kv : string * text) : text := chars kv.1 ++ chars " = " ++ kv.2 ++ [NEWLINE].
Definition cfg_section (name : text) : text := "["%char :: name ++ "]"%char :: [NEWLINE].

Definition level_word (level : Z) : text := if level =? -1 then [] else chars (lmk_get_log_level_str level).
Definition type_word (type : Z) : text := if type =? -1 then [] else chars (lmk_get_log_handler_type_str type).

Definition handler_keys (h : lmk_cfg_handler) : list (string * text) :=
  [("type"%string, type_word (ch_type h)); ("level"%string, level_word (ch_level h));
   ("filename"%string, ch_filename h); ("ident"%string, ch_ident h); ("facility"%string, ch_facility h);
   ("format"%string, ch_format h); ("max_file_size"%string, fmt_d (ch_max_file_size h));
   ("max_backup_files"%string, fmt_d (ch_max_backup_files h)); ("psk"%string, ch_psk h)] ++
  map (fun l => ("listener"%string, cl_host l ++ ":"%char :: fmt_d (cl_port l))) (ch_listeners h).

Definition logger_keys (l : lmk_cfg_logger) : list (string * text) :=
  ("level"%string, level_word (lg_level l)) :: map (fun n => ("handlers"%string, n)) (lg_handler_names l).

Definition handler_lines (h : lmk_cfg_handler) : list text :=
  cfg_section (chars "handler:" ++ ch_name h) :: map cfg_line (handler_keys h).
Definition logger_lines (l : lmk_cfg_logger) : list text :=
  cfg_section (chars "logger:" ++ lg_name l) :: map cfg_line (logger_keys l).

Definition global_keys (cfg : lmk_cfg) : list (string * text) :=
  [("log_buffer_size"%string, fmt_d (cf_log_buffer_size cfg)); ("ring_buffer_size"%string, fmt_d (cf_ring_buffer_size cfg))].

Definition cfg_lines (cfg : lmk_cfg) : list text :=
  cfg_section (chars "global") :: map cfg_line (global_keys cfg) ++
  concat (map handler_lines (cf_handlers cfg)) ++ concat (map logger_lines (cf_loggers cfg)).

Definition render (cfg : lmk_cfg) : text := concat (cfg_lines cfg).

(** ** What can be written *)

(** A string for an array of [size] bytes that survives trimming and line splitting. *)
Record plain (size : nat) (s : text) : Prop := {
  pl_fits : (length s < size)%nat;
  pl_tight : tight s;
  pl_chars : (NUL ∉ s) /\ (NEWLINE ∉ s)
}.

Definition int_range (z : Z) : Prop := - 2 ^ 31 <= z < 2 ^ 31.

(** A name also survives the brackets of a section line. *)
Definition plain_name (s : text) : Prop := plain 64 s /\ s <> [] /\ ("]"%char ∉ s).

Record listener_plain (l : lmk_cfg_listener) : Prop := {
  lp_host : plain 64 (cl_host l);
  lp_port : int_range (cl_port l)
}.

Record handler_plain (h : lmk_cfg_handler) : Prop := {
  hp_name : plain_name (ch_name h);
  hp_type : -1 <= ch_type h <= LMK_LOG_HANDLER_TYPE_SYSLOG;
  hp_level : cfg_level (ch_level h);
  hp_filename : plain 256 (ch_filename h);
  hp_ident : plain 64 (ch_ident h);
  hp_facility : plain 32 (ch_facility h);
  hp_format : plain 32 (ch_format h);
  hp_psk : plain 256 (ch_psk h);
  hp_size : - 2 ^ 63 <= ch_max_file_size h < 2 ^ 63;
  hp_files : int_range (ch_max_backup_files h);
  hp_listeners : (length (ch_listeners h) <= LMK_CFG_MAX_LISTENERS)%nat /\ Forall listener_plain (ch_listeners h)
}.

Record logger_plain (l : lmk_cfg_logger) : Prop := {
  gp_name : plain_name (lg_name l);
  gp_level : cfg_level (lg_level l);
  gp_handlers : (length (lg_handler_names l) <= LMK_CFG_MAX_HANDLERS_PER_LOGGER)%nat /\
    Forall (fun n => plain 64 n /\ n <> [] /\ (","%char ∉ n)) (lg_handler_names l)
}.

Record cfg_plain (cfg : lmk_cfg) : Prop := {
  cp_sizes : int_range (cf_log_buffer_size cfg) /\ int_range (cf_ring_buffer_size cfg);
  cp_handlers : (length (cf_handlers cfg) <= LMK_CFG_MAX_HANDLERS)%nat /\ Forall handler_plain (cf_handlers cfg);
  cp_loggers : (length (cf_loggers cfg) <= LMK_CFG_MAX_LOGGERS)%nat /\ Forall logger_plain (cf_loggers cfg)
}.

(** ** Reading one line *)

(** A word that can stand before the [=]. *)
Definition key_word (k : text) : Prop :=
  exists c k', k = c :: k' /\ tight k /\ (NUL ∉ k) /\ ("="%char ∉ k) /\
    c <> "#"%char /\ c <> ";"%char /\ c <> "["%char.

Lemma split_at_app c a b : c ∉ a -> split_at c (a ++ c :: b) = Some (a, b).
Proof.
  induction a as [|d a IH]; intros Hn; simpl; [by rewrite Ascii.eqb_refl|].
  destruct (Ascii.eqb_spec d c) as [->|_]; [by destruct Hn; left|]. rewrite IH; [done|]. by intros ?; apply Hn; right.
Qed.

Lemma split_at_last_app c a b : c ∉ b -> split_at_last c (a ++ c :: b) = Some (a, b).
Proof.
  intros Hn. unfold split_at_last. rewrite rev_app_distr. simpl. rewrite <- app_assoc. simpl.
  rewrite split_at_app by (by rewrite rev_is_reverse, elem_of_reverse). by rewrite !rev_involutive.
Qed.

Lemma tight_app a b : a <> [] -> b <> [] -> (forall c, head a = Some c -> is_space c = false) ->
  (forall c, last b = Some c -> is_space c = false) -> tight (a ++ b).
Proof.
  intros Ha Hb Hh Hl. split; intros c.
  - destruct a; [done|]. apply Hh.
  - destruct b as [|d b _] using rev_ind; [done|]. rewrite app_assoc, last_snoc. rewrite last_snoc in Hl. apply Hl.
Qed.

Lemma parse_cfg_line st k v : key_word (chars k) -> tight v -> NUL ∉ v ->
  parse_line st (cfg_line (k, v)) = parse_key (chars k) v st.
Proof.
  intros (c & k' & Hk & Htight & Hnul & Heq & Hh & Hs & Hb) Hv Hnv. unfold parse_line, cfg_line. cbn [fst snd].
  rewrite cstr_id by (rewrite !not_elem_of_app; split_and!; try done; by apply (bool_decide_unpack _); vm_compute).
  assert (exists w post, chars k ++ chars " = " ++ v ++ [NEWLINE] = [] ++ ((chars k ++ chars " ") ++ "="%char :: w) ++ post /\
    spaces post /\ tight ((chars k ++ chars " ") ++ "="%char :: w) /\ lmk_cfg_trim w = v) as (w & post & -> & Hpost & Hline & Hw).
  { assert (forall d, head (chars k ++ chars " ") = Some d -> is_space d = false) as Hhead
      by (intros d; rewrite Hk; simpl; intros [= <-]; apply (proj1 Htight); by rewrite Hk).
    assert (chars k ++ chars " " <> []) as Hne by (by rewrite Hk).
    destruct v as [|d v].
    - exists [], (chars " " ++ [NEWLINE]). split_and!; [by rewrite <- !app_assoc|by repeat constructor| |done].
      apply tight_app; [done..|]. by intros d [= <-].
    - exists (" "%char :: d :: v), [NEWLINE]. split_and!; [by rewrite <- !app_assoc|by repeat constructor| |].
      + apply tight_app; [done..|]. intros e He. by apply (proj2 Hv).
      + rewrite <- (app_nil_r (d :: v)) at 1. by apply (trim_tight (chars " ") (d :: v) []); [repeat constructor|constructor|]. }
  rewrite trim_tight by (done || constructor). rewrite Hk at 1. cbn [app].
  destruct (Ascii.eqb_spec c "#"%char) as [|_]; [done|]. destruct (Ascii.eqb_spec c ";"%char) as [|_]; [done|].
  destruct (Ascii.eqb_spec c "["%char) as [|_]; [done|]. cbn [orb].
  rewrite split_at_app by (rewrite not_elem_of_app; split; [done|apply (bool_decide_unpack _); by vm_compute]).
  rewrite Hw. f_equal. change (chars k ++ chars " ") with ([] ++ chars k ++ chars " ").
  by apply trim_tight; [constructor|repeat constructor|].
Qed.

(** A section line, trimmed and cut at the bracket. *)
Lemma parse_cfg_section st name : tight name -> NUL ∉ name -> ("]"%char ∉ name) ->
  exists before after, parse_line st (cfg_section name) = parse_section ("["%char :: name ++ "]"%char :: after) st /\
    split_at "]"%char ("["%char :: name ++ "]"%char :: after) = Some (before, after) /\
    lmk_cfg_trim (drop 1 before) = name.
Proof.
  intros Ht Hn Hb. exists ("["%char :: name), []. split_and!.
  - unfold parse_line, cfg_section.
    rewrite cstr_id by (apply not_elem_of_cons; split; [done|]; rewrite not_elem_of_app; split; [done|];
      apply (bool_decide_unpack _); by vm_compute).
    change ("["%char :: name ++ "]"%char :: [NEWLINE]) with ([] ++ "["%char :: name ++ chars "]" ++ [NEWLINE]).
    rewrite (app_assoc name). change ("["%char :: (name ++ chars "]") ++ [NEWLINE]) with (("["%char :: name ++ chars "]") ++ [NEWLINE]).
    rewrite trim_tight; [done|constructor|by repeat constructor|].
    change ("["%char :: name ++ chars "]") with (("["%char :: name) ++ chars "]").
    apply tight_app; [done|done|by intros c [= <-]|by intros c [= <-]].
  - change ("["%char :: name ++ ["]"%char]) with (("["%char :: name) ++ "]"%char :: []). apply split_at_app.
    by apply not_elem_of_cons.
  - simpl. by apply trim_id.
Qed.

(** ** Splitting the file into lines *)

Definition file_line (l : text) : Prop :=
  exists body, l = body ++ [NEWLINE] /\ (NEWLINE ∉ body) /\ (length body <= LMK_CFG_LINE_MAX - 2)%nat.

Lemma fgets_line cur body rest : NEWLINE ∉ body -> (length cur + length body <= LMK_CFG_LINE_MAX - 2)%nat ->
  fgets_lines cur (body ++ NEWLINE :: rest) = (rev cur ++ body ++ [NEWLINE]) :: fgets_lines [] rest.
Proof.
  revert cur. induction body as [|c body IH]; intros cur Hn Hlen; [done|].
  apply not_elem_of_cons in Hn as [Hc Hn]. cbn [app fgets_lines]. simpl length in Hlen.
  destruct (Ascii.eqb_spec c NEWLINE) as [->|_]; [done|].
  destruct (Nat.eqb_spec (length cur) (LMK_CFG_LINE_MAX - 2)) as [Heq|_]; [lia|]. cbn [orb].
  rewrite IH by (done || (cbn [length]; lia)). simpl. by rewrite <- app_assoc.
Qed.

Lemma fgets_lines_concat lines : Forall file_line lines -> fgets_lines [] (concat lines) = lines.
Proof.
  induction 1 as [|l lines (body & -> & Hn & Hlen) _ IH]; [done|]. simpl. rewrite <- app_assoc. simpl.
  rewrite fgets_line by done. by rewrite IH.
Qed.

Lemma cfg_line_ok k v : NEWLINE ∉ chars k -> NEWLINE ∉ v -> (length (chars k) + length v <= 500)%nat ->
  file_line (cfg_line (k, v)).
Proof.
  intros Hk Hv Hlen. exists (chars k ++ chars " = " ++ v). unfold cfg_line. cbn [fst snd].
  rewrite <- !app_assoc, !not_elem_of_app, !length_app. split_and!; try done.
  - apply (bool_decide_unpack _). by vm_compute.
  - unfold LMK_CFG_LINE_MAX. simpl. lia.
Qed.

Lemma cfg_section_ok name : NEWLINE ∉ name -> (length name <= 500)%nat -> file_line (cfg_section name).
Proof.
  intros Hn Hlen. exists ("["%char :: name ++ ["]"%char]). unfold cfg_section. split_and!.
  - simpl. by rewrite <- app_assoc.
  - apply not_elem_of_cons. split; [done|]. rewrite not_elem_of_app. split; [done|].
    apply (bool_decide_unpack _). by vm_compute.
  - simpl. rewrite length_app. unfold LMK_CFG_LINE_MAX. simpl. lia.
Qed.

(** ** Reading a section's keys *)

(** A key and a value that reach [parse_key] as they are. *)
Definition key_value (kv : string * text) : Prop := key_word (chars kv.1) /\ tight kv.2 /\ (NUL ∉ kv.2).

Lemma alter_last {A} (f : A -> A) l x : alter f (length l) (l ++ [x]) = l ++ [f x].
Proof. induction l as [|y l IH]; [done|]. simpl. f_equal. exact IH. Qed.

Lemma parse_handler_keys kvs lb rb hs h ls : Forall key_value kvs ->
  foldl parse_line (mk_parse_state (mk_cfg lb rb (hs ++ [h]) ls) LMK_SEC_HANDLER (Some (length hs)) None) (map cfg_line kvs) =
  mk_parse_state (mk_cfg lb rb (hs ++ [foldl (fun h kv => parse_handler_key (chars kv.1) kv.2 h) h kvs]) ls)
    LMK_SEC_HANDLER (Some (length hs)) None.
Proof.
  intros Hkvs. revert h. induction Hkvs as [|[k v] kvs (Hk & Hv & Hn) _ IH]; intros h; [done|]. cbn [map foldl].
  rewrite parse_cfg_line by done. unfold parse_key, set_handlers.
  cbn [ps_section ps_cur_handler ps_cur_logger ps_cfg cf_handlers cf_loggers cf_log_buffer_size cf_ring_buffer_size fst snd].
  rewrite alter_last. apply IH.
Qed.

Lemma parse_logger_keys kvs lb rb hs l ls : Forall key_value kvs ->
  foldl parse_line (mk_parse_state (mk_cfg lb rb hs (ls ++ [l])) LMK_SEC_LOGGER None (Some (length ls))) (map cfg_line kvs) =
  mk_parse_state (mk_cfg lb rb hs (ls ++ [foldl (fun l kv => parse_logger_key (chars kv.1) kv.2 l) l kvs]))
    LMK_SEC_LOGGER None (Some (length ls)).
Proof.
  intros Hkvs. revert l. induction Hkvs as [|[k v] kvs (Hk & Hv & Hn) _ IH]; intros l; [done|]. cbn [map foldl].
  rewrite parse_cfg_line by done. unfold parse_key, set_loggers.
  cbn [ps_section ps_cur_handler ps_cur_logger ps_cfg cf_handlers cf_loggers cf_log_buffer_size cf_ring_buffer_size fst snd].
  rewrite alter_last. apply IH.
Qed.

Lemma copy_plain size s : (length s < size)%nat -> copy_str size s = s.
Proof. intros Hs. unfold copy_str. apply take_ge. lia. Qed.

Lemma level_word_spec level : cfg_level level -> lmk_cfg_parse_level (level_word level) = level.
Proof.
  unfold cfg_level, LMK_IS_VALID_LOG_LEVEL, LMK_LOG_LEVEL_TRACE, LMK_LOG_LEVEL_OFF. intros [->|Hv]; [done|].
  assert (level = 0 \/ level = 1 \/ level = 2 \/ level = 3 \/ level = 4 \/ level = 5) as Hc by lia.
  destruct_or! Hc; subst; reflexivity.
Qed.

(** The nine settings of a handler, whatever they are. *)
Lemma handler_settings_spec name type level filename ident facility format mfs mbf psk ls : -1 <= type <= LMK_LOG_HANDLER_TYPE_SYSLOG ->
  foldl (fun h kv => parse_handler_key (chars kv.1) kv.2 h) (new_handler name)
    (handler_keys (mk_cfg_handler name type level filename [] mfs mbf format ident facility psk) ++ ls) =
  foldl (fun h kv => parse_handler_key (chars kv.1) kv.2 h)
    (mk_cfg_handler (copy_str 64 name) type (lmk_cfg_parse_level (level_word level)) (copy_str 256 filename) []
      (atol (fmt_d mfs)) (atoi (fmt_d mbf)) (copy_str 32 format) (copy_str 64 ident) (copy_str 32 facility) (copy_str 256 psk)) ls.
Proof.
  intros Htype. rewrite foldl_app. f_equal. unfold LMK_LOG_HANDLER_TYPE_SYSLOG in Htype.
  assert (type = -1 \/ type = 0 \/ type = 1 \/ type = 2 \/ type = 3) as Hc by lia.
  destruct_or! Hc; subst; reflexivity.
Qed.

Lemma fmt_d_no_colon z : ":"%char ∉ fmt_d z.
Proof.
  intros Hin. pose proof (proj1 (fmt_d_chars z)) as Hall. rewrite Forall_forall in Hall.
  destruct (Hall _ Hin) as [[d Hd]|]; done.
Qed.

Lemma listener_keys_spec name type level filename mfs mbf format ident facility psk done_ls ls :
  Forall listener_plain ls -> (length done_ls + length ls <= LMK_CFG_MAX_LISTENERS)%nat ->
  foldl (fun h kv => parse_handler_key (chars kv.1) kv.2 h)
    (mk_cfg_handler name type level filename done_ls mfs mbf format ident facility psk)
    (map (fun l => ("listener"%string, cl_host l ++ ":"%char :: fmt_d (cl_port l))) ls) =
  mk_cfg_handler name type level filename (done_ls ++ ls) mfs mbf format ident facility psk.
Proof.
  intros Hls. revert done_ls. induction Hls as [|[host port] ls [Hhost Hport] _ IH]; intros done_ls Hlen.
  { by rewrite app_nil_r. }
  cbn [map foldl fst snd cl_host cl_port] in *. simpl length in Hlen.
  change (parse_handler_key (chars "listener") ?v ?h) with (parse_listener v h). unfold parse_listener.
  cbn [ch_listeners]. destruct (Nat.ltb_spec (length done_ls) LMK_CFG_MAX_LISTENERS) as [_|]; [|lia].
  rewrite split_at_last_app by apply fmt_d_no_colon.
  cbn [ch_name ch_type ch_level ch_filename ch_listeners ch_max_file_size ch_max_backup_files ch_format ch_ident ch_facility ch_psk].
  rewrite (atoi_fmt_d port Hport), copy_plain by apply Hhost.
  rewrite IH by (rewrite length_app; simpl; lia). by rewrite <- app_assoc.
Qed.

Lemma handler_keys_spec h : handler_plain h ->
  foldl (fun h kv => parse_handler_key (chars kv.1) kv.2 h) (new_handler (ch_name h)) (handler_keys h) = h.
Proof.
  intros [(Hname & _) Htype Hlevel Hfile Hident Hfac Hfmt Hpsk Hsize Hfiles [Hnl Hls]].
  destruct h as [name type level filename listeners mfs mbf format ident facility psk]. simpl in *.
  etrans; [exact (handler_settings_spec name type level filename ident facility format mfs mbf psk _ Htype)|].
  rewrite listener_keys_spec by done. rewrite level_word_spec, atol_fmt_d, atoi_fmt_d by done.
  by rewrite !copy_plain by (apply Hname || apply Hfile || apply Hfmt || apply Hident || apply Hfac || apply Hpsk).
Qed.

Lemma tokens_one cur s : ","%char ∉ s -> rev cur ++ s <> [] -> tokens cur s = [rev cur ++ s].
Proof.
  revert cur. induction s as [|c s IH]; intros cur Hc Hne; cbn [tokens].
  - rewrite app_nil_r in *. by destruct cur.
  - apply not_elem_of_cons in Hc as [Hne' Hc]. destruct (Ascii.eqb_spec c ","%char) as [->|_]; [done|].
    rewrite IH; simpl; [by rewrite <- app_assoc|done|]. rewrite <- app_assoc. intros Hnil. by destruct (rev cur).
Qed.

Lemma logger_names_spec name level names ns :
  Forall (fun n => plain 64 n /\ n <> [] /\ (","%char ∉ n)) ns ->
  (length names + length ns <= LMK_CFG_MAX_HANDLERS_PER_LOGGER)%nat ->
  foldl (fun l kv => parse_logger_key (chars kv.1) kv.2 l) (mk_cfg_logger name level names)
    (map (fun n => ("handlers"%string, n)) ns) = mk_cfg_logger name level (names ++ ns).
Proof.
  intros Hns. revert names. induction Hns as [|n ns ([Hfit Htight _] & Hne & Hcomma) _ IH]; intros names Hlen.
  { by rewrite app_nil_r. }
  cbn [map foldl fst snd]. simpl length in Hlen.
  change (parse_logger_key (chars "handlers") n (mk_cfg_logger name level names)) with
    (mk_cfg_logger name level (add_handler_names (tokens [] n) names)).
  rewrite tokens_one by done. cbn [rev app add_handler_names].
  destruct (Nat.ltb_spec (length names) LMK_CFG_MAX_HANDLERS_PER_LOGGER) as [_|]; [|lia].
  rewrite trim_id, bool_decide_eq_true_2, copy_plain by done.
  rewrite IH by (rewrite length_app; simpl; lia). by rewrite <- app_assoc.
Qed.

Lemma logger_keys_spec l : logger_plain l ->
  foldl (fun l kv => parse_logger_key (chars kv.1) kv.2 l) (new_logger (lg_name l)) (logger_keys l) = l.
Proof.
  intros [([Hname _ _] & _) Hlevel [Hlen Hnames]]. destruct l as [name level names]. simpl in *.
  etrans; [exact (logger_names_spec (copy_str 64 name) (lmk_cfg_parse_level (level_word level)) [] names Hnames Hlen)|].
  by rewrite level_word_spec, copy_plain by done.
Qed.

(** ** The rendered lines are lines of keys and values *)

(** A value that can stand on a line. *)
Record cfg_value (v : text) : Prop := {
  cv_tight : tight v;
  cv_chars : (NUL ∉ v) /\ (NEWLINE ∉ v);
  cv_length : (length v <= 300)%nat
}.

Lemma plain_value size s : (size <= 300)%nat -> plain size s -> cfg_value s.
Proof. intros Hs [Hf Ht Hc]. split; [done|done|lia]. Qed.

Lemma number_tight s : Forall number_char s -> tight s.
Proof.
  assert (forall c, number_char c -> is_space c = false) as Hc by (intros c [Hd| ->]; [by apply digit_not_space|done]).
  intros Hall. rewrite Forall_forall in Hall. split; intros c Hin; apply Hc, Hall.
  - by apply head_Some_elem_of.
  - by apply last_Some_elem_of.
Qed.

Lemma number_chars s c : Forall number_char s -> ~ number_char c -> c ∉ s.
Proof. intros Hall Hc Hin. rewrite Forall_forall in Hall. by apply Hc, Hall. Qed.

Lemma not_number c : digit c = None -> c <> "-"%char -> ~ number_char c.
Proof. intros Hd Hc [[d He]|]; congruence. Qed.

Lemma fmt_d_value z : - 2 ^ 63 <= z < 2 ^ 63 -> cfg_value (fmt_d z).
Proof.
  intros Hz. destruct (fmt_d_chars z) as [Hall _]. split.
  - by apply number_tight.
  - split; apply number_chars; try done; by apply not_number.
  - pose proof (length_fmt_d z Hz). lia.
Qed.

Lemma word_value s : bool_decide (length s <= 300)%nat && bool_decide (NUL ∉ s) && bool_decide (NEWLINE ∉ s) &&
  forallb (fun c => negb (is_space c)) s = true -> cfg_value s.
Proof.
  rewrite !andb_true_iff, !bool_decide_eq_true, forallb_forall. intros (((Hl & Hn) & Hnl) & Hs).
  assert (forall c, c ∈ s -> is_space c = false) as Hc by (intros c Hin; apply negb_true_iff, Hs; by apply list_elem_of_In).
  split; [|done|done]. split; intros c Hin; apply Hc; [by apply head_Some_elem_of|by apply last_Some_elem_of].
Qed.

Lemma level_word_value level : cfg_level level -> cfg_value (level_word level).
Proof.
  unfold cfg_level, LMK_IS_VALID_LOG_LEVEL, LMK_LOG_LEVEL_TRACE, LMK_LOG_LEVEL_OFF. intros Hl.
  assert (level = -1 \/ level = 0 \/ level = 1 \/ level = 2 \/ level = 3 \/ level = 4 \/ level = 5) as Hc by lia.
  apply word_value. destruct_or! Hc; subst; vm_compute; reflexivity.
Qed.

Lemma type_word_value type : -1 <= type <= LMK_LOG_HANDLER_TYPE_SYSLOG -> cfg_value (type_word type).
Proof.
  unfold LMK_LOG_HANDLER_TYPE_SYSLOG. intros Ht. assert (type = -1 \/ type = 0 \/ type = 1 \/ type = 2 \/ type = 3) as Hc by lia.
  apply word_value. destruct_or! Hc; subst; vm_compute; reflexivity.
Qed.

Lemma listener_value l : listener_plain l -> cfg_value (cl_host l ++ ":"%char :: fmt_d (cl_port l)).
Proof.
  destruct l as [host port]. intros [Hhost Hport]. cbn [cl_host cl_port] in *. unfold int_range in Hport.
  pose proof (fmt_d_value port ltac:(lia)) as [Ht [Hn Hnl] Hlen].
  destruct (fmt_d_chars port) as [_ Hne]. destruct Hhost as [Hf Hth [Hhn Hhnl]]. split.
  - split; intros c.
    + destruct host; simpl; [by intros [= <-]|by apply (proj1 Hth)].
    + intros Hc. apply (proj2 Ht). rewrite last_app_cons, last_cons in Hc. destruct (last (fmt_d port)) eqn:Hl; [congruence|].
      by apply last_None in Hl.
  - rewrite !not_elem_of_app, !not_elem_of_cons. done.
  - rewrite length_app. simpl. pose proof (length_fmt_d port ltac:(lia)). lia.
Qed.

Definition known_keys : list string :=
  ["type"; "level"; "filename"; "ident"; "facility"; "format"; "max_file_size"; "max_backup_files"; "psk"; "listener";
   "handlers"; "log_buffer_size"; "ring_buffer_size"]%string.

Definition good_key (k : text) : bool :=
  match k with
  | [] => false
  | c :: _ => bool_decide (c <> "#"%char) && bool_decide (c <> ";"%char) && bool_decide (c <> "["%char)
  end && bool_decide ("="%char ∉ k) && bool_decide (NUL ∉ k) && bool_decide (NEWLINE ∉ k) &&
  forallb (fun c => negb (is_space c)) k && (length k <=? 20)%nat.

Lemma good_key_word k : good_key k = true -> key_word k /\ (NEWLINE ∉ k) /\ (length k <= 20)%nat.
Proof.
  unfold good_key. rewrite !andb_true_iff, !bool_decide_eq_true, forallb_forall, Nat.leb_le.
  intros (((((Hc & Heq) & Hn) & Hnl) & Hs) & Hlen). split; [|done]. destruct k as [|c k]; [done|].
  rewrite !andb_true_iff, !bool_decide_eq_true in Hc. destruct Hc as [[Hc1 Hc2] Hc3]. exists c, k. split_and!; try done.
  assert (forall d, d ∈ c :: k -> is_space d = false) as Hsp by (intros d Hin; apply negb_true_iff, Hs; by apply list_elem_of_In).
  split; intros d Hd; apply Hsp; [by apply head_Some_elem_of|by apply last_Some_elem_of].
Qed.

Definition cfg_pair (kv : string * text) : Prop := kv.1 ∈ known_keys /\ cfg_value kv.2.

Lemma known_key k : k ∈ known_keys -> good_key (chars k) = true.
Proof.
  assert (forallb (fun k => good_key (chars k)) known_keys = true) as Hall by (vm_compute; reflexivity).
  rewrite forallb_forall in Hall. intros Hk. by apply Hall, list_elem_of_In.
Qed.

Lemma cfg_pair_line kv : cfg_pair kv -> key_value kv /\ file_line (cfg_line kv).
Proof.
  destruct kv as [k v]. intros [Hk [Ht [Hn Hnl] Hlen]]. cbn [fst snd] in *.
  destruct (good_key_word (chars k) (known_key k Hk)) as (Hkw & Hknl & Hklen).
  split; [done|]. apply cfg_line_ok; [done|done|lia].
Qed.

Lemma handler_pairs h : handler_plain h -> Forall cfg_pair (handler_keys h).
Proof.
  intros [Hname Htype Hlevel Hfile Hident Hfac Hfmt Hpsk Hsize Hfiles [_ Hls]]. unfold int_range in *.
  assert (forall k v, bool_decide (k ∈ known_keys) = true -> cfg_value v -> cfg_pair (k, v)) as Hpair
    by (intros k v Hk%bool_decide_eq_true Hv; done).
  apply Forall_app. split.
  - repeat (apply Forall_cons; split; [apply Hpair; [vm_compute; reflexivity|]|]); [..|constructor].
    + by apply type_word_value.
    + by apply level_word_value.
    + by eapply plain_value, Hfile; lia.
    + by eapply plain_value, Hident; lia.
    + by eapply plain_value, Hfac; lia.
    + by eapply plain_value, Hfmt; lia.
    + apply fmt_d_value; lia.
    + apply fmt_d_value; lia.
    + by eapply plain_value, Hpsk; lia.
  - apply Forall_map. eapply Forall_impl; [exact Hls|]. intros l Hl. apply Hpair; [vm_compute; reflexivity|].
    by apply listener_value.
Qed.

Lemma logger_pairs l : logger_plain l -> Forall cfg_pair (logger_keys l).
Proof.
  intros [Hname Hlevel [_ Hnames]]. constructor.
  - split; [by left || (apply (bool_decide_unpack _); vm_compute; exact I)|by apply level_word_value].
  - apply Forall_map. eapply Forall_impl; [exact Hnames|]. intros n (Hn & _). split.
    + apply (bool_decide_unpack _). vm_compute. exact I.
    + by eapply plain_value, Hn; lia.
Qed.

(** ** Reading the sections back *)

Lemma section_name_ok (w : string) name : bool_decide (chars w <> []) && forallb (fun c => negb (is_space c)) (chars w) &&
  bool_decide (NUL ∉ chars w) && bool_decide ("]"%char ∉ chars w) = true -> plain_name name ->
  tight (chars w ++ name) /\ (NUL ∉ chars w ++ name) /\ ("]"%char ∉ chars w ++ name).
Proof.
  rewrite !andb_true_iff, !bool_decide_eq_true, forallb_forall. intros (((Hne & Hs) & Hn) & Hb) ([Hf Ht [Hnn Hnl]] & Hnne & Hnb).
  rewrite !not_elem_of_app. split_and!; try done. apply tight_app; [done|done| |by apply (proj2 Ht)].
  intros c Hc%head_Some_elem_of. apply negb_true_iff, Hs. by apply list_elem_of_In.
Qed.

Lemma is_word_other (k : text) (w : string) c d : head k = Some c -> head (chars w) = Some d -> tolower c <> tolower d ->
  is_word k w = false.
Proof.
  intros Hk Hw Hne. apply bool_decide_eq_false. destruct k as [|c' k]; [done|]. destruct (chars w) as [|d' w']; [done|].
  simpl in *. simplify_eq. congruence.
Qed.

Lemma parse_handler_section lb rb hs ls sec ch cl name : plain_name name -> (length hs < LMK_CFG_MAX_HANDLERS)%nat ->
  parse_line (mk_parse_state (mk_cfg lb rb hs ls) sec ch cl) (cfg_section (chars "handler:" ++ name)) =
  mk_parse_state (mk_cfg lb rb (hs ++ [new_handler name]) ls) LMK_SEC_HANDLER (Some (length hs)) None.
Proof.
  intros Hname Hlen. destruct (section_name_ok "handler:" name ltac:(vm_compute; reflexivity) Hname) as (Ht & Hn & Hb).
  destruct (parse_cfg_section (mk_parse_state (mk_cfg lb rb hs ls) sec ch cl) _ Ht Hn Hb) as (before & after & -> & Hs & Htrim).
  unfold parse_section. rewrite Hs, Htrim. rewrite (is_word_other _ "global" "h"%char "g"%char) by done.
  change (has_prefix (chars "handler:" ++ name) "handler:") with true. cbv iota.
  change (drop 8 (chars "handler:" ++ name)) with name. destruct Hname as ([_ Htn _] & Hne & _).
  rewrite trim_id, bool_decide_eq_true_2 by done. unfold ps_cfg, cf_handlers.
  destruct (Nat.ltb_spec (length hs) LMK_CFG_MAX_HANDLERS) as [_|]; [done|lia].
Qed.

Lemma parse_logger_section lb rb hs ls sec ch cl name : plain_name name -> (length ls < LMK_CFG_MAX_LOGGERS)%nat ->
  parse_line (mk_parse_state (mk_cfg lb rb hs ls) sec ch cl) (cfg_section (chars "logger:" ++ name)) =
  mk_parse_state (mk_cfg lb rb hs (ls ++ [new_logger name])) LMK_SEC_LOGGER None (Some (length ls)).
Proof.
  intros Hname Hlen. destruct (section_name_ok "logger:" name ltac:(vm_compute; reflexivity) Hname) as (Ht & Hn & Hb).
  destruct (parse_cfg_section (mk_parse_state (mk_cfg lb rb hs ls) sec ch cl) _ Ht Hn Hb) as (before & after & -> & Hs & Htrim).
  unfold parse_section. rewrite Hs, Htrim. rewrite (is_word_other _ "global" "l"%char "g"%char) by done.
  assert (has_prefix (chars "logger:" ++ name) "handler:" = false) as ->
    by (unfold has_prefix; apply (is_word_other _ _ "l"%char "h"%char); done).
  change (has_prefix (chars "logger:" ++ name) "logger:") with true. cbv iota.
  change (drop 7 (chars "logger:" ++ name)) with name. destruct Hname as ([_ Htn _] & Hne & _).
  rewrite trim_id, bool_decide_eq_true_2 by done. unfold ps_cfg, cf_loggers.
  destruct (Nat.ltb_spec (length ls) LMK_CFG_MAX_LOGGERS) as [_|]; [done|lia].
Qed.

Lemma pairs_key_values kvs : Forall cfg_pair kvs -> Forall key_value kvs.
Proof. intros Hall. eapply Forall_impl; [exact Hall|]. intros kv Hkv. by apply cfg_pair_line. Qed.

Lemma parse_handlers lb rb hs ls todo sec ch cl : Forall handler_plain todo ->
  (length hs + length todo <= LMK_CFG_MAX_HANDLERS)%nat ->
  exists sec' ch' cl', foldl parse_line (mk_parse_state (mk_cfg lb rb hs ls) sec ch cl) (concat (map handler_lines todo)) =
    mk_parse_state (mk_cfg lb rb (hs ++ todo) ls) sec' ch' cl'.
Proof.
  intros Htodo. revert hs sec ch cl. induction Htodo as [|h todo Hh _ IH]; intros hs sec ch cl Hlen.
  { exists sec, ch, cl. by rewrite app_nil_r. }
  cbn [map concat]. rewrite foldl_app. unfold handler_lines at 1. cbn [foldl]. simpl length in Hlen.
  rewrite parse_handler_section by (apply Hh || lia). rewrite parse_handler_keys by (apply pairs_key_values, handler_pairs, Hh).
  rewrite handler_keys_spec by done.
  destruct (IH (hs ++ [h]) LMK_SEC_HANDLER (Some (length hs)) None) as (sec' & ch' & cl' & ->); [rewrite length_app; simpl; lia|].
  exists sec', ch', cl'. by rewrite <- app_assoc.
Qed.

Lemma parse_loggers lb rb hs ls todo sec ch cl : Forall logger_plain todo ->
  (length ls + length todo <= LMK_CFG_MAX_LOGGERS)%nat ->
  exists sec' ch' cl', foldl parse_line (mk_parse_state (mk_cfg lb rb hs ls) sec ch cl) (concat (map logger_lines todo)) =
    mk_parse_state (mk_cfg lb rb hs (ls ++ todo)) sec' ch' cl'.
Proof.
  intros Htodo. revert ls sec ch cl. induction Htodo as [|l todo Hl _ IH]; intros ls sec ch cl Hlen.
  { exists sec, ch, cl. by rewrite app_nil_r. }
  cbn [map concat]. rewrite foldl_app. unfold logger_lines at 1. cbn [foldl]. simpl length in Hlen.
  rewrite parse_logger_section by (apply Hl || lia). rewrite parse_logger_keys by (apply pairs_key_values, logger_pairs, Hl).
  rewrite logger_keys_spec by done.
  destruct (IH (ls ++ [l]) LMK_SEC_LOGGER None (Some (length ls))) as (sec' & ch' & cl' & ->); [rewrite length_app; simpl; lia|].
  exists sec', ch', cl'. by rewrite <- app_assoc.
Qed.

Lemma parse_globals lb rb : int_range lb -> int_range rb ->
  foldl parse_line (mk_parse_state cfg_start LMK_SEC_NONE None None)
    (cfg_section (chars "global") :: map cfg_line (global_keys (mk_cfg lb rb [] []))) =
    mk_parse_state (mk_cfg lb rb [] []) LMK_SEC_GLOBAL None None.
Proof.
  intros Hlb Hrb. cbn [map foldl global_keys cf_log_buffer_size cf_ring_buffer_size].
  change (parse_line (mk_parse_state cfg_start LMK_SEC_NONE None None) (cfg_section (chars "global"))) with
    (mk_parse_state cfg_start LMK_SEC_GLOBAL None None).
  unfold int_range in *. pose proof (fmt_d_value lb ltac:(lia)) as [Ht1 [Hn1 _] _]. pose proof (fmt_d_value rb ltac:(lia)) as [Ht2 [Hn2 _] _].
  rewrite !parse_cfg_line by (done || apply (good_key_word (chars _)); vm_compute; reflexivity).
  change (parse_key (chars "log_buffer_size") ?v (mk_parse_state cfg_start LMK_SEC_GLOBAL None None)) with
    (mk_parse_state (mk_cfg (atoi v) 0 [] []) LMK_SEC_GLOBAL None None).
  change (parse_key (chars "ring_buffer_size") ?v (mk_parse_state (mk_cfg ?a 0 [] []) LMK_SEC_GLOBAL None None)) with
    (mk_parse_state (mk_cfg a (atoi v) [] []) LMK_SEC_GLOBAL None None).
  by rewrite !atoi_fmt_d.
Qed.

(** ** The round trip *)

Lemma section_line (w : string) name : plain_name name -> NEWLINE ∉ chars w -> (length (chars w) <= 20)%nat ->
  file_line (cfg_section (chars w ++ name)).
Proof.
  intros ([Hf _ [_ Hnl]] & _) Hw Hlen. apply cfg_section_ok; [by rewrite not_elem_of_app|]. rewrite length_app. lia.
Qed.

Lemma pairs_lines kvs : Forall cfg_pair kvs -> Forall file_line (map cfg_line kvs).
Proof. intros Hall. apply Forall_map. eapply Forall_impl; [exact Hall|]. intros kv Hkv. by apply cfg_pair_line. Qed.

Lemma cfg_lines_ok cfg : cfg_plain cfg -> Forall file_line (cfg_lines cfg).
Proof.
  intros [[Hlb Hrb] [_ Hhs] [_ Hls]]. unfold int_range in *.
  assert (forall w, bool_decide (NEWLINE ∉ chars w) && (length (chars w) <=? 20)%nat = true ->
    (NEWLINE ∉ chars w) /\ (length (chars w) <= 20)%nat) as Hw
    by (intros w; by rewrite andb_true_iff, bool_decide_eq_true, Nat.leb_le).
  constructor; [|apply Forall_app; split; [|apply Forall_app; split]].
  - destruct (Hw "global"%string ltac:(vm_compute; reflexivity)) as [Hn Hlen]. apply cfg_section_ok; [done|lia].
  - apply pairs_lines. repeat (apply Forall_cons; split); [..|constructor];
      (split; [apply (bool_decide_unpack _); vm_compute; exact I|apply fmt_d_value; lia]).
  - apply Forall_concat, Forall_map. eapply Forall_impl; [exact Hhs|]. intros h Hh. constructor; [|by apply pairs_lines, handler_pairs].
    apply section_line; [apply Hh|apply Hw; vm_compute; reflexivity..].
  - apply Forall_concat, Forall_map. eapply Forall_impl; [exact Hls|]. intros l Hl. constructor; [|by apply pairs_lines, logger_pairs].
    apply section_line; [apply Hl|apply Hw; vm_compute; reflexivity..].
Qed.

(** C11. The configuration file format round trips: whatever configuration fits the
    parser's tables - any number of handlers, listeners and loggers up to their
    limits, every setting at any value of its range - is read back exactly as it
    was written. Its strings may hold any bytes but NUL and newline, with no
    blanks at their ends; names are not empty, those of sections hold no closing
    bracket and those a logger refers to no comma. *)
Theorem config_file_roundtrip (cfg : lmk_cfg) : cfg_plain cfg -> lmk_cfg_parse_file (Some (render cfg)) = Some cfg.
Proof.
  intros Hplain. unfold lmk_cfg_parse_file, render. cbn [mbind option_bind].
  rewrite fgets_lines_concat by (by apply cfg_lines_ok). f_equal.
  destruct Hplain as [[Hlb Hrb] [Hnh Hhs] [Hnl Hls]]. destruct cfg as [lb rb hs ls].
  cbn [cf_log_buffer_size cf_ring_buffer_size cf_handlers cf_loggers] in *. unfold cfg_lines. rewrite app_comm_cons, foldl_app.
  change (global_keys (mk_cfg lb rb hs ls)) with (global_keys (mk_cfg lb rb [] [])).
  rewrite parse_globals by done. rewrite foldl_app. cbn [cf_handlers cf_loggers].
  destruct (parse_handlers lb rb [] [] hs LMK_SEC_GLOBAL None None Hhs Hnh) as (sec & ch & cl & ->).
  by destruct (parse_loggers lb rb ([] ++ hs) [] ls sec ch cl Hls Hnl) as (sec' & ch' & cl' & ->).
Qed.

(** ** A configuration with every kind of setting *)

Definition sample_cfg : lmk_cfg :=
  mk_cfg 4096 1024
    [mk_cfg_handler (chars "rolling file") 1 3 (chars "/var/log/app = 1.log") [] 1048576 5 (chars "json") [] [] [];
     mk_cfg_handler (chars "net") 2 (-1) [] [mk_cfg_listener (chars "10.0.0.1") 9000; mk_cfg_listener (chars "::1") 514] 0 0
       [] [] [] (chars "s3cret#key")]
    [mk_cfg_logger (chars "app") 1 [chars "rolling file"; chars "net"]].

(** The conditions of [plain], decided. *)
Definition plain_check (size : nat) (s : text) : bool :=
  (length s <? size)%nat && bool_decide (NUL ∉ s) && bool_decide (NEWLINE ∉ s) &&
  match head s with Some c => negb (is_space c) | None => true end &&
  match last s with Some c => negb (is_space c) | None => true end.

Lemma plain_check_sound size s : plain_check size s = true -> plain size s.
Proof.
  unfold plain_check. rewrite !andb_true_iff, !bool_decide_eq_true, Nat.ltb_lt. intros ((((Hl & Hn) & Hnl) & Hh) & Ht).
  split; [done|split|done]; intros c Hc; [rewrite Hc in Hh|rewrite Hc in Ht]; by apply negb_true_iff.
Qed.

Ltac solve_plain := first [apply plain_check_sound; vm_compute; reflexivity|apply (bool_decide_unpack _); vm_compute; exact I].

Lemma sample_cfg_plain : cfg_plain sample_cfg.
Proof.
  unfold sample_cfg. split; unfold int_range; cbn.
  - lia.
  - split; [unfold LMK_CFG_MAX_HANDLERS; lia|]. repeat (apply Forall_cons; split); [..|constructor].
    + split; cbn; unfold int_range, LMK_LOG_HANDLER_TYPE_SYSLOG; try solve_plain; try lia.
      * split_and!; solve_plain.
      * split; [lia|constructor].
    + split; cbn; unfold int_range, LMK_LOG_HANDLER_TYPE_SYSLOG; try solve_plain; try lia.
      * split_and!; solve_plain.
      * split; [unfold LMK_CFG_MAX_LISTENERS; lia|].
        repeat (apply Forall_cons; split); [..|constructor]; (split; cbn; unfold int_range; [solve_plain|lia]).
  - split; [unfold LMK_CFG_MAX_LOGGERS; lia|]. repeat (apply Forall_cons; split); [..|constructor].
    split; cbn.
    + split_and!; solve_plain.
    + by right.
    + split; [unfold LMK_CFG_MAX_HANDLERS_PER_LOGGER; lia|].
      repeat (apply Forall_cons; split); [..|constructor]; split_and!; solve_plain.
Qed.

Lemma config_file_roundtrip_witness : lmk_cfg_parse_file (Some (render sample_cfg)) = Some sample_cfg.
Proof. exact (config_file_roundtrip sample_cfg sample_cfg_plain). Defined.
