(* ===== verification/Examples.v ===== *)
(** The example programs (directory [examples]): each configures the library,
    logs, and destroys it.  None checks a return value, so what they rely on is
    that every function accepts the NULL a failed call returned - and that the
    copies of a handler's name and file name succeed, which no function checks. *)
From S2P Require Import Prelude Types Format FileHandler Registry RegistrySafety RegistryTheorems ConfigFile ConfigTheorems ConfigRoundtrip RateLimiter.
Local Open Scope Z_scope.

Definition EXIT_SUCCESS : Z := 0.
Definition EXIT_FAILURE : Z := 1.

Section programs.
(** [lmk_init], and what memory answers. *)
Context (init : registry -> outcome registry) (A : allocator).

(** The main thread: the registry, its format buffer and the records it has
    passed to handlers. *)
Record client := mk_client {
  c_registry : registry;
  c_buf : list ascii;
  c_sent : list (addr * lmk_log_record)
}.

(** [LMK_LOG_INFO(logger, ...)] and its siblings at a line of the program. *)
Definition client_log (logger : option addr) (file_name : string) (line_no level : Z) (text : text) (c : client) :
    outcome client :=
  '(calls, buf, r) ← lmk_log_common init logger file_name line_no level (Some text) (c_buf c) (c_registry c);
  Ok (mk_client r buf (c_sent c ++ calls)).

(** The five calls of [example_app.c] and [example_app_using_config.c]. *)
Definition five_logs (logger : option addr) (file_name : string) (first_line : Z) (c : client) : outcome client :=
  c ← client_log logger file_name first_line LMK_LOG_LEVEL_TRACE (chars "This is a trace log") c;
  c ← client_log logger file_name (first_line + 1) LMK_LOG_LEVEL_DEBUG (chars "This is a debug log") c;
  c ← client_log logger file_name (first_line + 2) LMK_LOG_LEVEL_INFO (chars "This is an info log") c;
  c ← client_log logger file_name (first_line + 3) LMK_LOG_LEVEL_WARN (chars "This is a warn log") c;
  client_log logger file_name (first_line + 4) LMK_LOG_LEVEL_ERROR (chars "This is an error log") c.

(** [lmk_destroy] with fuel for its loops, and the end of [main]. *)
Definition finish (c : client) : outcome (Z * client) :=
  let r := c_registry c in
  r ← lmk_destroy init (length (g_logger_list r) + length (g_handler_list r)) r;
  Ok (EXIT_SUCCESS, mk_client r (c_buf c) (c_sent c)).

(** [example_app.c]. *)
Definition example_app (c : client) : outcome (Z * client) :=
  r ← init (c_registry c);
  '(logger, r) ← lmk_get_logger init (al_object A "logger" r) (al_logger_name A "logger" r) (Some "logger"%string) r;
  '(console, r) ← lmk_get_console_log_handler init (al_object A "console" r) (al_handler_name A "console" r)
    (al_set_up A "console" r) r;
  '(file, r) ← lmk_get_file_log_handler init (al_object A "file" r) (al_handler_name A "file" r)
    (al_filename A "example_app.log" r) (al_set_up A "file" r) (Some "file"%string) (Some "example_app.log"%string) r;
  '(_, r) ← lmk_attach_log_handler init (al_ref A "console" r) logger console r;
  '(_, r) ← lmk_attach_log_handler init (al_ref A "file" r) logger file r;
  r ← lmk_set_log_level init logger LMK_LOG_LEVEL_TRACE r;
  c ← five_logs logger "example_app.c" 24 (mk_client r (c_buf c) (c_sent c));
  finish c.

(** The set-up the two socket examples share. *)
Definition socket_setup (c : client) : outcome (option addr * client) :=
  r ← init (c_registry c);
  '(logger, r) ← lmk_get_logger init (al_object A "socket-logger" r) (al_logger_name A "socket-logger" r)
    (Some "socket-logger"%string) r;
  '(handler, r) ← lmk_get_socket_log_handler init (al_object A "socket-handler" r) (al_handler_name A "socket-handler" r)
    (al_set_up A "socket-handler" r) (Some "socket-handler"%string) r;
  r ← handler_set_psk handler (Some "some-psk"%string) r;
  r ← lmk_set_log_level init logger LMK_LOG_LEVEL_INFO r;
  r ← handler_add_listener (al_listener A "127.0.0.1" r) handler (Some "127.0.0.1"%string) 9000 r;
  '(_, r) ← lmk_attach_log_handler init (al_ref A "socket-handler" r) logger handler r;
  Ok (logger, mk_client r (c_buf c) (c_sent c)).

(** The loop of logs, from [a] on. *)
Fixpoint log_loop (logger : option addr) (file_name : string) (line_no : Z) (a : Z) (todo : nat) (c : client) : outcome client :=
  match todo with
  | O => Ok c
  | S todo' =>
      c ← client_log logger file_name line_no LMK_LOG_LEVEL_INFO (chars "This is an info log " ++ fmt_d a) c;
      log_loop logger file_name line_no (a + 1) todo' c
  end.

(** [example_app_socket.c]; [n] is the 10000 of its loop. *)
Definition example_app_socket (n : nat) (c : client) : outcome (Z * client) :=
  '(logger, c) ← socket_setup c;
  c ← log_loop logger "example_app_socket.c" 29 0 n c;
  finish c.

(** The same loop with a wait after each log, at the reading [clock i] of the clock. *)
Fixpoint paced_loop (clock : nat -> timespec) (logger : option addr) (a : nat) (todo : nat) (c : client)
    (rl : lmk_rate_limiter) : outcome (client * lmk_rate_limiter) :=
  match todo with
  | O => Ok (c, rl)
  | S todo' =>
      c ← client_log logger "example_app_socket_rate_limited.c" 19 LMK_LOG_LEVEL_INFO
            (chars "This is an info log " ++ fmt_d (Z.of_nat a)) c;
      paced_loop clock logger (S a) todo' c (lmk_rate_limiter_wait (clock a) rl).1
  end.

(** [example_app_socket_rate_limited.c]. *)
Definition example_app_socket_rate_limited (clock : nat -> timespec) (n : nat) (c : client) : outcome (Z * client) :=
  '(logger, c) ← socket_setup c;
  '(c, _) ← paced_loop clock logger 0 n c (lmk_rate_limiter_init 100000);
  finish c.

(** [example_app_using_config.c]; [init_from_file] is [lmk_init_from_file] on [argv[1]] or NULL. *)
Definition example_app_using_config (init_from_file : registry -> outcome (Z * registry)) (c : client) : outcome (Z * client) :=
  '(res, r) ← init_from_file (c_registry c);
  let c := mk_client r (c_buf c) (c_sent c) in
  if negb (res =? LMK_E_OK) then Ok (EXIT_FAILURE, c)
  else
    '(logger, r) ← lmk_get_logger init (al_object A "app" r) (al_logger_name A "app" r) (Some "app"%string) r;
    c ← five_logs logger "example_app_using_config.c" 13 (mk_client r (c_buf c) (c_sent c));
    finish c.
End programs.

(** [random_psk] of [example_app_socket.c] (which [main] does not call): [rnd] holds the 64 random bytes. *)
Definition alphabet : list ascii := chars "abcdefghijklmnopqrstuvwxyzABCDEFGHIJKLMNOPQRSTUVWXYZ0123456789".

Definition random_psk (rnd : list ascii) (len : Z) (buf : list ascii) : list ascii :=
  let room := (len - 1) mod 2 ^ 64 in
  let n := Z.to_nat (if room <? 64 then room else 64) in
  map (fun b => nth (nat_of_ascii b mod length alphabet) alphabet NUL) (take n rnd) ++ NUL :: drop (S n) buf.

(** In a buffer of [len] bytes it leaves a terminated string of letters and digits. *)
Lemma random_psk_string rnd len buf : 0 < len < 2 ^ 64 -> length buf = Z.to_nat len -> length rnd = 64%nat ->
  exists psk tail, random_psk rnd len buf = psk ++ NUL :: tail /\ length (random_psk rnd len buf) = length buf /\
    length psk = Z.to_nat (Z.min (len - 1) 64) /\ Forall (fun c => c ∈ alphabet) psk.
Proof.
  intros Hlen Hbuf Hrnd. unfold random_psk. rewrite Z.mod_small by lia.
  set (n := Z.to_nat _). assert (n = Z.to_nat (Z.min (len - 1) 64)) as Hn.
  { unfold n. destruct (Z.ltb_spec (len - 1) 64); f_equal; lia. }
  eexists _, _. split; [reflexivity|]. split.
  { rewrite length_app, length_map, length_take. cbn [length]. rewrite length_drop, Hrnd, Hbuf, Hn. lia. }
  split; [rewrite length_map, length_take, Hrnd; lia|].
  apply Forall_forall. intros c Hc. apply list_elem_of_fmap in Hc as (b & -> & _). apply list_elem_of_In, nth_In.
  apply Nat.mod_upper_bound. by vm_compute.
Qed.

(** ** No call faults *)

(** A well-formed registry in which these pointers are NULL or live. *)
Definition scene (loggers handlers : list (option addr)) (r : registry) : Prop :=
  registry_ok r /\ Forall (fun p => live_logger p r) loggers /\ Forall (fun p => live_handler p r) handlers.

(** Nothing registered is lost. *)
Definition keeps_live (r r' : registry) : Prop :=
  (forall a, a ∈ g_logger_list r -> a ∈ g_logger_list r') /\ (forall a, a ∈ g_handler_list r -> a ∈ g_handler_list r').

Lemma scene_keeps ls hs r r' : scene ls hs r -> registry_ok r' -> keeps_live r r' -> scene ls hs r'.
Proof.
  intros (_ & Hl & Hh) Hok' [Kl Kh]. split; [done|]. split.
  - eapply Forall_impl; [exact Hl|]. intros p Hp a Ha. by apply Kl, Hp.
  - eapply Forall_impl; [exact Hh|]. intros p Hp a Ha. by apply Kh, Hp.
Qed.

Lemma scene_null_logger ls hs r : scene ls hs r -> scene (None :: ls) hs r.
Proof. intros (Hok & Hl & Hh). split; [done|]. split; [by constructor|done]. Qed.

Lemma scene_null_handler ls hs r : scene ls hs r -> scene ls (None :: hs) r.
Proof. intros (Hok & Hl & Hh). split; [done|]. split; [done|by constructor]. Qed.

Section calls.
Context (init : registry -> outcome registry) (A : allocator).
Hypothesis init_initialized : forall r, g_initialized r = true -> init r = Ok r.
Hypothesis fresh_objects : objects_fresh A.
Hypothesis copied : names_copied A.

Lemma get_logger_returns n ok name ls hs r : scene ls hs r ->
  returns (lmk_get_logger init (al_object A n r) ok (Some name) r) (fun '(p, r') => scene (p :: ls) hs r').
Proof.
  intros Hs. pose proof Hs as (Hok & Hl & Hh).
  destruct (get_logger_spec init init_initialized (al_object A n r) ok name r Hok (fresh_objects n r))
    as (p & r' & -> & Hok' & [(a & l & -> & Hla & _ & ->)|[(_ & a & _ & _ & -> & Hls & _ & Hhs)|(_ & _ & -> & ->)]]).
  - eexists. split; [done|]. split; [done|]. split; [|done]. constructor; [|done].
    intros b [= <-]. apply (ro_logger_list r Hok). by eexists.
  - eexists. split; [done|].
    assert (keeps_live r r') as Hk.
    { split; [intros b Hb; rewrite Hls; apply elem_of_app; by left|].
      intros b Hb. apply (ro_handler_list r' Hok'). rewrite Hhs. by apply (ro_handler_list r Hok). }
    destruct (scene_keeps ls hs r r' Hs Hok' Hk) as (_ & Hl' & Hh'). split; [done|]. split; [|done].
    constructor; [|done]. intros b [= <-]. rewrite Hls. apply elem_of_app. right. by left.
  - eexists. split; [done|]. by apply scene_null_logger.
Qed.

Lemma make_handler_returns n ok name data ls hs r : scene ls hs r -> data_named data ->
  returns (make_handler (al_object A n r) true ok (kind_type (data_kind data)) (type_methods (data_kind data)) name data r) (fun '(p, r') => scene ls (p :: hs) r').
Proof.
  intros Hs Hd. pose proof Hs as (Hok & Hl & Hh).
  destruct (make_handler_spec (al_object A n r) ok _ _ name data r Hok (fresh_objects n r) eq_refl eq_refl Hd)
    as (p & r' & -> & Hok' & [(a & h & -> & Hha & _ & ->)|[(_ & a & _ & _ & -> & Hhs & _ & Hls & _)|(_ & -> & Hr)]]).
  - eexists. split; [done|]. split; [done|]. split; [done|]. constructor; [|done].
    intros b [= <-]. apply (ro_handler_list r Hok). by eexists.
  - eexists. split; [done|].
    assert (keeps_live r r') as Hk.
    { split; [|intros b Hb; rewrite Hhs; apply elem_of_app; by left].
      intros b Hb. apply (ro_logger_list r' Hok'). rewrite Hls. by apply (ro_logger_list r Hok). }
    destruct (scene_keeps ls hs r r' Hs Hok' Hk) as (_ & Hl' & Hh'). split; [done|]. split; [done|].
    constructor; [|done]. intros b [= <-]. rewrite Hhs. apply elem_of_app. right. by left.
  - eexists. split; [done|]. apply scene_null_handler. destruct Hr as [[_ ->]|(a & _ & _ & ->)]; [done|].
    by apply (scene_keeps ls hs r).
Qed.

Lemma init_returns {B} (f : registry -> outcome B) ls hs r Q : scene ls hs r -> returns (f r) Q ->
  returns (r ← init r; f r) Q.
Proof. intros (Hok & _) Hf. by rewrite init_initialized, outcome_bind_ok by apply Hok. Qed.

Lemma attach_returns ref p q ls hs r : scene ls hs r -> p ∈ ls -> q ∈ hs ->
  returns (lmk_attach_log_handler init ref p q r) (fun '(_, r') => scene ls hs r').
Proof.
  intros Hs Hp Hq. pose proof Hs as (Hok & Hl & Hh). rewrite Forall_forall in Hl, Hh.
  destruct p as [la|], q as [ha|]; try (apply (init_returns _ ls hs); [done|by apply returns_ok]).
  destruct (live_logger_lookup la r Hok (Hl _ Hp)) as [l Hla], (live_handler_lookup ha r Hok (Hh _ Hq)) as [h Hha].
  destruct (attach_spec init init_initialized ref la ha l h r Hok Hla Hha) as (res & r' & -> & Hok' & Hr).
  eexists. split; [done|]. apply (scene_keeps ls hs r); [done|done|].
  destruct (bool_decide _); [by destruct Hr as [_ ->]|]. by destruct ref, Hr as [_ ->].
Qed.

Lemma set_log_level_returns p level ls hs r : scene ls hs r -> p ∈ ls ->
  returns (lmk_set_log_level init p level r) (scene ls hs).
Proof.
  intros Hs Hp. pose proof Hs as (Hok & Hl & Hh). rewrite Forall_forall in Hl.
  destruct (set_log_level_keeps init init_initialized p level r Hok (Hl _ Hp)) as (r' & He & Hok').
  exists r'. split; [done|]. apply (scene_keeps ls hs r); [done|done|].
  unfold lmk_set_log_level in He. rewrite init_initialized, outcome_bind_ok in He by apply Hok.
  destruct p as [la|]; [|by simplify_eq]. destruct (live_logger_lookup la r Hok (Hl _ Hp)) as [l Hla].
  rewrite Hla in He. cbn [deref] in He. rewrite outcome_bind_ok in He. by case_match; simplify_eq.
Qed.

(** The settings of a handler, on a pointer that may be NULL. *)
Lemma setting_returns q call ls hs r : scene ls hs r -> q ∈ hs ->
  (live_handler q r -> sets_data q r call) -> returns call (scene ls hs).
Proof.
  intros Hs Hq Hset. pose proof Hs as (Hok & Hl & Hh). rewrite Forall_forall in Hh.
  pose proof (Hset (Hh q Hq)) as Hd. destruct (sets_data_keeps q r call Hok Hd) as (r' & He & Hok').
  exists r'. split; [done|]. apply (scene_keeps ls hs r); [done|done|].
  destruct Hd as [->|(a & h & d & _ & _ & _ & _ & ->)]; by injection He as <-.
Qed.

Lemma set_psk_returns psk q ls hs r : scene ls hs r -> q ∈ hs -> returns (handler_set_psk q psk r) (scene ls hs).
Proof. intros Hs Hq. apply (setting_returns q _ ls hs r Hs Hq). intros Hl. by apply set_psk_sets; [apply Hs|]. Qed.

Lemma add_listener_returns ok host port q ls hs r : scene ls hs r -> q ∈ hs ->
  returns (handler_add_listener ok q host port r) (scene ls hs).
Proof. intros Hs Hq. apply (setting_returns q _ ls hs r Hs Hq). intros Hl. by apply add_listener_sets; [apply Hs|]. Qed.

(** A client of a well-formed registry, with its pointers. *)
Definition client_ok (ls hs : list (option addr)) (c : client) : Prop :=
  scene ls hs (c_registry c) /\ length (c_buf c) = Z.to_nat LMK_LOG_MSG_MAX_SIZE.

Lemma client_log_returns p file_name line_no level text ls hs c : client_ok ls hs c -> p ∈ ls ->
  LMK_IS_VALID_LOG_LEVEL level = true -> Z.of_nat (length text) <= INT_MAX ->
  returns (client_log init p file_name line_no level text c) (client_ok ls hs).
Proof.
  intros [Hs Hbuf] Hp Hlevel Htext. pose proof Hs as (Hok & Hl & Hh). rewrite Forall_forall in Hl. unfold client_log.
  destruct p as [la|].
  2: { unfold lmk_log_common. rewrite init_initialized, !outcome_bind_ok by apply Hok. by apply returns_ok. }
  destruct (live_logger_lookup la _ Hok (Hl _ Hp)) as [l Hla].
  pose proof (log_common_spec init init_initialized (c_registry c) la l file_name line_no level text (c_buf c) Hok Hla
    Hlevel Hbuf Htext) as Hspec.
  destruct (l_log_level l <=? level).
  - destruct Hspec as (buf' & n & -> & Hlen & _). rewrite outcome_bind_ok. apply returns_ok. split; [done|].
    cbn [c_buf]. congruence.
  - rewrite Hspec, outcome_bind_ok. by apply returns_ok.
Qed.

Lemma five_logs_returns p file_name n ls hs c : client_ok ls hs c -> p ∈ ls ->
  returns (five_logs init p file_name n c) (client_ok ls hs).
Proof.
  intros Hc Hp. unfold five_logs.
  repeat (eapply returns_bind; [by apply (client_log_returns _ _ _ _ _ ls hs)|cbv beta; clear Hc; intros ? Hc]).
  by apply client_log_returns.
Qed.

Lemma finish_returns ls hs c : client_ok ls hs c ->
  returns (finish init c) (fun '(code, c') => code = EXIT_SUCCESS /\
    g_initialized (c_registry c') = false /\ g_loggers (c_registry c') = ∅ /\ g_handlers (c_registry c') = ∅).
Proof.
  intros [(Hok & _) _]. unfold finish. rewrite (destroy_terminates init init_initialized _ _ Hok); [|lia|lia|].
  - rewrite outcome_bind_ok. by apply returns_ok.
  - intros a l Hl. pose proof (refs_length_bound _ a l Hok Hl). lia.
Qed.

(** What a program comes to: it exits with success, and the library has been torn down. *)
Definition exits_cleanly (m : outcome (Z * client)) : Prop :=
  returns m (fun '(code, c') => code = EXIT_SUCCESS /\
    g_initialized (c_registry c') = false /\ g_loggers (c_registry c') = ∅ /\ g_handlers (c_registry c') = ∅).

(** The first step of a program. *)
Definition starts (c : client) : Prop :=
  returns (init (c_registry c)) registry_ok /\ length (c_buf c) = Z.to_nat LMK_LOG_MSG_MAX_SIZE.

Lemma starts_bind {B} (f : registry -> outcome B) c Q : starts c -> (forall r, scene [] [] r -> returns (f r) Q) ->
  returns (r ← init (c_registry c); f r) Q.
Proof. intros [Hr _] Hf. eapply returns_bind; [exact Hr|]. intros r Hok. by apply Hf. Qed.

(** A pointer among those of the scene. *)
Ltac here := first [by left|right; here].

Lemma console_returns n ok ls hs r : scene ls hs r ->
  returns (lmk_get_console_log_handler init (al_object A n r) (al_handler_name A n r) ok r) (fun '(p, r') => scene ls (p :: hs) r').
Proof.
  intros Hs. rewrite (proj1 copied). eapply init_returns; [done|]. by apply (make_handler_returns n ok "console" ConsoleData).
Qed.

Lemma file_returns n ok name filename ls hs r : scene ls hs r ->
  returns (lmk_get_file_log_handler init (al_object A n r) (al_handler_name A n r) (al_filename A filename r) ok
    (Some name) (Some filename) r) (fun '(p, r') => scene ls (p :: hs) r').
Proof.
  intros Hs. rewrite (proj1 copied), (proj2 copied). eapply init_returns; [done|].
  apply (make_handler_returns n ok name (FileData (Some filename) LMK_DEFAULT_MAX_FILE_SIZE LMK_DEFAULT_MAX_BACKUP_FILES));
    [done|by eexists].
Qed.

Lemma socket_returns n ok name ls hs r : scene ls hs r ->
  returns (lmk_get_socket_log_handler init (al_object A n r) (al_handler_name A n r) ok (Some name) r)
    (fun '(p, r') => scene ls (p :: hs) r').
Proof.
  intros Hs. rewrite (proj1 copied). eapply init_returns; [done|]. by apply (make_handler_returns n ok name (SocketData [] None)).
Qed.

Lemma example_app_exits c : starts c -> exits_cleanly (example_app init A c).
Proof.
  intros Hc. pose proof Hc as [_ Hbuf]. unfold example_app. apply starts_bind; [done|]. intros r0 Hs0.
  eapply returns_bind; [by apply get_logger_returns|cbv beta; intros [logger r1] Hs1].
  eapply returns_bind; [by apply console_returns|cbv beta; intros [console r2] Hs2].
  eapply returns_bind; [by apply file_returns|cbv beta; intros [file r3] Hs3].
  eapply returns_bind; [by eapply attach_returns; [exact Hs3|here|here]|cbv beta; intros [? r4] Hs4].
  eapply returns_bind; [by eapply attach_returns; [exact Hs4|here|here]|cbv beta; intros [? r5] Hs5].
  eapply returns_bind; [by eapply set_log_level_returns; [exact Hs5|here]|cbv beta; intros r6 Hs6].
  eapply returns_bind; [by eapply five_logs_returns; [split; [exact Hs6|exact Hbuf]|here]|cbv beta; intros c7 Hs7].
  by eapply finish_returns.
Qed.

Lemma socket_setup_returns c : starts c ->
  returns (socket_setup init A c) (fun '(logger, c') => exists hs, client_ok [logger] hs c').
Proof.
  intros Hc. pose proof Hc as [_ Hbuf]. unfold socket_setup. apply starts_bind; [done|]. intros r0 Hs0.
  eapply returns_bind; [by apply get_logger_returns|cbv beta; intros [logger r1] Hs1].
  eapply returns_bind; [by apply socket_returns|cbv beta; intros [handler r2] Hs2].
  eapply returns_bind; [by eapply set_psk_returns; [exact Hs2|here]|cbv beta; intros r3 Hs3].
  eapply returns_bind; [by eapply set_log_level_returns; [exact Hs3|here]|cbv beta; intros r4 Hs4].
  eapply returns_bind; [by eapply add_listener_returns; [exact Hs4|here]|cbv beta; intros r5 Hs5].
  eapply returns_bind; [by eapply attach_returns; [exact Hs5|here|here]|cbv beta; intros [? r6] Hs6].
  apply returns_ok. by exists [handler].
Qed.

(** A numbered message of the loops is short. *)
Lemma info_text_short a : - 2 ^ 31 <= a < 2 ^ 31 -> Z.of_nat (length (chars "This is an info log " ++ fmt_d a)) <= INT_MAX.
Proof.
  intros Ha. rewrite length_app. pose proof (length_fmt_d a ltac:(lia)). simpl. unfold INT_MAX. lia.
Qed.

Lemma log_loop_returns logger file_name line_no n a ls hs c : client_ok ls hs c -> logger ∈ ls ->
  0 <= a -> a + Z.of_nat n < 2 ^ 31 -> returns (log_loop init logger file_name line_no a n c) (client_ok ls hs).
Proof.
  intros Hc Hl. revert a c Hc. induction n as [|n IH]; intros a c Hc Ha Hn; [by apply returns_ok|]. cbn [log_loop].
  eapply returns_bind; [by eapply client_log_returns; [exact Hc| | |apply info_text_short; lia]|cbv beta; intros c' Hc'].
  apply IH; [done|lia|lia].
Qed.

Lemma paced_loop_returns clock logger n a ls hs c rl : client_ok ls hs c -> logger ∈ ls ->
  Z.of_nat a + Z.of_nat n < 2 ^ 31 -> returns (paced_loop init clock logger a n c rl) (fun '(c', _) => client_ok ls hs c').
Proof.
  intros Hc Hl. revert a c rl Hc. induction n as [|n IH]; intros a c rl Hc Hn; [by apply returns_ok|]. cbn [paced_loop].
  eapply returns_bind; [by eapply client_log_returns; [exact Hc| | |apply info_text_short; lia]|cbv beta; intros c' Hc'].
  apply IH; [done|lia].
Qed.

Lemma socket_examples_exit clock n c : starts c -> Z.of_nat n < 2 ^ 31 ->
  exits_cleanly (example_app_socket init A n c) /\
  exits_cleanly (example_app_socket_rate_limited init A clock n c).
Proof.
  intros Hc Hn. split.
  - eapply returns_bind; [by apply socket_setup_returns|cbv beta; intros [logger c1] [hs Hs1]].
    eapply returns_bind; [by eapply log_loop_returns; [exact Hs1|here|lia|lia]|cbv beta; intros c2 Hs2].
    by eapply finish_returns.
  - eapply returns_bind; [by apply socket_setup_returns|cbv beta; intros [logger c1] [hs Hs1]].
    eapply returns_bind; [by eapply paced_loop_returns; [exact Hs1|here|lia]|cbv beta; intros [c2 rl2] Hs2].
    by eapply finish_returns.
Qed.

(** A configuration that was loaded leads to a clean exit, one that was not to the failure status at once. *)
Lemma config_example_exits init_from_file c res r : length (c_buf c) = Z.to_nat LMK_LOG_MSG_MAX_SIZE ->
  init_from_file (c_registry c) = Ok (res, r) -> registry_ok r ->
  if res =? LMK_E_OK then exits_cleanly (example_app_using_config init A init_from_file c)
  else example_app_using_config init A init_from_file c = Ok (EXIT_FAILURE, mk_client r (c_buf c) (c_sent c)).
Proof.
  intros Hbuf Hinit Hok. unfold example_app_using_config. rewrite Hinit, outcome_bind_ok. cbn beta iota zeta.
  destruct (res =? LMK_E_OK); cbn [negb]; [|done].
  assert (scene [] [] r) as Hs0 by done.
  eapply returns_bind; [by apply get_logger_returns|cbv beta; intros [logger r1] Hs1].
  eapply returns_bind; [by eapply five_logs_returns; [split; [exact Hs1|exact Hbuf]|here]|cbv beta; intros c2 Hs2].
  by eapply finish_returns.
Qed.
End calls.

(** ** The programs from their start *)

Section start.
Context (A : allocator) (files : string -> option text) (env_path : option string).
Hypothesis fresh_objects : objects_fresh A.
Hypothesis copied : names_copied A.

Definition init_now : registry -> outcome registry := lmk_init_auto A files env_path true.

(** [main] begins: the library is not initialised and nothing was logged. *)
Definition client_start (buf : list ascii) : client := mk_client registry_start buf [].

Lemma init_now_initialized r : g_initialized r = true -> init_now r = Ok r.
Proof. apply lmk_init_initialized. Qed.

Lemma client_start_starts buf : length buf = Z.to_nat LMK_LOG_MSG_MAX_SIZE -> starts init_now (client_start buf).
Proof.
  intros Hbuf. split; [|done].
  destruct (lmk_init_auto_ok A fresh_objects copied files env_path registry_start) as (r & c & He & Hok & _); [done..|].
  by exists r.
Qed.

(** The file the program's argument or the automatic configuration names. *)
Definition config_path (path : option string) : string := default (default "logmoko.conf"%string env_path) path.

Lemma init_from_file_start path : exists res r,
  lmk_init_from_file A files env_path true path registry_start = Ok (res, r) /\ registry_ok r /\
  (res = LMK_E_OK <-> is_Some (files (config_path path))).
Proof.
  destruct (lmk_init_auto_ok A fresh_objects copied files env_path registry_start) as (r & c & He & Hok & _); [done..|].
  unfold lmk_init_from_file. rewrite He, outcome_bind_ok.
  destruct path as [path|];
    [destruct (parse_and_apply_applied A fresh_objects copied files path r Hok) as (res & r' & ? & ? & _ & ?)
    |destruct (parse_and_apply_applied A fresh_objects copied files (config_path None) r Hok)
      as (res & r' & ? & ? & _ & ?)]; by exists res, r'.
Qed.
End start.

(** C34. In the calling thread the four example programs make no invalid access and
    every loop of theirs and of [lmk_destroy] ends (that the consumers a
    destroy waits for do exit is C22 and C5), when the configuration
    record is allocated and the copies of handler names and file names
    succeed: whichever other allocations and handler set-ups fail, and whatever
    the configuration file holds, each returns from [main] with the library
    torn down; the one that takes its configuration from a file fails exactly
    when the file cannot be read. *)
Theorem example_programs_exit A files env_path clock n path buf :
  objects_fresh A -> names_copied A -> length buf = Z.to_nat LMK_LOG_MSG_MAX_SIZE -> Z.of_nat n < 2 ^ 31 ->
  let init := init_now A files env_path in
  let load := lmk_init_from_file A files env_path true path in
  let c := client_start buf in
  exits_cleanly (example_app init A c) /\
  exits_cleanly (example_app_socket init A n c) /\
  exits_cleanly (example_app_socket_rate_limited init A clock n c) /\
  match files (config_path env_path path) with
  | Some _ => exits_cleanly (example_app_using_config init A load c)
  | None => returns (example_app_using_config init A load c) (fun '(code, _) => code = EXIT_FAILURE)
  end.
Proof.
  intros Hfresh Hcopied Hbuf Hn init load c.
  pose proof (client_start_starts A files env_path Hfresh Hcopied buf Hbuf) as Hc.
  pose proof (init_now_initialized A files env_path) as Hinit.
  destruct (socket_examples_exit init A Hinit Hfresh Hcopied clock n c Hc Hn) as [Hs Hr].
  split; [by apply example_app_exits|]. split; [exact Hs|]. split; [exact Hr|].
  destruct (init_from_file_start A files env_path Hfresh Hcopied path) as (res & r & He & Hok & Hres).
  pose proof (config_example_exits init A Hinit Hfresh load c res r Hbuf He Hok) as Hx.
  destruct (files _) as [content|].
  - rewrite (proj2 Hres) in Hx by done. exact Hx.
  - destruct (Z.eqb_spec res LMK_E_OK) as [->|_]; [by destruct (proj1 Hres eq_refl)|]. eexists. by split; [exact Hx|].
Qed.

(** One program that finds its file, one whose memory gives neither handlers nor references. *)
Lemma example_programs_exit_witness :
  let buf := replicate (Z.to_nat LMK_LOG_MSG_MAX_SIZE) NUL in
  exits_cleanly (example_app_using_config (init_now good_memory sample_files None) good_memory
    (lmk_init_from_file good_memory sample_files None true (Some "logmoko.conf"%string)) (client_start buf)) /\
  exits_cleanly (example_app (init_now (scarce_memory "logger") sample_files None) (scarce_memory "logger") (client_start buf)).
Proof.
  intros buf. split.
  - unshelve eapply (example_programs_exit good_memory sample_files None (fun _ => mk_timespec 0 0) 0
      (Some "logmoko.conf"%string) buf (am_fresh _ good_memory_ample) (am_copied _ good_memory_ample) _ _);
      [apply length_replicate|reflexivity].
  - unshelve eapply (example_programs_exit (scarce_memory "logger") sample_files None (fun _ => mk_timespec 0 0) 0
      None buf (scarce_memory_fresh "logger") (conj (fun _ _ => eq_refl) (fun _ _ => eq_refl)) _ _);
      [apply length_replicate|reflexivity].
Defined.

(** Memory that refuses only the copies of handlers' names. *)
Definition nameless_memory : allocator :=
  mk_allocator (fun _ => next_addr) (fun _ _ => true) (fun _ _ => false) (fun _ _ => true) (fun _ _ => true)
    (fun _ _ => true) (fun _ _ => true).

(** The copies are needed: without room for the name of the console handler,
    [example_app] makes an invalid access when it asks for its file handler. *)
Example example_app_needs_names :
  example_app (init_now nameless_memory (fun _ => None) None) nameless_memory
    (client_start (replicate (Z.to_nat LMK_LOG_MSG_MAX_SIZE) NUL)) = Fault.
Proof. vm_compute. reflexivity. Qed.
