(* ===== verification/System.v ===== *)
(** The whole system at run time: the application's threads, each with its
    format buffer, which call the logging functions; the registry, which says
    what handlers a call reaches; the handlers, each the machine of
    [AsyncHandler.v] with its own consumer thread; and [lmk_destroy], which
    stops the handlers one after the other.  The threads, the consumers and the
    destroyer interleave step by step.  The registry is fixed while threads
    log: its functions take no lock, so the application configures it before. *)
From S2P Require Import Prelude Types Ring RingMachine AsyncHandler Registry.
Local Open Scope Z_scope.

(** ** State *)

(** The arguments of [lmk_log_info] and its siblings; the level says which. *)
Record log_call := mk_log_call {
  lc_logger : option addr;
  lc_file_name : string;
  lc_line_no : Z;
  lc_log_level : Z;
  lc_text : list ascii          (* what the format and its arguments print *)
}.

(** Where an application thread is. *)
Inductive app_pc :=
  | AppIdle                                                        (* outside the library          *)
  | AppDispatch (calls : list (addr * lmk_log_record))             (* in the loop of lmk_log_impl  *)
  | AppInside (ha : addr) (calls : list (addr * lmk_log_record)).  (* in that handler's log_impl   *)

Record app_thread := mk_app_thread {
  at_buf : list ascii;          (* lmk_tls_log_buf *)
  at_pc : app_pc
}.

Record system (St : Type) := mk_system {
  ss_threads : gmap nat app_thread;
  ss_handlers : gmap addr (handler_state St);
  (** the handlers [lmk_destroy] has still to destroy, once it has been called *)
  ss_shutdown : option (list addr)
}.
Arguments mk_system {St}.
Arguments ss_threads {St}.
Arguments ss_handlers {St}.
Arguments ss_shutdown {St}.

(** What a step shows: the call made, or the component that moved and what its
    ring did; for a producer also the record it is passing on. *)
Inductive sys_event :=
  | SysTau
  | SysCall (tid : nat) (c : log_call)
  | SysEnter (tid : nat) (ha : addr)
  | SysLog (tid : nat) (ha : addr) (v : log_view) (ev : ring_event)
  | SysConsumer (ha : addr) (ev : ring_event)
  | SysDestroy (ha : addr) (ev : ring_event).

Section system.
Context {St : Type} `{Sink St}.
Context (init : registry -> outcome registry) (r : registry).
Context (k : addr -> nat) (sink0 : addr -> St).   (* each handler's ring size exponent and sink *)
Abbreviation state := (system St).

Definition set_thread (s : state) (tid : nat) (th : app_thread) : state :=
  mk_system (<[tid := th]> (ss_threads s)) (ss_handlers s) (ss_shutdown s).

Definition set_machine (s : state) (ha : addr) (m : handler_state St) : state :=
  mk_system (ss_threads s) (<[ha := m]> (ss_handlers s)) (ss_shutdown s).

Definition set_shutdown (s : state) (todo : list addr) : state :=
  mk_system (ss_threads s) (ss_handlers s) (Some todo).

(** ** Steps *)

(** The thread-local buffer of a new thread. *)
Definition tls_buf0 : list ascii := repeat NUL (Z.to_nat LMK_LOG_MSG_MAX_SIZE).

(** What the caller owes: one of the levels, and a text [vsnprintf] can count. *)
Definition call_ok (c : log_call) : bool :=
  LMK_IS_VALID_LOG_LEVEL (lc_log_level c) && (Z.of_nat (length (lc_text c)) <=? 2 ^ 31 - 1).

(** The handlers whose [destroy] a call of [lmk_destroy] runs, in its order. *)
Definition destroy_order : list addr :=
  match lmk_destroy init (length (g_logger_list r) + length (g_handler_list r)) r with
  | Ok r' => omap (fun c => match c with CallDestroy ha => Some ha | _ => None end)
               (drop (length (g_calls r)) (g_calls r'))
  | _ => []
  end.

Definition all_idle (s : state) : Prop :=
  forall tid th, ss_threads s !! tid = Some th -> at_pc th = AppIdle.

Inductive system_step : state -> sys_event -> state -> Prop :=
  (** a thread is created *)
  | sys_spawn s tid :
      ss_threads s !! tid = None ->
      system_step s SysTau (set_thread s tid (mk_app_thread tls_buf0 AppIdle))
  (** a thread calls a logging function: format, and look up the handlers *)
  | sys_call s tid th c calls buf' r' :
      ss_shutdown s = None -> ss_threads s !! tid = Some th -> at_pc th = AppIdle -> call_ok c = true ->
      lmk_log_common init (lc_logger c) (lc_file_name c) (lc_line_no c) (lc_log_level c)
        (Some (lc_text c)) (at_buf th) r = Ok (calls, buf', r') ->
      system_step s (SysCall tid c) (set_thread s tid (mk_app_thread buf' (AppDispatch calls)))
  (** it calls the next handler's [log_impl] *)
  | sys_enter s tid th ha h hname rec calls m :
      ss_threads s !! tid = Some th -> at_pc th = AppDispatch ((ha, rec) :: calls) ->
      g_handlers r !! ha = Some h -> h_name h = Some hname -> ss_handlers s !! ha = Some m ->
      system_step s (SysEnter tid ha)
        (set_thread (set_machine s ha
           (with_threads m (<[tid := mk_log_thread rec hname LogCheckRunning]> (hs_prods m))))
           tid (mk_app_thread (at_buf th) (AppInside ha calls)))
  (** a step inside that [log_impl]; on return it goes on with the loop *)
  | sys_log s tid th ha calls m lth weak ev m' :
      ss_threads s !! tid = Some th -> at_pc th = AppInside ha calls ->
      ss_handlers s !! ha = Some m -> hs_prods m !! tid = Some lth ->
      log_impl_step (mask_of (k ha)) tid weak m = Some (ev, m') ->
      system_step s (SysLog tid ha (view_of_record (lt_rec lth) (lt_handler lth)) ev)
        (set_thread (set_machine s ha m') tid
           (mk_app_thread (at_buf th)
              (match hs_prods m' !! tid with None => AppDispatch calls | Some _ => AppInside ha calls end)))
  (** the loop is over: the logging function returns *)
  | sys_return s tid th :
      ss_threads s !! tid = Some th -> at_pc th = AppDispatch [] ->
      system_step s SysTau (set_thread s tid (mk_app_thread (at_buf th) AppIdle))
  (** a step of a handler's consumer thread *)
  | sys_consumer s ha m spurious ev m' :
      ss_handlers s !! ha = Some m -> consumer_step (mask_of (k ha)) spurious m = Some (ev, m') ->
      system_step s (SysConsumer ha ev) (set_machine s ha m')
  (** [lmk_destroy] is called: no thread is logging, and none will *)
  | sys_shutdown s :
      ss_shutdown s = None -> all_idle s ->
      system_step s SysTau (set_shutdown s destroy_order)
  (** a step of the handler's [destroy] that [lmk_destroy] is in *)
  | sys_destroy s ha todo m ev m' :
      ss_shutdown s = Some (ha :: todo) -> ss_handlers s !! ha = Some m -> destroy_step m = Some (ev, m') ->
      system_step s (SysDestroy ha ev)
        (set_shutdown (set_machine s ha m')
           (match hs_destroy m' with DDone => todo | _ => ha :: todo end)).

(** Every registered handler has been initialised; no thread logs yet. *)
Definition system_start : state :=
  mk_system ∅ (map_imap (fun ha _ => Some (handler_start (k ha) (sink0 ha))) (g_handlers r)) None.

(** ** Executable schedules *)

Inductive sys_action :=
  | DoSpawn (tid : nat)
  | DoCall (tid : nat) (c : log_call)
  | DoThread (tid : nat)          (* the thread's next step, inside the library *)
  | DoConsumer (ha : addr)
  | DoShutdown
  | DoDestroy.

Definition thread_act (s : state) (tid : nat) : option (sys_event * state) :=
  th ← ss_threads s !! tid;
  match at_pc th with
  | AppIdle => None
  | AppDispatch [] => Some (SysTau, set_thread s tid (mk_app_thread (at_buf th) AppIdle))
  | AppDispatch ((ha, rec) :: calls) =>
      h ← g_handlers r !! ha; hname ← h_name h; m ← ss_handlers s !! ha;
      Some (SysEnter tid ha,
        set_thread (set_machine s ha
           (with_threads m (<[tid := mk_log_thread rec hname LogCheckRunning]> (hs_prods m))))
           tid (mk_app_thread (at_buf th) (AppInside ha calls)))
  | AppInside ha calls =>
      m ← ss_handlers s !! ha; lth ← hs_prods m !! tid;
      '(ev, m') ← log_impl_step (mask_of (k ha)) tid false m;
      Some (SysLog tid ha (view_of_record (lt_rec lth) (lt_handler lth)) ev,
        set_thread (set_machine s ha m') tid
           (mk_app_thread (at_buf th)
              (match hs_prods m' !! tid with None => AppDispatch calls | Some _ => AppInside ha calls end)))
  end.

Definition idle_thread (th : app_thread) : bool := match at_pc th with AppIdle => true | _ => false end.

Definition check_idle (s : state) : bool := forallb (fun p => idle_thread p.2) (map_to_list (ss_threads s)).

Definition sys_act (s : state) (a : sys_action) : option (sys_event * state) :=
  match a with
  | DoSpawn tid =>
      match ss_threads s !! tid with
      | None => Some (SysTau, set_thread s tid (mk_app_thread tls_buf0 AppIdle))
      | Some _ => None
      end
  | DoCall tid c =>
      th ← ss_threads s !! tid;
      match ss_shutdown s, at_pc th, call_ok c,
        lmk_log_common init (lc_logger c) (lc_file_name c) (lc_line_no c) (lc_log_level c)
          (Some (lc_text c)) (at_buf th) r with
      | None, AppIdle, true, Ok (calls, buf', _) =>
          Some (SysCall tid c, set_thread s tid (mk_app_thread buf' (AppDispatch calls)))
      | _, _, _, _ => None
      end
  | DoThread tid => thread_act s tid
  | DoConsumer ha =>
      m ← ss_handlers s !! ha; '(ev, m') ← consumer_step (mask_of (k ha)) false m;
      Some (SysConsumer ha ev, set_machine s ha m')
  | DoShutdown =>
      match ss_shutdown s with
      | None =>
          if check_idle s then Some (SysTau, set_shutdown s destroy_order) else None
      | Some _ => None
      end
  | DoDestroy =>
      match ss_shutdown s with
      | Some (ha :: todo) =>
          m ← ss_handlers s !! ha; '(ev, m') ← destroy_step m;
          Some (SysDestroy ha ev,
            set_shutdown (set_machine s ha m') (match hs_destroy m' with DDone => todo | _ => ha :: todo end))
      | _ => None
      end
  end.

(** Plays the actions in turn, leaving out those that cannot be taken. *)
Fixpoint sys_schedule (s : state) (acts : list sys_action) : list sys_event * state :=
  match acts with
  | [] => ([], s)
  | a :: acts' =>
      match sys_act s a with
      | Some (ev, s') => let '(tr, s'') := sys_schedule s' acts' in (ev :: tr, s'')
      | None => sys_schedule s acts'
      end
  end.

Lemma check_idle_sound s : check_idle s = true -> all_idle s.
Proof.
  unfold check_idle. rewrite forallb_forall. intros Hall tid th Hth%elem_of_map_to_list%list_elem_of_In.
  specialize (Hall _ Hth). unfold idle_thread in Hall. cbn [snd] in Hall. by destruct (at_pc th).
Qed.

Lemma thread_act_step s tid ev s' : thread_act s tid = Some (ev, s') -> system_step s ev s'.
Proof.
  unfold thread_act. destruct (ss_threads s !! tid) as [th|] eqn:Hth; [|done]. cbn [mbind option_bind].
  destruct (at_pc th) as [|[|[ha rec] calls]|ha calls] eqn:Hpc; [done| | |].
  - intros [= <- <-]. by apply sys_return.
  - destruct (g_handlers r !! ha) as [h|] eqn:Hh; [|done]. cbn [mbind option_bind].
    destruct (h_name h) as [hname|] eqn:Hn; [|done]. cbn [mbind option_bind].
    destruct (ss_handlers s !! ha) as [m|] eqn:Hm; [|done]. intros [= <- <-]. by eapply sys_enter.
  - destruct (ss_handlers s !! ha) as [m|] eqn:Hm; [|done]. cbn [mbind option_bind].
    destruct (hs_prods m !! tid) as [lth|] eqn:Hl; [|done]. cbn [mbind option_bind].
    destruct (log_impl_step (mask_of (k ha)) tid false m) as [[ev0 m']|] eqn:Hs; [|done].
    intros [= <- <-]. by eapply sys_log.
Qed.

Lemma sys_act_step s a ev s' : sys_act s a = Some (ev, s') -> system_step s ev s'.
Proof.
  destruct a as [tid|tid c|tid|ha| |]; cbn [sys_act].
  - destruct (ss_threads s !! tid) eqn:Hth; [done|]. intros [= <- <-]. by apply sys_spawn.
  - destruct (ss_threads s !! tid) as [th|] eqn:Hth; [|done]. cbn [mbind option_bind].
    destruct (ss_shutdown s) eqn:Hsd; [done|]. destruct (at_pc th) eqn:Hpc; try done.
    destruct (call_ok c) eqn:Hc; [|done].
    destruct (lmk_log_common _ _ _ _ _ _ _ _) as [[[calls buf'] r']| |] eqn:Hcall; [|done..].
    intros [= <- <-]. by eapply sys_call.
  - apply thread_act_step.
  - destruct (ss_handlers s !! ha) as [m|] eqn:Hm; [|done]. cbn [mbind option_bind].
    destruct (consumer_step (mask_of (k ha)) false m) as [[ev0 m']|] eqn:Hs; [|done].
    intros [= <- <-]. by eapply sys_consumer.
  - destruct (ss_shutdown s) eqn:Hsd; [done|]. destruct (check_idle s) eqn:Hall; [|done].
    intros [= <- <-]. apply sys_shutdown; [done|]. by apply check_idle_sound.
  - destruct (ss_shutdown s) as [[|ha todo]|] eqn:Hsd; try done.
    destruct (ss_handlers s !! ha) as [m|] eqn:Hm; [|done]. cbn [mbind option_bind].
    destruct (destroy_step m) as [[ev0 m']|] eqn:Hs; [|done]. intros [= <- <-]. by eapply sys_destroy.
Qed.

Lemma sys_schedule_run s acts : run system_step s (sys_schedule s acts).1 (sys_schedule s acts).2.
Proof.
  revert s. induction acts as [|a acts IH]; intros s; cbn [sys_schedule]; [constructor|].
  destruct (sys_act s a) as [[ev s']|] eqn:Ha; [|apply IH].
  specialize (IH s'). destruct (sys_schedule s' acts) as [tr s'']. cbn [fst snd] in *.
  eapply run_cons; [by eapply sys_act_step|done].
Qed.
End system.
