(* ===== verification/SystemSafety.v ===== *)
(** The invariant of the whole system of [System.v]: each handler's share of a
    run is a run of that handler's own machine; a thread is inside a handler
    exactly when it is where the handler's machine has it; and the records a
    thread has passed to a handler, with those it still will, are the ones its
    calls ask for, in program order. *)
From S2P Require Import Prelude Types Ring RingMachine AsyncHandler AsyncSafety AsyncCounters Registry RegistrySafety System.
Local Open Scope Z_scope.

(** ** A log call's record meets the ring once *)

Definition decides (ev : ring_event) : bool := match ev with EvEnq _ | EvFull => true | _ => false end.

(** The record a thread inside a handler has still to offer to the ring. *)
Definition undecided (lth : option log_thread) : list log_view :=
  match lth with
  | Some (mk_log_thread rec h (LogCheckRunning | LogEnq (EnqLoadHead | EnqLoadSeq _ | EnqCas _))) =>
      [view_of_record rec h]
  | _ => []
  end.

Section machine.
Context {St : Type} `{Sink St}.
Abbreviation machine := (handler_state St).

Lemma enq_step_decides mask rec h weak m pc m' pc' ev : enq_result pc = None ->
  enq_step mask rec h weak m pc = (m', pc', ev) ->
  undecided (Some (mk_log_thread rec h (LogEnq pc))) =
    (if decides ev then [view_of_record rec h] else []) ++ undecided (Some (mk_log_thread rec h (LogEnq pc'))) /\
  (forall v, ev = EvEnq v -> v = view_of_record rec h) /\ (forall v, ev <> EvDeq v).
Proof. intros Hr He. destruct pc; simpl in *; try done; repeat case_match; simplify_eq; naive_solver. Qed.

(** While the handler runs, a step of [log_impl] reports the thread's record
    exactly when it settles its fate. *)
Lemma log_step_decides mask tid weak (m : machine) lth ev m' :
  hs_prods m !! tid = Some lth -> hs_running m = true -> log_impl_step mask tid weak m = Some (ev, m') ->
  undecided (Some lth) =
    (if decides ev then [view_of_record (lt_rec lth) (lt_handler lth)] else []) ++ undecided (hs_prods m' !! tid) /\
  (forall v, ev = EvEnq v -> v = view_of_record (lt_rec lth) (lt_handler lth)) /\ (forall v, ev <> EvDeq v).
Proof.
  intros Htid Hrun (th & Hth & Hmove)%log_impl_step_move. rewrite Hth in Htid. simplify_eq.
  destruct lth as [rec h pc]. cbn [lt_rec lt_handler].
  destruct Hmove as [Hpc|pc0 m0 pc' ev0 Hpc Hres He|r0 Hpc|Hpc|Hpc|Hpc|Hpc Hl|Hpc|Hpc|Hpc]; cbn [lt_pc] in Hpc; subst pc;
    unfold set_log_pc; cbn [with_threads hs_prods lt_rec lt_handler]; rewrite ?lookup_insert_eq, ?lookup_delete_eq.
  1: by rewrite Hrun.
  1: { cbn [lt_rec lt_handler] in *. by eapply enq_step_decides. }
  all: repeat case_match; by split_and!.
Qed.

(** Other threads are not concerned, nor is the destroyer. *)
Lemma log_step_others k tid tid' weak (m : machine) ev m' :
  tid' <> tid -> log_impl_step (mask_of k) tid weak m = Some (ev, m') -> hs_prods m' !! tid' = hs_prods m !! tid'.
Proof.
  intros Hne (_ & _ & _ & _ & _ & th & _ & [->|[pc ->]])%log_impl_step_frame.
  - by rewrite lookup_delete_ne.
  - by rewrite lookup_insert_ne.
Qed.

Lemma log_step_destroy k tid weak (m : machine) ev m' :
  log_impl_step (mask_of k) tid weak m = Some (ev, m') -> hs_destroy m' = hs_destroy m.
Proof. by intros (_ & _ & _ & Hd & _)%log_impl_step_frame. Qed.

Lemma consumer_step_event k spurious (m : machine) ev m' :
  consumer_step (mask_of k) spurious m = Some (ev, m') -> decides ev = false.
Proof.
  unfold consumer_step, acquire. intros Hs. destruct (hs_cons m); simplify_eq; try done.
  all: repeat case_match; simpl in *; by simplify_eq.
Qed.
End machine.

(** ** Threads and handlers *)

Definition calls_of (pc : app_pc) : list (addr * lmk_log_record) :=
  match pc with AppIdle => [] | AppDispatch calls | AppInside _ calls => calls end.

Section system.
Context {St : Type} `{Sink St}.
Context (init : registry -> outcome registry) (r : registry).
Context (k : addr -> nat) (sink0 : addr -> St).
Hypothesis init_initialized : forall r, g_initialized r = true -> init r = Ok r.
Hypothesis Hok : registry_ok r.
Abbreviation state := (system St).
Abbreviation step := (system_step init r k).
Abbreviation start := (system_start r k sink0).

Definition inside (s : state) (ha : addr) (tid : nat) : Prop :=
  exists th calls, ss_threads s !! tid = Some th /\ at_pc th = AppInside ha calls.

Record threads_inv (s : state) : Prop := {
  ti_thread : forall tid th, ss_threads s !! tid = Some th ->
    length (at_buf th) = Z.to_nat LMK_LOG_MSG_MAX_SIZE /\
    forall ha rec, (ha, rec) ∈ calls_of (at_pc th) -> wf_record rec;
  ti_inside : forall ha m tid, ss_handlers s !! ha = Some m -> is_Some (hs_prods m !! tid) -> inside s ha tid;
  ti_idle : is_Some (ss_shutdown s) -> all_idle s;
  ti_running : ss_shutdown s = None -> forall ha m, ss_handlers s !! ha = Some m -> hs_destroy m = DIdle
}.

(** The records among [calls] that are for handler [ha], as it will see them. *)
Definition handler_name (ha : addr) : string := default "" (g_handlers r !! ha ≫= h_name).

Definition todo (ha : addr) (calls : list (addr * lmk_log_record)) : list log_view :=
  map (fun p => view_of_record p.2 (handler_name ha)) (filter (fun p => p.1 = ha) calls).

(** The specification of a log call: handler [ha] gets the message, cut to the
    buffer, if the logger refers to it and both levels admit the call. *)
Definition call_views (ha : addr) (c : log_call) : list log_view :=
  match lc_logger c ≫= (fun la => g_loggers r !! la) with
  | Some l =>
      if (l_log_level l <=? lc_log_level c) && bool_decide (ha ∈ l_handler_refs l) && accepts r (lc_log_level c) ha
      then [mk_log_view (lc_log_level c) (lc_line_no c) (lc_file_name c) (handler_name ha)
              (cstr (message_of (lc_text c)))]
      else []
  | None => []
  end.

Lemma todo_refs ha (P : addr -> bool) rec refs : NoDup refs ->
  todo ha (map (fun a => (a, rec)) (filter (fun a => P a = true) refs)) =
    if bool_decide (ha ∈ refs) && P ha then [view_of_record rec (handler_name ha)] else [].
Proof.
  unfold todo. induction 1 as [|a refs Ha Hnd IH]; [done|].
  destruct (decide (a = ha)) as [->|Hne].
  - rewrite bool_decide_eq_true_2 by (by left). rewrite bool_decide_eq_false_2 in IH by done.
    destruct (P ha) eqn:HP.
    + rewrite filter_cons_True by done. cbn [map]. rewrite filter_cons_True by done. cbn [map]. by rewrite IH.
    + rewrite filter_cons_False by congruence. exact IH.
  - assert (bool_decide (ha ∈ a :: refs) = bool_decide (ha ∈ refs)) as -> by (apply bool_decide_ext; rewrite elem_of_cons; split; [by intros [->|]|by right]).
    destruct (P a) eqn:HP.
    + rewrite filter_cons_True by done. cbn [map]. by rewrite filter_cons_False by done.
    + by rewrite filter_cons_False by congruence.
Qed.

(** What a call asks of the loop over the handlers. *)
Lemma call_result c buf calls buf' r' : call_ok c = true -> length buf = Z.to_nat LMK_LOG_MSG_MAX_SIZE ->
  lmk_log_common init (lc_logger c) (lc_file_name c) (lc_line_no c) (lc_log_level c) (Some (lc_text c)) buf r =
    Ok (calls, buf', r') ->
  length buf' = length buf /\ (forall ha rec, (ha, rec) ∈ calls -> wf_record rec) /\
  forall ha, todo ha calls = call_views ha c.
Proof.
  unfold call_ok. intros [Hlevel Htext%Z.leb_le]%andb_true_iff Hbuf Hcall. unfold call_views.
  destruct (lc_logger c) as [la|]; cbn [mbind option_bind].
  2: { unfold lmk_log_common in Hcall. rewrite (init_initialized r (ro_init r Hok)), outcome_bind_ok in Hcall.
    simplify_eq. split; [done|]. split; [by intros ?? []%not_elem_of_nil|done]. }
  destruct (g_loggers r !! la) as [l|] eqn:Hl.
  2: { unfold lmk_log_common in Hcall. rewrite (init_initialized r (ro_init r Hok)), outcome_bind_ok, Hl in Hcall. done. }
  pose proof (log_common_spec init init_initialized r la l (lc_file_name c) (lc_line_no c) (lc_log_level c)
    (lc_text c) buf Hok Hl Hlevel Hbuf Htext) as Hspec.
  destruct (l_log_level l <=? lc_log_level c); cbn [andb].
  2: { rewrite Hspec in Hcall. simplify_eq. split; [done|]. split; [by intros ?? []%not_elem_of_nil|done]. }
  destruct Hspec as (buf2 & n & Hcall2 & Hlen & -> & Htake & Hwf). rewrite Hcall2 in Hcall. simplify_eq.
  split; [done|]. split.
  - intros ha rec Hin. apply list_elem_of_In, in_map_iff in Hin as (a & [= <- <-] & _). done.
  - intros ha. destruct (ro_loggers r Hok la l Hl) as (_ & _ & Hnd & _).
    rewrite todo_refs by done. unfold view_of_record. cbn [rec_log_level rec_line_no rec_file_name rec_data].
    assert (copy_len (mk_log_record (lc_log_level c) buf' (Z.of_nat (length (message_of (lc_text c))))
      (lc_line_no c) (lc_file_name c)) = Z.of_nat (length (message_of (lc_text c)))) as ->; [|by rewrite Htake].
    assert (length (message_of (lc_text c)) <= 2047)%nat by (unfold message_of; rewrite length_take; apply Nat.le_min_l).
    unfold copy_len, LMK_LOG_MSG_MAX_SIZE. cbn [rec_data_len].
    destruct (Z.ltb_spec (Z.of_nat (length (message_of (lc_text c)))) (2048 - 1)); lia.
Qed.

Lemma threads_inv_start : threads_inv start.
Proof.
  split; simpl; try done.
  - intros ha m tid Hm. rewrite map_lookup_imap in Hm.
    destruct (g_handlers r !! ha); simpl in Hm; simplify_eq. by intros [].
  - intros _ ha m Hm. rewrite map_lookup_imap in Hm.
    by destruct (g_handlers r !! ha); simpl in Hm; simplify_eq.
Qed.

(** A thread moves outside the handlers. *)
Lemma threads_inv_thread (s : state) tid th' : threads_inv s ->
  (forall th ha calls, ss_threads s !! tid = Some th -> at_pc th <> AppInside ha calls) ->
  length (at_buf th') = Z.to_nat LMK_LOG_MSG_MAX_SIZE ->
  (forall ha rec, (ha, rec) ∈ calls_of (at_pc th') -> wf_record rec) ->
  ss_shutdown s = None \/ at_pc th' = AppIdle -> threads_inv (set_thread s tid th').
Proof.
  intros [Hth Hin Hidle Hrun] Hout Hbuf Hwf Hsd. split; [| | |done].
  - intros tid2 th2. simpl. intros [[<- <-]|[_ Hl]]%lookup_insert_Some; [done|by eapply Hth].
  - intros ha m tid2 Hm Hp. destruct (Hin ha m tid2 Hm Hp) as (th2 & calls & Hl & Hpc).
    exists th2, calls. split; [|done]. simpl. rewrite lookup_insert_ne; [done|]. intros <-. by eapply Hout.
  - intros Hs tid2 th2. simpl in *. intros [[<- <-]|[_ Hl]]%lookup_insert_Some; [|by eapply Hidle].
    destruct Hsd as [Hnone|]; [|done]. rewrite Hnone in Hs. by destruct Hs.
Qed.

(** A handler moves without its producers. *)
Lemma threads_inv_machine (s : state) ha m m' sd : threads_inv s -> ss_handlers s !! ha = Some m ->
  hs_prods m' = hs_prods m ->
  sd = ss_shutdown s /\ hs_destroy m' = hs_destroy m \/ is_Some (ss_shutdown s) /\ is_Some sd ->
  threads_inv (mk_system (ss_threads s) (<[ha := m']> (ss_handlers s)) sd).
Proof.
  intros [Hth Hin Hidle Hrun] Hm Hp Hd. split; simpl; [done| | |].
  - intros ha2 m2 tid. intros [[<- <-]|[_ Hl]]%lookup_insert_Some; [rewrite Hp; by apply Hin|by apply (Hin ha2 m2)].
  - intros Hs. apply Hidle. by destruct Hd as [[-> _]|[? _]].
  - intros Hs ha2 m2. destruct Hd as [[-> Hd]|[_ Hd]]; [|rewrite Hs in Hd; by destruct Hd].
    intros [[<- <-]|[_ Hl]]%lookup_insert_Some; [rewrite Hd; by eapply Hrun|by eapply Hrun].
Qed.

(** A thread moves inside handler [ha], into it or out of it. *)
Lemma threads_inv_inside (s : state) ha m m' tid th pc' : threads_inv s ->
  ss_threads s !! tid = Some th -> ss_handlers s !! ha = Some m -> at_pc th <> AppIdle ->
  (forall ha' rec, (ha', rec) ∈ calls_of pc' -> (ha', rec) ∈ calls_of (at_pc th)) ->
  (forall ha' calls, at_pc th = AppInside ha' calls -> ha' = ha) ->
  (forall tid', tid' <> tid -> hs_prods m' !! tid' = hs_prods m !! tid') ->
  (is_Some (hs_prods m' !! tid) -> exists calls, pc' = AppInside ha calls) ->
  hs_destroy m' = hs_destroy m ->
  threads_inv (set_thread (set_machine s ha m') tid (mk_app_thread (at_buf th) pc')).
Proof.
  intros [Hth Hin Hidle Hrun] Htid Hm Hbusy Hcalls Hwhere Hothers Hnow Hd.
  assert (ss_shutdown s = None) as Hsd.
  { destruct (ss_shutdown s) eqn:Hsd; [|done]. exfalso. by apply Hbusy, (Hidle ltac:(done) tid). }
  split; simpl; [| | |].
  - intros tid2 th2 [[<- <-]|[_ Hl]]%lookup_insert_Some; [|by eapply Hth].
    destruct (Hth tid th Htid) as [Hbuf Hwf]. split; [done|]. intros ha2 rec Hc%Hcalls. by eapply Hwf.
  - intros ha2 m2 tid2 Hm2 Hp. unfold inside. cbn [set_thread set_machine ss_threads].
    destruct (decide (tid2 = tid)) as [->|Hne].
    + rewrite lookup_insert_eq. destruct (decide (ha2 = ha)) as [->|Hha].
      * rewrite lookup_insert_eq in Hm2. simplify_eq. destruct (Hnow Hp) as [calls ->]. by do 2 eexists.
      * rewrite lookup_insert_ne in Hm2 by done.
        destruct (Hin ha2 m2 tid Hm2 Hp) as (th2 & calls & Hl & Hpc). simplify_eq. by apply Hwhere in Hpc.
    + rewrite lookup_insert_ne by done. destruct (decide (ha2 = ha)) as [->|Hha].
      * rewrite lookup_insert_eq in Hm2. simplify_eq. rewrite Hothers in Hp by done. by apply (Hin ha m tid2).
      * rewrite lookup_insert_ne in Hm2 by done. by apply (Hin ha2 m2 tid2).
  - rewrite Hsd. by intros [].
  - intros _ ha2 m2 [[<- <-]|[_ Hl]]%lookup_insert_Some; [rewrite Hd|]; by eapply Hrun.
Qed.

Lemma threads_inv_step (s : state) e s' : threads_inv s -> step s e s' -> threads_inv s'.
Proof.
  intros Hinv Hstep. revert Hinv.
  destruct Hstep as [s tid Hnone|s tid th c calls buf' r' Hsd Hth Hpc Hc Hcall
    |s tid th ha h hname rec calls m Hth Hpc Hh Hn Hm|s tid th ha calls m lth weak ev m' Hth Hpc Hm Hl Hlog
    |s tid th Hth Hpc|s ha m spurious ev m' Hm Hc|s Hsd Hidle|s ha todo m ev m' Hsd Hm Hd]; intros Hinv.
  - apply threads_inv_thread; [done|by intros; simplify_map_eq| |by intros ?? []%not_elem_of_nil|by right].
    apply repeat_length.
  - destruct (ti_thread s Hinv tid th Hth) as [Hbuf _].
    destruct (call_result c (at_buf th) calls buf' r' Hc Hbuf Hcall) as (Hlen & Hwf & _).
    apply threads_inv_thread; simpl; [done| |congruence|done|by left]. intros th2 ha2 calls2 Hth2. congruence.
  - apply (threads_inv_inside s ha m _ tid); try done; rewrite ?Hpc; try done; simpl.
    + intros; by right.
    + intros tid2 Hne. by rewrite lookup_insert_ne.
    + by eexists.
  - apply (threads_inv_inside s ha m _ tid); try done; rewrite ?Hpc; try done.
    + intros ha2 rec. by destruct (hs_prods m' !! tid).
    + by intros ? ? [= <- _].
    + intros tid2 Hne. by eapply log_step_others.
    + intros [? ->]. by eexists.
    + by eapply log_step_destroy.
  - destruct (ti_thread s Hinv tid th Hth) as [Hbuf _].
    apply threads_inv_thread; simpl; [done| |done|by intros ?? []%not_elem_of_nil|by right].
    intros th2 ha2 calls2 Hth2. congruence.
  - apply consumer_step_prods in Hc as (Hp & _ & Hd). eapply threads_inv_machine; [done..|]. by left.
  - destruct Hinv as [Ht Hin _ _]. split; done.
  - apply destroy_step_frame in Hd as (Hp & _). eapply (threads_inv_machine s); [done..|]. right. rewrite Hsd. done.
Qed.

Lemma threads_inv_run tr (s : state) : run step start tr s -> threads_inv s.
Proof. intros Hrun. induction Hrun; [apply threads_inv_start|by eapply threads_inv_step]. Qed.

(** ** Each handler's share of a run *)

Definition proj_event (ha : addr) (e : sys_event) : list ring_event :=
  match e with
  | SysTau | SysCall _ _ => []
  | SysEnter _ ha' => if decide (ha' = ha) then [EvTau] else []
  | SysLog _ ha' _ ev | SysConsumer ha' ev | SysDestroy ha' ev => if decide (ha' = ha) then [ev] else []
  end.

Definition projection (ha : addr) (tr : list sys_event) : list ring_event := tr ≫= proj_event ha.

Lemma projection_snoc ha tr e : projection ha (tr ++ [e]) = projection ha tr ++ proj_event ha e.
Proof. unfold projection. rewrite bind_app. simpl. by rewrite app_nil_r. Qed.

Lemma length_projection ha tr : (length (projection ha tr) <= length tr)%nat.
Proof.
  induction tr as [|e tr IH]; [done|]. change (projection ha (e :: tr)) with (proj_event ha e ++ projection ha tr).
  rewrite length_app. simpl. destruct e; simpl; try (destruct (decide _)); simpl; lia.
Qed.

(** What a step of the system is to each handler: a step of its machine, or nothing. *)
Lemma step_projects (s : state) e s' ha m' : threads_inv s -> step s e s' -> ss_handlers s' !! ha = Some m' ->
  exists m, ss_handlers s !! ha = Some m /\
    (proj_event ha e = [] /\ m' = m \/
     exists ev, proj_event ha e = [ev] /\ handler_step (mask_of (k ha)) m ev m').
Proof.
  intros Hinv Hstep. revert Hinv.
  destruct Hstep as [s tid Hnone|s tid th c calls buf' r' Hsd Hth Hpc Hc Hcall
    |s tid th ha2 h hname rec calls m Hth Hpc Hh Hn Hm|s tid th ha2 calls m lth weak ev m2 Hth Hpc Hm Hl Hlog
    |s tid th Hth Hpc|s ha2 m spurious ev m2 Hm Hc|s Hsd Hidle|s ha2 todo m ev m2 Hsd Hm Hd]; simpl; intros Hinv Hm'.
  1, 2, 5, 7: eexists; split; [done|by left].
  all: destruct (decide (ha2 = ha)) as [->|Hne];
    [rewrite lookup_insert_eq in Hm'; simplify_eq; exists m; split; [done|]; right; eexists; split; [done|]
    |rewrite lookup_insert_ne in Hm' by done; eexists; split; [done|by left]].
  - apply hstep_call.
    + destruct (hs_prods m !! tid) as [lth|] eqn:Hl; [|done]. exfalso.
      destruct (ti_inside s Hinv ha m tid Hm ltac:(by rewrite Hl)) as (th2 & calls2 & Hth2 & Hpc2). congruence.
    + apply (proj2 (ti_thread s Hinv tid th Hth) ha). rewrite Hpc. by left.
  - by eapply hstep_log.
  - by eapply hstep_consumer.
  - by eapply hstep_destroy.
Qed.

Lemma projection_run tr (s : state) ha m : run step start tr s -> ss_handlers s !! ha = Some m ->
  run (handler_step (mask_of (k ha))) (handler_start (k ha) (sink0 ha)) (projection ha tr) m.
Proof.
  intros Hrun. revert m. induction Hrun as [|tr s1 e s2 Hrun IH Hstep]; intros m Hm.
  - simpl in Hm. rewrite map_lookup_imap in Hm. destruct (g_handlers r !! ha); simpl in Hm; simplify_eq. constructor.
  - destruct (step_projects s1 e s2 ha m (threads_inv_run tr s1 Hrun) Hstep Hm) as (m1 & Hm1 & [[He ->]|(ev & He & Hs)]);
      rewrite projection_snoc, He.
    + rewrite app_nil_r. by apply IH.
    + eapply run_snoc; [by apply IH|done].
Qed.

Lemma running_before_shutdown tr (s : state) ha m : run step start tr s -> ss_shutdown s = None ->
  ss_handlers s !! ha = Some m -> hs_running m = true.
Proof.
  intros Hrun Hsd Hm. pose proof (projection_run tr s ha m Hrun Hm) as Hp.
  rewrite (wi_running (k ha) m (wake_inv_run (k ha) (sink0 ha) _ m Hp)).
  by rewrite (ti_running s (threads_inv_run tr s Hrun) Hsd ha m Hm).
Qed.

(** ** The records of a thread *)

(** The records the calls of thread [tid] ask handler [ha] to log. *)
Definition requested (tid : nat) (ha : addr) (tr : list sys_event) : list log_view :=
  tr ≫= (fun e => match e with
    | SysCall tid' c => if decide (tid' = tid) then call_views ha c else []
    | _ => []
    end).

(** The records thread [tid] has offered to the ring of [ha], whether it had room or not. *)
Definition offered (tid : nat) (ha : addr) (tr : list sys_event) : list log_view :=
  tr ≫= (fun e => match e with
    | SysLog tid' ha' v ev => if decide (tid' = tid /\ ha' = ha) then if decides ev then [v] else [] else []
    | _ => []
    end).

(** The records the ring of [ha] has taken, each with the thread it is from. *)
Definition accepted (ha : addr) (tr : list sys_event) : list (nat * log_view) :=
  tr ≫= (fun e => match e with
    | SysLog tid ha' v (EvEnq _) => if decide (ha' = ha) then [(tid, v)] else []
    | _ => []
    end).

Definition accepted_from (tid : nat) (ha : addr) (tr : list sys_event) : list log_view :=
  map snd (filter (fun p => p.1 = tid) (accepted ha tr)).

(** What thread [tid] is still to offer to [ha] before its call returns. *)
Definition pending (s : state) (tid : nat) (ha : addr) (m : handler_state St) : list log_view :=
  undecided (hs_prods m !! tid) ++ todo ha (calls_of (from_option at_pc AppIdle (ss_threads s !! tid))).

Definition records_inv (tr : list sys_event) (s : state) : Prop :=
  forall tid ha m, ss_handlers s !! ha = Some m ->
    requested tid ha tr = offered tid ha tr ++ pending s tid ha m.

Lemma requested_snoc tid ha tr e : requested tid ha (tr ++ [e]) = requested tid ha tr ++ requested tid ha [e].
Proof. apply bind_app. Qed.

Lemma offered_snoc tid ha tr e : offered tid ha (tr ++ [e]) = offered tid ha tr ++ offered tid ha [e].
Proof. apply bind_app. Qed.

Lemma accepted_snoc ha tr e : accepted ha (tr ++ [e]) = accepted ha tr ++ accepted ha [e].
Proof. apply bind_app. Qed.

(** One step adds to what is requested what it adds to what is offered or pending. *)
Lemma records_inv_snoc tr e (s s' : state) tid ha m m' :
  requested tid ha tr = offered tid ha tr ++ pending s tid ha m ->
  pending s tid ha m ++ requested tid ha [e] = offered tid ha [e] ++ pending s' tid ha m' ->
  requested tid ha (tr ++ [e]) = offered tid ha (tr ++ [e]) ++ pending s' tid ha m'.
Proof. intros Hr He. by rewrite requested_snoc, offered_snoc, Hr, <- !app_assoc, He. Qed.

Lemma todo_cons ha ha' rec calls :
  todo ha ((ha', rec) :: calls) =
    (if decide (ha' = ha) then [view_of_record rec (handler_name ha)] else []) ++ todo ha calls.
Proof.
  unfold todo. destruct (decide (ha' = ha)) as [->|Hne].
  - by rewrite filter_cons_True by done.
  - by rewrite filter_cons_False by done.
Qed.

(** The calls a thread has to make, after an update of the thread [tid]. *)
Lemma calls_of_insert (threads : gmap nat app_thread) tid th tid' :
  calls_of (from_option at_pc AppIdle (<[tid := th]> threads !! tid')) =
    if decide (tid = tid') then calls_of (at_pc th) else calls_of (from_option at_pc AppIdle (threads !! tid')).
Proof.
  destruct (decide (tid = tid')) as [->|Hne]; [by rewrite lookup_insert_eq|by rewrite lookup_insert_ne].
Qed.

Lemma outside_undecided (s : state) tid ha m : threads_inv s -> ss_handlers s !! ha = Some m ->
  ~ inside s ha tid -> hs_prods m !! tid = None.
Proof.
  intros Hinv Hm Hout. destruct (hs_prods m !! tid) eqn:Hl; [|done]. exfalso. apply Hout.
  apply (ti_inside s Hinv ha m tid Hm). by rewrite Hl.
Qed.

Lemma records_inv_call (s : state) tid th c calls buf' tid' ha m : ss_threads s !! tid = Some th ->
  at_pc th = AppIdle -> todo ha calls = call_views ha c ->
  pending s tid' ha m ++ requested tid' ha [SysCall tid c] =
    offered tid' ha [SysCall tid c] ++ pending (set_thread s tid (mk_app_thread buf' (AppDispatch calls))) tid' ha m.
Proof.
  intros Hth Hpc Htodo. unfold pending, requested, offered. cbn [mbind list_bind app set_thread ss_threads].
  rewrite calls_of_insert, app_nil_r, <- app_assoc.
  f_equal. destruct (decide (tid = tid')) as [<-|Hne]; [|by rewrite app_nil_r].
  rewrite Hth. cbn [from_option at_pc]. by rewrite Hpc, <- Htodo.
Qed.

Lemma records_inv_enter (s : state) tid th ha h hname rec calls m tid' ha' m1 m1' : threads_inv s ->
  ss_threads s !! tid = Some th -> at_pc th = AppDispatch ((ha, rec) :: calls) ->
  g_handlers r !! ha = Some h -> h_name h = Some hname -> ss_handlers s !! ha = Some m ->
  ss_handlers s !! ha' = Some m1 ->
  <[ha := with_threads m (<[tid := mk_log_thread rec hname LogCheckRunning]> (hs_prods m))]> (ss_handlers s) !! ha' = Some m1' ->
  pending s tid' ha' m1 =
    pending (set_thread (set_machine s ha
           (with_threads m (<[tid := mk_log_thread rec hname LogCheckRunning]> (hs_prods m))))
           tid (mk_app_thread (at_buf th) (AppInside ha calls))) tid' ha' m1'.
Proof.
  intros Hinv Hth Hpc Hh Hn Hm Hm1 Hm1'. unfold pending. cbn [set_thread ss_threads set_machine].
  rewrite calls_of_insert. destruct (decide (tid = tid')) as [<-|Hne].
  - rewrite Hth. cbn [from_option at_pc calls_of]. rewrite Hpc. cbn [calls_of]. rewrite todo_cons.
    rewrite (outside_undecided s tid ha' m1) by (done || intros (th2 & calls2 & Hth2 & Hpc2); congruence).
    destruct (decide (ha = ha')) as [->|Hha].
    + rewrite lookup_insert_eq in Hm1'. simplify_eq. cbn. rewrite lookup_insert_eq.
      unfold handler_name. by rewrite Hh; cbn; rewrite Hn.
    + rewrite lookup_insert_ne in Hm1' by done. rewrite (outside_undecided s tid ha' m1'); [done|done|done|].
      intros (th2 & calls2 & Hth2 & Hpc2). congruence.
  - destruct (decide (ha = ha')) as [->|Hha].
    + rewrite lookup_insert_eq in Hm1'. simplify_eq. cbn. by rewrite lookup_insert_ne.
    + rewrite lookup_insert_ne in Hm1' by done. by simplify_eq.
Qed.

Lemma records_inv_log (s : state) tid th ha calls m lth weak ev m' tid' ha' m1 m1' : threads_inv s ->
  ss_threads s !! tid = Some th -> at_pc th = AppInside ha calls -> ss_handlers s !! ha = Some m ->
  hs_running m = true -> hs_prods m !! tid = Some lth -> log_impl_step (mask_of (k ha)) tid weak m = Some (ev, m') ->
  ss_handlers s !! ha' = Some m1 -> <[ha := m']> (ss_handlers s) !! ha' = Some m1' ->
  let e := SysLog tid ha (view_of_record (lt_rec lth) (lt_handler lth)) ev in
  pending s tid' ha' m1 = offered tid' ha' [e] ++
    pending (set_thread (set_machine s ha m') tid (mk_app_thread (at_buf th)
              (match hs_prods m' !! tid with None => AppDispatch calls | Some _ => AppInside ha calls end))) tid' ha' m1'.
Proof.
  intros Hinv Hth Hpc Hm Hrun Hl Hlog Hm1 Hm1' e. unfold pending, offered, e. cbn [set_thread ss_threads set_machine].
  rewrite calls_of_insert. destruct (log_step_decides _ _ _ _ _ _ _ Hl Hrun Hlog) as (Hdec & _).
  assert (calls_of (at_pc (mk_app_thread (at_buf th)
    (match hs_prods m' !! tid with None => AppDispatch calls | Some _ => AppInside ha calls end))) = calls) as ->
    by (cbn [at_pc]; by destruct (hs_prods m' !! tid)).
  cbn [mbind list_bind]. rewrite app_nil_r. destruct (decide (ha = ha')) as [->|Hha].
  - rewrite lookup_insert_eq in Hm1'. assert (m1 = m) as -> by congruence. assert (m1' = m') as -> by congruence.
    destruct (decide (tid = tid')) as [<-|Hne].
    + rewrite decide_True by done. rewrite Hl, Hdec, Hth. cbn [from_option at_pc]. rewrite Hpc. by rewrite app_assoc.
    + rewrite decide_False by (intros []; congruence). by rewrite (log_step_others (k ha') tid tid' weak m ev m').
  - rewrite lookup_insert_ne in Hm1' by done. simplify_eq. rewrite decide_False by (intros []; congruence). cbn [app].
    f_equal. destruct (decide (tid = tid')) as [<-|Hne]; [|done]. by rewrite Hth; cbn; rewrite Hpc.
Qed.

Lemma busy_running tr (s : state) tid th ha m : run step start tr s -> ss_threads s !! tid = Some th ->
  at_pc th <> AppIdle -> ss_handlers s !! ha = Some m -> hs_running m = true.
Proof.
  intros Hrun Hth Hpc Hm. apply (running_before_shutdown tr s ha m Hrun); [|done].
  destruct (ss_shutdown s) eqn:Hsd; [|done]. exfalso.
  apply Hpc, (ti_idle s (threads_inv_run tr s Hrun) ltac:(by rewrite Hsd) tid th Hth).
Qed.

Lemma records_inv_step tr (s : state) e s' : run step start tr s -> records_inv tr s -> step s e s' ->
  records_inv (tr ++ [e]) s'.
Proof.
  intros Hrun Hrec Hstep tid2 ha2 m2' Hm2'. pose proof (threads_inv_run tr s Hrun) as Hinv.
  destruct (step_projects s e s' ha2 m2' Hinv Hstep Hm2') as (m2 & Hm2 & _).
  eapply records_inv_snoc; [by apply Hrec|]. revert Hrun Hinv Hm2 Hm2'. clear Hrec.
  destruct Hstep as [s tid Hnone|s tid th c calls buf' r' Hsd Hth Hpc Hc Hcall
    |s tid th ha h hname rec calls m Hth Hpc Hh Hn Hm|s tid th ha calls m lth weak ev m' Hth Hpc Hm Hl Hlog
    |s tid th Hth Hpc|s ha m spurious ev m' Hm Hc|s Hsd Hidle|s ha rest m ev m' Hsd Hm Hd]; intros Hrun Hinv Hm2 Hm2'.
  1, 2, 5, 7: assert (m2' = m2) as -> by (simpl in Hm2'; congruence).
  - unfold pending. cbn [set_thread ss_threads]. rewrite calls_of_insert, app_nil_r.
    destruct (decide (tid = tid2)) as [<-|]; [by rewrite Hnone|done].
  - destruct (ti_thread s Hinv tid th Hth) as [Hbuf _].
    destruct (call_result c (at_buf th) calls buf' r' Hc Hbuf Hcall) as (_ & _ & Htodo).
    by eapply records_inv_call.
  - unfold pending. cbn [set_thread ss_threads]. rewrite calls_of_insert, app_nil_r.
    destruct (decide (tid = tid2)) as [<-|]; [|done]. rewrite Hth. cbn [from_option at_pc]. by rewrite Hpc.
  - by rewrite app_nil_r.
  - rewrite app_nil_r. by eapply records_inv_enter.
  - rewrite app_nil_r. eapply records_inv_log; try done. eapply busy_running; [done..| |done]. by rewrite Hpc.
  - apply consumer_step_prods in Hc as (Hp & _). rewrite app_nil_r. unfold pending. simpl in *.
    apply lookup_insert_Some in Hm2' as [[<- <-]|[_ Hl]]; [|congruence]. rewrite Hp. congruence.
  - apply destroy_step_frame in Hd as (Hp & _). rewrite app_nil_r. unfold pending. simpl in *.
    apply lookup_insert_Some in Hm2' as [[<- <-]|[_ Hl]]; [|congruence]. rewrite Hp. congruence.
Qed.

Lemma records_inv_run tr (s : state) : run step start tr s -> records_inv tr s.
Proof.
  intros Hrun. induction Hrun as [|tr s1 e s2 Hrun IH Hstep]; [|by eapply records_inv_step].
  intros tid ha m Hm. simpl in Hm. rewrite map_lookup_imap in Hm.
  by destruct (g_handlers r !! ha); simpl in Hm; simplify_eq.
Qed.

(** ** What the rings accept *)

Lemma enqueued_projection tr (s : state) ha : run step start tr s ->
  enqueued (projection ha tr) = map snd (accepted ha tr).
Proof.
  intros Hrun. induction Hrun as [|tr s1 e s2 Hrun IH Hstep]; [done|].
  rewrite projection_snoc, accepted_snoc, map_app, <- IH. unfold enqueued. rewrite omap_app. f_equal.
  revert Hrun. destruct Hstep as [| | |s tid th ha2 calls m lth weak ev m' Hth Hpc Hm Hl Hlog
    | |s ha2 m spurious ev m' Hm Hc| |s ha2 rest m ev m' Hsd Hm Hd]; intros Hrun; simpl; try done.
  - by destruct (decide _).
  - assert (hs_running m = true) as Hr by (eapply busy_running; [done..| |done]; by rewrite Hpc).
    destruct (log_step_decides _ _ _ _ _ _ _ Hl Hr Hlog) as (_ & Hv & _).
    destruct ev as [|v| |v]; simpl; destruct (decide (ha2 = ha)); simpl; try done. by rewrite (Hv v eq_refl).
  - apply consumer_step_event in Hc. destruct (decide _); [|done]. by destruct ev.
  - apply destroy_ring_step in Hd as [-> _]. by destruct (decide _).
Qed.
End system.

(** Only refusals stand between what a thread offers and what the ring takes. *)
Lemma accepted_from_snoc tid ha tr e :
  accepted_from tid ha (tr ++ [e]) = accepted_from tid ha tr ++ accepted_from tid ha [e].
Proof. unfold accepted_from. by rewrite accepted_snoc, filter_app, map_app. Qed.

Lemma accepted_from_offered tid ha e :
  (accepted_from tid ha [e] `sublist_of` offered tid ha [e])%stdpp /\
  (rejections (proj_event ha e) = [] -> accepted_from tid ha [e] = offered tid ha [e]).
Proof.
  unfold accepted_from, accepted, offered. destruct e as [| | |tid2 ha2 v ev| |]; try done. simpl.
  destruct (decide (ha2 = ha)) as [->|Hne].
  2: { rewrite decide_False by (intros []; congruence). by destruct ev. }
  destruct (decide (tid2 = tid)) as [->|Hne].
  - rewrite decide_True by done. destruct ev; simpl; try done; [|split; [apply sublist_nil_l|done]].
    by rewrite filter_cons_True.
  - rewrite decide_False by (intros []; congruence). destruct ev; simpl; try done. by rewrite filter_cons_False.
Qed.

Lemma accepted_sublist_offered tid ha tr : (accepted_from tid ha tr `sublist_of` offered tid ha tr)%stdpp.
Proof.
  induction tr as [|e tr IH] using rev_ind; [done|]. rewrite accepted_from_snoc, offered_snoc.
  apply sublist_app; [done|]. apply accepted_from_offered.
Qed.

Lemma accepted_all_offered tid ha tr : rejections (projection ha tr) = [] ->
  accepted_from tid ha tr = offered tid ha tr.
Proof.
  induction tr as [|e tr IH] using rev_ind; [done|]. rewrite accepted_from_snoc, offered_snoc, projection_snoc.
  unfold rejections. rewrite omap_app. intros [Ht He]%app_eq_nil. rewrite IH by done. f_equal.
  by apply accepted_from_offered.
Qed.
