(* ===== verification/SystemTheorems.v ===== *)
(** What the program as a whole does with its log calls, on the system of
    [System.v]: a thread's calls put exactly the records the registry asks for
    before each handler's ring, in program order; what the rings take reaches
    the sinks; and [lmk_destroy] stops the handlers one by one. *)
From S2P Require Import Prelude Types Ring RingMachine AsyncHandler AsyncSafety AsyncCounters AsyncTheorems Registry RegistrySafety RegistryTheorems System SystemSafety.
Local Open Scope Z_scope.

Section system.
Context {St : Type} `{Sink St}.
Context (init : registry -> outcome registry) (r : registry).
Context (k : addr -> nat) (sink0 : addr -> St).
Hypothesis init_initialized : forall r, g_initialized r = true -> init r = Ok r.
Hypothesis Hok : registry_ok r.
Abbreviation state := (system St).
Abbreviation step := (system_step init r k).
Abbreviation start := (system_start r k sink0).

(** ** Idle threads *)

Lemma idle_pending tr (s : state) tid ha m : run step start tr s -> ss_handlers s !! ha = Some m ->
  (forall th, ss_threads s !! tid = Some th -> at_pc th = AppIdle) -> pending r s tid ha m = [].
Proof.
  intros Hrun Hm Hidle. unfold pending.
  rewrite (outside_undecided s tid ha m); [|by eapply threads_inv_run|done|].
  - destruct (ss_threads s !! tid) as [th|] eqn:Hth; [|done]. cbn [from_option]. by rewrite (Hidle th).
  - intros (th & calls & Hth & Hpc). by rewrite (Hidle th Hth) in Hpc.
Qed.

Lemma idle_prods tr (s : state) ha m : run step start tr s -> ss_handlers s !! ha = Some m -> all_idle s ->
  hs_prods m = ∅.
Proof.
  intros Hrun Hm Hidle. apply map_empty. intros tid.
  apply (outside_undecided s tid ha m); [by eapply threads_inv_run|done|].
  intros (th & calls & Hth & Hpc). by rewrite (Hidle tid th Hth) in Hpc.
Qed.

Lemma idle_offered tr (s : state) tid ha m : run step start tr s -> ss_handlers s !! ha = Some m ->
  (forall th, ss_threads s !! tid = Some th -> at_pc th = AppIdle) -> offered tid ha tr = requested r tid ha tr.
Proof.
  intros Hrun Hm Hidle. rewrite (records_inv_run init r k sink0 init_initialized Hok tr s Hrun tid ha m Hm).
  by rewrite (idle_pending tr s) by done; rewrite app_nil_r.
Qed.

(** What a drained handler has given its sink, when its ring refused nothing. *)
Lemma drained_handler tr (s : state) ha m : run step start tr s -> ss_handlers s !! ha = Some m ->
  (1 <= k ha <= 32)%nat -> Z.of_nat (length tr) <= 2 ^ 62 ->
  all_idle s -> hs_cons m = KParked -> hs_dropped m = 0 ->
  exists ops, hs_sink m = sink_replay ops (sink0 ha) /\ processed ops = map snd (accepted ha tr) /\
    last ops = Some OpIdle /\ (OpFinish ∉ ops) /\ forall tid, accepted_from tid ha tr = requested r tid ha tr.
Proof.
  intros Hrun Hm Hk Hlen Hidle Hparked Hdrop.
  pose proof (projection_run init r k sink0 init_initialized Hok tr s ha m Hrun Hm) as Hproj.
  pose proof (length_projection ha tr). pose proof (idle_prods tr s ha m Hrun Hm Hidle) as Hprods.
  destruct (quiescent_drained (k ha) (sink0 ha) (projection ha tr) m Hk ltac:(lia) Hproj Hparked Hprods)
    as (_ & (ops & Hsink & Hops & Hlast & Hrunning) & _).
  exists ops. split; [done|]. split; [by rewrite Hops, (enqueued_projection init r k sink0 init_initialized Hok tr s)|].
  split; [done|]. split; [done|]. intros tid. rewrite <- (idle_offered tr s tid ha m Hrun Hm (Hidle tid)).
  apply accepted_all_offered.
  destruct (counters_inv_run (k ha) (sink0 ha) (projection ha tr) m ltac:(lia) Hproj) as (_ & Hr & _).
  rewrite Hprods, Hdrop in Hr. unfold count in Hr. rewrite count_if_zero in Hr by done.
  apply length_zero_iff_nil. lia.
Qed.

(** ** Shutdown *)

Lemma destroys_suffix (calls : list method_call) l :
  omap (fun c => match c with CallDestroy ha => Some ha | _ => None end)
    (drop (length calls) (calls ++ map CallDestroy l)) = l.
Proof. rewrite drop_app_length. induction l as [|a l IH]; [done|]. simpl. f_equal. exact IH. Qed.

Lemma destroy_order_list : destroy_order init r = g_handler_list r.
Proof.
  unfold destroy_order. rewrite (destroy_terminates init init_initialized _ r Hok); [|lia|lia|].
  - apply destroys_suffix.
  - intros a l Hl. pose proof (refs_length_bound r a l Hok Hl). lia.
Qed.

(** A joined consumer has left its loop. *)
Lemma joined_exit_step n (m : handler_state St) ev m' : handler_step (mask_of n) m ev m' ->
  (hs_destroy m = DDone -> hs_cons m = KExit) -> hs_destroy m' = DDone -> hs_cons m' = KExit.
Proof.
  intros Hstep. destruct Hstep as [m0 tid rec h Hnone Hrec|m0 tid weak ev0 m0' Hs|m0 spurious ev0 m0' Hs|m0 ev0 m0' Hs];
    intros Hinv Hd.
  - by apply Hinv.
  - rewrite (log_step_destroy n tid weak m0 ev0 m0') in Hd by done. specialize (Hinv Hd).
    apply log_impl_step_move in Hs as (th & _ & Hmove).
    destruct Hmove; simpl; unfold wake; by rewrite ?Hinv.
  - assert (hs_destroy m0 = DDone) as Hd0.
    { rewrite <- Hd. unfold consumer_step, acquire in Hs. clear Hinv Hd. destruct (hs_cons m0); simplify_eq; simpl; try done.
      all: repeat case_match; simpl in *; by simplify_eq. }
    unfold consumer_step in Hs. by rewrite (Hinv Hd0) in Hs.
  - unfold destroy_step, acquire in Hs. destruct (hs_destroy m0) eqn:Hd0; simplify_eq; simpl in *; try done.
    + destruct (hs_lock m0); simpl in *; by simplify_eq.
    + destruct (hs_cons m0) eqn:Hc; by simplify_eq.
Qed.

Lemma joined_exit_run ha mtr (m : handler_state St) :
  run (handler_step (mask_of (k ha))) (handler_start (k ha) (sink0 ha)) mtr m ->
  hs_destroy m = DDone -> hs_cons m = KExit.
Proof. intros Hrun. induction Hrun as [|mtr m1 e m2 Hrun IH Hstep]; [done|]. by eapply joined_exit_step. Qed.

(** [lmk_destroy] has finished with the handlers before [rest], is in the first
    of [rest] and has not touched the others. *)
Definition shutdown_inv (s : state) : Prop :=
  forall rest, ss_shutdown s = Some rest -> exists finished, g_handler_list r = finished ++ rest /\
    forall ha m, ss_handlers s !! ha = Some m ->
      (ha ∈ finished -> hs_destroy m = DDone) /\ (ha ∈ tail rest -> hs_destroy m = DIdle).

Lemma shutdown_inv_machine (s : state) ha m m' : shutdown_inv s -> ss_handlers s !! ha = Some m ->
  hs_destroy m' = hs_destroy m -> shutdown_inv (set_machine s ha m').
Proof.
  intros Hinv Hm Hd rest Hrest. destruct (Hinv rest Hrest) as (finished & Hl & Hall). exists finished. split; [done|].
  intros ha2 m2. simpl. intros [[<- <-]|[_ Hm2]]%lookup_insert_Some; [rewrite Hd|]; by apply Hall.
Qed.

Lemma shutdown_inv_step (s : state) e s' : threads_inv s -> shutdown_inv s -> step s e s' -> shutdown_inv s'.
Proof.
  intros Hti Hinv Hstep. revert Hti Hinv. destruct Hstep as [s tid Hnone|s tid th c calls buf' r' Hsd Hth Hpc Hc Hcall
    |s tid th ha h hname rec calls m Hth Hpc Hh Hn Hm|s tid th ha calls m lth weak ev m' Hth Hpc Hm Hl Hlog
    |s tid th Hth Hpc|s ha m spurious ev m' Hm Hc|s Hsd Hidle|s ha todo m ev m' Hsd Hm Hd]; intros Hti Hinv; try done.
  - by apply (shutdown_inv_machine s ha m).
  - apply (shutdown_inv_machine s ha m); [done..|by eapply log_step_destroy].
  - apply consumer_step_prods in Hc as (_ & _ & Hd). by apply (shutdown_inv_machine s ha m).
  - intros rest [= <-]. exists []. split; [by rewrite destroy_order_list|]. intros ha m Hm.
    split; [by intros ?%not_elem_of_nil|]. intros _. by apply (ti_running s Hti Hsd ha m).
  - intros rest. simpl. intros [= <-]. destruct (Hinv _ Hsd) as (finished & Hl & Hall).
    pose proof (proj1 (ro_handler_list r Hok)) as Hnd. rewrite Hl in Hnd.
    apply NoDup_app in Hnd as (_ & Hdisj & Hnd%NoDup_cons_1_1).
    assert (ha ∉ finished) as Hha by (intros Hin; apply (Hdisj ha Hin); by left).
    assert (hs_destroy m' = DDone \/ match hs_destroy m' with DDone => todo | _ => ha :: todo end = ha :: todo)
      as [Hdone| ->] by (destruct (hs_destroy m'); auto).
    + rewrite Hdone. exists (finished ++ [ha]). rewrite <- app_assoc. split; [done|].
      intros ha2 m2. intros [[<- <-]|[Hne Hm2]]%lookup_insert_Some.
      * split; [done|]. intros Hin. exfalso. apply Hnd. destruct todo; [done|by right].
      * destruct (Hall ha2 m2 Hm2) as [Hfin Hrest]. split.
        -- intros [Hin| ->%list_elem_of_singleton]%elem_of_app; [by apply Hfin|done].
        -- intros Hin. apply Hrest. simpl. destruct todo; [done|by right].
    + exists finished. split; [done|]. intros ha2 m2. intros [[<- <-]|[Hne Hm2]]%lookup_insert_Some; [done|by apply Hall].
Qed.

Lemma shutdown_inv_run tr (s : state) : run step start tr s -> shutdown_inv s.
Proof.
  intros Hrun. induction Hrun as [|tr s1 e s2 Hrun IH Hstep]; [done|].
  eapply shutdown_inv_step; [by eapply threads_inv_run|done..].
Qed.
End system.

(** ** The properties *)

Section theorems.
Context {St : Type} `{Sink St}.

(** C7. A thread that is outside the library has offered to each handler's ring
    exactly the records its calls ask for: one for every call the logger's and
    the handler's level admit, with the call's level, place and text, in program
    order. The ring has taken those it had room for, in the same order. *)
Theorem calls_reach_rings_in_program_order config_ok auto_config (r : registry) (k : addr -> nat)
    (sink0 : addr -> St) (tr : list sys_event) (s : system St) (tid : nat) (ha : addr) (m : handler_state St)
    (Hok : registry_ok r)
    (Hrun : run (system_step (lmk_init config_ok auto_config) r k) (system_start r k sink0) tr s)
    (Hm : ss_handlers s !! ha = Some m)
    (Hidle : forall th, ss_threads s !! tid = Some th -> at_pc th = AppIdle) :
  offered tid ha tr = requested r tid ha tr /\
  (accepted_from tid ha tr `sublist_of` requested r tid ha tr)%stdpp /\
  enqueued (projection ha tr) = map snd (accepted ha tr).
Proof.
  pose proof (lmk_init_initialized config_ok auto_config) as Hinit.
  pose proof (idle_offered _ r k sink0 Hinit Hok tr s tid ha m Hrun Hm Hidle) as Hoff.
  split; [done|]. split; [rewrite <- Hoff; apply accepted_sublist_offered|].
  by apply (enqueued_projection _ r k sink0 Hinit Hok tr s).
Qed.

(** C3. Delivery: when no thread is logging, a handler's consumer sleeps and its
    drop counter is zero, its sink has processed an interleaving of everything
    the threads' calls asked it to log - each thread's records in the order of
    its calls, none lost, none twice - and has then flushed. *)
Theorem sink_gets_all_threads_records config_ok auto_config (r : registry) (k : addr -> nat)
    (sink0 : addr -> St) (tr : list sys_event) (s : system St) (ha : addr) (m : handler_state St)
    (Hok : registry_ok r)
    (Hrun : run (system_step (lmk_init config_ok auto_config) r k) (system_start r k sink0) tr s)
    (Hm : ss_handlers s !! ha = Some m) (Hk : (1 <= k ha <= 32)%nat) (Hlen : Z.of_nat (length tr) <= 2 ^ 62)
    (Hidle : all_idle s) (Hparked : hs_cons m = KParked) (Hdrop : hs_dropped m = 0) :
  exists ops from, hs_sink m = sink_replay ops (sink0 ha) /\ last ops = Some OpIdle /\
    processed ops = map snd from /\
    forall tid, map snd (filter (fun p => p.1 = tid) from) = requested r tid ha tr.
Proof.
  destruct (drained_handler _ r k sink0 (lmk_init_initialized config_ok auto_config) Hok tr s ha m)
    as (ops & Hsink & Hops & Hlast & _ & Hfrom); [done..|]. by exists ops, (accepted ha tr).
Qed.

(** C16. Shutdown: [lmk_destroy] destroys the handlers one after the other in the
    order of registration. Those it has finished with have stopped their
    consumer, whose last act was the final flush, and every record they
    released has been processed; those it has not come to are untouched. *)
Theorem shutdown_stops_handlers_in_order config_ok auto_config (r : registry) (k : addr -> nat)
    (sink0 : addr -> St) (tr : list sys_event) (s : system St) (rest : list addr)
    (Hok : registry_ok r)
    (Hrun : run (system_step (lmk_init config_ok auto_config) r k) (system_start r k sink0) tr s)
    (Hdown : ss_shutdown s = Some rest) :
  exists finished, g_handler_list r = finished ++ rest /\ all_idle s /\
    forall ha m, ss_handlers s !! ha = Some m ->
      (ha ∈ finished -> hs_cons m = KExit /\ hs_running m = false /\
        exists ops, hs_sink m = sink_replay ops (sink0 ha) /\ last ops = Some OpFinish /\
          processed ops = dequeued (projection ha tr)) /\
      (ha ∈ tail rest -> hs_destroy m = DIdle /\ hs_running m = true).
Proof.
  pose proof (lmk_init_initialized config_ok auto_config) as Hinit.
  destruct (shutdown_inv_run _ r k sink0 Hinit Hok tr s Hrun rest Hdown) as (finished & Hl & Hall).
  exists finished. split; [done|].
  split; [by apply (ti_idle s (threads_inv_run _ r k sink0 Hinit Hok tr s Hrun)); rewrite Hdown|].
  intros ha m Hm. destruct (Hall ha m Hm) as [Hfin Hrest].
  pose proof (projection_run _ r k sink0 Hinit Hok tr s ha m Hrun Hm) as Hproj.
  pose proof (wi_running (k ha) m (wake_inv_run (k ha) (sink0 ha) _ m Hproj)) as Hr.
  split; intros Hin; [specialize (Hfin Hin)|specialize (Hrest Hin); by rewrite Hr, Hrest].
  pose proof (joined_exit_run k sink0 ha _ m Hproj Hfin) as Hexit.
  split; [done|]. split; [by rewrite Hr, Hfin|].
  destruct (sink_inv_run (k ha) (sink0 ha) _ m Hproj) as (ops & Hs & Hp & Hlast & _).
  exists ops. rewrite Hexit in Hp, Hlast. simpl in Hp, Hlast. rewrite app_nil_r in Hp. auto.
Qed.
End theorems.

(** ** Concrete runs *)

Definition ex_call (level : Z) (text : string) : log_call :=
  mk_log_call (Some 1%positive) "main.c" 10 level (chars text).

(** Two threads log at the same time; a third call is below the logger's level. *)
Definition two_threads : list sys_action :=
  [DoSpawn 0; DoSpawn 1; DoCall 0 (ex_call LMK_LOG_LEVEL_INFO "one"); DoCall 1 (ex_call LMK_LOG_LEVEL_WARN "two")] ++
  concat (replicate 20 [DoThread 0; DoThread 1]) ++ [DoCall 0 (ex_call LMK_LOG_LEVEL_DEBUG "quiet"); DoThread 0].

Definition let_drain : list sys_action := replicate 20 (DoConsumer 2%positive).

(** [lmk_destroy]: the handlers 2 and 3 in turn, each joined after its consumer's last steps. *)
Definition shut_down : list sys_action :=
  DoShutdown :: replicate 4 DoDestroy ++ replicate 12 (DoConsumer 2%positive) ++ [DoDestroy] ++
  replicate 3 DoDestroy.

Abbreviation ex_system acts :=
  (sys_schedule plain_init sample_registry (fun _ => 1%nat)
     (system_start sample_registry (fun _ => 1%nat) (fun _ => [] : list sink_op)) acts).

Definition ex_two : list sys_event * system (list sink_op) := ex_system (two_threads ++ let_drain).
Definition ex_two_machine : handler_state (list sink_op) :=
  default (handler_start 1 []) (ss_handlers ex_two.2 !! 2%positive).

Definition ex_down : list sys_event * system (list sink_op) := ex_system (two_threads ++ let_drain ++ shut_down).

Lemma ex_two_machine_at : ss_handlers ex_two.2 !! 2%positive = Some ex_two_machine.
Proof. vm_compute. reflexivity. Qed.

Definition ex_record (level : Z) (text : string) : log_view :=
  mk_log_view level 10 "main.c" "console" (chars text).

Lemma calls_reach_rings_in_program_order_witness :
  requested sample_registry 0 2 ex_two.1 = [ex_record LMK_LOG_LEVEL_INFO "one"] /\
  offered 0 2 ex_two.1 = requested sample_registry 0 2 ex_two.1 /\
  enqueued (projection 2 ex_two.1) = map snd (accepted 2 ex_two.1).
Proof.
  split; [vm_compute; reflexivity|].
  destruct (calls_reach_rings_in_program_order true Ok sample_registry (fun _ => 1%nat) (fun _ => []) ex_two.1 ex_two.2 0 2
    ex_two_machine sample_registry_ok (sys_schedule_run _ _ _ _ _) ex_two_machine_at) as (Ho & _ & He).
  - assert (check_idle ex_two.2 = true) as Hidle by (vm_compute; reflexivity).
    intros th. exact (check_idle_sound ex_two.2 Hidle 0%nat th).
  - exact (conj Ho He).
Defined.

Lemma sink_gets_all_threads_records_witness :
  hs_sink ex_two_machine =
    [OpProcess (ex_record LMK_LOG_LEVEL_INFO "one"); OpProcess (ex_record LMK_LOG_LEVEL_WARN "two"); OpIdle] /\
  exists from : list (nat * log_view), forall tid,
    map snd (filter (fun p => p.1 = tid) from) = requested sample_registry tid 2 ex_two.1.
Proof.
  split; [vm_compute; reflexivity|].
  destruct (sink_gets_all_threads_records true Ok sample_registry (fun _ => 1%nat) (fun _ => []) ex_two.1 ex_two.2 2
    ex_two_machine sample_registry_ok (sys_schedule_run _ _ _ _ _) ex_two_machine_at) as (ops & from & _ & _ & _ & Hfrom).
  - lia.
  - apply Z.leb_le. vm_compute. reflexivity.
  - apply check_idle_sound. vm_compute. reflexivity.
  - vm_compute. reflexivity.
  - vm_compute. reflexivity.
  - exact (ex_intro _ from Hfrom).
Defined.

Lemma shutdown_stops_handlers_in_order_witness :
  ss_shutdown ex_down.2 = Some [3%positive] /\
  exists finished, g_handler_list sample_registry = finished ++ [3%positive].
Proof.
  assert (ss_shutdown ex_down.2 = Some [3%positive]) as Hdown by (vm_compute; reflexivity).
  split; [exact Hdown|].
  destruct (shutdown_stops_handlers_in_order true Ok sample_registry (fun _ => 1%nat) (fun _ => []) ex_down.1 ex_down.2
    [3%positive] sample_registry_ok (sys_schedule_run _ _ _ _ _) Hdown) as (finished & Hl & _).
  exact (ex_intro _ finished Hl).
Defined.
