(* ===== verification/SystemLiveness.v ===== *)
(** The library never deadlocks: whenever an application thread is in a logging
    function it can move, or it waits for the wake-up lock of a handler whose
    owner can move; and whenever [lmk_destroy] is under way it can move, or the
    consumer it waits for can.  On top of the invariants of [SystemSafety.v]
    this needs that the calls a thread has still to make go to handlers that
    exist. *)
From S2P Require Import Prelude Types Ring RingMachine AsyncHandler AsyncSafety AsyncTheorems Format Registry RegistrySafety RegistryTheorems System SystemSafety SystemTheorems.
Local Open Scope Z_scope.

(** ** Calls go to registered handlers *)

Lemma dispatch_targets handlers rec refs :
  ensures (dispatch handlers rec refs) (Forall (fun call => is_Some (handlers !! call.1))).
Proof.
  induction refs as [|ha refs IH]; [by apply ensures_ok|]. apply ensures_deref. intros h Hh.
  destruct (_ <=? _); [|exact IH]. apply ensures_skip. intros _.
  eapply ensures_bind; [exact IH|]. intros calls Hcalls. apply ensures_ok. constructor; [by eexists|done].
Qed.

Lemma log_common_targets config_ok auto_config logger file_name line_no level text buf r : g_initialized r = true ->
  ensures (lmk_log_common (lmk_init config_ok auto_config) logger file_name line_no level text buf r)
    (fun '(calls, _, _) => Forall (fun call => is_Some (g_handlers r !! call.1)) calls).
Proof.
  intros Hr. unfold lmk_log_common. rewrite lmk_init_initialized, outcome_bind_ok by done.
  destruct logger as [la|]; [|by apply ensures_ok]. apply ensures_deref. intros l Hl.
  destruct (negb _); [by apply ensures_ok|]. destruct text as [text|]; [destruct (snprintf _ _ _) as [buf' n]|].
  all: eapply (ensures_bind _ _ (fun x => Forall (fun call => is_Some (g_handlers r !! call.1)) x.2));
    [|intros [res calls] Hcalls; by apply ensures_ok].
  all: unfold lmk_log_impl; rewrite Hl; cbn [deref]; rewrite outcome_bind_ok; repeat case_match; try by apply ensures_ok.
  all: eapply ensures_bind; [apply dispatch_targets|]; intros calls Hcalls; by apply ensures_ok.
Qed.

Section system.
Context {St : Type} `{Sink St}.
Context (config_ok : bool) (auto_config : registry -> outcome registry) (r : registry).
Context (k : addr -> nat) (sink0 : addr -> St).
Hypothesis Hok : registry_ok r.
Abbreviation state := (system St).
Abbreviation init := (lmk_init config_ok auto_config).
Abbreviation step := (system_step init r k).
Abbreviation start := (system_start r k sink0).
Abbreviation machine := (handler_state St).

Definition registered (ha : addr) : Prop := is_Some (g_handlers r !! ha).

(** What a thread or [lmk_destroy] is about to use is there. *)
Record targets_inv (s : state) : Prop := {
  tg_machines : forall ha, registered ha -> is_Some (ss_handlers s !! ha);
  tg_calls : forall tid th, ss_threads s !! tid = Some th -> Forall (fun call => registered call.1) (calls_of (at_pc th));
  tg_inside : forall tid th ha calls, ss_threads s !! tid = Some th -> at_pc th = AppInside ha calls ->
    exists m, ss_handlers s !! ha = Some m /\ is_Some (hs_prods m !! tid);
  tg_head : forall ha todo m, ss_shutdown s = Some (ha :: todo) -> ss_handlers s !! ha = Some m -> hs_destroy m <> DDone
}.

Lemma targets_inv_start : targets_inv start.
Proof.
  split; simpl; try done. intros ha [h Hh]. rewrite map_lookup_imap, Hh. by eexists.
Qed.

(** A thread moves outside the handlers. *)
Lemma targets_inv_thread (s : state) tid th' : targets_inv s ->
  (forall ha calls, at_pc th' <> AppInside ha calls) -> Forall (fun call => registered call.1) (calls_of (at_pc th')) ->
  targets_inv (set_thread s tid th').
Proof.
  intros [Hm Hc Hin Hhd] Hout Hcalls. split; [done| | |done].
  - intros tid2 th2. simpl. intros [[<- <-]|[_ Hl]]%lookup_insert_Some; [done|by eapply Hc].
  - intros tid2 th2 ha calls. simpl. intros [[<- <-]|[_ Hl]]%lookup_insert_Some Hpc; [by apply Hout in Hpc|by eapply Hin].
Qed.

(** A handler moves; the threads inside it stay. *)
Lemma targets_inv_machine (s : state) ha m m' sd : targets_inv s -> ss_handlers s !! ha = Some m ->
  (forall tid, is_Some (hs_prods m !! tid) -> is_Some (hs_prods m' !! tid)) ->
  (forall ha' todo m2, sd = Some (ha' :: todo) -> <[ha := m']> (ss_handlers s) !! ha' = Some m2 -> hs_destroy m2 <> DDone) ->
  targets_inv (mk_system (ss_threads s) (<[ha := m']> (ss_handlers s)) sd).
Proof.
  intros [Hm Hc Hin Hhd] Hha Hp Hsd. split; simpl; [|done| |done].
  - intros ha2 Hr2. destruct (decide (ha2 = ha)) as [->|Hne]; [rewrite lookup_insert_eq; by eexists|].
    rewrite lookup_insert_ne by done. by apply Hm.
  - intros tid th ha2 calls Hth Hpc. destruct (Hin tid th ha2 calls Hth Hpc) as (m2 & Hm2 & Hp2).
    destruct (decide (ha2 = ha)) as [->|Hne].
    + exists m'. rewrite lookup_insert_eq. simplify_eq. auto.
    + exists m2. by rewrite lookup_insert_ne.
Qed.

(** A handler that is not being destroyed moves without its [destroy]. *)
Lemma targets_inv_frame (s : state) ha m m' : targets_inv s -> ss_handlers s !! ha = Some m ->
  (forall tid, is_Some (hs_prods m !! tid) -> is_Some (hs_prods m' !! tid)) -> hs_destroy m' = hs_destroy m ->
  targets_inv (set_machine s ha m').
Proof.
  intros Hinv Hha Hp Hd. eapply targets_inv_machine; [done..|].
  intros ha2 todo m2 Hsd [[<- <-]|[_ Hl]]%lookup_insert_Some; [rewrite Hd|]; by eapply (tg_head s Hinv).
Qed.

(** Thread [tid] is inside handler [ha] after its step: nothing of the others changes. *)
Lemma targets_inv_inside (s : state) ha m m' tid th pc' : targets_inv s ->
  ss_threads s !! tid = Some th -> ss_handlers s !! ha = Some m ->
  Forall (fun call => registered call.1) (calls_of pc') ->
  (forall ha' calls, at_pc th = AppInside ha' calls -> ha' = ha) ->
  (forall tid', tid' <> tid -> hs_prods m' !! tid' = hs_prods m !! tid') ->
  (forall ha' calls, pc' = AppInside ha' calls -> ha' = ha /\ is_Some (hs_prods m' !! tid)) ->
  hs_destroy m' = hs_destroy m ->
  targets_inv (set_thread (set_machine s ha m') tid (mk_app_thread (at_buf th) pc')).
Proof.
  intros [Hm Hc Hin Hhd] Hth Hha Hcalls Hwhere Hothers Hnow Hd. split; simpl.
  - intros ha2 Hr2. destruct (decide (ha2 = ha)) as [->|Hne]; [rewrite lookup_insert_eq; by eexists|].
    rewrite lookup_insert_ne by done. by apply Hm.
  - intros tid2 th2 [[<- <-]|[_ Hl]]%lookup_insert_Some; [done|by eapply Hc].
  - intros tid2 th2 ha2 calls [[<- <-]|[Hne Hl]]%lookup_insert_Some Hpc.
    + simpl in Hpc. destruct (Hnow ha2 calls Hpc) as [-> Hp]. exists m'. by rewrite lookup_insert_eq.
    + destruct (Hin tid2 th2 ha2 calls Hl Hpc) as (m2 & Hm2 & Hp2). destruct (decide (ha2 = ha)) as [->|Hha2].
      * exists m'. rewrite lookup_insert_eq. simplify_eq. by rewrite Hothers.
      * exists m2. by rewrite lookup_insert_ne.
  - intros ha2 todo m2 Hsd [[<- <-]|[_ Hl]]%lookup_insert_Some; [rewrite Hd|]; by eapply Hhd.
Qed.

Lemma targets_inv_step tr (s : state) e s' : run step start tr s -> targets_inv s -> step s e s' -> targets_inv s'.
Proof.
  intros Hrun Hinv Hstep. revert Hrun Hinv.
  destruct Hstep as [s tid Hnone|s tid th c calls buf' r' Hsd Hth Hpc Hc Hcall
    |s tid th ha h hname rec calls m Hth Hpc Hh Hn Hm|s tid th ha calls m lth weak ev m' Hth Hpc Hm Hl Hlog
    |s tid th Hth Hpc|s ha m spurious ev m' Hm Hc|s Hsd Hidle|s ha todo m ev m' Hsd Hm Hd]; intros Hrun Hinv.
  - by apply targets_inv_thread.
  - apply targets_inv_thread; [done..|].
    exact (log_common_targets _ _ _ _ _ _ _ _ r (ro_init r Hok) _ Hcall).
  - pose proof (tg_calls s Hinv tid th Hth) as Hcalls. rewrite Hpc in Hcalls.
    apply (targets_inv_inside s ha m _ tid th); try done; rewrite ?Hpc; try done.
    + by apply Forall_cons in Hcalls as [_ Hcalls].
    + intros tid2 Hne. simpl. by rewrite lookup_insert_ne.
    + intros ha2 calls2 [= <- <-]. simpl. rewrite lookup_insert_eq. split; [done|by eexists].
  - pose proof (tg_calls s Hinv tid th Hth) as Hcalls. rewrite Hpc in Hcalls.
    apply (targets_inv_inside s ha m _ tid th); try done; rewrite ?Hpc.
    + by destruct (hs_prods m' !! tid).
    + by intros ha2 calls2 [= <- _].
    + intros tid2 Hne. by eapply log_step_others.
    + intros ha2 calls2. destruct (hs_prods m' !! tid); [|done]. intros [= <- <-]. split; [done|by eexists].
    + by eapply log_step_destroy.
  - by apply targets_inv_thread.
  - apply consumer_step_prods in Hc as (Hp & _ & Hd). apply (targets_inv_frame s ha m); [done..| |done]. by rewrite Hp.
  - destruct Hinv as [Hmm Hc Hin _]. split; try done. intros ha todo m _ Hm. simpl in Hm.
    by rewrite (ti_running s (threads_inv_run init r k sink0 (lmk_init_initialized _ _) Hok tr s Hrun) Hsd ha m Hm).
  - pose proof (destroy_step_frame m ev m' Hd) as (Hp & _). apply (targets_inv_machine s ha m); [done..|by rewrite Hp|].
    intros ha2 todo2 m2 Hsd2 Hm2.
    destruct (shutdown_inv_run init r k sink0 (lmk_init_initialized _ _) Hok tr s Hrun (ha :: todo) Hsd) as (finished & Hl & Hall).
    pose proof (proj1 (ro_handler_list r Hok)) as Hnd. rewrite Hl in Hnd. apply NoDup_app in Hnd as (_ & _ & Hnd).
    destruct (hs_destroy m') eqn:Hd'; simplify_eq; try (rewrite lookup_insert_eq in Hm2; by simplify_eq; rewrite Hd').
    apply NoDup_cons_1_1 in Hnd. rewrite lookup_insert_ne in Hm2 by (intros <-; apply Hnd; by left).
    by rewrite (proj2 (Hall ha2 m2 Hm2)) by (simpl; by left).
Qed.

Lemma targets_inv_run tr (s : state) : run step start tr s -> targets_inv s.
Proof. intros Hrun. induction Hrun as [|tr s1 e s2 Hrun IH Hstep]; [apply targets_inv_start|by eapply targets_inv_step]. Qed.

(** ** Progress *)

Definition can_act (s : state) (a : sys_action) : Prop := is_Some (sys_act init r k s a).

(** The action by which the owner of handler [ha]'s lock goes on. *)
Definition owner_action (ha : addr) (o : lock_owner) : sys_action :=
  match o with
  | OwnProducer tid => DoThread tid
  | OwnConsumer => DoConsumer ha
  | OwnDestroyer => DoDestroy
  end.

Lemma machine_wake_inv tr (s : state) ha (m : machine) : run step start tr s -> ss_handlers s !! ha = Some m ->
  wake_inv (k ha) m.
Proof.
  intros Hrun Hm. eapply wake_inv_run. by eapply (projection_run init); [apply lmk_init_initialized| | |].
Qed.

Lemma inside_can_act (s : state) tid th ha calls (m : machine) ev m' : ss_threads s !! tid = Some th ->
  at_pc th = AppInside ha calls -> ss_handlers s !! ha = Some m ->
  log_impl_step (mask_of (k ha)) tid false m = Some (ev, m') -> can_act s (DoThread tid).
Proof.
  intros Hth Hpc Hm Hs. unfold can_act. cbn [sys_act]. unfold thread_act. rewrite Hth. cbn [mbind option_bind].
  rewrite Hpc, Hm. cbn [mbind option_bind].
  assert (exists lth, hs_prods m !! tid = Some lth) as [lth ->].
  { unfold log_impl_step in Hs. destruct (hs_prods m !! tid) as [lth|]; [by eexists|done]. }
  cbn [mbind option_bind]. rewrite Hs. by eexists.
Qed.

(** The owner of a lock can take its action. *)
Lemma owner_can_act tr (s : state) ha (m : machine) o : run step start tr s -> ss_handlers s !! ha = Some m ->
  hs_lock m = Some o -> (o = OwnDestroyer -> exists todo, ss_shutdown s = Some (ha :: todo)) -> can_act s (owner_action ha o).
Proof.
  intros Hrun Hm Ho Hdown. pose proof (machine_wake_inv tr s ha m Hrun Hm) as Hw.
  destruct (owner_can_move (k ha) m o Hw Ho) as (ev & m' & Hs). destruct o as [tid| |]; cbn [owner_action].
  - destruct (ti_inside s (threads_inv_run init r k sink0 (lmk_init_initialized _ _) Hok tr s Hrun) ha m tid Hm)
      as (th & calls & Hth & Hpc); [|by eapply inside_can_act].
    apply (wi_lock _ _ Hw) in Ho. simpl in Ho. destruct (hs_prods m !! tid); [by eexists|done].
  - unfold can_act. cbn [sys_act]. rewrite Hm. cbn [mbind option_bind]. rewrite Hs. by eexists.
  - destruct (Hdown eq_refl) as [todo Hsd]. unfold can_act. cbn [sys_act]. rewrite Hsd, Hm. cbn [mbind option_bind].
    rewrite Hs. by eexists.
Qed.

(** A producer that cannot step is at the lock. *)
Lemma blocked_producer n tid (m : machine) : is_Some (hs_prods m !! tid) -> log_impl_step (mask_of n) tid false m = None ->
  exists o, hs_lock m = Some o.
Proof.
  intros [lth Hl] Hs. unfold log_impl_step in Hs. rewrite Hl in Hs. cbn [mbind option_bind] in Hs.
  destruct (lt_pc lth) as [|pc| | | | | | |] eqn:Hpc; try done.
  - destruct pc; try done; by destruct (enq_step _ _ _ _ _ _) as [[? ?] ?].
  - unfold acquire in Hs. destruct (hs_lock m) as [o|]; [by exists o|done].
Qed.

(** A consumer that cannot step sleeps, has returned or is at the lock. *)
Lemma blocked_consumer n (m : machine) : consumer_step (mask_of n) false m = None ->
  hs_cons m = KParked \/ hs_cons m = KExit \/ consumer_holds (hs_cons m) = false /\ exists o, hs_lock m = Some o.
Proof.
  unfold consumer_step, acquire. intros Hs. destruct (hs_cons m); try done; try (by destruct (lmk_ring_peek_slot _ _ _));
    try (by left); try (by right; left).
  all: destruct (hs_lock m) as [o|]; [|done]; right; right; split; [done|by exists o].
Qed.

Lemma thread_progress tr (s : state) tid th : run step start tr s -> ss_threads s !! tid = Some th -> at_pc th <> AppIdle ->
  can_act s (DoThread tid) \/
  exists ha calls m o, at_pc th = AppInside ha calls /\ ss_handlers s !! ha = Some m /\ hs_lock m = Some o /\
    can_act s (owner_action ha o).
Proof.
  intros Hrun Hth Hbusy. pose proof (targets_inv_run tr s Hrun) as Hinv.
  pose proof (threads_inv_run init r k sink0 (lmk_init_initialized _ _) Hok tr s Hrun) as Hti.
  destruct (at_pc th) as [|[|[ha rec] calls]|ha calls] eqn:Hpc; [done|left..|].
  - unfold can_act. cbn [sys_act]. unfold thread_act. rewrite Hth. cbn [mbind option_bind]. rewrite Hpc. by eexists.
  - pose proof (tg_calls s Hinv tid th Hth) as Hcalls. rewrite Hpc in Hcalls. apply Forall_cons in Hcalls as [Hreg _].
    destruct Hreg as [h Hh]. cbn [fst] in Hh. destruct (ro_handlers r Hok ha h Hh) as (_ & _ & [name Hn] & _).
    destruct (tg_machines s Hinv ha) as [m Hm]; [by eexists|].
    unfold can_act. cbn [sys_act]. unfold thread_act. rewrite Hth. cbn [mbind option_bind]. rewrite Hpc, Hh.
    cbn [mbind option_bind]. rewrite Hn. cbn [mbind option_bind]. rewrite Hm. by eexists.
  - destruct (tg_inside s Hinv tid th ha calls Hth Hpc) as (m & Hm & Hp).
    destruct (log_impl_step (mask_of (k ha)) tid false m) as [[ev m']|] eqn:Hs; [left; by eapply inside_can_act|right].
    destruct (blocked_producer (k ha) tid m Hp Hs) as [o Ho]. exists ha, calls, m, o. split_and!; [done..|].
    apply (owner_can_act tr s ha m o Hrun Hm Ho). intros ->.
    apply (wi_lock _ _ (machine_wake_inv tr s ha m Hrun Hm)) in Ho. simpl in Ho.
    destruct (ss_shutdown s) eqn:Hsd; [|by rewrite (ti_running s Hti Hsd ha m Hm) in Ho].
    by rewrite (ti_idle s Hti ltac:(by rewrite Hsd) tid th Hth) in Hpc.
Qed.

Lemma shutdown_progress tr (s : state) ha todo : run step start tr s -> ss_shutdown s = Some (ha :: todo) ->
  registered ha -> can_act s DoDestroy \/ can_act s (DoConsumer ha).
Proof.
  intros Hrun Hsd Hreg. pose proof (targets_inv_run tr s Hrun) as Hinv.
  destruct (tg_machines s Hinv ha Hreg) as [m Hm]. pose proof (machine_wake_inv tr s ha m Hrun Hm) as Hw.
  pose proof (idle_prods init r k sink0 (lmk_init_initialized _ _) Hok tr s ha m Hrun Hm
    (ti_idle s (threads_inv_run init r k sink0 (lmk_init_initialized _ _) Hok tr s Hrun) ltac:(by rewrite Hsd))) as Hnone.
  assert (forall o, hs_lock m = Some o -> o = OwnConsumer \/ o = OwnDestroyer) as Howners.
  { intros [tid| |] Ho; auto. apply (wi_lock _ _ Hw) in Ho. simpl in Ho. by rewrite Hnone in Ho. }
  assert (can_act s DoDestroy <-> is_Some (destroy_step m)) as Hdestroy.
  { unfold can_act. cbn [sys_act]. rewrite Hsd, Hm. cbn [mbind option_bind].
    destruct (destroy_step m) as [[ev m']|]; split; intros [? ?]; done || by eexists. }
  destruct (destroy_step m) as [[ev m']|] eqn:Hd; [left; by apply Hdestroy|right].
  unfold destroy_step, acquire in Hd. destruct (hs_destroy m) eqn:Hpc; try done.
  - destruct (hs_lock m) as [o|] eqn:Ho; [|done]. destruct (Howners o eq_refl) as [->| ->].
    + by apply (owner_can_act tr s ha m OwnConsumer Hrun Hm Ho).
    + apply (wi_lock _ _ Hw) in Ho. simpl in Ho. by rewrite Hpc in Ho.
  - unfold can_act. cbn [sys_act]. rewrite Hm. cbn [mbind option_bind].
    destruct (consumer_step _ false m) as [[ev m']|] eqn:Hs; [by eexists|exfalso].
    destruct (blocked_consumer (k ha) m Hs) as [Hc|[Hc|[Hc [o Ho]]]]; [| |destruct (Howners o Ho) as [->| ->]].
    + assert (hs_running m = false) as Hr by (rewrite (wi_running _ _ Hw); by rewrite Hpc).
      destruct (wi_stop _ _ Hw) as [?|?]; [by rewrite Hc|done|congruence..].
    + by rewrite Hc in Hd.
    + apply (wi_lock _ _ Hw) in Ho. simpl in Ho. congruence.
    + apply (wi_lock _ _ Hw) in Ho. simpl in Ho. by rewrite Hpc in Ho.
  - by apply (tg_head s Hinv ha todo m Hsd Hm) in Hpc.
Qed.
End system.

(** ** The property *)

(** C5. Freedom from deadlock, for every interleaving: a thread in a logging function
    can make its next step, unless it is at the wake-up lock of the handler it
    is in, whose owner can make its own; and until [lmk_destroy] has destroyed
    the last handler, either it or the consumer of the handler it is destroying
    can step. No step waits for a spurious wake-up. *)
Theorem library_never_deadlocks {St : Type} `{Sink St} config_ok auto_config (r : registry) (k : addr -> nat)
    (sink0 : addr -> St) (tr : list sys_event) (s : system St)
    (Hok : registry_ok r)
    (Hrun : run (system_step (lmk_init config_ok auto_config) r k) (system_start r k sink0) tr s) :
  let can := can_act config_ok auto_config r k s in
  (forall tid th, ss_threads s !! tid = Some th -> at_pc th <> AppIdle ->
    can (DoThread tid) \/
    exists ha calls m o, at_pc th = AppInside ha calls /\ ss_handlers s !! ha = Some m /\ hs_lock m = Some o /\
      can (owner_action ha o)) /\
  (forall ha todo, ss_shutdown s = Some (ha :: todo) -> can DoDestroy \/ can (DoConsumer ha)).
Proof.
  split.
  - intros tid th. by eapply thread_progress.
  - intros ha todo Hsd. eapply shutdown_progress; [done..|].
    destruct (shutdown_inv_run _ r k sink0 (lmk_init_initialized config_ok auto_config) Hok tr s Hrun _ Hsd) as (finished & Hl & _).
    apply (ro_handler_list r Hok). rewrite Hl. apply elem_of_app. right. by left.
Qed.

(** Both threads are in their calls, thread 0 already inside the handler. *)
Definition ex_busy : list sys_event * system (list sink_op) :=
  sys_schedule plain_init sample_registry (fun _ => 1%nat)
    (system_start sample_registry (fun _ => 1%nat) (fun _ => [] : list sink_op)) (take 5 two_threads).

Lemma library_never_deadlocks_witness :
  exists th, ss_threads ex_busy.2 !! 0%nat = Some th /\ (exists ha calls, at_pc th = AppInside ha calls) /\
    (can_act true Ok sample_registry (fun _ => 1%nat) ex_busy.2 (DoThread 0) \/
     exists ha m o, ss_handlers ex_busy.2 !! ha = Some m /\ hs_lock m = Some o).
Proof.
  assert (exists th, ss_threads ex_busy.2 !! 0%nat = Some th /\ exists ha calls, at_pc th = AppInside ha calls)
    as (th & Hth & ha & calls & Hpc).
  { eexists. split; [vm_compute; reflexivity|]. do 2 eexists. reflexivity. }
  exists th. split; [exact Hth|]. split; [by exists ha, calls|].
  destruct (proj1 (library_never_deadlocks true Ok sample_registry (fun _ => 1%nat) (fun _ => []) ex_busy.1 ex_busy.2
    sample_registry_ok (sys_schedule_run _ _ _ _ _)) 0%nat th Hth) as [Hc|(ha2 & calls2 & m & o & _ & Hm & Ho & _)].
  - by rewrite Hpc.
  - by left.
  - right. by exists ha2, m, o.
Defined.
