(* ===== verification/Program.v ===== *)
(** The program with its four kinds of handlers: one sink type for them all,
    which stands for the dispatch through the function pointers that
    [lmk_init_base_log_handler] stores, and what a log call of the application
    comes to in the end - a line of the log file, a line on the terminal. *)
From S2P Require Import Prelude Types Ring RingMachine AsyncHandler AsyncSafety AsyncTheorems AsyncInit Format FileHandler RotatingLog FileSafety FileTheorems ConsoleHandler Crypto Receiver Connector SocketHandler SyslogHandler Registry RegistrySafety RegistryTheorems System SystemSafety SystemTheorems.
Local Open Scope Z_scope.

(** ** The four kinds of handlers *)

Inductive handler_sink (ctx : Type) :=
  | ConsoleSink (st : console_state)
  | FileSink (st : file_state)
  | SocketSink (st : socket_state ctx)
  | SyslogSink (st : syslog_state).
Arguments ConsoleSink {ctx}.
Arguments FileSink {ctx}.
Arguments SocketSink {ctx}.
Arguments SyslogSink {ctx}.

Section sinks.
Context {ctx : Type} `{Evp ctx}.
Context (can_open : string -> bool) (strftime_local : Z -> list ascii) (time_at : nat -> Z).
Context (nr_bytes : datagram -> Z).

(** Runs the operation of the handler's own kind. *)
Definition dispatch_sink (on_console : console_state -> console_state) (on_file : file_state -> file_state)
    (on_socket : socket_state ctx -> socket_state ctx) (on_syslog : syslog_state -> syslog_state)
    (st : handler_sink ctx) : handler_sink ctx :=
  match st with
  | ConsoleSink st => ConsoleSink (on_console st)
  | FileSink st => FileSink (on_file st)
  | SocketSink st => SocketSink (on_socket st)
  | SyslogSink st => SyslogSink (on_syslog st)
  end.

Abbreviation console := (console_sink strftime_local time_at).
Abbreviation file := (file_sink can_open strftime_local time_at).
Abbreviation socket := (socket_sink strftime_local time_at nr_bytes).

#[local] Instance program_sink : Sink (handler_sink ctx) := {
  sink_process v := dispatch_sink (sink_process (Sink := console) v) (sink_process (Sink := file) v)
    (sink_process (Sink := socket) v) (sink_process v);
  sink_idle := dispatch_sink (sink_idle (Sink := console)) (sink_idle (Sink := file))
    (sink_idle (Sink := socket)) sink_idle;
  sink_finish := dispatch_sink (sink_finish (Sink := console)) (sink_finish (Sink := file))
    (sink_finish (Sink := socket)) sink_finish
}.

(** A handler's sink never changes its kind: it does what its own kind does. *)
Lemma file_sink_replay ops st :
  sink_replay ops (FileSink st) = FileSink (sink_replay (H := file) ops st).
Proof. induction ops as [|[] ops IH] using rev_ind; rewrite ?sink_replay_snoc, ?IH; done. Qed.

Lemma console_sink_replay ops st :
  sink_replay ops (ConsoleSink st) = ConsoleSink (sink_replay (H := console) ops st).
Proof. induction ops as [|[] ops IH] using rev_ind; rewrite ?sink_replay_snoc, ?IH; done. Qed.

Lemma socket_sink_replay ops st :
  sink_replay ops (SocketSink st) = SocketSink (sink_replay (H := socket) ops st).
Proof. induction ops as [|[] ops IH] using rev_ind; rewrite ?sink_replay_snoc, ?IH; done. Qed.

Lemma syslog_sink_replay ops st :
  sink_replay ops (SyslogSink st) = SyslogSink (sink_replay ops st).
Proof. induction ops as [|[] ops IH] using rev_ind; rewrite ?sink_replay_snoc, ?IH; done. Qed.
End sinks.

(** ** From the log call to the outside world *)

(** [from] merges the records the threads' calls ask handler [ha] to log: each
    thread's, in the order of its calls. *)
Definition merges (r : registry) (ha : addr) (tr : list sys_event) (from : list (nat * log_view)) : Prop :=
  forall tid, map snd (filter (fun p => p.1 = tid) from) = requested r tid ha tr.

(** Records that all satisfy what every requested record satisfies. *)
Lemma merges_all r ha tr from (P : log_view -> Prop) : merges r ha tr from ->
  (forall tid req, req ∈ requested r tid ha tr -> P req) -> forall req, req ∈ map snd from -> P req.
Proof.
  intros Hm Hall req Hreq. apply list_elem_of_fmap in Hreq as ([tid v] & -> & Hin).
  apply (Hall tid). rewrite <- Hm. apply list_elem_of_fmap. exists (tid, v). split; [done|].
  by apply list_elem_of_filter.
Qed.

Section program.
Context {ctx : Type} `{EvpLaws ctx}.
Context (can_open : string -> bool) (strftime_local : Z -> list ascii) (time_at : nat -> Z).
Context (nr_bytes : datagram -> Z) (config_ok : bool) (auto_config : registry -> outcome registry).
Abbreviation sink := (program_sink can_open strftime_local time_at nr_bytes).
Abbreviation step := (system_step (H := sink) (lmk_init config_ok auto_config)).

(** A run of the program after which handler [ha] is quiet: no thread logs, its
    consumer sleeps and it has dropped nothing. *)
Record quiet_run (r : registry) (k : addr -> nat) (sink0 : addr -> handler_sink ctx) (tr : list sys_event)
    (s : system (handler_sink ctx)) (ha : addr) (m : handler_state (handler_sink ctx)) : Prop := {
  qr_registry : registry_ok r;
  qr_run : run (step r k) (system_start r k sink0) tr s;
  qr_machine : ss_handlers s !! ha = Some m;
  qr_size : (1 <= k ha <= 32)%nat;
  qr_length : Z.of_nat (length tr) <= 2 ^ 62;
  qr_idle : all_idle s;
  qr_parked : hs_cons m = KParked;
  qr_dropped : hs_dropped m = 0
}.

Lemma quiet_delivers r k sink0 tr s ha m : quiet_run r k sink0 tr s ha m ->
  exists ops from, hs_sink m = sink_replay (H := sink) ops (sink0 ha) /\ last ops = Some OpIdle /\
    (OpFinish ∉ ops) /\ processed ops = map snd from /\ merges r ha tr from.
Proof.
  intros [Hok Hrun Hm Hk Hlen Hidle Hparked Hdrop].
  destruct (drained_handler (H := sink) _ r k sink0 (lmk_init_initialized config_ok auto_config) Hok tr s ha m)
    as (ops & Hsink & Hops & Hlast & Hfin & Hfrom); [done..|]. by exists ops, (accepted ha tr).
Qed.

Context (fn : lmk_format_fn) `{!FormatFn fn}.

(** The lines of the requested records can be printed, so those of their merge can. *)
Lemma merges_printable r ha tr from : merges r ha tr from ->
  (forall tid, printable strftime_local fn (requested r tid ha tr)) ->
  printable strftime_local fn (map snd from).
Proof.
  intros Hm Hall req now ts Hreq. revert now ts. pattern req.
  apply (merges_all r ha tr from _ Hm); [|done]. intros tid req' Hreq' now ts. by apply (Hall tid).
Qed.

(** C2. From the log call to the file. Take a file handler opened on a file it may
    write, whose backup paths fit the 512-byte buffer and whose size and limit are
    at most 2^62, and calls whose lines are not empty and shorter than 2^31 bytes. Once the handler is quiet, nothing is
    buffered: on disk are the files it found, with the lines of all records the
    application's threads asked it to log - each thread's in the order of its
    calls - appended in batches of whole lines of less than 64 KiB; and a batch
    that brings the log to [max_file_size], if that is positive, makes it the
    first backup, moves the others on and begins an empty log. A line of
    [LMK_MAX_LINE_SIZE] bytes or more (a long handler name, say) may be cut, to no
    less than that size without its terminator; shorter ones are complete. *)
Theorem log_calls_reach_the_file r k sink0 tr s ha m name st0 :
  quiet_run r k sink0 tr s ha m -> can_open name = true -> file_fresh name fn st0 ->
  sink0 ha = FileSink (file_open can_open st0) ->
  (forall tid, printable strftime_local fn (requested r tid ha tr)) ->
  exists st from batches, hs_sink m = FileSink st /\ merges r ha tr from /\
    disk_files name st =
      foldl (write_batch (fl_max_file_size st0)) (disk_files name st0) (map (@concat ascii) batches) /\
    Forall (fun batch => 0 < Z.of_nat (length (concat batch)) < LMK_WRITE_BUF_SIZE) batches /\
    Forall2 printed (concat batches)
      (record_lines strftime_local fn time_at (map snd from) ts_start (fl_time_calls st0)).
Proof.
  intros Hquiet Hopen Hfresh Hsink0 Hlines.
  destruct (quiet_delivers r k sink0 tr s ha m Hquiet) as (ops & from & Hsink & Hlast & Hfin & Hops & Hm).
  pose proof (merges_printable r ha tr from Hm Hlines) as Hprint. rewrite <- Hops in Hprint.
  rewrite Hsink0, file_sink_replay in Hsink.
  destruct (file_run_batches can_open strftime_local time_at name fn _ ops st0) as (batches & Hrun); [done..|].
  rewrite Hops in Hrun. do 2 eexists. by exists batches.
Qed.

(** C29. From the log call to the terminal: a quiet console handler has printed, in
    its level's colour, the line of every record the threads asked for. *)
Theorem log_calls_reach_the_terminal r k sink0 tr s ha m st0 :
  quiet_run r k sink0 tr s ha m -> console_ok fn st0 -> sink0 ha = ConsoleSink st0 ->
  exists st from, hs_sink m = ConsoleSink st /\ merges r ha tr from /\ cl_pending st = [] /\
    cl_terminal st = cl_terminal st0 ++ cl_pending st0 ++
      console_lines strftime_local time_at fn (map snd from) (cl_ts st0) (cl_time_calls st0).
Proof.
  intros Hquiet Hok Hsink0.
  destruct (quiet_delivers r k sink0 tr s ha m Hquiet) as (ops & from & Hsink & Hlast & Hfin & Hops & Hm).
  rewrite Hsink0, console_sink_replay in Hsink.
  destruct (console_replay_spec strftime_local time_at fn ops st0 Hok) as (_ & _ & _ & Hshown & Hflush).
  specialize (Hflush Hlast). rewrite Hflush, app_nil_r, Hops in Hshown. eexists. exists from. split_and!; done.
Qed.

(** C30. From the log call to the system log: a quiet syslog handler has sent one
    message, with the level's priority, for every record the threads asked for. *)
Theorem log_calls_reach_the_system_log r k sink0 tr s ha m st0 :
  quiet_run r k sink0 tr s ha m -> sink0 ha = SyslogSink st0 ->
  exists st from, hs_sink m = SyslogSink st /\ merges r ha tr from /\ sy_open st = sy_open st0 /\
    sy_messages st = sy_messages st0 ++ map syslog_message (map snd from).
Proof.
  intros Hquiet Hsink0.
  destruct (quiet_delivers r k sink0 tr s ha m Hquiet) as (ops & from & Hsink & Hlast & Hfin & Hops & Hm).
  rewrite Hsink0, syslog_sink_replay in Hsink.
  destruct (syslog_replay_messages ops st0) as [Hmsgs Hopen]. rewrite Hops in Hmsgs.
  eexists. exists from. split_and!; done.
Qed.

(** C17. From the log call to other machines. Take a socket handler, with
    encryption always available and calls whose lines are not empty and shorter
    than 2^31 bytes. Once the handler is quiet it has sent, for every record the
    application's threads asked it to log - each thread's in the order of its
    calls -, one datagram to each entry of its list of listeners, in list order,
    with the record's line cut to 2559 bytes: encrypted under its preshared key if
    it has one, plain otherwise. And if a listener is in the list once, the log
    receiver started with the same key, given exactly the datagrams sent to that
    listener, in order, prints exactly those lines, without a failure. (That the
    network delivers them so is not claimed: UDP may lose and reorder.) *)
Theorem log_calls_reach_the_receiver r k sink0 tr s ha m st0 :
  quiet_run r k sink0 tr s ha m -> sink0 ha = SocketSink st0 ->
  evp_available (ctx := ctx) -> socket_ok fn st0 -> so_ts st0 = ts_start ->
  (forall tid, printable strftime_local fn (requested r tid ha tr)) ->
  exists st from dgss, hs_sink m = SocketSink st /\ merges r ha tr from /\
    so_net st = so_net st0 ++ concat dgss /\
    let lines := socket_lines strftime_local time_at fn (map snd from) ts_start (so_time_calls st0) in
    Forall2 (fun line dgs => Forall2 (delivers st0 line) (so_servers st0) dgs) lines dgss /\
    (forall a psk (rv : receiver_state ctx),
       NoDup (so_servers st0) -> a ∈ so_servers st0 ->
       so_psk_enabled st0 = true -> so_psk_key st0 = derive_key (ctx := ctx) psk -> receiver_ok rv ->
       let rv' := receiver_loop (derive_key (ctx := ctx) psk) (sent_to a (concat dgss)) rv in
       rv_stdout rv' = rv_stdout rv ++ concat (map shown lines) /\ rv_failures rv' = rv_failures rv).
Proof.
  intros Hquiet Hsink0 Hevp Hok Hts Hlines.
  destruct (quiet_delivers r k sink0 tr s ha m Hquiet) as (ops & from & Hsink & Hlast & Hfin & Hops & Hm).
  pose proof (merges_printable r ha tr from Hm Hlines) as Hprint. rewrite <- Hops in Hprint.
  rewrite Hsink0, socket_sink_replay in Hsink.
  destruct (socket_replay_spec strftime_local time_at nr_bytes fn ops st0 Hevp Hok Hts Hprint)
    as (_ & _ & _ & _ & _ & _ & _ & dgss & Hnet & Hdgss).
  rewrite Hops, Hts in Hdgss. do 2 eexists. exists dgss. cbv zeta. split; [done|]. split; [done|].
  split; [done|]. split; [done|].
  intros a psk rv Hnd Ha Hpsk Hkey Hrv.
  pose proof (sent_to_all st0 _ _ a Hnd Ha Hdgss) as Hsent. rewrite Hpsk, Hkey in Hsent.
  apply receiver_shows; [done|by apply socket_lines_short|done].
Qed.
End program.

(** ** A program with the four handlers *)

Definition program_ops : list api_op :=
  [GetLogger (Some 1%positive) true (Some "app"%string); GetConsoleHandler (Some 2%positive) true true;
   GetFileHandler (Some 3%positive) true true true (Some "file"%string) (Some "a.log"%string);
   GetSocketHandler (Some 4%positive) true true (Some "net"%string);
   GetSyslogHandler (Some 5%positive) true true (Some "sys"%string) (Some "demo"%string) LOG_DAEMON;
   AttachLogHandler true (Some 1%positive) (Some 2%positive);
   AttachLogHandler true (Some 1%positive) (Some 3%positive);
   AttachLogHandler true (Some 1%positive) (Some 4%positive);
   AttachLogHandler true (Some 1%positive) (Some 5%positive);
   SetHandlerLogLevel (Some 3%positive) LMK_LOG_LEVEL_WARN].

Definition program_registry : registry :=
  match plain_run program_ops empty_registry with Ok r => r | _ => empty_registry end.

Lemma program_registry_ok : registry_ok program_registry.
Proof.
  destruct (plain_run_keeps program_ops empty_registry program_registry) as [Hok|[Hi _]].
  - left. apply registry_ok_empty.
  - unfold program_ops. repeat play_op. done.
  - vm_compute. reflexivity.
  - exact Hok.
  - vm_compute in Hi. discriminate Hi.
Qed.

Definition ex_sinks (ha : addr) : handler_sink toy_ctx :=
  match ha with
  | 2%positive => ConsoleSink ex_console
  | 3%positive => FileSink (file_open ex_open (ex_file 0))
  | 4%positive => SocketSink (ex_socket true)
  | _ => SyslogSink (syslog_openlog ex_syslog)
  end.

Abbreviation ex_program_sink := (program_sink (ctx := toy_ctx) ex_open ex_strftime ex_time (fun _ => 0)).

(** Two threads log at once, then the four consumers drain their rings. *)
Definition program_schedule : list sys_action :=
  [DoSpawn 0; DoSpawn 1; DoCall 0 (ex_call LMK_LOG_LEVEL_INFO "one"); DoCall 1 (ex_call LMK_LOG_LEVEL_WARN "two")] ++
  concat (replicate 60 [DoThread 0; DoThread 1]) ++
  concat (map (fun ha => replicate 20 (DoConsumer ha)) [2; 3; 4; 5]%positive).

Definition ex_run : list sys_event * system (handler_sink toy_ctx) :=
  sys_schedule (H := ex_program_sink) plain_init program_registry (fun _ => 2%nat)
    (system_start program_registry (fun _ => 2%nat) ex_sinks) program_schedule.
Definition ex_at (ha : addr) : handler_state (handler_sink toy_ctx) :=
  default (handler_start 2 (ex_sinks ha)) (ss_handlers ex_run.2 !! ha).

Definition ex_present (ha : addr) : bool :=
  match ss_handlers ex_run.2 !! ha with Some _ => true | None => false end.

Lemma ex_present_at ha : ex_present ha = true -> ss_handlers ex_run.2 !! ha = Some (ex_at ha).
Proof. unfold ex_present, ex_at. by destruct (ss_handlers ex_run.2 !! ha). Qed.

Definition ex_quiet_check (ha : addr) : bool :=
  ex_present ha && bool_decide (hs_cons (ex_at ha) = KParked) && (hs_dropped (ex_at ha) =? 0).

(** A handler is quiet at the end. *)
Lemma ex_quiet (ha : addr) : ex_quiet_check ha = true ->
  quiet_run ex_open ex_strftime ex_time (fun _ => 0) true Ok program_registry (fun _ => 2%nat) ex_sinks
    ex_run.1 ex_run.2 ha (ex_at ha).
Proof.
  unfold ex_quiet_check. rewrite !andb_true_iff, bool_decide_eq_true, Z.eqb_eq. intros [[Hp Hc] Hd]. split.
  - apply program_registry_ok.
  - exact (sys_schedule_run (H := ex_program_sink) plain_init program_registry (fun _ => 2%nat)
      (system_start program_registry (fun _ => 2%nat) ex_sinks) program_schedule).
  - exact (ex_present_at ha Hp).
  - lia.
  - apply Z.leb_le. vm_compute. reflexivity.
  - apply check_idle_sound. vm_compute. reflexivity.
  - exact Hc.
  - exact Hd.
Qed.

(** The requested records are as short as the texts of the calls. *)
Lemma requested_short (r : registry) (n : nat) tid ha tr :
  forallb (fun e => match e with SysCall _ c => (length (lc_text c) <=? n)%nat | _ => true end) tr = true ->
  forall req, req ∈ requested r tid ha tr -> (length (v_text req) <= n)%nat.
Proof.
  rewrite forallb_forall. intros Hall req Hreq. unfold requested in Hreq.
  apply list_elem_of_bind in Hreq as (e & Hreq & He). destruct e as [|tid' c| | | |]; try by apply not_elem_of_nil in Hreq.
  destruct (decide (tid' = tid)); [|by apply not_elem_of_nil in Hreq].
  apply list_elem_of_In, Hall, Nat.leb_le in He. unfold call_views in Hreq.
  destruct (lc_logger c ≫= _) as [l|]; [|by apply not_elem_of_nil in Hreq].
  destruct (_ && _); [|by apply not_elem_of_nil in Hreq].
  apply list_elem_of_singleton in Hreq as ->. cbn [v_text].
  pose proof (length_cstr (message_of (lc_text c))). unfold message_of in *. rewrite length_take in *. lia.
Qed.

Lemma ex_short_requests tid ha req : req ∈ requested program_registry tid ha ex_run.1 -> (length (v_text req) <= 3)%nat.
Proof. apply requested_short. vm_compute. reflexivity. Qed.

Lemma log_calls_reach_the_file_witness :
  match hs_sink (ex_at 3) with
  | FileSink st => contents (fl_fs st) "a.log" = chars "old2026-01-01 12:00:00 [WARN ] two" ++ [NEWLINE]
  | _ => False
  end /\
  exists st from batches, hs_sink (ex_at 3) = FileSink st /\ merges program_registry 3 ex_run.1 from /\
    disk_files "a.log" st = foldl (write_batch 0) (disk_files "a.log" (ex_file 0)) (map (@concat ascii) batches) /\
    Forall2 printed (concat batches) (record_lines ex_strftime lmk_simple_format ex_time (map snd from) ts_start 0).
Proof.
  split; [vm_compute; reflexivity|].
  assert (ex_quiet_check 3 = true) as Hq by (vm_compute; reflexivity).
  destruct (log_calls_reach_the_file ex_open ex_strftime ex_time (fun _ => 0) true Ok lmk_simple_format
    program_registry (fun _ => 2%nat) ex_sinks ex_run.1 ex_run.2 3 (ex_at 3) "a.log" (ex_file 0) (ex_quiet 3 Hq)
    eq_refl (ex_fresh 0 ltac:(lia)) eq_refl) as (st & from & batches & Hs & Hm & Hd & _ & Hl).
  - intros tid. apply ex_printable_short. exact (ex_short_requests tid 3).
  - exact (ex_intro _ st (ex_intro _ from (ex_intro _ batches (conj Hs (conj Hm (conj Hd Hl)))))).
Defined.

Lemma log_calls_reach_the_terminal_witness :
  match hs_sink (ex_at 2) with
  | ConsoleSink st => cl_terminal st =
      ANSI_WHITE ++ chars "[INFO  2026-01-01 12:00:00 (main.c:10) console] : one" ++ NEWLINE :: ANSI_RESET ++
      ANSI_YELLOW ++ chars "[WARN  2026-01-01 12:00:00 (main.c:10) console] : two" ++ NEWLINE :: ANSI_RESET
  | _ => False
  end /\
  exists st from, hs_sink (ex_at 2) = ConsoleSink st /\ merges program_registry 2 ex_run.1 from /\
    cl_terminal st = console_lines ex_strftime ex_time lmk_default_format (map snd from) ts_start 0.
Proof.
  split; [vm_compute; reflexivity|].
  assert (ex_quiet_check 2 = true) as Hq by (vm_compute; reflexivity).
  destruct (log_calls_reach_the_terminal ex_open ex_strftime ex_time (fun _ => 0) true Ok lmk_default_format
    program_registry (fun _ => 2%nat) ex_sinks ex_run.1 ex_run.2 2 (ex_at 2) ex_console (ex_quiet 2 Hq))
    as (st & from & Hs & Hm & _ & Ht).
  - split; [reflexivity|vm_compute; reflexivity].
  - reflexivity.
  - exact (ex_intro _ st (ex_intro _ from (conj Hs (conj Hm Ht)))).
Defined.

Lemma log_calls_reach_the_system_log_witness :
  match hs_sink (ex_at 5) with
  | SyslogSink st => sy_messages st = [(LOG_INFO, chars "[INFO] (main.c:10) one"); (LOG_WARNING, chars "[WARN] (main.c:10) two")]
  | _ => False
  end /\
  exists st from, hs_sink (ex_at 5) = SyslogSink st /\ merges program_registry 5 ex_run.1 from /\
    sy_messages st = map syslog_message (map snd from).
Proof.
  split; [vm_compute; reflexivity|].
  assert (ex_quiet_check 5 = true) as Hq by (vm_compute; reflexivity).
  destruct (log_calls_reach_the_system_log ex_open ex_strftime ex_time (fun _ => 0) true Ok
    program_registry (fun _ => 2%nat) ex_sinks ex_run.1 ex_run.2 5 (ex_at 5) (syslog_openlog ex_syslog) (ex_quiet 5 Hq)
    eq_refl) as (st & from & Hs & Hm & _ & Ht).
  exact (ex_intro _ st (ex_intro _ from (conj Hs (conj Hm Ht)))).
Defined.

Lemma log_calls_reach_the_receiver_witness :
  exists st from dgss, hs_sink (ex_at 4) = SocketSink st /\ merges program_registry 4 ex_run.1 from /\
    so_net st = concat dgss /\
    Forall2 (fun line dgs => Forall2 (delivers (ex_socket true) line) (so_servers (ex_socket true)) dgs)
      (socket_lines ex_strftime ex_time lmk_simple_format (map snd from) ts_start 0) dgss /\
    rv_stdout (receiver_loop (derive_key (ctx := toy_ctx) "secret") (sent_to ex_listener (concat dgss)) ex_receiver) =
      concat (map shown (socket_lines ex_strftime ex_time lmk_simple_format (map snd from) ts_start 0)).
Proof.
  assert (ex_quiet_check 4 = true) as Hq by (vm_compute; reflexivity).
  destruct (log_calls_reach_the_receiver ex_open ex_strftime ex_time (fun _ => 0) true Ok lmk_simple_format
    program_registry (fun _ => 2%nat) ex_sinks ex_run.1 ex_run.2 4 (ex_at 4) (ex_socket true)
    (ex_quiet 4 Hq) eq_refl toy_available (ex_socket_ok true) eq_refl) as (st & from & dgss & Hs & Hm & Hn & Hd & Hrecv).
  - intros tid. apply ex_printable_short. exact (ex_short_requests tid 4).
  - destruct (Hrecv ex_listener "secret"%string ex_receiver (proj1 (ex_listeners true)) (proj2 (ex_listeners true))
      eq_refl eq_refl ltac:(split; vm_compute; reflexivity)) as [Ho _].
    exact (ex_intro _ st (ex_intro _ from (ex_intro _ dgss (conj Hs (conj Hm (conj Hn (conj Hd Ho))))))).
Defined.
